(** * VoiceSkip streaming transcription scheduler

    A shallow embedding of [stream.c] (the chunked streaming scheduler) and
    of the controller logic of [jni.c], with the properties the design
    document states about them.

    Conventions.
    - [int] and [int64_t] values are integers of [Z].  Signed arithmetic is
      written with the operations of [Z]: C leaves signed overflow
      undefined, so the embedding describes the executions in which no
      signed operation overflows.  Conversions whose result is defined are
      written out: a narrowing conversion to [int] wraps modulo 2^32
      ([to_int]) and the unsigned session counter wraps ([to_uint]).
      The [int] products whose operands come straight from the caller (the
      durations of [whisper_stream_full] times the sample rate, the
      progress of a chunk times its length) are written with the
      wrap-around of the compiled code ([to_int]) as well, so that no size
      is taken for larger than the code has it.
    - [/] on C integers is truncating division, [Z.quot].
    - A callback pointer that may be NULL is an [option]; a host callback
      whose only effect is a notification is a [bool] ("is set") and the
      notification is an element of the list of events.
    - The engine ([whisper_full], the VAD) and the host are external: they
      appear as functions the run is parameterised by. *)

From Stdlib Require Import String ZArith List Bool Lia.
Import ListNotations.
Local Open Scope Z_scope.

(** ** C integers *)

Definition wrap (bits x : Z) : Z :=
  (x + 2 ^ (bits - 1)) mod 2 ^ bits - 2 ^ (bits - 1).

(** [(int) x] for an [int64_t] [x]. *)
Definition to_int (x : Z) : Z := wrap 32 x.

(** Arithmetic on [unsigned int] / [atomic_uint]. *)
Definition to_uint (x : Z) : Z := x mod 2 ^ 32.

Definition INT_MAX : Z := 2 ^ 31 - 1.
Definition INT_MIN : Z := - 2 ^ 31.

Definition int_range (x : Z) : Prop := INT_MIN <= x <= INT_MAX.

(** [#define MIN(a, b) ((a) < (b) ? (a) : (b))] *)
Definition MIN (a b : Z) : Z := if a <? b then a else b.

(** [WHISPER_SAMPLE_RATE] of the engine's header [whisper.h]. *)
Definition WHISPER_SAMPLE_RATE : Z := 16000.

(** Sum of a list of integers. *)
Definition zsum (l : list Z) : Z := fold_right Z.add 0 l.

(** * stream.c *)

Module Stream.

Definition whisper_token : Type := Z.

(** [struct chunk_info] *)
Record chunk_info : Type := mk_chunk_info {
  ci_chunk_samples : Z;
  ci_actual_chunk_samples : Z;
  ci_overlap_offset : Z;
  ci_time_offset : Z
}.

(** A segment held by the engine context:
    [whisper_full_get_segment_t0 / _t1 / _text]. *)
Record raw_segment : Type := mk_raw_segment {
  seg_t0 : Z;
  seg_t1 : Z;
  seg_text : string
}.

(** A speech interval of [struct whisper_vad_segments], in centiseconds. *)
Record vad_segment : Type := mk_vad_segment {
  vad_t0 : Z;
  vad_t1 : Z
}.

(** What the stream hands to the host callbacks. *)
Inductive stream_event : Type :=
| Segment_cb (t0 t1 : Z) (text : string)
| Progress_cb (chunk_progress samples_before chunk_samples : Z).

(** What the engine does with the callbacks during one [whisper_full]. *)
Inductive engine_call : Type :=
| New_segments (batch : list raw_segment)
| Progress (progress : Z).

(** The result of one [whisper_full] as the stream observes it. *)
Record engine_result : Type := mk_engine_result {
  er_ret : Z;                          (* return value of whisper_full *)
  er_calls : list engine_call;         (* callbacks, in order *)
  er_prompt_past : list whisper_token; (* whisper_full_get_prompt_past *)
  er_n_prompt_past : Z;                (* and its return value *)
  er_lang_id : Z                       (* whisper_full_lang_id *)
}.

Section Stream.

Context {sample : Type}.

(** State behind the read callback's [user_data]. *)
Context {src : Type}.
(** State behind the language and abort callbacks' [user_data], as it is
    when the callback is called. *)
Context {host : Type}.

(** [struct thread_ctx] (the pointers to the contexts are left out; the
    presence of a VAD context is [vad_ctx]). *)
Record thread_ctx : Type := mk_thread_ctx {
  vad_ctx : option (list sample -> option (list vad_segment));
  buffer : list sample;
  parity : Z;
  tokens : list whisper_token;
  n_tokens : Z;
  lang_id : Z;
  context_ready : bool;
  time_offset : Z;
  output_start : Z;
  last_t1 : Z;
  segment_cb : bool;
  samples_before_chunk : Z;
  chunk_samples : Z
}.

(** [struct common_ctx] (mutex, condition variable, engine parameters and
    the float [vad_threshold] are left out). *)
Record common_ctx : Type := mk_common_ctx {
  read_cb : src -> Z -> (Z * list sample) * src;
  read_cb_user_data : src;
  next_chunk_idx : Z;
  total_samples_read : Z;
  eof : bool;
  abort : bool;
  single_thread : bool;
  overlap_samples : Z;
  min_chunk_samples : Z;
  max_chunk_samples : Z;
  min_silence_ms : Z;
  max_ctx_tokens : Z;
  read_buffer : list sample;
  read_buffer_len : Z;
  buffer_size : Z;
  progress_cb : bool;
  language_cb : option (host -> Z);
  abort_cb : option (host -> bool)
}.

(** Field updates. *)

Definition set_last_t1 (tctx : thread_ctx) (v : Z) : thread_ctx :=
  mk_thread_ctx (vad_ctx tctx) (buffer tctx) (parity tctx) (tokens tctx)
    (n_tokens tctx) (lang_id tctx) (context_ready tctx) (time_offset tctx)
    (output_start tctx) v (segment_cb tctx) (samples_before_chunk tctx)
    (chunk_samples tctx).

Definition set_context_ready (tctx : thread_ctx) (v : bool) : thread_ctx :=
  mk_thread_ctx (vad_ctx tctx) (buffer tctx) (parity tctx) (tokens tctx)
    (n_tokens tctx) (lang_id tctx) v (time_offset tctx)
    (output_start tctx) (last_t1 tctx) (segment_cb tctx)
    (samples_before_chunk tctx) (chunk_samples tctx).

(** [tokens], [n_tokens], [lang_id], [context_ready] written by
    [pass_context]. *)
Definition set_context (tctx : thread_ctx) (toks : list whisper_token)
    (n lang : Z) : thread_ctx :=
  mk_thread_ctx (vad_ctx tctx) (buffer tctx) (parity tctx) toks
    n lang true (time_offset tctx)
    (output_start tctx) (last_t1 tctx) (segment_cb tctx)
    (samples_before_chunk tctx) (chunk_samples tctx).

(** The fields [process_one_chunk] writes before the engine call. *)
Definition set_chunk (tctx : thread_ctx) (buf : list sample)
    (before samples toff ostart : Z) : thread_ctx :=
  mk_thread_ctx (vad_ctx tctx) buf (parity tctx) (tokens tctx)
    (n_tokens tctx) (lang_id tctx) (context_ready tctx) toff
    ostart (last_t1 tctx) (segment_cb tctx) before samples.

Definition set_read (cctx : common_ctx) (ud : src) (buf : list sample)
    (len : Z) : common_ctx :=
  mk_common_ctx (read_cb cctx) ud (next_chunk_idx cctx)
    (total_samples_read cctx) (eof cctx) (abort cctx) (single_thread cctx)
    (overlap_samples cctx) (min_chunk_samples cctx) (max_chunk_samples cctx)
    (min_silence_ms cctx) (max_ctx_tokens cctx) buf len (buffer_size cctx)
    (progress_cb cctx) (language_cb cctx) (abort_cb cctx).

Definition set_flags (cctx : common_ctx) (e a : bool) : common_ctx :=
  mk_common_ctx (read_cb cctx) (read_cb_user_data cctx) (next_chunk_idx cctx)
    (total_samples_read cctx) e a (single_thread cctx)
    (overlap_samples cctx) (min_chunk_samples cctx) (max_chunk_samples cctx)
    (min_silence_ms cctx) (max_ctx_tokens cctx) (read_buffer cctx)
    (read_buffer_len cctx) (buffer_size cctx)
    (progress_cb cctx) (language_cb cctx) (abort_cb cctx).

Definition set_progress (cctx : common_ctx) (idx total : Z) : common_ctx :=
  mk_common_ctx (read_cb cctx) (read_cb_user_data cctx) idx
    total (eof cctx) (abort cctx) (single_thread cctx)
    (overlap_samples cctx) (min_chunk_samples cctx) (max_chunk_samples cctx)
    (min_silence_ms cctx) (max_ctx_tokens cctx) (read_buffer cctx)
    (read_buffer_len cctx) (buffer_size cctx)
    (progress_cb cctx) (language_cb cctx) (abort_cb cctx).

(** ** Segment emission *)

(** The body of the loop of [stream_segment_callback] for one segment. *)
Definition emit_segment (tctx : thread_ctx) (s : raw_segment)
    : thread_ctx * list stream_event :=
  let t0 := seg_t0 s + time_offset tctx in
  let t1 := seg_t1 s + time_offset tctx in
  let t0 := if t0 <? output_start tctx then output_start tctx else t0 in
  let chunk_end :=
    time_offset tctx + Z.quot (chunk_samples tctx * 100) WHISPER_SAMPLE_RATE in
  let t1 := if t1 >? chunk_end then chunk_end else t1 in
  let t0 := if t0 <? last_t1 tctx then last_t1 tctx else t0 in
  if t0 >=? t1 then (tctx, [])
  else (set_last_t1 tctx t1, [Segment_cb t0 t1 (seg_text s)]).

Fixpoint emit_segments (tctx : thread_ctx) (segs : list raw_segment)
    : thread_ctx * list stream_event :=
  match segs with
  | [] => (tctx, [])
  | s :: rest =>
      let '(tctx1, out1) := emit_segment tctx s in
      let '(tctx2, out2) := emit_segments tctx1 rest in
      (tctx2, out1 ++ out2)
  end.

(** [stream_segment_callback]: [ctx_segments] are the segments the engine
    context holds ([whisper_full_n_segments] of them), the last [n_new]
    are new (the engine calls it with [0 <= n_new <= n_segments]). *)
Definition stream_segment_callback (tctx : thread_ctx)
    (ctx_segments : list raw_segment) (n_new : Z)
    : thread_ctx * list stream_event :=
  if negb (segment_cb tctx) then (tctx, [])
  else
    let n_segments := Z.of_nat (length ctx_segments) in
    emit_segments tctx (skipn (Z.to_nat (n_segments - n_new)) ctx_segments).

(** [stream_progress_callback]; [reporter] is the comparison of the worker
    with [cctx->progress_reporter]. *)
Definition stream_progress_callback (cctx : common_ctx) (tctx : thread_ctx)
    (reporter : bool) (progress : Z) : list stream_event :=
  if negb reporter then []
  else if progress_cb cctx
       then [Progress_cb progress (samples_before_chunk tctx)
               (chunk_samples tctx)]
       else [].

(** ** Context hand-off *)

(** [copy_tokens]: the tokens written to [tokens_out], [*lang_id_out] and
    the returned count. *)
Definition copy_tokens (cctx : common_ctx) (tctx : thread_ctx)
    (max_tokens : Z) (h : host) : list whisper_token * Z * Z :=
  let n := MIN (n_tokens tctx) max_tokens in
  let lang := lang_id tctx in
  let '(lang, n) :=
    match language_cb cctx with
    | Some cb =>
        let override := cb h in
        if negb (override =? -1) && negb (override =? lang)
        then (override, 0)
        else (lang, n)
    | None => (lang, n)
    end in
  let tokens_out := if n >? 0 then firstn (Z.to_nat n) (tokens tctx) else [] in
  (tokens_out, lang, n).

(** The outcome of [stream_context_callback]: in the two-worker mode it
    waits on the condition variable until the context is ready or the
    stream is aborted. *)
Inductive context_outcome : Type :=
| Ctx_waiting
| Ctx_aborted (tctx : thread_ctx)
| Ctx_passed (tctx : thread_ctx) (tokens_out : list whisper_token)
    (lang_id_out n : Z).

Definition stream_context_callback (cctx : common_ctx) (tctx : thread_ctx)
    (max_tokens : Z) (h : host) : context_outcome :=
  if single_thread cctx then
    let '(toks, lang, n) := copy_tokens cctx tctx max_tokens h in
    Ctx_passed tctx toks lang n
  else if negb (context_ready tctx) && negb (abort cctx) then Ctx_waiting
  else
    let tctx := set_context_ready tctx false in
    if abort cctx then Ctx_aborted tctx
    else
      let '(toks, lang, n) := copy_tokens cctx tctx max_tokens h in
      Ctx_passed tctx toks lang n.

(** [pass_context] in the single-worker mode, where [dst] is the worker
    itself. *)
Definition pass_context (tctx : thread_ctx) (er : engine_result)
    : thread_ctx :=
  set_context tctx (er_prompt_past er) (er_n_prompt_past er) (er_lang_id er).

(** ** Boundary selection *)

(** [detect_vad_segments]: [vad] stands for [whisper_vad_detect_speech]
    followed by [whisper_vad_segments_from_probs] ([None] when either
    fails). *)
Definition detect_vad_segments
    (vad : list sample -> option (list vad_segment))
    (audio : list sample) (len : Z) : option (list vad_segment) :=
  if len <=? 0 then None
  else match vad audio with
       | None => None
       | Some [] => None
       | Some segs => Some segs
       end.

Definition check_gap (gap_start_cs gap_end_cs range_start_cs range_end_cs
    min_silence_ms : Z) : Z :=
  let gap_ms := to_int ((gap_end_cs - gap_start_cs) * 10) in
  if gap_ms <? min_silence_ms then -1
  else if (gap_start_cs >=? range_end_cs) || (gap_end_cs <=? range_start_cs)
  then -1
  else
    let gap_middle_cs := Z.quot (gap_start_cs + gap_end_cs) 2 in
    let gap_middle_cs :=
      if gap_middle_cs <? range_start_cs then range_start_cs
      else gap_middle_cs in
    let gap_middle_cs :=
      if gap_middle_cs >? range_end_cs then range_end_cs
      else gap_middle_cs in
    to_int (Z.quot (gap_middle_cs * WHISPER_SAMPLE_RATE) 100).

(** The [for] loop of [find_silence_in_segments] over the gaps between
    consecutive intervals: [Some pos] when it returns [pos], [None] when
    it ends (by exhaustion or by [break]). *)
Fixpoint gap_loop (segs : list vad_segment) (vad_offset_cs range_start_cs
    range_end_cs min_silence_ms : Z) : option Z :=
  match segs with
  | s1 :: ((s2 :: _) as rest) =>
      let gap_start := vad_t1 s1 + vad_offset_cs in
      let gap_end := vad_t0 s2 + vad_offset_cs in
      if gap_end <=? range_start_cs
      then gap_loop rest vad_offset_cs range_start_cs range_end_cs
             min_silence_ms
      else if gap_start >=? range_end_cs then None
      else
        let pos := check_gap gap_start gap_end range_start_cs range_end_cs
                     min_silence_ms in
        if pos >=? 0 then Some pos
        else gap_loop rest vad_offset_cs range_start_cs range_end_cs
               min_silence_ms
  | _ => None
  end.

Definition find_silence_in_segments (segs : option (list vad_segment))
    (range_start_samples range_end_samples min_silence_ms vad_offset : Z)
    : Z :=
  match segs with
  | None => -1
  | Some [] => -1
  | Some (s :: rest) =>
      let vad_offset_cs := Z.quot (vad_offset * 100) WHISPER_SAMPLE_RATE in
      let range_start_cs :=
        Z.quot (range_start_samples * 100) WHISPER_SAMPLE_RATE in
      let range_end_cs :=
        Z.quot (range_end_samples * 100) WHISPER_SAMPLE_RATE in
      match gap_loop (s :: rest) vad_offset_cs range_start_cs range_end_cs
              min_silence_ms with
      | Some pos => pos
      | None =>
          let last_end := vad_t1 (last rest s) + vad_offset_cs in
          check_gap last_end range_end_cs range_start_cs range_end_cs
            min_silence_ms
      end
  end.

(** [find_chunk_boundary]: the boundary and [*silence_found]. *)
Definition find_chunk_boundary (cctx : common_ctx) (available : Z)
    (vad_segs : option (list vad_segment)) (vad_offset : Z) : Z * Z :=
  let search_start := min_chunk_samples cctx in
  let search_end := MIN (max_chunk_samples cctx) available in
  if search_start >=? search_end then (search_end, 0)
  else match vad_segs with
       | None => (search_start, 0)
       | Some _ =>
           let silence_pos :=
             find_silence_in_segments vad_segs search_start search_end
               (min_silence_ms cctx) vad_offset in
           if silence_pos >? 0 then (silence_pos, min_silence_ms cctx)
           else (search_end, 0)
       end.

(** ** Chunk descriptor *)

Definition make_chunk_info (cctx : common_ctx) (chunk_samples buffer_len
    overlap_offset total_samples : Z) (eof : bool) : chunk_info :=
  let chunk_samples :=
    if eof && (buffer_len - chunk_samples <? min_chunk_samples cctx)
    then buffer_len else chunk_samples in
  mk_chunk_info chunk_samples (chunk_samples + overlap_offset) overlap_offset
    (Z.quot (100 * (total_samples - overlap_offset)) WHISPER_SAMPLE_RATE).

(** ** Ring read buffer *)

(** The [while] loop of [fill_read_buffer]; every iteration that does not
    leave the loop adds at least one sample, so
    [target_len - buffer_len] iterations are enough. *)
Fixpoint fill_loop (fuel : nat) (cctx : common_ctx) (ud : src)
    (buf : list sample) (buffer_len target_len : Z) (eof : bool)
    : src * list sample * Z * bool :=
  match fuel with
  | O => (ud, buf, buffer_len, eof)
  | S fuel' =>
      if (buffer_len <? target_len) && negb eof then
        let '(n_read, data, ud') :=
          read_cb cctx ud (buffer_size cctx - buffer_len) in
        if n_read <=? 0 then (ud', buf, buffer_len, true)
        else fill_loop fuel' cctx ud' (buf ++ data) (buffer_len + n_read)
               target_len eof
      else (ud, buf, buffer_len, eof)
  end.

(** [fill_read_buffer]: the context, the returned length and [*eof]. *)
Definition fill_read_buffer (cctx : common_ctx) (target_len : Z) (eof : bool)
    : common_ctx * Z * bool :=
  let buffer_len := read_buffer_len cctx in
  let '(ud, buf, buffer_len, eof) :=
    fill_loop (Z.to_nat (target_len - buffer_len)) cctx
      (read_cb_user_data cctx) (read_buffer cctx) buffer_len target_len eof in
  (set_read cctx ud buf buffer_len, buffer_len, eof).

Definition set_eof (cctx : common_ctx) (and_abort : bool) : common_ctx :=
  set_flags cctx true (if and_abort then true else abort cctx).

(** [wait_for_turn] in the single-worker mode: [None] is the return of -1,
    otherwise the chunk index and the total of samples. *)
Definition wait_for_turn (cctx : common_ctx) : option (Z * Z) :=
  if eof cctx then None
  else Some (next_chunk_idx cctx, total_samples_read cctx).

Definition handoff_to_next (cctx : common_ctx) (ci : chunk_info)
    (total_samples chunk_idx : Z) (is_eof : bool) : common_ctx :=
  let keep_start := ci_actual_chunk_samples ci - overlap_samples cctx in
  let keep_start := if keep_start <? 0 then 0 else keep_start in
  let keep_len := read_buffer_len cctx - keep_start in
  let cctx1 :=
    if keep_len >? 0
    then set_read cctx (read_cb_user_data cctx)
           (firstn (Z.to_nat keep_len)
              (skipn (Z.to_nat keep_start) (read_buffer cctx)))
           keep_len
    else set_read cctx (read_cb_user_data cctx) [] 0 in
  let cctx2 :=
    set_progress cctx1 (chunk_idx + 1) (total_samples + ci_chunk_samples ci) in
  if is_eof && (keep_len <=? overlap_samples cctx)
  then set_flags cctx2 true (abort cctx2)
  else cctx2.

(** ** One chunk, and the run of the single-worker mode *)

(** What [process_one_chunk] did for one chunk. *)
Record chunk_record : Type := mk_chunk_record {
  cr_chunk_idx : Z;
  cr_total_samples : Z;       (* [total_samples]: samples before the chunk *)
  cr_buffer_len : Z;          (* after [fill_read_buffer] *)
  cr_eof : bool;              (* the local [eof] *)
  cr_found_boundary : Z;
  cr_info : chunk_info;
  cr_context : option (list whisper_token * Z * Z);
                              (* tokens, lang_id and count handed over *)
  cr_ret : Z;                 (* [ret] of [whisper_full] *)
  cr_aborted : bool;          (* the local [aborted] *)
  cr_cctx : common_ctx        (* the shared state after the hand-off *)
}.

(** The engine and the host around a run. *)
Record environment : Type := mk_environment {
  (** [whisper_full] on chunk [i] with the audio and, where the context
      callback is set, what the callback hands over. *)
  whisper_full :
    Z -> list sample -> option (list whisper_token * Z * Z) -> engine_result;
  (** [max_tokens] the engine passes to the context callback on chunk [i]. *)
  context_max_tokens : Z -> Z;
  (** The host state seen by the language callback during chunk [i] and by
      the abort callback after it. *)
  host_at_context : Z -> host;
  host_at_poll : Z -> host
}.

Section Run.

Variable env : environment.

(** The callbacks the engine invokes during [whisper_full];
    [ctx_segments] are the segments the engine context holds so far. In
    the single-worker mode the worker is always the progress reporter. *)
Fixpoint engine_callbacks (cctx : common_ctx) (tctx : thread_ctx)
    (ctx_segments : list raw_segment) (calls : list engine_call)
    : thread_ctx * list stream_event :=
  match calls with
  | [] => (tctx, [])
  | New_segments batch :: rest =>
      let segs := ctx_segments ++ batch in
      let '(tctx1, ev1) :=
        stream_segment_callback tctx segs (Z.of_nat (length batch)) in
      let '(tctx2, ev2) := engine_callbacks cctx tctx1 segs rest in
      (tctx2, ev1 ++ ev2)
  | Progress p :: rest =>
      let ev1 := stream_progress_callback cctx tctx true p in
      let '(tctx2, ev2) := engine_callbacks cctx tctx ctx_segments rest in
      (tctx2, ev1 ++ ev2)
  end.

(** The block [if (tctx->vad_ctx) { ... }] of [process_one_chunk]:
    [vad_start] and [vad_segs]. *)
Definition chunk_vad (cctx : common_ctx) (tctx : thread_ctx)
    (buffer_len overlap_offset : Z) : Z * option (list vad_segment) :=
  match vad_ctx tctx with
  | Some vad =>
      let margin := 5 * WHISPER_SAMPLE_RATE in
      let vad_start := min_chunk_samples cctx - margin in
      let vad_start := if vad_start <? 0 then 0 else vad_start in
      let available := buffer_len - overlap_offset in
      if vad_start <? available then
        let vad_len :=
          MIN (available - vad_start) (max_chunk_samples cctx - vad_start) in
        if vad_len >? 0
        then (vad_start,
              detect_vad_segments vad
                (firstn (Z.to_nat vad_len)
                   (skipn (Z.to_nat (overlap_offset + vad_start))
                      (read_buffer cctx)))
                vad_len)
        else (vad_start, None)
      else (vad_start, None)
  | None => (0, None)
  end.

(** [process_one_chunk] in the single-worker mode: the return value, the
    two contexts, the record of the chunk if one was cut, and the events
    sent to the host. *)
Definition process_one_chunk (cctx : common_ctx) (tctx : thread_ctx)
    : Z * common_ctx * thread_ctx * option chunk_record * list stream_event :=
  let target_len := max_chunk_samples cctx + overlap_samples cctx in
  match wait_for_turn cctx with
  | None => (-1, cctx, tctx, None, [])
  | Some (chunk_idx, total_samples) =>
      let overlap_offset :=
        if chunk_idx >? 0 then overlap_samples cctx else 0 in
      let '(cctx, buffer_len, eof) := fill_read_buffer cctx target_len false in
      let '(vad_start, vad_segs) :=
        chunk_vad cctx tctx buffer_len overlap_offset in
      let found_boundary :=
        if buffer_len >? overlap_offset
        then fst (find_chunk_boundary cctx (buffer_len - overlap_offset)
                    vad_segs vad_start)
        else -1 in
      if buffer_len <=? overlap_offset
      then (-1, set_eof cctx false, tctx, None, [])
      else
        let ci := make_chunk_info cctx found_boundary
                    (buffer_len - overlap_offset) overlap_offset
                    total_samples eof in
        let buf :=
          firstn (Z.to_nat (ci_actual_chunk_samples ci)) (read_buffer cctx) in
        let cctx := handoff_to_next cctx ci total_samples chunk_idx eof in
        let tctx :=
          set_chunk tctx buf total_samples (ci_chunk_samples ci)
            (ci_time_offset ci)
            (ci_time_offset ci
             + Z.quot (ci_overlap_offset ci * 100) WHISPER_SAMPLE_RATE) in
        let context :=
          if chunk_idx >? 0 then
            match stream_context_callback cctx tctx
                    (context_max_tokens env chunk_idx)
                    (host_at_context env chunk_idx) with
            | Ctx_passed _ toks lang n => Some (toks, lang, n)
            | _ => None
            end
          else None in
        let er := whisper_full env chunk_idx buf context in
        let '(tctx, events) := engine_callbacks cctx tctx [] (er_calls er) in
        let ret := er_ret er in
        let aborted :=
          match abort_cb cctx with
          | Some cb => cb (host_at_poll env chunk_idx)
          | None => false
          end in
        let failed := negb (ret =? 0) || aborted in
        let cctx' := if failed then set_eof cctx true else cctx in
        let rec := mk_chunk_record chunk_idx total_samples buffer_len eof
                     found_boundary ci context ret aborted cctx in
        if failed then (ret, cctx', tctx, Some rec, events)
        else (0, cctx', pass_context tctx er, Some rec, events)
  end.

(** The result of a run. *)
Record run_result : Type := mk_run_result {
  rr_cctx : common_ctx;
  rr_tctx : thread_ctx;
  rr_chunks : list chunk_record;
  rr_events : list stream_event
}.

Definition add_chunk (r : option chunk_record) (l : list chunk_record)
    : list chunk_record :=
  match r with Some c => c :: l | None => l end.

(** [while (process_one_chunk(&tctx0) == 0) ;] with the iterations
    bounded by [fuel]; [None] when the bound is reached. *)
Fixpoint chunk_loop (fuel : nat) (cctx : common_ctx) (tctx : thread_ctx)
    : option run_result :=
  match fuel with
  | O => None
  | S fuel' =>
      let '(ret, cctx1, tctx1, rec, events) := process_one_chunk cctx tctx in
      if ret =? 0 then
        match chunk_loop fuel' cctx1 tctx1 with
        | Some r =>
            Some (mk_run_result (rr_cctx r) (rr_tctx r)
                    (add_chunk rec (rr_chunks r)) (events ++ rr_events r))
        | None => None
        end
      else Some (mk_run_result cctx1 tctx1 (add_chunk rec []) events)
  end.

(** [struct whisper_stream_params] with the first slot; a second slot
    ([slot1_ctx]) selects the two-worker mode. *)
Record whisper_stream_params : Type := mk_whisper_stream_params {
  slot0_ctx : bool;
  slot0_n_text_ctx : Z;       (* [whisper_n_text_ctx (slots[0].ctx)] *)
  slot0_vad_ctx : option (list sample -> option (list vad_segment));
  slot1_ctx : bool;
  min_chunk_ms : Z;
  chunk_extend_ms : Z;
  overlap_ms : Z;
  sp_min_silence_ms : Z;
  read_callback : option (src -> Z -> (Z * list sample) * src);
  read_callback_user_data : src;
  segment_callback : bool;
  progress_callback : bool;
  language_callback : option (host -> Z);
  abort_callback : option (host -> bool)
}.

(** Whether the three allocations of the single-worker mode succeed:
    the read buffer, the worker's buffer and its token array. *)
Record allocations : Type := mk_allocations {
  alloc_read_buffer : bool;
  alloc_buffer : bool;
  alloc_tokens : bool
}.

Inductive stream_outcome : Type :=
| Assertion_failed
| Two_workers          (* pthread_create: not covered by the embedding *)
| Unfinished           (* the bound on the iterations was reached *)
| Returned (ret : Z) (run : option run_result).

Definition init_common_ctx (sparams : whisper_stream_params)
    (rcb : src -> Z -> (Z * list sample) * src)
    (max_ctx_tokens overlap_samples min_chunk_samples max_chunk_samples : Z)
    (single_thread : bool) : common_ctx :=
  mk_common_ctx rcb (read_callback_user_data sparams) 0 0 false false
    single_thread overlap_samples min_chunk_samples max_chunk_samples
    (sp_min_silence_ms sparams) max_ctx_tokens [] 0
    (max_chunk_samples + overlap_samples)
    (progress_callback sparams) (language_callback sparams)
    (abort_callback sparams).

(** [init_thread_ctx] for slot 0 followed by the assignment of the
    segment callback. *)
Definition init_thread_ctx (sparams : whisper_stream_params) (parity : Z)
    : thread_ctx :=
  mk_thread_ctx (slot0_vad_ctx sparams) [] parity [] 0 (-1) false 0 0 0
    (segment_callback sparams) 0 0.

Definition whisper_stream_full (fuel : nat) (mem : allocations)
    (sparams : whisper_stream_params) : stream_outcome :=
  match read_callback sparams with
  | None => Assertion_failed
  | Some rcb =>
      if negb (slot0_ctx sparams) then Assertion_failed
      else if negb (min_chunk_ms sparams >? 0) then Assertion_failed
      else if negb ((overlap_ms sparams >=? 0)
                    && (overlap_ms sparams <? min_chunk_ms sparams))
      then Assertion_failed
      else
        let dual := slot1_ctx sparams in
        let min_chunk_samples :=
          Z.quot (to_int (WHISPER_SAMPLE_RATE * min_chunk_ms sparams)) 1000 in
        let max_chunk_samples :=
          min_chunk_samples
          + Z.quot (to_int (WHISPER_SAMPLE_RATE * chunk_extend_ms sparams))
              1000 in
        let overlap_samples :=
          Z.quot (to_int (WHISPER_SAMPLE_RATE * overlap_ms sparams)) 1000 in
        let max_ctx_tokens := Z.quot (slot0_n_text_ctx sparams) 2 in
        if negb (alloc_read_buffer mem) then Returned (-1) None
        else
          let cctx := init_common_ctx sparams rcb max_ctx_tokens
                        overlap_samples min_chunk_samples max_chunk_samples
                        (negb dual) in
          if negb (alloc_buffer mem && alloc_tokens mem)
          then Returned (-1) None
          else
            let tctx0 := init_thread_ctx sparams 0 in
            if dual then Two_workers
            else
              match chunk_loop fuel cctx tctx0 with
              | None => Unfinished
              | Some r =>
                  Returned (if abort (rr_cctx r) then -1 else 0) (Some r)
              end
  end.

End Run.

End Stream.
End Stream.

(** * stream_test.c: the read callback of the command-line test *)

Module Stream_test.

Section File.

Context {sample : Type}.

(** [struct file_ctx] *)
Record file_ctx : Type := mk_file_ctx {
  samples : list sample;
  n_samples : Z;
  pos : Z
}.

Definition file_read_cb (ctx : file_ctx) (n_max : Z)
    : (Z * list sample) * file_ctx :=
  let remaining := n_samples ctx - pos ctx in
  let n := if n_max <? remaining then n_max else remaining in
  if n >? 0
  then ((n, firstn (Z.to_nat n) (skipn (Z.to_nat (pos ctx)) (samples ctx))),
        mk_file_ctx (samples ctx) (n_samples ctx) (pos ctx + n))
  else ((n, []), ctx).

End File.

End Stream_test.

(** * jni.c: the controller *)

Module Jni.

(** What the controller delivers to the host object. *)
Inductive host_event : Type :=
| On_progress (overall : Z)
| On_stream_complete (success : bool)
| On_error (message : string).

(** [struct start_args] *)
Record start_args : Type := mk_start_args {
  num_threads : Z;
  language : option string;
  translate : bool;
  live : bool;
  sa_session_id : Z
}.

(** [struct whisper_jni_context]: the slots (loaded or not), the session
    atomics and the settings read by the callbacks. *)
Record whisper_jni_context : Type := mk_whisper_jni_context {
  slot_main_ctx : bool;
  slot_second_ctx : bool;
  session_id : Z;              (* atomic_uint *)
  start_session_id : Z;        (* unsigned int *)
  should_shutdown : bool;
  use_gpu : bool;
  duration_samples : Z;        (* atomic_int_fast64_t *)
  lang_override : Z            (* atomic_int *)
}.

Definition set_session_id (ctx : whisper_jni_context) (v : Z)
    : whisper_jni_context :=
  mk_whisper_jni_context (slot_main_ctx ctx) (slot_second_ctx ctx) v
    (start_session_id ctx) (should_shutdown ctx) (use_gpu ctx)
    (duration_samples ctx) (lang_override ctx).

Definition set_start_session_id (ctx : whisper_jni_context) (v : Z)
    : whisper_jni_context :=
  mk_whisper_jni_context (slot_main_ctx ctx) (slot_second_ctx ctx)
    (session_id ctx) v (should_shutdown ctx) (use_gpu ctx)
    (duration_samples ctx) (lang_override ctx).

Definition set_should_shutdown (ctx : whisper_jni_context) (v : bool)
    : whisper_jni_context :=
  mk_whisper_jni_context (slot_main_ctx ctx) (slot_second_ctx ctx)
    (session_id ctx) (start_session_id ctx) v (use_gpu ctx)
    (duration_samples ctx) (lang_override ctx).

Definition set_duration_samples (ctx : whisper_jni_context) (v : Z)
    : whisper_jni_context :=
  mk_whisper_jni_context (slot_main_ctx ctx) (slot_second_ctx ctx)
    (session_id ctx) (start_session_id ctx) (should_shutdown ctx)
    (use_gpu ctx) v (lang_override ctx).

Definition set_lang_override (ctx : whisper_jni_context) (v : Z)
    : whisper_jni_context :=
  mk_whisper_jni_context (slot_main_ctx ctx) (slot_second_ctx ctx)
    (session_id ctx) (start_session_id ctx) (should_shutdown ctx)
    (use_gpu ctx) (duration_samples ctx) v.

(** [nativeCreate]: [memset] to zero, then [lang_override] is
    initialised. *)
Definition nativeCreate : whisper_jni_context :=
  set_lang_override
    (mk_whisper_jni_context false false 0 0 false false 0 0) (-1).

(** [jni_progress_callback]; [env] tells whether [get_thread_env]
    gave an environment. *)
Definition jni_progress_callback (ctx : whisper_jni_context) (env : bool)
    (chunk_progress samples_before chunk_samples : Z) : list host_event :=
  let total := duration_samples ctx in
  if total <=? 0 then []
  else if negb env then []
  else
    let samples_done :=
      samples_before
      + Z.quot (to_int (chunk_progress * chunk_samples)) 100 in
    let overall := to_int (Z.quot (samples_done * 100) total) in
    let overall := if overall >? 100 then 100 else overall in
    [On_progress overall].

Definition whisper_abort_callback_impl (ctx : whisper_jni_context) : bool :=
  let current_session := session_id ctx in
  negb (start_session_id ctx =? current_session).

Definition jni_language_callback (ctx : whisper_jni_context) : Z :=
  lang_override ctx.

(** [nativeStop]: [atomic_fetch_add (&ctx->session_id, 1)]. *)
Definition nativeStop (ctx : whisper_jni_context) : whisper_jni_context :=
  set_session_id ctx (to_uint (session_id ctx + 1)).

Definition nativeSetDuration (ctx : whisper_jni_context) (duration_ms : Z)
    : whisper_jni_context :=
  let samples := Z.quot (duration_ms * WHISPER_SAMPLE_RATE) 1000 in
  set_duration_samples ctx samples.

(** [nativeUpdateLanguage]: [language] is the Java string (or null),
    [chars] tells whether [GetStringUTFChars] succeeded and
    [whisper_lang_id] is the engine's table of languages. *)
Definition nativeUpdateLanguage (whisper_lang_id : string -> Z)
    (ctx : whisper_jni_context) (language : option string) (chars : bool)
    : whisper_jni_context :=
  let lang_id :=
    match language with
    | Some lang_str => if chars then whisper_lang_id lang_str else -1
    | None => -1
    end in
  set_lang_override ctx lang_id.

(** The part of [nativeDestroy] that the worker thread can observe. *)
Definition nativeDestroy (ctx : whisper_jni_context) : whisper_jni_context :=
  set_should_shutdown
    (set_session_id ctx (to_uint (session_id ctx + 1))) true.

(** Calls of the host that other threads may make while a stream runs. *)
Inductive host_call : Type :=
| Call_stop
| Call_destroy
| Call_set_duration (duration_ms : Z)
| Call_update_language (language : option string) (chars : bool).

Definition is_session_change (c : host_call) : bool :=
  match c with
  | Call_stop | Call_destroy => true
  | _ => false
  end.

Section Controller.

Variable whisper_lang_id : string -> Z.

Definition apply_host_call (ctx : whisper_jni_context) (c : host_call)
    : whisper_jni_context :=
  match c with
  | Call_stop => nativeStop ctx
  | Call_destroy => nativeDestroy ctx
  | Call_set_duration ms => nativeSetDuration ctx ms
  | Call_update_language l chars =>
      nativeUpdateLanguage whisper_lang_id ctx l chars
  end.

(** [process_start_command]. [during_run] are the calls other threads make
    on the context while [whisper_stream_full] runs and [result] is what
    it returns; the events are those of the command itself (segments and
    progress of the run are delivered by the callbacks).  In the branch
    without a model [On_error m] stands for the call [report_error(m)];
    what the host gets of that call, which can fail to make its Java
    string, is [Jni_worker.report_error] below, and
    [Jni_worker.process_start_command] is this function with it. *)
Definition process_start_command (ctx : whisper_jni_context)
    (args : start_args) (during_run : list host_call) (result : Z)
    : whisper_jni_context * list host_event :=
  if negb (slot_main_ctx ctx)
  then (ctx,
        [On_error "Model not loaded: whisper context not initialized"])
  else
    let current_session := session_id ctx in
    if negb (sa_session_id args =? current_session) then (ctx, [])
    else
      let ctx := set_lang_override ctx (-1) in
      let ctx := set_start_session_id ctx (sa_session_id args) in
      let ctx := fold_left apply_host_call during_run ctx in
      let session_after := session_id ctx in
      let was_stopped := negb (start_session_id ctx =? session_after) in
      if negb was_stopped
      then (ctx, [On_stream_complete (result =? 0)])
      else (ctx, []).

End Controller.

End Jni.

(** * Notions used by the statements *)

Module Props.
Import Stream.

(** ** Emitted timestamps *)

(** The timestamps of the segments among the events, in order. *)
Fixpoint segment_times (evs : list stream_event) : list (Z * Z) :=
  match evs with
  | [] => []
  | Segment_cb t0 t1 _ :: rest => (t0, t1) :: segment_times rest
  | Progress_cb _ _ _ :: rest => segment_times rest
  end.

(** Every segment starts at or after the end of the previous one (or
    [lo]) and has [t0 < t1]. *)
Fixpoint chained (lo : Z) (l : list (Z * Z)) : Prop :=
  match l with
  | [] => True
  | (t0, t1) :: rest => lo <= t0 /\ t0 < t1 /\ chained t1 rest
  end.

Fixpoint chain_end (lo : Z) (l : list (Z * Z)) : Z :=
  match l with
  | [] => lo
  | (_, t1) :: rest => chain_end t1 rest
  end.

(** Each segment has [t0 < t1], and from a segment to the next neither
    [t0] nor [t1] decreases. *)
Definition monotone_timestamps (l : list (Z * Z)) : Prop :=
  (forall i a b, nth_error l i = Some (a, b) -> a < b) /\
  (forall i a b a' b', nth_error l i = Some (a, b) ->
     nth_error l (S i) = Some (a', b') -> a <= a' /\ b <= b').

Section Emission.
Context {sample : Type}.
Implicit Types (tctx : @thread_ctx sample).

Definition emitted_t0 tctx (s : raw_segment) : Z :=
  Z.max (Z.max (seg_t0 s + time_offset tctx) (output_start tctx))
        (last_t1 tctx).

Definition emitted_t1 tctx (s : raw_segment) : Z :=
  Z.min (seg_t1 s + time_offset tctx)
        (time_offset tctx
         + Z.quot (chunk_samples tctx * 100) WHISPER_SAMPLE_RATE).

End Emission.

(** ** The boundary as the design states it *)

Definition samples_to_cs (n : Z) : Z := Z.quot (n * 100) WHISPER_SAMPLE_RATE.
Definition cs_to_samples (t : Z) : Z := Z.quot (t * WHISPER_SAMPLE_RATE) 100.

Definition clamp (lo hi x : Z) : Z := Z.min hi (Z.max lo x).

(** The gaps between consecutive intervals, shifted by [off]. *)
Fixpoint gaps_between (segs : list vad_segment) (off : Z) : list (Z * Z) :=
  match segs with
  | s1 :: ((s2 :: _) as rest) =>
      (vad_t1 s1 + off, vad_t0 s2 + off) :: gaps_between rest off
  | _ => []
  end.

(** ... followed by the tail from the end of the last interval to the end
    of the search range. *)
Definition candidate_gaps (segs : list vad_segment) (off range_end_cs : Z)
    : list (Z * Z) :=
  match segs with
  | [] => []
  | s :: rest =>
      gaps_between (s :: rest) off
      ++ [(vad_t1 (last rest s) + off, range_end_cs)]
  end.

(** A gap, in centiseconds, qualifies when it is at least
    [min_silence_ms] wide and meets the search range, in samples. *)
Definition gap_meets (min_silence_ms search_start search_end : Z)
    (g : Z * Z) : bool :=
  (min_silence_ms <=? (snd g - fst g) * 10)
  && (cs_to_samples (fst g) <? search_end)
  && (search_start <? cs_to_samples (snd g)).

Definition boundary_spec (min_chunk max_chunk min_silence available : Z)
    (vad : option (list vad_segment)) (vad_offset : Z) : Z :=
  let search_start := min_chunk in
  let search_end := Z.min max_chunk available in
  if search_start >=? search_end then search_end
  else match vad with
       | None => search_start
       | Some segs =>
           match find (gap_meets min_silence search_start search_end)
                   (candidate_gaps segs (samples_to_cs vad_offset)
                      (samples_to_cs search_end)) with
           | Some g =>
               clamp search_start search_end
                 (cs_to_samples (Z.quot (fst g + snd g) 2))
           | None => search_end
           end
       end.

(** ** The boundary as the code takes it *)

(** The code converts the search range to whole centiseconds and works
    there: a gap qualifies when it is at least [min_silence_ms] wide and
    meets the range [rs, re] in centiseconds, and its midpoint is clamped
    into that range before it is converted to samples. *)
Definition gap_qualifies (min_silence_ms rs re : Z) (g : Z * Z) : bool :=
  (min_silence_ms <=? (snd g - fst g) * 10) && (fst g <? re) && (rs <? snd g).

Definition boundary_in_centiseconds
    (min_chunk max_chunk min_silence available : Z)
    (vad : option (list vad_segment)) (vad_offset : Z) : Z :=
  let search_start := min_chunk in
  let search_end := Z.min max_chunk available in
  if search_start >=? search_end then search_end
  else match vad with
       | None => search_start
       | Some segs =>
           let rs := samples_to_cs search_start in
           let re := samples_to_cs search_end in
           match find (gap_qualifies min_silence rs re)
                   (candidate_gaps segs (samples_to_cs vad_offset) re) with
           | Some g => cs_to_samples (clamp rs re (Z.quot (fst g + snd g) 2))
           | None => search_end
           end
       end.

(** Speech intervals as a VAD reports them: non-empty, in chronological
    order, starting at or after [lo], within [vad_time_limit]
    centiseconds. *)
Definition vad_time_limit : Z := 100000000.

Fixpoint speech_intervals (lo : Z) (segs : list vad_segment) : Prop :=
  match segs with
  | [] => True
  | s :: rest =>
      lo <= vad_t0 s /\ vad_t0 s < vad_t1 s /\ vad_t1 s <= vad_time_limit /\
      speech_intervals (vad_t1 s) rest
  end.

(** ** The run *)

Section RunProps.
Context {sample src host : Type}.
Implicit Types (cctx : @common_ctx sample src host).

(** The read callback returns at most the count it is asked for. *)
Definition read_contract cctx : Prop :=
  forall ud n_max, fst (fst (read_cb cctx ud n_max)) <= n_max.

(** The source is finite: [remaining] bounds what the callback can still
    deliver. *)
Definition finite_source cctx (remaining : src -> nat) : Prop :=
  forall ud n_max,
    Z.of_nat (remaining (snd (read_cb cctx ud n_max)))
    + Z.max 0 (fst (fst (read_cb cctx ud n_max)))
    <= Z.of_nat (remaining ud).

Definition within_capacity cctx : Prop :=
  0 <= read_buffer_len cctx <= buffer_size cctx.

(** The fields of the shared context that no operation writes. *)
Definition same_config cctx cctx' : Prop :=
  read_cb cctx' = read_cb cctx /\
  single_thread cctx' = single_thread cctx /\
  overlap_samples cctx' = overlap_samples cctx /\
  min_chunk_samples cctx' = min_chunk_samples cctx /\
  max_chunk_samples cctx' = max_chunk_samples cctx /\
  min_silence_ms cctx' = min_silence_ms cctx /\
  max_ctx_tokens cctx' = max_ctx_tokens cctx /\
  buffer_size cctx' = buffer_size cctx /\
  progress_cb cctx' = progress_cb cctx /\
  language_cb cctx' = language_cb cctx /\
  abort_cb cctx' = abort_cb cctx.

(** The chunk made the run stop: the engine failed or the host asked to
    abort. *)
Definition chunk_failed (r : @chunk_record sample src host) : bool :=
  negb (cr_ret r =? 0) || cr_aborted r.

(** [overlap_offset] of the chunk of index [i]. *)
Definition overlap_offset_of cctx (i : Z) : Z :=
  if i >? 0 then overlap_samples cctx else 0.

(** The chunk [r] is the one [process_one_chunk] cuts in the state
    [cctx]. *)
Definition chunk_of cctx (r : @chunk_record sample src host) : Prop :=
  eof cctx = false /\
  exists cctx1 vs vstart,
    fill_read_buffer cctx (max_chunk_samples cctx + overlap_samples cctx)
      false = (cctx1, cr_buffer_len r, cr_eof r) /\
    let oo := overlap_offset_of cctx (next_chunk_idx cctx) in
    oo < cr_buffer_len r /\
    cr_chunk_idx r = next_chunk_idx cctx /\
    cr_total_samples r = total_samples_read cctx /\
    cr_found_boundary r =
      fst (find_chunk_boundary cctx1 (cr_buffer_len r - oo) vs vstart) /\
    cr_info r =
      make_chunk_info cctx1 (cr_found_boundary r) (cr_buffer_len r - oo) oo
        (total_samples_read cctx) (cr_eof r) /\
    cr_cctx r =
      handoff_to_next cctx1 (cr_info r) (total_samples_read cctx)
        (next_chunk_idx cctx) (cr_eof r).

(** The shared state when [process_one_chunk] returns after the chunk. *)
Definition state_after (r : @chunk_record sample src host) : common_ctx :=
  if chunk_failed r then set_eof (cr_cctx r) true else cr_cctx r.

(** [process_one_chunk] cuts no chunk in the state [cctx] and leaves the
    state [final]. *)
Definition stops_at cctx (final : @common_ctx sample src host) : Prop :=
  (eof cctx = true /\ final = cctx) \/
  (eof cctx = false /\
   exists cctx1 len e,
     fill_read_buffer cctx (max_chunk_samples cctx + overlap_samples cctx)
       false = (cctx1, len, e) /\
     len <= overlap_offset_of cctx (next_chunk_idx cctx) /\
     final = set_eof cctx1 false).

(** The chunks of a run from the state [cctx] to the state [final]. *)
Fixpoint run_trace cctx (l : list (@chunk_record sample src host))
    (final : @common_ctx sample src host) : Prop :=
  match l with
  | [] => stops_at cctx final
  | r :: rest => chunk_of cctx r /\ run_trace (state_after r) rest final
  end.

(** A bound on the iterations of the run. *)
Definition run_bound cctx (remaining : src -> nat) : nat :=
  (Z.to_nat (Z.of_nat (remaining (read_cb_user_data cctx))
             + read_buffer_len cctx)
   + (if next_chunk_idx cctx >? 0 then 0 else 1) + 1)%nat.

(** The descriptors of the chunks of index [i], [i+1], ... cut after
    [total] samples, for an overlap of [ov] samples. *)
Fixpoint descriptors_from (ov i total : Z)
    (l : list (@chunk_record sample src host)) : Prop :=
  match l with
  | [] => True
  | r :: rest =>
      let ci := cr_info r in
      cr_chunk_idx r = i /\
      cr_total_samples r = total /\
      ci_overlap_offset ci = (if i >? 0 then ov else 0) /\
      ci_actual_chunk_samples ci = ci_chunk_samples ci + ci_overlap_offset ci /\
      ci_time_offset ci =
        Z.quot (100 * (total - ci_overlap_offset ci)) WHISPER_SAMPLE_RATE /\
      descriptors_from ov (i + 1) (total + ci_chunk_samples ci) rest
  end.

(** The number of samples of each chunk. *)
Definition chunk_sizes (l : list (@chunk_record sample src host)) : list Z :=
  map (fun r => ci_chunk_samples (cr_info r)) l.

(** The sizes in samples [whisper_stream_full] derives from the
    parameters. *)
Definition min_chunk_samples_of
    (sparams : @whisper_stream_params sample src host) : Z :=
  Z.quot (to_int (WHISPER_SAMPLE_RATE * min_chunk_ms sparams)) 1000.

Definition max_chunk_samples_of
    (sparams : @whisper_stream_params sample src host) : Z :=
  min_chunk_samples_of sparams
  + Z.quot (to_int (WHISPER_SAMPLE_RATE * chunk_extend_ms sparams)) 1000.

Definition overlap_samples_of
    (sparams : @whisper_stream_params sample src host) : Z :=
  Z.quot (to_int (WHISPER_SAMPLE_RATE * overlap_ms sparams)) 1000.

(** The products of the three durations by the sample rate fit an [int]:
    the sizes are then the durations at 16 samples per millisecond. *)
Definition durations_fit
    (sparams : @whisper_stream_params sample src host) : Prop :=
  int_range (WHISPER_SAMPLE_RATE * min_chunk_ms sparams) /\
  int_range (WHISPER_SAMPLE_RATE * chunk_extend_ms sparams) /\
  int_range (WHISPER_SAMPLE_RATE * overlap_ms sparams).

(** The shared state [whisper_stream_full] starts the single worker
    with. *)
Definition initial_cctx (sparams : @whisper_stream_params sample src host)
    (rcb : src -> Z -> (Z * list sample) * src) : common_ctx :=
  init_common_ctx sparams rcb (Z.quot (slot0_n_text_ctx sparams) 2)
    (overlap_samples_of sparams) (min_chunk_samples_of sparams)
    (max_chunk_samples_of sparams) true.

(** What the record of a chunk says of the engine and of the host: the
    value [whisper_full] returned for the chunk, and what the abort
    callback [acb] answered after it. *)
Definition engine_verdict (env : @environment sample host)
    (acb : option (host -> bool)) (r : @chunk_record sample src host)
    : Prop :=
  (exists buf,
     cr_ret r = er_ret (whisper_full env (cr_chunk_idx r) buf (cr_context r)))
  /\ cr_aborted r =
     match acb with
     | Some cb => cb (host_at_poll env (cr_chunk_idx r))
     | None => false
     end.

Definition allocations_ok (mem : allocations) : bool :=
  alloc_read_buffer mem && alloc_buffer mem && alloc_tokens mem.

End RunProps.

(** ** The controller *)

(** The number of calls that change the session ([stop] and [destroy])
    among the calls made during a run. *)
Definition session_changes (l : list Jni.host_call) : Z :=
  Z.of_nat (length (filter Jni.is_session_change l)).

(** The progress value as the design states it. *)
Definition progress_spec (duration_samples chunk_progress samples_before
    chunk_samples : Z) : Z :=
  Z.min 100
    (Z.quot ((samples_before + Z.quot (chunk_progress * chunk_samples) 100)
             * 100)
       duration_samples).

End Props.

(** * Concrete streams *)

Module Examples.
Import Stream Props.

(** PCM samples without their values, read from memory by the callback of
    the command-line test; the host is the controller's context. *)
Definition file : Type := @Stream_test.file_ctx unit.

Definition audio (n : Z) : file :=
  Stream_test.mk_file_ctx (repeat tt (Z.to_nat n)) n 0.

(** What is left to read of a file. *)
Definition file_remaining {sample : Type}
    (ud : @Stream_test.file_ctx sample) : nat :=
  Z.to_nat (Stream_test.n_samples ud - Stream_test.pos ud).

Definition all_allocated : allocations := mk_allocations true true true.

(** The controller's context during a session: a model is loaded and the
    session counter has the value captured at the start. *)
Definition session_ctx (override : Z) : Jni.whisper_jni_context :=
  Jni.set_lang_override
    (Jni.mk_whisper_jni_context true false 7 7 false false 0 0) override.

(** The same after a [stop]. *)
Definition stopped_ctx : Jni.whisper_jni_context :=
  Jni.nativeStop (session_ctx (-1)).

(** An engine that detects language 0 and reports three segments and a
    progress for every chunk, asking for at most 224 tokens of context;
    the host sets the language override to 5 before chunk 2. *)
Definition three_segments : list engine_call :=
  [New_segments [mk_raw_segment 0 500 "a"; mk_raw_segment 400 900 "b"];
   Progress 50;
   New_segments [mk_raw_segment 800 20000 "c"]].

Definition engine : @environment unit Jni.whisper_jni_context :=
  mk_environment
    (fun i buf ctx => mk_engine_result 0 three_segments [1; 2; 3] 3 0)
    (fun _ => 224)
    (fun i => session_ctx (if i <? 2 then -1 else 5))
    (fun _ => session_ctx (-1)).

(** The same with a [stop] of the host during chunk 1. *)
Definition engine_stopped : @environment unit Jni.whisper_jni_context :=
  mk_environment (whisper_full engine) (context_max_tokens engine)
    (host_at_context engine)
    (fun i => if i <? 1 then session_ctx (-1) else stopped_ctx).

(** A VAD that hears speech from 0 to 4 s and from 5.01 s to 6 s of its
    window. *)
Definition two_intervals : list vad_segment :=
  [mk_vad_segment 0 400; mk_vad_segment 501 600].

Definition vad : list unit -> option (list vad_segment) :=
  fun _ => Some two_intervals.

(** The parameters of the controller's live mode for [n] samples of
    audio, with the minimum [min_ms] and an optional VAD. *)
Definition live_params (min_ms : Z)
    (v : option (list unit -> option (list vad_segment))) (n : Z)
    : @whisper_stream_params unit file Jni.whisper_jni_context :=
  mk_whisper_stream_params true 448 v false min_ms 20000 300 300
    (Some Stream_test.file_read_cb) (audio n) true true
    (Some Jni.jni_language_callback) (Some Jni.whisper_abort_callback_impl).

(** What a run did, chunk by chunk. *)
Record chunk_summary : Type := mk_chunk_summary {
  s_chunk_idx : Z;
  s_samples_before : Z;
  s_buffer_len : Z;        (* held before the hand-off *)
  s_eof : bool;
  s_boundary : Z;
  s_chunk_samples : Z;
  s_actual_chunk_samples : Z;
  s_overlap_offset : Z;
  s_time_offset : Z;
  s_kept : Z;              (* held after the hand-off *)
  s_context : option (list whisper_token * Z * Z);
  s_ret : Z;
  s_aborted : bool
}.

Definition summarize
    (r : @chunk_record unit file Jni.whisper_jni_context) : chunk_summary :=
  mk_chunk_summary (cr_chunk_idx r) (cr_total_samples r) (cr_buffer_len r)
    (cr_eof r) (cr_found_boundary r) (ci_chunk_samples (cr_info r))
    (ci_actual_chunk_samples (cr_info r)) (ci_overlap_offset (cr_info r))
    (ci_time_offset (cr_info r)) (read_buffer_len (cr_cctx r))
    (cr_context r) (cr_ret r) (cr_aborted r).

Definition summary
    (o : @stream_outcome unit file Jni.whisper_jni_context)
    : option (Z * list chunk_summary * list (Z * Z)) :=
  match o with
  | Returned ret (Some r) =>
      Some (ret, map summarize (rr_chunks r), segment_times (rr_events r))
  | _ => None
  end.

(** The three streams: 37.5 s of audio in the live mode without VAD; the
    same with a minimum of 10005 ms and the VAD above; the first with a
    [stop] of the host during chunk 1. *)
Definition live : whisper_stream_params := live_params 10000 None 600000.

Definition odd_minimum : whisper_stream_params :=
  live_params 10005 (Some vad) 600000.

(** What the three runs are expected to do. *)
Definition chunk_row (idx before held : Z) (e : bool)
    (boundary chunk actual overlap offset kept : Z)
    (context : option (list whisper_token * Z * Z)) (aborted : bool)
    : chunk_summary :=
  mk_chunk_summary idx before held e boundary chunk actual overlap offset
    kept context 0 aborted.

Definition live_chunks : list chunk_summary :=
  [chunk_row 0 0 484800 false 160000 160000 160000 0 0 329600 None false;
   chunk_row 1 160000 444800 true 160000 160000 164800 4800 970 284800
     (Some ([1; 2; 3], 0, 3)) false;
   chunk_row 2 320000 284800 true 160000 280000 284800 4800 1970 4800
     (Some ([], 5, 0)) false].

Definition odd_minimum_chunks : list chunk_summary :=
  [chunk_row 0 0 484880 false 160000 160000 160000 0 0 329680 None false;
   chunk_row 1 160000 444800 true 160000 160000 164800 4800 970 284800
     (Some ([1; 2; 3], 0, 3)) false;
   chunk_row 2 320000 284800 true 160000 280000 284800 4800 1970 4800
     (Some ([], 5, 0)) false].

Definition stopped_chunks : list chunk_summary :=
  [chunk_row 0 0 484800 false 160000 160000 160000 0 0 329600 None false;
   chunk_row 1 160000 444800 true 160000 160000 164800 4800 970 284800
     (Some ([1; 2; 3], 0, 3)) true].

Definition stopped_times : list (Z * Z) :=
  [(0, 500); (500, 900); (900, 1000);
   (1000, 1470); (1470, 1870); (1870, 1970)].

Definition live_times : list (Z * Z) :=
  stopped_times ++ [(2000, 2470); (2470, 2870); (2870, 3720)].

(** The state of a worker that inherited three tokens of language 0. *)
Definition inheriting_tctx : @thread_ctx unit :=
  set_context (init_thread_ctx live 0) [1; 2; 3] 3 0.

(** The language table of the engine, as far as the streams need it. *)
Definition lang_id_of (l : string) : Z :=
  if (l =? "en")%string then 0 else 5.

(** A start command for the session 7 of [session_ctx]. *)
Definition start7 : Jni.start_args := Jni.mk_start_args 4 None false true 7.

(** The state of a worker that inherited three tokens of language 5. *)
Definition inheriting5_tctx : @thread_ctx unit :=
  set_context (init_thread_ctx live 0) [1; 2; 3] 3 5.

End Examples.

(** * stream.c: the remaining entry points *)

Module Stream_api.
Import Stream.

Section Api.
Context {sample src host : Type}.

(** [stream_abort_callback], the abort callback handed to the engine; [h]
    is the host state when it is called. *)
Definition stream_abort_callback (cctx : @common_ctx sample src host)
    (h : host) : bool :=
  if abort cctx then true
  else match abort_cb cctx with
       | Some cb => if cb h then true else false
       | None => false
       end.

(** [whisper_stream_default_params]: no context in either slot, no
    callback; [null] is the NULL user data. *)
Definition whisper_stream_default_params (null : src)
    : @whisper_stream_params sample src host :=
  mk_whisper_stream_params false 0 None false 30000 20000 300 300
    None null false false None None.

End Api.

End Stream_api.

(** * jni.c: strings handed to the host *)

Module Jni_strings.

(** A C string is given by the bytes before its terminating NUL, each as
    the [uint8_t] the code converts it to; [None] is the NULL pointer. *)

(** The inner loop of [jni_new_string_utf]: up to [nbBytes] bytes that
    follow a lead byte; the rest of the string, or [None] when the
    function returns NULL. *)
Fixpoint continuation_bytes (nbBytes : nat) (s : list Z)
    : option (list Z) :=
  match nbBytes with
  | O => Some s
  | S j =>
      match s with
      | [] => Some []
      | byte :: rest =>
          if Z.land byte 128 =? 0 then None
          else continuation_bytes j rest
      end
  end.

(** The outer loop; every iteration consumes a byte, so [fuel] iterations
    are enough for a string of [fuel] bytes.  [true] when the loop ends at
    the NUL, [false] when the function returns NULL. *)
Fixpoint utf_scan (fuel : nat) (s : list Z) : bool :=
  match s with
  | [] => true
  | lead :: rest =>
      match fuel with
      | O => false
      | S fuel' =>
          if Z.land lead 128 =? 0 then utf_scan fuel' rest
          else
            let nbBytes :=
              if Z.shiftr lead 5 =? 6 then Some 1%nat
              else if Z.shiftr lead 4 =? 14 then Some 2%nat
              else if Z.shiftr lead 3 =? 30 then Some 3%nat
              else None in
            match nbBytes with
            | None => false
            | Some n =>
                match continuation_bytes n rest with
                | None => false
                | Some rest' => utf_scan fuel' rest'
                end
            end
      end
  end.

(** [jni_new_string_utf]: the string that is handed to [NewStringUTF], or
    [None] when the function returns NULL without calling it. *)
Definition jni_new_string_utf (string : option (list Z)) : option (list Z) :=
  match string with
  | None => None
  | Some s => if utf_scan (length s) s then Some s else None
  end.

(** What the check lets through: ASCII bytes, and lead bytes of a two,
    three or four byte sequence followed by as many bytes with the high
    bit set, or by fewer when the string ends there. *)
Definition lead_length (l : Z) : option nat :=
  if (192 <=? l) && (l <? 224) then Some 1%nat
  else if (224 <=? l) && (l <? 240) then Some 2%nat
  else if (240 <=? l) && (l <? 248) then Some 3%nat
  else None.

Definition high (b : Z) : Prop := 128 <= b < 256.

Inductive passes : list Z -> Prop :=
| passes_nil : passes []
| passes_ascii b s : 0 <= b < 128 -> passes s -> passes (b :: s)
| passes_sequence l k cs s :
    lead_length l = Some k -> length cs = k -> Forall high cs ->
    passes s -> passes (l :: cs ++ s)
| passes_truncated l k cs :
    lead_length l = Some k -> (length cs < k)%nat -> Forall high cs ->
    passes (l :: cs).

(** Well-formed UTF-8, as far as the structure of the sequences goes. *)
Definition continuation (b : Z) : Prop := 128 <= b < 192.

Inductive utf8_sequences : list Z -> Prop :=
| utf8_nil : utf8_sequences []
| utf8_one b s : 0 < b < 128 -> utf8_sequences s -> utf8_sequences (b :: s)
| utf8_many l k cs s :
    lead_length l = Some k -> length cs = k -> Forall continuation cs ->
    utf8_sequences s -> utf8_sequences (l :: cs ++ s).

(** What the host object receives from [jni_segment_callback]. *)
Record new_segment : Type := mk_new_segment {
  ns_text : list Z;
  ns_start_ms : Z;
  ns_end_ms : Z;
  ns_language : option string
}.

(** [jni_segment_callback]: [env] tells whether [get_thread_env] gave an
    environment, [lang_id] is [whisper_full_lang_id] of the main context
    and [whisper_lang_str] the engine's table; [new_lang] and [new_text]
    tell whether [NewStringUTF] gives a Java string for the name of the
    language and for the text. *)
Definition jni_segment_callback (env : bool) (lang_id : Z)
    (whisper_lang_str : Z -> option string)
    (new_lang : string -> bool) (new_text : list Z -> bool) (t0 t1 : Z)
    (text : option (list Z)) : list new_segment :=
  if negb env then []
  else
    let start_ms := t0 * 10 in
    let end_ms := t1 * 10 in
    let lang_cstr := if lang_id >=? 0 then whisper_lang_str lang_id else None in
    let lang_str :=
      match lang_cstr with
      | Some l => if new_lang l then Some l else None
      | None => None
      end in
    let text_str :=
      match jni_new_string_utf text with
      | Some s => if new_text s then Some s else None
      | None => None
      end in
    match text_str with
    | Some t => [mk_new_segment t start_ms end_ms lang_str]
    | None => []
    end.

End Jni_strings.

(** * jni.c: the command queue and the worker thread *)

Module Jni_queue.

Inductive command_type : Type :=
| CMD_LOAD_MODEL
| CMD_LOAD_SECOND_MODEL
| CMD_START.

(** [struct model_load_args]: the strings (NULL or not), whether the
    global reference to the asset manager is held, and the GPU flag; the
    pointer to the context is left out. *)
Record model_load_args : Type := mk_model_load_args {
  model_path : option string;
  vad_model_path : option string;
  asset_manager : bool;
  la_use_gpu : bool
}.

(** The union [args] of [struct command_node]. *)
Inductive command_args : Type :=
| Load_args (a : model_load_args)
| Start_args (a : Jni.start_args).

(** [struct command_node]; [next] is an address or NULL. *)
Record command_node : Type := mk_command_node {
  type : command_type;
  args : command_args;
  next : option Z
}.

Definition set_next (n : command_node) (p : option Z) : command_node :=
  mk_command_node (type n) (args n) p.

(** The nodes that are allocated, by address. *)
Definition heap : Type := Z -> option command_node.

Definition store (h : heap) (p : Z) (n : command_node) : heap :=
  fun q => if q =? p then Some n else h q.

Definition release (h : heap) (p : Z) : heap :=
  fun q => if q =? p then None else h q.

(** The queue fields of [struct whisper_jni_context], with the memory
    they point into. *)
Record command_queue : Type := mk_command_queue {
  nodes : heap;
  queue_head : option Z;
  queue_tail : option Z
}.

(** [model_load_args_init] and [start_args_init] *)
Definition model_load_args_init : model_load_args :=
  mk_model_load_args None None false false.

Definition start_args_init : Jni.start_args :=
  Jni.mk_start_args 0 None false false 0.

(** [allocate_command_load] and [allocate_command_start]; [malloc] is the
    address [malloc] returns, or NULL. *)
Definition allocate_command_load (h : heap) (malloc : option Z)
    (a : model_load_args) : heap * option Z :=
  match malloc with
  | None => (h, None)
  | Some p => (store h p (mk_command_node CMD_LOAD_MODEL (Load_args a) None),
               Some p)
  end.

Definition allocate_command_start (h : heap) (malloc : option Z)
    (a : Jni.start_args) : heap * option Z :=
  match malloc with
  | None => (h, None)
  | Some p => (store h p (mk_command_node CMD_START (Start_args a) None),
               Some p)
  end.

(** [enqueue_command_node]; [None] stands for the undefined behaviour of
    writing through a tail pointer that points to no node. *)
Definition enqueue_command_node (q : command_queue) (node : option Z)
    : option command_queue :=
  match node with
  | None => Some q
  | Some n =>
      match queue_tail q with
      | Some t =>
          match nodes q t with
          | Some tn =>
              Some (mk_command_queue
                      (store (nodes q) t (set_next tn (Some n)))
                      (queue_head q) (Some n))
          | None => None
          end
      | None => Some (mk_command_queue (nodes q) (Some n) (Some n))
      end
  end.

(** [dequeue_command]: the node returned and the queue; [None] when the
    head points to no node. *)
Definition dequeue_command (q : command_queue)
    : option (option Z * command_queue) :=
  match queue_head q with
  | None => Some (None, q)
  | Some n =>
      match nodes q n with
      | Some node =>
          let head := next node in
          Some (Some n,
                mk_command_queue (nodes q) head
                  (match head with
                   | None => None
                   | Some _ => queue_tail q
                   end))
      | None => None
      end
  end.

(** [command_free]: the node is released (with its strings); the second
    component tells whether a global reference was deleted, which
    [model_load_args_clean] does when it holds one and has an
    environment. *)
Definition command_free (h : heap) (p : Z) (env : bool)
    : option (heap * bool) :=
  match h p with
  | None => None
  | Some node =>
      let deleted :=
        match type node, args node with
        | (CMD_LOAD_MODEL | CMD_LOAD_SECOND_MODEL), Load_args a =>
            asset_manager a && env
        | _, _ => false
        end in
      Some (release h p, deleted)
  end.

(** [clear_command_queue]: the queue and the nodes freed, in order; the
    loop runs once per node of the queue, [fuel] bounds it. *)
Fixpoint clear_command_queue (fuel : nat) (q : command_queue) (env : bool)
    : option (command_queue * list Z) :=
  match fuel with
  | O => None
  | S fuel' =>
      match dequeue_command q with
      | None => None
      | Some (None, q1) => Some (q1, [])
      | Some (Some p, q1) =>
          match command_free (nodes q1) p env with
          | None => None
          | Some (h, _) =>
              match clear_command_queue fuel'
                      (mk_command_queue h (queue_head q1) (queue_tail q1))
                      env with
              | Some (q2, freed) => Some (q2, p :: freed)
              | None => None
              end
          end
      end
  end.

(** ** What a queue is *)

(** The nodes at the addresses [l] are linked from [p] to NULL. *)
Fixpoint linked (h : heap) (p : option Z) (l : list Z) : Prop :=
  match l with
  | [] => p = None
  | a :: rest =>
      p = Some a /\ exists node, h a = Some node /\ linked h (next node) rest
  end.

Definition last_address (l : list Z) : option Z :=
  match l with
  | [] => None
  | a :: rest => Some (last rest a)
  end.

(** The queue holds the nodes at the addresses [l], first in first. *)
Definition queue_of (q : command_queue) (l : list Z) : Prop :=
  linked (nodes q) (queue_head q) l /\
  queue_tail q = last_address l /\
  NoDup l.

(** The command a node carries. *)
Definition command_at (h : heap) (p : Z)
    : option (command_type * command_args) :=
  match h p with
  | Some node => Some (type node, args node)
  | None => None
  end.

End Jni_queue.

Module Jni_worker.
Import Jni_queue.

(** The exceptions the native methods throw. *)
Inductive java_exception : Type :=
| Illegal_state (message : string)
| Illegal_argument (message : string)
| Out_of_memory (message : string).

(** What the worker thread delivers to the host object. *)
Inductive host_notification : Type :=
| Event (e : Jni.host_event)
| On_loaded (slot : Z) (gpu_desc : option string).

(** The context with the VAD contexts of its two slots and its queue. *)
Record jni_state : Type := mk_jni_state {
  ctx : Jni.whisper_jni_context;
  vad_main : bool;
  vad_second : bool;
  queue : command_queue
}.

Definition set_ctx (st : jni_state) (c : Jni.whisper_jni_context)
    : jni_state :=
  mk_jni_state c (vad_main st) (vad_second st) (queue st).

Definition set_queue (st : jni_state) (q : command_queue) : jni_state :=
  mk_jni_state (ctx st) (vad_main st) (vad_second st) q.

Definition SLOT_MAIN : Z := 0.
Definition SLOT_SECOND : Z := 1.

(** [slots[slot_idx].ctx] and [slots[slot_idx].vad_ctx], present or
    not. *)
Definition slot_ctx (st : jni_state) (slot_idx : Z) : bool :=
  if slot_idx =? SLOT_MAIN then Jni.slot_main_ctx (ctx st)
  else Jni.slot_second_ctx (ctx st).

Definition slot_vad_ctx (st : jni_state) (slot_idx : Z) : bool :=
  if slot_idx =? SLOT_MAIN then vad_main st else vad_second st.

Definition set_slot (st : jni_state) (slot_idx : Z) (c v : bool)
    : jni_state :=
  let x := ctx st in
  if slot_idx =? SLOT_MAIN
  then mk_jni_state
         (Jni.mk_whisper_jni_context c (Jni.slot_second_ctx x)
            (Jni.session_id x) (Jni.start_session_id x)
            (Jni.should_shutdown x) (Jni.use_gpu x)
            (Jni.duration_samples x) (Jni.lang_override x))
         v (vad_second st) (queue st)
  else mk_jni_state
         (Jni.mk_whisper_jni_context (Jni.slot_main_ctx x) c
            (Jni.session_id x) (Jni.start_session_id x)
            (Jni.should_shutdown x) (Jni.use_gpu x)
            (Jni.duration_samples x) (Jni.lang_override x))
         (vad_main st) v (queue st).

Definition set_use_gpu (st : jni_state) (g : bool) : jni_state :=
  let x := ctx st in
  set_ctx st
    (Jni.mk_whisper_jni_context (Jni.slot_main_ctx x) (Jni.slot_second_ctx x)
       (Jni.session_id x) (Jni.start_session_id x)
       (Jni.should_shutdown x) g
       (Jni.duration_samples x) (Jni.lang_override x)).

(** [strncmp (a, b, n) == 0] on C strings. *)
Fixpoint strncmp_is_zero (a b : string) (n : nat) {struct n} : bool :=
  match n with
  | O => true
  | S k =>
      match a, b with
      | EmptyString, EmptyString => true
      | String x a', String y b' =>
          if Ascii.eqb x y then strncmp_is_zero a' b' k else false
      | _, _ => false
      end
  end.

Definition is_gpu_blocklisted (desc : string) : bool :=
  if strncmp_is_zero desc "Adreno" 6 then true else false.

(** What [load_model] gets from the platform and the engine: whether
    [AAssetManager_fromJava] gives a manager, whether an asset opens,
    whether [whisper_init_with_params] and [whisper_vad_init_with_params]
    give a context, the Vulkan device, whether [vasprintf] formats an
    error message and whether [NewStringUTF] gives a string. *)
Record loader : Type := mk_loader {
  asset_manager_from_java : bool;
  asset_open : string -> bool;
  whisper_init : string -> bool -> bool;
  vad_init : string -> bool;
  ctx_is_using_gpu : bool;
  vk_device_count : Z;
  vk_device_description : string;
  vasprintf : string -> bool;
  new_string_utf : string -> bool
}.

Definition slot_name (slot_idx : Z) : string :=
  if slot_idx =? SLOT_MAIN then "ctx0" else "ctx1".

(** [report_error]; [message] is the formatted message. *)
Definition report_error (ld : loader) (message : string)
    : list host_notification :=
  if negb (vasprintf ld message) then
    let fallback_msg :=
      "Error occurred (failed to format message)"%string in
    if negb (new_string_utf ld fallback_msg) then []
    else [Event (Jni.On_error fallback_msg)]
  else if negb (new_string_utf ld message) then []
  else [Event (Jni.On_error message)].

(** [load_model] *)
Definition load_model (ld : loader) (st : jni_state) (a : model_load_args)
    (slot_idx : Z) : jni_state * list host_notification :=
  let st := set_slot st slot_idx false false in
  match model_path a with
  | None => (st, [])
  | Some path =>
      if negb (asset_manager_from_java ld)
      then (st, report_error ld "Failed to get AssetManager from Java")
      else if negb (asset_open ld path)
      then (st, report_error ld
                  ("Failed to open " ++ slot_name slot_idx ++ " model '"
                   ++ path ++ "' from assets"))
      else if negb (whisper_init ld path (la_use_gpu a))
      then (st, report_error ld
                  ("Failed to load " ++ slot_name slot_idx ++ " model '"
                   ++ path ++ "': initialization failed"))
      else
        let st := set_slot st slot_idx true false in
        let vad :=
          match vad_model_path a with
          | None => inl st
          | Some v =>
              if negb (asset_open ld v)
              then inr (report_error ld
                          ("Failed to open VAD model '" ++ v
                           ++ "' from assets"))
              else if negb (vad_init ld v)
              then inr (report_error ld
                          ("Failed to load " ++ slot_name slot_idx
                           ++ " VAD model '" ++ v
                           ++ "': initialization failed"))
              else inl (set_slot st slot_idx true true)
          end in
        match vad with
        | inr errors => (st, errors)
        | inl st =>
            let '(st, gpu_desc) :=
              if slot_idx =? SLOT_MAIN then
                let st := set_use_gpu st false in
                if la_use_gpu a then
                  if ctx_is_using_gpu ld && (vk_device_count ld >? 0) then
                    if negb (is_gpu_blocklisted (vk_device_description ld))
                    then (set_use_gpu st true,
                          if new_string_utf ld (vk_device_description ld)
                          then Some (vk_device_description ld) else None)
                    else (st, None)
                  else (st, None)
                else (st, None)
              else (st, None) in
            (st, [On_loaded slot_idx gpu_desc])
        end
  end.

(** [jni_strdup]; [ok] tells whether the characters could be obtained and
    copied. *)
Definition jni_strdup (jstr : option string) (ok : bool) : option string :=
  match jstr with
  | None => None
  | Some s => if ok then Some s else None
  end.

(** The result of a native method: the exception it throws, if any, and
    the state; [None] where the queue is not well formed. *)
Definition native_result : Type :=
  option (option java_exception * option jni_state).

Definition not_initialized : native_result :=
  Some (Some (Illegal_state "WhisperContext not initialized"), None).

Definition enqueue (st : jni_state) (h : heap) (cmd : Z) : native_result :=
  match enqueue_command_node
          (mk_command_queue h (queue_head (queue st)) (queue_tail (queue st)))
          (Some cmd) with
  | Some q => Some (None, Some (set_queue st q))
  | None => None
  end.

(** [nativeStart]; [instance] is the context behind [mInstance], [dup]
    and [malloc] are the results of the two allocations. *)
Definition nativeStart (instance : option jni_state) (num_threads : Z)
    (language : option string) (translate live : bool)
    (dup : bool) (malloc : option Z) : native_result :=
  match instance with
  | None => not_initialized
  | Some st =>
      if num_threads <? 1
      then Some (Some (Illegal_argument "num_threads must be >= 1"), Some st)
      else
        let a := start_args_init in
        let copy :=
          match language with
          | Some _ => jni_strdup language dup
          | None => Jni.language a
          end in
        match language, copy with
        | Some _, None =>
            Some (Some (Out_of_memory
                          "Failed to allocate memory for language string"),
                  Some st)
        | _, _ =>
            let a :=
              Jni.mk_start_args num_threads copy translate live
                (Jni.session_id (ctx st)) in
            match allocate_command_start (nodes (queue st)) malloc a with
            | (_, None) =>
                Some (Some (Out_of_memory
                              "Failed to allocate memory for command"),
                      Some st)
            | (h, Some cmd) => enqueue st h cmd
            end
        end
  end.

(** [nativeLoadModel]; [dup_model], [dup_vad], [global_ref] and [malloc]
    are the results of its allocations. *)
Definition nativeLoadModel (instance : option jni_state)
    (java_asset_manager : bool) (java_model_path java_vad_path : option string)
    (use_gpu : bool) (dup_model dup_vad global_ref : bool)
    (malloc : option Z) : native_result :=
  match instance with
  | None => not_initialized
  | Some st =>
      match java_model_path with
      | Some _ =>
          if negb java_asset_manager
          then Some (Some (Illegal_argument
                             "model_path and asset_manager must not be null"),
                     Some st)
          else
            match jni_strdup java_model_path dup_model with
            | None =>
                Some (Some (Out_of_memory
                              "Failed to allocate memory for model path"),
                      Some st)
            | Some path =>
                let vad := jni_strdup java_vad_path dup_vad in
                if negb global_ref
                then Some (Some (Out_of_memory
                     "Failed to create global reference for asset manager"),
                           Some st)
                else
                  let a := mk_model_load_args (Some path) vad true use_gpu in
                  match allocate_command_load (nodes (queue st)) malloc a with
                  | (_, None) =>
                      Some (Some (Out_of_memory
                                    "Failed to allocate memory for command"),
                            Some st)
                  | (h, Some cmd) => enqueue st h cmd
                  end
            end
      | None =>
          Some (Some (Illegal_argument
                        "model_path and asset_manager must not be null"),
                Some st)
      end
  end.

(** [nativeLoadSecondModel]: a NULL model path asks to unload. *)
Definition nativeLoadSecondModel (instance : option jni_state)
    (java_asset_manager : bool) (java_model_path java_vad_path : option string)
    (dup_model dup_vad global_ref : bool)
    (malloc : option Z) : native_result :=
  match instance with
  | None => not_initialized
  | Some st =>
      let no_manager :=
        match java_model_path with
        | Some _ => negb java_asset_manager
        | None => false
        end in
      if no_manager
      then Some (Some (Illegal_argument
                         "asset_manager must not be null when loading"),
                 Some st)
      else
        let prepared :=
          match java_model_path with
          | Some _ =>
              match jni_strdup java_model_path dup_model with
              | None =>
                  inr (Out_of_memory
                         "Failed to allocate memory for model path")
              | Some path =>
                  let vad := jni_strdup java_vad_path dup_vad in
                  if negb global_ref
                  then inr (Out_of_memory
                     "Failed to create global reference for asset manager")
                  else inl (mk_model_load_args (Some path) vad true false)
              end
          | None => inl model_load_args_init
          end in
        match prepared with
        | inr e => Some (Some e, Some st)
        | inl a =>
            match malloc with
            | None =>
                Some (Some (Out_of_memory
                              "Failed to allocate memory for command"),
                      Some st)
            | Some cmd =>
                enqueue st
                  (store (nodes (queue st)) cmd
                     (mk_command_node CMD_LOAD_SECOND_MODEL (Load_args a)
                        None))
                  cmd
            end
        end
  end.

(** [nativeStop] and the part of [nativeDestroy] before the worker is
    joined, on the state. *)
Definition nativeStop (st : jni_state) : jni_state :=
  set_ctx st (Jni.nativeStop (ctx st)).

Definition nativeDestroy_signal (st : jni_state) : jni_state :=
  set_ctx st (Jni.nativeDestroy (ctx st)).

(** One turn of the loop of [worker_thread_func]. *)
Inductive worker_outcome : Type :=
| Worker_waits
| Worker_exits
| Worker_ran (st : jni_state) (events : list host_notification).

Section Worker.

Variable whisper_lang_id : string -> Z.
Variable ld : loader.
(** The calls of the host during a stream, and what the stream returns. *)
Variable during_run : list Jni.host_call.
Variable result : Z.

(** [process_start_command] with the outcomes of [report_error]: without
    a main model the error is reported as far as a Java string can be
    made for it; with one, the command goes on as [Jni] has it. *)
Definition process_start_command (c : Jni.whisper_jni_context)
    (a : Jni.start_args) : Jni.whisper_jni_context * list host_notification :=
  if negb (Jni.slot_main_ctx c)
  then (c, report_error ld
             "Model not loaded: whisper context not initialized")
  else
    let '(c', events) :=
      Jni.process_start_command whisper_lang_id c a during_run result in
    (c', map Event events).

(** The [switch] on the type of the node. *)
Definition run_command (st : jni_state) (node : command_node)
    : option (jni_state * list host_notification) :=
  match type node, args node with
  | CMD_LOAD_MODEL, Load_args a => Some (load_model ld st a SLOT_MAIN)
  | CMD_LOAD_SECOND_MODEL, Load_args a => Some (load_model ld st a SLOT_SECOND)
  | CMD_START, Start_args a =>
      let '(c, events) := process_start_command (ctx st) a in
      Some (set_ctx st c, events)
  | _, _ => None
  end.

Definition worker_iteration (st : jni_state) : option worker_outcome :=
  let q := queue st in
  let empty := match queue_head q with None => true | Some _ => false end in
  if empty && negb (Jni.should_shutdown (ctx st)) then Some Worker_waits
  else if Jni.should_shutdown (ctx st) then Some Worker_exits
  else
    match dequeue_command q with
    | None => None
    | Some (None, q') => Some (Worker_ran (set_queue st q') [])
    | Some (Some p, q') =>
        match nodes q' p with
        | None => None
        | Some node =>
            match run_command (set_queue st q') node with
            | None => None
            | Some (st', events) =>
                match command_free (nodes (queue st')) p true with
                | None => None
                | Some (h, _) =>
                    Some (Worker_ran
                            (set_queue st'
                               (mk_command_queue h (queue_head (queue st'))
                                  (queue_tail (queue st'))))
                            events)
                end
            end
        end
    end.

End Worker.

End Jni_worker.

(** * jni.c: the stream a start command runs *)

Module Jni_start.
Import Stream Stream_api.

Section Start.
Context {sample src : Type}.

(** What the engine tells about the loaded models, and the read
    callback. *)
Variable n_text_ctx : Z.
Variable vad0 : list sample -> option (list vad_segment).
Variable jni_read_callback : src -> Z -> (Z * list sample) * src.

(** The [sparams] that [process_start_command] hands to
    [whisper_stream_full]. *)
Definition start_stream_params (st : Jni_worker.jni_state)
    (a : Jni.start_args) (user_data : src)
    : @whisper_stream_params sample src Jni.whisper_jni_context :=
  let d : @whisper_stream_params sample src Jni.whisper_jni_context :=
    whisper_stream_default_params user_data in
  mk_whisper_stream_params
    (Jni.slot_main_ctx (Jni_worker.ctx st)) n_text_ctx
    (if Jni_worker.vad_main st then Some vad0 else None)
    (Jni.slot_second_ctx (Jni_worker.ctx st))
    (if Jni.live a then 10000 else 30000)
    (if Jni.live a then 20000 else 30000)
    (overlap_ms d) (sp_min_silence_ms d)
    (Some jni_read_callback) user_data true true
    (Some Jni.jni_language_callback) (Some Jni.whisper_abort_callback_impl).

End Start.

End Jni_start.

(** * stream_test.c: the buffer of decoded samples *)

Module Stream_decode.

(** The fields of [struct decode_ctx] that [ensure_capacity] uses. *)
Record decode_ctx : Type := mk_decode_ctx {
  sample_count : Z;
  sample_capacity : Z
}.

(** The [while] loop that doubles [new_cap], an [int]: the product is
    written with the wrap-around of the compiled code. *)
Fixpoint double_until (fuel : nat) (new_cap target : Z) : option Z :=
  if new_cap <? target then
    match fuel with
    | O => None
    | S k => double_until k (to_int (new_cap * 2)) target
    end
  else Some new_cap.

(** [ensure_capacity]; [realloc] tells whether the reallocation
    succeeds.  The sum and the products are those of [int]. *)
Definition ensure_capacity (fuel : nat) (d : decode_ctx) (needed : Z)
    (realloc : bool) : option (Z * decode_ctx) :=
  let target := to_int (sample_count d + needed) in
  if target <=? sample_capacity d then Some (0, d)
  else
    let new_cap :=
      if sample_capacity d =? 0 then 1024 * 1024
      else to_int (sample_capacity d * 2) in
    match double_until fuel new_cap target with
    | None => None
    | Some new_cap =>
        if negb realloc then Some (-1, d)
        else Some (0, mk_decode_ctx (sample_count d) new_cap)
    end.

End Stream_decode.

(** * Further notions used by the statements *)

Module Props_more.
Import Stream Props.

(** [len] elements of [l] from the index [start]. *)
Definition slice {A : Type} (l : list A) (start len : Z) : list A :=
  firstn (Z.to_nat len) (skipn (Z.to_nat start) l).

(** The log of a file of the command-line test: the file holds the
    samples [S], its length is truthful, and it has delivered the samples
    before [pos]. *)
Definition file_log {sample : Type} (S : list sample)
    (ud : @Stream_test.file_ctx sample) (D : list sample) : Prop :=
  Stream_test.samples ud = S /\
  Stream_test.n_samples ud = Z.of_nat (length S) /\
  0 <= Stream_test.pos ud <= Stream_test.n_samples ud /\
  D = firstn (Z.to_nat (Stream_test.pos ud)) S.

Section Sources.
Context {sample src host : Type}.

(** [log ud D] says that the source in the state [ud] has delivered the
    samples [D] so far.  It is a log of the callback [rcb] when a read
    that returns [n > 0] appends the [n] samples it wrote and a read that
    returns [n <= 0] appends nothing. *)
Definition source_log (rcb : src -> Z -> (Z * list sample) * src)
    (log : src -> list sample -> Prop) : Prop :=
  forall ud D n_max,
    log ud D ->
    let '(n, data, ud') := rcb ud n_max in
    if n >? 0
    then log ud' (D ++ data) /\ Z.of_nat (length data) = n
    else log ud' D.

(** Between two chunks the read buffer holds the end of what the source
    delivered; while the end of the source has not been seen, it starts
    [overlap_offset] samples before the next chunk; at the end of a run
    that was not aborted everything delivered has been transcribed. *)
Definition buffer_follows (log : src -> list sample -> Prop)
    (cctx : @common_ctx sample src host) (D : list sample) : Prop :=
  let oo := overlap_offset_of cctx (next_chunk_idx cctx) in
  log (read_cb_user_data cctx) D /\
  0 <= next_chunk_idx cctx /\
  Z.of_nat (length (read_buffer cctx)) = read_buffer_len cctx /\
  (exists pre,
     D = pre ++ read_buffer cctx /\
     (eof cctx = false ->
      Z.of_nat (length pre) = total_samples_read cctx - oo /\
      oo <= read_buffer_len cctx)) /\
  (eof cctx = true -> abort cctx = false ->
   Z.of_nat (length D) = total_samples_read cctx).

(** The engine was given, for the chunk [r], the samples of [D] from
    [total_samples - overlap_offset] on, [actual_chunk_samples] of
    them. *)
Definition chunk_audio (r : @chunk_record sample src host)
    (D : list sample) : list sample :=
  slice D (cr_total_samples r - ci_overlap_offset (cr_info r))
    (ci_actual_chunk_samples (cr_info r)).

Definition heard (env : @environment sample host)
    (r : @chunk_record sample src host) (D : list sample) : Prop :=
  0 <= cr_total_samples r - ci_overlap_offset (cr_info r) /\
  cr_total_samples r - ci_overlap_offset (cr_info r)
    + ci_actual_chunk_samples (cr_info r) <= Z.of_nat (length D) /\
  cr_ret r =
    er_ret (whisper_full env (cr_chunk_idx r) (chunk_audio r D)
              (cr_context r)).

(** The window of the output of a chunk, in centiseconds: from
    [output_start] to the end of the new samples. *)
Definition chunk_window (r : @chunk_record sample src host) : Z * Z :=
  let ci := cr_info r in
  (ci_time_offset ci
   + Z.quot (ci_overlap_offset ci * 100) WHISPER_SAMPLE_RATE,
   ci_time_offset ci
   + Z.quot (ci_chunk_samples ci * 100) WHISPER_SAMPLE_RATE).

(** The same for the state of a worker. *)
Definition worker_window (tctx : @thread_ctx sample) : Z * Z :=
  (output_start tctx,
   time_offset tctx
   + Z.quot (chunk_samples tctx * 100) WHISPER_SAMPLE_RATE).

Definition within (w p : Z * Z) : Prop :=
  fst w <= fst p /\ fst p < snd p /\ snd p <= snd w.

(** The reads that fill the buffer: from the source in the state [ud],
    with [len] samples held, the callback is asked in turn for what the
    buffer can still take, while fewer than [target] samples are held,
    and delivers the counts and samples [reads], each count positive;
    [ud'] is the state of the source after them. *)
Fixpoint reads_from (cctx : @common_ctx sample src host) (target : Z)
    (ud : src) (len : Z) (reads : list (Z * list sample)) (ud' : src)
    : Prop :=
  match reads with
  | [] => ud' = ud
  | (n, data) :: rest =>
      len < target /\ 0 < n /\
      exists ud1,
        read_cb cctx ud (buffer_size cctx - len) = ((n, data), ud1) /\
        reads_from cctx target ud1 (len + n) rest ud'
  end.

(** The events that are not segments. *)
Fixpoint progress_events (evs : list stream_event)
    : list (Z * Z * Z) :=
  match evs with
  | [] => []
  | Segment_cb _ _ _ :: rest => progress_events rest
  | Progress_cb p before n :: rest => (p, before, n) :: progress_events rest
  end.

End Sources.

End Props_more.
(** * Further concrete streams, queues and contexts *)

Module Examples_more.
Import Stream Props Examples Jni_queue Jni_worker.

(** A tenth of a second of audio and an empty file in the live mode, and
    the former for a host that sets no callback but the read callback. *)
Definition short_file : whisper_stream_params := live_params 10000 None 1600.

Definition empty_file : whisper_stream_params := live_params 10000 None 0.

Definition quiet_stream
    : @whisper_stream_params unit file Jni.whisper_jni_context :=
  mk_whisper_stream_params true 448 None false 10000 20000 300 300
    (Some Stream_test.file_read_cb) (audio 1600) false false None None.

(** A file of three samples of which one has been read. *)
Definition three_samples : list Z := [10; 20; 30].

Definition one_read : @Stream_test.file_ctx Z :=
  Stream_test.mk_file_ctx three_samples 3 1.

(** The bytes of an H followed by an e with an acute accent, in UTF-8. *)
Definition accented : list Z := [72; 195; 169].

(** Two start commands of session 7 queued at the addresses 1 and 2. *)
Definition start_node (following : option Z) : command_node :=
  mk_command_node CMD_START (Start_args start7) following.

Definition no_command : command_queue :=
  mk_command_queue (fun _ => None) None None.

Definition two_commands : command_queue :=
  mk_command_queue
    (store (store (fun _ => None) 1 (start_node (Some 2))) 2
       (start_node None))
    (Some 1) (Some 2).

(** The controller in session 7 with the main model loaded: idle, and
    with the two commands queued. *)
Definition idle : jni_state :=
  mk_jni_state (session_ctx (-1)) false false no_command.

Definition busy : jni_state :=
  mk_jni_state (session_ctx (-1)) false false two_commands.

(** A platform on which everything loads, with a GPU that is not on the
    list. *)
Definition mali : loader :=
  mk_loader true (fun _ => true) (fun _ _ => true) (fun _ => true) true 1
    "Mali-G78" (fun _ => true) (fun _ => true).

(** A request to load a model with its VAD model on the GPU. *)
Definition load_request : model_load_args :=
  mk_model_load_args (Some "ggml-base.bin"%string)
    (Some "silero.bin"%string) true true.

End Examples_more.

(** * Properties *)

Import Stream Props.

(** ** Arithmetic helpers *)

Lemma if_ltb_max a b : (if a <? b then b else a) = Z.max a b.
Proof. destruct (Z.ltb_spec a b); lia. Qed.

Lemma if_gtb_min a b : (if a >? b then b else a) = Z.min a b.
Proof. rewrite Z.gtb_ltb. destruct (Z.ltb_spec b a); lia. Qed.

Lemma MIN_min a b : MIN a b = Z.min a b.
Proof. unfold MIN. destruct (Z.ltb_spec a b); lia. Qed.

Lemma to_int_id x : int_range x -> to_int x = x.
Proof.
  unfold int_range, INT_MIN, INT_MAX, to_int, wrap. intros H.
  change (2 ^ (32 - 1)) with 2147483648. change (2 ^ 32) with 4294967296.
  change (2 ^ 31) with 2147483648 in H.
  rewrite Z.mod_small; lia.
Qed.

Lemma cs_to_samples_mul t : cs_to_samples t = t * 160.
Proof.
  unfold cs_to_samples, WHISPER_SAMPLE_RATE.
  replace (t * 16000) with (t * 160 * 100) by lia.
  apply Z.quot_mul. lia.
Qed.

Lemma samples_to_cs_bounds n :
  0 <= n -> 0 <= samples_to_cs n /\ samples_to_cs n * 160 <= n
            /\ n < samples_to_cs n * 160 + 160.
Proof.
  intros H. unfold samples_to_cs, WHISPER_SAMPLE_RATE.
  rewrite Z.quot_div_nonneg by lia.
  pose proof (Z.div_mod (n * 100) 16000 ltac:(lia)).
  pose proof (Z.mod_pos_bound (n * 100) 16000 ltac:(lia)).
  lia.
Qed.

Lemma samples_to_cs_mono a b :
  0 <= a <= b -> samples_to_cs a <= samples_to_cs b.
Proof.
  intros H. unfold samples_to_cs, WHISPER_SAMPLE_RATE.
  rewrite !Z.quot_div_nonneg by lia.
  apply Z.div_le_mono; lia.
Qed.

(** ** Segment emission *)

Lemma segment_times_app l1 l2 :
  segment_times (l1 ++ l2) = segment_times l1 ++ segment_times l2.
Proof.
  induction l1 as [|e l1 IH]; simpl; auto.
  destruct e; simpl; now rewrite IH.
Qed.

Lemma chained_app lo l1 l2 :
  chained lo (l1 ++ l2) <-> chained lo l1 /\ chained (chain_end lo l1) l2.
Proof.
  revert lo; induction l1 as [|[a b] l1 IH]; intros lo; simpl.
  - tauto.
  - rewrite IH. tauto.
Qed.

Lemma chain_end_app lo l1 l2 :
  chain_end lo (l1 ++ l2) = chain_end (chain_end lo l1) l2.
Proof.
  revert lo; induction l1 as [|[a b] l1 IH]; intros lo; simpl; auto.
Qed.

Lemma chained_monotone lo l : chained lo l -> monotone_timestamps l.
Proof.
  revert lo; induction l as [|[a b] l IH]; intros lo H.
  - split; intros i; destruct i; simpl; discriminate.
  - simpl in H. destruct H as (Hlo & Hab & Hrest).
    destruct (IH _ Hrest) as [IH1 IH2]. split.
    + intros [|i] x y; simpl; intros E.
      * now inversion E; subst.
      * eauto.
    + intros [|i] x y x' y'; simpl; intros E E'.
      * inversion E; subst. destruct l as [|[c d] l]; simpl in *; [discriminate|].
        inversion E'; subst. lia.
      * eauto.
Qed.

Section Segments.
Context {sample src host : Type}.
Implicit Types (tctx : @thread_ctx sample) (cctx : @common_ctx sample src host).

Lemma emit_segment_spec tctx s :
  emit_segment tctx s =
  if emitted_t0 tctx s >=? emitted_t1 tctx s then (tctx, [])
  else (set_last_t1 tctx (emitted_t1 tctx s),
        [Segment_cb (emitted_t0 tctx s) (emitted_t1 tctx s) (seg_text s)]).
Proof.
  unfold emit_segment, emitted_t0, emitted_t1.
  now rewrite !if_ltb_max, !if_gtb_min.
Qed.

Lemma emit_segment_chained tctx s tctx' out :
  emit_segment tctx s = (tctx', out) ->
  chained (last_t1 tctx) (segment_times out) /\
  last_t1 tctx' = chain_end (last_t1 tctx) (segment_times out) /\
  segment_cb tctx' = segment_cb tctx.
Proof.
  rewrite emit_segment_spec.
  destruct (Z.geb_spec (emitted_t0 tctx s) (emitted_t1 tctx s)) as [H|H];
    intros E; inversion E; subst; simpl.
  - auto.
  - repeat split; auto; unfold emitted_t0 in *; lia.
Qed.

Lemma emit_segments_chained segs : forall tctx tctx' out,
  emit_segments tctx segs = (tctx', out) ->
  chained (last_t1 tctx) (segment_times out) /\
  last_t1 tctx' = chain_end (last_t1 tctx) (segment_times out) /\
  segment_cb tctx' = segment_cb tctx.
Proof.
  induction segs as [|s segs IH]; intros tctx tctx' out; simpl.
  - intros E; inversion E; subst; simpl; auto.
  - destruct (emit_segment tctx s) as [tctx1 out1] eqn:E1.
    destruct (emit_segments tctx1 segs) as [tctx2 out2] eqn:E2.
    intros E; inversion E; subst.
    destruct (emit_segment_chained _ _ _ _ E1) as (A1 & B1 & C1).
    destruct (IH _ _ _ E2) as (A2 & B2 & C2).
    rewrite segment_times_app, chained_app, chain_end_app.
    rewrite <- B1. repeat split; auto. congruence.
Qed.

Lemma stream_segment_callback_chained tctx segs n tctx' out :
  stream_segment_callback tctx segs n = (tctx', out) ->
  chained (last_t1 tctx) (segment_times out) /\
  last_t1 tctx' = chain_end (last_t1 tctx) (segment_times out).
Proof.
  unfold stream_segment_callback.
  destruct (segment_cb tctx); simpl.
  - intros E. apply emit_segments_chained in E. tauto.
  - intros E; inversion E; subst; simpl; auto.
Qed.

Lemma stream_segment_callback_new tctx old new :
  segment_cb tctx = true ->
  stream_segment_callback tctx (old ++ new) (Z.of_nat (length new)) =
  emit_segments tctx new.
Proof.
  intros H. unfold stream_segment_callback. rewrite H. simpl.
  rewrite length_app, Nat2Z.inj_add.
  replace (Z.of_nat (length old) + Z.of_nat (length new)
           - Z.of_nat (length new)) with (Z.of_nat (length old)) by lia.
  rewrite Nat2Z.id.
  now rewrite skipn_app, skipn_all, Nat.sub_diag.
Qed.


Section RunSegments.
Variable env : @environment sample host.

Lemma engine_callbacks_chained cctx calls : forall tctx segs tctx' out,
  engine_callbacks cctx tctx segs calls = (tctx', out) ->
  chained (last_t1 tctx) (segment_times out) /\
  last_t1 tctx' = chain_end (last_t1 tctx) (segment_times out).
Proof.
  induction calls as [|c calls IH]; intros tctx segs tctx' out; simpl.
  - intros E; inversion E; subst; simpl; auto.
  - destruct c as [batch|p].
    + destruct (stream_segment_callback tctx (segs ++ batch)
                  (Z.of_nat (length batch))) as [tctx1 ev1] eqn:E1.
      destruct (engine_callbacks cctx tctx1 (segs ++ batch) calls)
        as [tctx2 ev2] eqn:E2.
      intros E; inversion E; subst.
      destruct (stream_segment_callback_chained _ _ _ _ _ E1) as (A1 & B1).
      destruct (IH _ _ _ _ E2) as (A2 & B2).
      rewrite segment_times_app, chained_app, chain_end_app, <- B1. auto.
    + destruct (engine_callbacks cctx tctx segs calls) as [tctx2 ev2] eqn:E2.
      intros E; inversion E; subst.
      destruct (IH _ _ _ _ E2) as (A2 & B2).
      rewrite segment_times_app, chained_app, chain_end_app.
      unfold stream_progress_callback; simpl.
      destruct (progress_cb cctx); simpl; auto.
Qed.

Lemma process_one_chunk_chained cctx tctx ret cctx' tctx' rec out :
  process_one_chunk env cctx tctx = (ret, cctx', tctx', rec, out) ->
  chained (last_t1 tctx) (segment_times out) /\
  last_t1 tctx' = chain_end (last_t1 tctx) (segment_times out).
Proof.
  unfold process_one_chunk.
  destruct (wait_for_turn cctx) as [[idx total]|];
    [|intros E; inversion E; subst; simpl; auto].
  destruct (fill_read_buffer cctx _ false) as [[cctx1 len] e].
  destruct (chunk_vad cctx1 tctx len _) as [vad_start vad_segs].
  destruct (len <=? _); [intros E; inversion E; subst; simpl; auto|].
  match goal with
  | |- context [engine_callbacks ?c ?t ?s ?l] =>
      destruct (engine_callbacks c t s l) as [tctx1 ev] eqn:E1
  end.
  apply engine_callbacks_chained in E1. simpl in E1.
  destruct (negb _ || _); intros E; inversion E; subst; simpl; auto.
Qed.

Lemma chunk_loop_chained fuel : forall cctx tctx r,
  chunk_loop env fuel cctx tctx = Some r ->
  chained (last_t1 tctx) (segment_times (rr_events r)).
Proof.
  induction fuel as [|fuel IH]; intros cctx tctx r; simpl; [discriminate|].
  destruct (process_one_chunk env cctx tctx)
    as [[[[ret cctx1] tctx1] rec] ev] eqn:E1.
  destruct (process_one_chunk_chained _ _ _ _ _ _ _ E1) as (A1 & B1).
  destruct (ret =? 0).
  - destruct (chunk_loop env fuel cctx1 tctx1) as [r1|] eqn:E2;
      [|discriminate].
    intros E; inversion E; subst; simpl.
    rewrite segment_times_app, chained_app, <- B1. eauto.
  - intros E; inversion E; subst; simpl. auto.
Qed.

End RunSegments.
End Segments.

(** ** Boundary selection *)

Lemma check_gap_spec g0 g1 rs re ms :
  int_range ((g1 - g0) * 10) ->
  0 <= rs <= re -> re * 160 <= INT_MAX ->
  check_gap g0 g1 rs re ms =
  if gap_qualifies ms rs re (g0, g1)
  then cs_to_samples (clamp rs re (Z.quot (g0 + g1) 2))
  else -1.
Proof.
  intros Hw Hr Hmax. unfold check_gap, gap_qualifies; simpl.
  rewrite (to_int_id _ Hw).
  destruct (Z.ltb_spec ((g1 - g0) * 10) ms) as [H1|H1];
  destruct (Z.leb_spec ms ((g1 - g0) * 10)) as [H1'|H1']; try lia; simpl; auto.
  destruct (Z.geb_spec g0 re) as [H2|H2];
  destruct (Z.ltb_spec g0 re) as [H2'|H2']; try lia; simpl; auto.
  destruct (Z.leb_spec g1 rs) as [H3|H3];
  destruct (Z.ltb_spec rs g1) as [H3'|H3']; try lia; simpl; auto.
  rewrite if_ltb_max, if_gtb_min.
  fold (cs_to_samples (Z.min (Z.max (Z.quot (g0 + g1) 2) rs) re)).
  replace (Z.min (Z.max (Z.quot (g0 + g1) 2) rs) re)
    with (clamp rs re (Z.quot (g0 + g1) 2)) by (unfold clamp; lia).
  rewrite cs_to_samples_mul. apply to_int_id.
  unfold clamp, int_range, INT_MIN, INT_MAX in *. lia.
Qed.

Lemma qualifying_gap_positive g0 g1 rs re ms :
  gap_qualifies ms rs re (g0, g1) = true -> 1 <= g0 -> 0 <= rs ->
  0 < cs_to_samples (clamp rs re (Z.quot (g0 + g1) 2)).
Proof.
  unfold gap_qualifies; simpl. rewrite !andb_true_iff.
  intros [[_ H2] H3] Hg Hr.
  apply Z.ltb_lt in H2, H3.
  rewrite cs_to_samples_mul.
  assert (1 <= Z.quot (g0 + g1) 2).
  { rewrite Z.quot_div_nonneg by lia. apply Z.div_le_lower_bound; lia. }
  unfold clamp. lia.
Qed.

Lemma gaps_between_lower segs off : forall lo,
  speech_intervals lo segs ->
  Forall (fun g => lo + off < fst g /\ fst g <= vad_time_limit + off
                   /\ lo + off < snd g /\ snd g <= vad_time_limit + off)
         (gaps_between segs off).
Proof.
  induction segs as [|s1 segs IH]; intros lo H; [constructor|].
  destruct segs as [|s2 segs]; [constructor|].
  cbn [speech_intervals] in H.
  destruct H as (A1 & A2 & A3 & B1 & B2 & B3 & H).
  cbn [gaps_between]. constructor.
  - cbn [fst snd]. lia.
  - assert (Hs : speech_intervals (vad_t1 s1) (s2 :: segs))
      by (cbn [speech_intervals]; auto).
    specialize (IH _ Hs).
    eapply Forall_impl; [|exact IH]. cbn beta. intros g. lia.
Qed.

Lemma find_none_forall {A} (f : A -> bool) l :
  Forall (fun x => f x = false) l -> find f l = None.
Proof.
  induction 1 as [|x l Hx _ IH]; simpl; auto. now rewrite Hx.
Qed.

Lemma gap_loop_cons s1 s2 segs off rs re ms :
  gap_loop (s1 :: s2 :: segs) off rs re ms =
  if vad_t0 s2 + off <=? rs then gap_loop (s2 :: segs) off rs re ms
  else if vad_t1 s1 + off >=? re then None
  else if check_gap (vad_t1 s1 + off) (vad_t0 s2 + off) rs re ms >=? 0
       then Some (check_gap (vad_t1 s1 + off) (vad_t0 s2 + off) rs re ms)
       else gap_loop (s2 :: segs) off rs re ms.
Proof. reflexivity. Qed.

Lemma gaps_between_cons s1 s2 segs off :
  gaps_between (s1 :: s2 :: segs) off =
  (vad_t1 s1 + off, vad_t0 s2 + off) :: gaps_between (s2 :: segs) off.
Proof. reflexivity. Qed.

Lemma gap_loop_spec segs off rs re ms : forall lo,
  speech_intervals lo segs -> 0 <= lo -> 0 <= off <= 14000000 ->
  0 <= rs <= re -> re * 160 <= INT_MAX ->
  gap_loop segs off rs re ms =
  option_map (fun g => cs_to_samples (clamp rs re (Z.quot (fst g + snd g) 2)))
    (find (gap_qualifies ms rs re) (gaps_between segs off)).
Proof.
  induction segs as [|s1 segs IH]; intros lo H Hlo Hoff Hr Hmax; auto.
  destruct segs as [|s2 segs]; auto.
  pose proof (gaps_between_lower _ off _ H) as Hall.
  rewrite gap_loop_cons, gaps_between_cons. cbn [find].
  rewrite gaps_between_cons in Hall.
  cbn [speech_intervals] in H.
  destruct H as (A1 & A2 & A3 & B1 & B2 & B3 & H).
  assert (Hs : speech_intervals (vad_t1 s1) (s2 :: segs))
    by (cbn [speech_intervals]; auto).
  specialize (IH (vad_t1 s1) Hs ltac:(lia) Hoff Hr Hmax).
  inversion Hall as [|g l Hg Hrest]; subst. cbn [fst snd] in Hg.
  destruct (Z.leb_spec (vad_t0 s2 + off) rs) as [C1|C1].
  - replace (gap_qualifies ms rs re (vad_t1 s1 + off, vad_t0 s2 + off))
      with false; [exact IH|].
    unfold gap_qualifies; cbn [fst snd]. lia.
  - destruct (Z.geb_spec (vad_t1 s1 + off) re) as [C2|C2].
    + replace (gap_qualifies ms rs re (vad_t1 s1 + off, vad_t0 s2 + off))
        with false.
      * rewrite find_none_forall; [reflexivity|].
        pose proof (gaps_between_lower _ off _ Hs) as Hall'.
        eapply Forall_impl; [|exact Hall']. intros g Hg'.
        cbn beta in Hg'. unfold gap_qualifies.
        destruct (Z.ltb_spec (fst g) re); [lia|].
        now rewrite andb_false_r.
      * unfold gap_qualifies; cbn [fst snd]. lia.
    + rewrite check_gap_spec; auto.
      2:{ unfold int_range, INT_MIN, INT_MAX, vad_time_limit in *. lia. }
      destruct (gap_qualifies ms rs re (vad_t1 s1 + off, vad_t0 s2 + off))
        eqn:Q.
      * pose proof (qualifying_gap_positive _ _ _ _ _ Q ltac:(lia) ltac:(lia))
          as Hpos.
        cbn [option_map fst snd].
        destruct (Z.geb_spec
          (cs_to_samples
             (clamp rs re (Z.quot (vad_t1 s1 + off + (vad_t0 s2 + off)) 2))) 0);
          try lia. reflexivity.
      * cbn [option_map]. 
        replace (-1 >=? 0) with false by reflexivity. exact IH.
Qed.

Lemma find_app_or {A} (f : A -> bool) l1 l2 :
  find f (l1 ++ l2) =
  match find f l1 with Some x => Some x | None => find f l2 end.
Proof.
  induction l1 as [|x l1 IH]; simpl; auto. destruct (f x); auto.
Qed.

Lemma last_cons_default {A} (l : list A) (a b : A) :
  last (a :: l) b = last l a.
Proof.
  revert a b; induction l as [|x l IH]; intros a b; auto.
  change (last (a :: x :: l) b) with (last (x :: l) b).
  rewrite (IH x b). symmetry. apply (IH x a).
Qed.

Lemma speech_intervals_last rest : forall lo s,
  speech_intervals lo (s :: rest) ->
  lo < vad_t1 (last rest s) <= vad_time_limit.
Proof.
  induction rest as [|s2 rest IH]; intros lo s H.
  - cbn [speech_intervals] in H. cbn [last]. lia.
  - cbn [speech_intervals] in H. destruct H as (A1 & A2 & A3 & H).
    rewrite last_cons_default.
    specialize (IH _ _ H). lia.
Qed.

(** [find_silence_in_segments] returns the position of the first
    qualifying gap among the candidates, and -1 when there is none. *)
Lemma find_silence_in_segments_spec segs start_samples end_samples ms
    vad_offset :
  speech_intervals 0 segs ->
  0 <= vad_offset <= INT_MAX ->
  0 <= start_samples <= end_samples -> end_samples <= INT_MAX ->
  let rs := samples_to_cs start_samples in
  let re := samples_to_cs end_samples in
  find_silence_in_segments (Some segs) start_samples end_samples ms
    vad_offset =
  match find (gap_qualifies ms rs re)
          (candidate_gaps segs (samples_to_cs vad_offset) re) with
  | Some g => cs_to_samples (clamp rs re (Z.quot (fst g + snd g) 2))
  | None => -1
  end /\
  (forall g, find (gap_qualifies ms rs re)
               (candidate_gaps segs (samples_to_cs vad_offset) re) = Some g ->
             1 <= fst g).
Proof.
  intros Hs Hoff Hrange Hend rs re.
  destruct segs as [|s rest]; [split; [reflexivity|discriminate]|].
  pose proof (samples_to_cs_bounds vad_offset ltac:(lia)) as Ho.
  pose proof (samples_to_cs_bounds start_samples ltac:(lia)) as Hrs.
  pose proof (samples_to_cs_bounds end_samples ltac:(lia)) as Hre.
  pose proof (samples_to_cs_mono start_samples end_samples ltac:(lia)) as Hm.
  fold rs in Hrs, Hm. fold re in Hre, Hm.
  set (off := samples_to_cs vad_offset) in *.
  assert (Hoff' : 0 <= off <= 14000000)
    by (unfold INT_MAX in *; change (2 ^ 31) with 2147483648 in *; lia).
  assert (Hmax : re * 160 <= INT_MAX) by lia.
  pose proof (gap_loop_spec (s :: rest) off rs re ms 0 Hs ltac:(lia) Hoff'
                ltac:(lia) Hmax) as Hloop.
  pose proof (gaps_between_lower (s :: rest) off 0 Hs) as Hlow.
  pose proof (speech_intervals_last rest 0 s Hs) as Hlast.
  unfold find_silence_in_segments, candidate_gaps.
  fold (samples_to_cs vad_offset) (samples_to_cs start_samples)
       (samples_to_cs end_samples).
  fold off rs re. rewrite Hloop, find_app_or.
  destruct (find (gap_qualifies ms rs re) (gaps_between (s :: rest) off))
    as [g|] eqn:F; cbn [option_map].
  - split; [reflexivity|]. intros g' E; inversion E; subst g'.
    apply find_some in F. destruct F as [Hin _].
    rewrite Forall_forall in Hlow. specialize (Hlow _ Hin). cbn beta in Hlow.
    lia.
  - cbn [find]. rewrite check_gap_spec; [|
      unfold int_range, INT_MIN, INT_MAX, vad_time_limit in *;
      change (2 ^ 31) with 2147483648 in *; lia | lia | lia].
    destruct (gap_qualifies ms rs re (vad_t1 (last rest s) + off, re)).
    + split; [reflexivity|]. intros g' E; inversion E; subst g'.
      cbn [fst]. lia.
    + split; [reflexivity|discriminate].
Qed.

(** Whatever the intervals, a position returned for a gap lies in the
    search range (in whole centiseconds). *)
Lemma check_gap_range g0 g1 rs re ms :
  0 <= rs <= re -> re * 160 <= INT_MAX ->
  check_gap g0 g1 rs re ms = -1 \/
  rs * 160 <= check_gap g0 g1 rs re ms <= re * 160.
Proof.
  intros Hr Hmax. unfold check_gap.
  destruct (_ <? ms); [left; reflexivity|].
  destruct (_ || _); [left; reflexivity|].
  right. rewrite if_ltb_max, if_gtb_min.
  fold (cs_to_samples (Z.min (Z.max (Z.quot (g0 + g1) 2) rs) re)).
  rewrite cs_to_samples_mul, to_int_id;
    unfold int_range, INT_MIN, INT_MAX in *; lia.
Qed.

Lemma gap_loop_range segs off rs re ms : forall p,
  0 <= rs <= re -> re * 160 <= INT_MAX ->
  gap_loop segs off rs re ms = Some p -> rs * 160 <= p <= re * 160.
Proof.
  induction segs as [|s1 segs IH]; intros p Hr Hmax; [discriminate|].
  destruct segs as [|s2 segs]; [discriminate|].
  rewrite gap_loop_cons.
  destruct (_ <=? rs); [apply IH; auto|].
  destruct (_ >=? re); [discriminate|].
  destruct (Z.geb_spec
              (check_gap (vad_t1 s1 + off) (vad_t0 s2 + off) rs re ms) 0)
    as [G|G]; [|apply IH; auto].
  intros E; inversion E; subst.
  destruct (check_gap_range (vad_t1 s1 + off) (vad_t0 s2 + off) rs re ms
              Hr Hmax); lia.
Qed.

Lemma find_silence_in_segments_range vs start_samples end_samples ms
    vad_offset :
  0 <= start_samples <= end_samples -> end_samples <= INT_MAX ->
  let p := find_silence_in_segments vs start_samples end_samples ms
             vad_offset in
  p = -1 \/
  cs_to_samples (samples_to_cs start_samples) <= p <= end_samples.
Proof.
  intros Hr Hend p. subst p.
  pose proof (samples_to_cs_bounds start_samples ltac:(lia)) as Hrs.
  pose proof (samples_to_cs_bounds end_samples ltac:(lia)) as Hre.
  pose proof (samples_to_cs_mono start_samples end_samples ltac:(lia)) as Hm.
  rewrite cs_to_samples_mul.
  unfold find_silence_in_segments.
  destruct vs as [[|s rest]|]; auto.
  fold (samples_to_cs vad_offset) (samples_to_cs start_samples)
       (samples_to_cs end_samples).
  destruct (gap_loop _ _ _ _ _) as [p|] eqn:G.
  - apply gap_loop_range in G; lia.
  - destruct (check_gap_range
                (vad_t1 (last rest s) + samples_to_cs vad_offset)
                (samples_to_cs end_samples) (samples_to_cs start_samples)
                (samples_to_cs end_samples) ms ltac:(lia) ltac:(lia));
      [auto|right; lia].
Qed.

(** The boundary lies between the minimum, rounded down to a whole
    centisecond, and the end of the search range. *)
Lemma find_chunk_boundary_range {sample src host : Type}
    (cctx : @common_ctx sample src host) available vs vstart :
  0 <= min_chunk_samples cctx -> max_chunk_samples cctx <= INT_MAX ->
  let B := fst (find_chunk_boundary cctx available vs vstart) in
  let search_end := Z.min (max_chunk_samples cctx) available in
  (search_end <= min_chunk_samples cctx -> B = search_end) /\
  (min_chunk_samples cctx < search_end ->
   cs_to_samples (samples_to_cs (min_chunk_samples cctx)) <= B <= search_end).
Proof.
  intros Hmin Hmax B search_end. subst B.
  unfold find_chunk_boundary. rewrite MIN_min. fold search_end.
  pose proof (samples_to_cs_bounds (min_chunk_samples cctx) Hmin) as Hrs.
  destruct (Z.geb_spec (min_chunk_samples cctx) search_end) as [G|G];
    cbn [fst]; split; intros; try lia.
  destruct vs as [segs|]; cbn [fst];
    [|rewrite cs_to_samples_mul; lia].
  pose proof (find_silence_in_segments_range (Some segs)
                (min_chunk_samples cctx) search_end (min_silence_ms cctx)
                vstart ltac:(lia) ltac:(unfold search_end; lia)) as R.
  cbv zeta in R.
  destruct (Z.gtb_spec
              (find_silence_in_segments (Some segs) (min_chunk_samples cctx)
                 search_end (min_silence_ms cctx) vstart) 0);
    cbn [fst]; [lia|rewrite cs_to_samples_mul; lia].
Qed.

(** The selector on the code's terms.  With
    [search_start = min_chunk_samples] and
    [search_end = min (max_chunk_samples, available)], it returns
    [search_end] when [search_start >= search_end], [search_start] when
    there are no VAD intervals, and otherwise the midpoint, clamped into
    the search range in whole centiseconds and converted to samples, of
    the first gap between consecutive VAD intervals (or of the tail after
    the last interval) that is at least [min_silence_ms] wide and meets
    that range; [search_end] when no gap qualifies.  The VAD intervals are
    speech intervals in chronological order. *)
Lemma find_chunk_boundary_in_centiseconds {sample src host : Type}
    (cctx : @common_ctx sample src host) (available : Z)
    (vad : option (list vad_segment)) (vad_offset : Z) :
  0 <= min_chunk_samples cctx ->
  available <= INT_MAX ->
  0 <= vad_offset <= INT_MAX ->
  (forall segs, vad = Some segs -> speech_intervals 0 segs) ->
  fst (find_chunk_boundary cctx available vad vad_offset) =
  boundary_in_centiseconds (min_chunk_samples cctx) (max_chunk_samples cctx)
    (min_silence_ms cctx) available vad vad_offset.
Proof.
  intros Hmin Hav Hoff Hvad.
  unfold find_chunk_boundary, boundary_in_centiseconds. rewrite MIN_min.
  set (search_end := Z.min (max_chunk_samples cctx) available).
  destruct (Z.geb_spec (min_chunk_samples cctx) search_end) as [G|G];
    [reflexivity|].
  destruct vad as [segs|]; [|reflexivity].
  specialize (Hvad segs eq_refl).
  destruct (find_silence_in_segments_spec segs (min_chunk_samples cctx)
              search_end (min_silence_ms cctx) vad_offset Hvad Hoff
              ltac:(lia) ltac:(unfold search_end; lia)) as [E P].
  rewrite E.
  destruct (find _ _) as [g|] eqn:F; [|reflexivity].
  specialize (P g eq_refl).
  apply find_some in F. destruct F as [_ Q].
  destruct g as [g0 g1]. cbn [fst snd] in *.
  pose proof (samples_to_cs_bounds (min_chunk_samples cctx) Hmin) as B.
  pose proof (qualifying_gap_positive _ _ _ _ _ Q P ltac:(lia)) as Hpos.
  destruct (Z.gtb_spec
    (cs_to_samples
       (clamp (samples_to_cs (min_chunk_samples cctx))
          (samples_to_cs search_end) (Z.quot (g0 + g1) 2))) 0); [reflexivity|lia].
Qed.


Lemma find_same {A} (f g : A -> bool) (l : list A) :
  (forall x, f x = g x) -> find f l = find g l.
Proof.
  intros E. induction l as [|x l IH]; [reflexivity|].
  cbn [find]. rewrite E, IH. reflexivity.
Qed.

(** When both ends of the search range are whole centiseconds (multiples
    of 160 samples), this is the boundary the design states. *)
Lemma find_chunk_boundary_whole_centiseconds {sample src host : Type}
    (cctx : @common_ctx sample src host) (available : Z)
    (vad : option (list vad_segment)) (vad_offset : Z) :
  0 <= min_chunk_samples cctx ->
  available <= INT_MAX ->
  0 <= vad_offset <= INT_MAX ->
  (forall segs, vad = Some segs -> speech_intervals 0 segs) ->
  Z.rem (min_chunk_samples cctx) 160 = 0 ->
  Z.rem (Z.min (max_chunk_samples cctx) available) 160 = 0 ->
  fst (find_chunk_boundary cctx available vad vad_offset) =
  boundary_spec (min_chunk_samples cctx) (max_chunk_samples cctx)
    (min_silence_ms cctx) available vad vad_offset.
Proof.
  intros Hmin Hav Hoff Hvad R1 R2.
  rewrite find_chunk_boundary_in_centiseconds by assumption.
  unfold boundary_in_centiseconds, boundary_spec.
  set (ss := min_chunk_samples cctx) in *.
  set (se := Z.min (max_chunk_samples cctx) available) in *.
  destruct (ss >=? se); [reflexivity|].
  destruct vad as [segs|]; [|reflexivity].
  pose proof (Z.quot_rem' ss 160) as Q1. rewrite R1 in Q1.
  pose proof (Z.quot_rem' se 160) as Q2. rewrite R2 in Q2.
  assert (A : samples_to_cs ss = Z.quot ss 160).
  { unfold samples_to_cs, WHISPER_SAMPLE_RATE.
    replace (ss * 100) with (Z.quot ss 160 * 16000) by lia.
    apply Z.quot_mul. lia. }
  assert (B : samples_to_cs se = Z.quot se 160).
  { unfold samples_to_cs, WHISPER_SAMPLE_RATE.
    replace (se * 100) with (Z.quot se 160 * 16000) by lia.
    apply Z.quot_mul. lia. }
  rewrite (find_same (gap_meets (min_silence_ms cctx) ss se)
             (gap_qualifies (min_silence_ms cctx) (samples_to_cs ss)
                (samples_to_cs se))).
  - destruct (find _ _) as [g|]; [|reflexivity].
    rewrite !cs_to_samples_mul, A, B. unfold clamp. lia.
  - intros g. unfold gap_meets, gap_qualifies.
    rewrite !cs_to_samples_mul, A, B.
    f_equal; [f_equal|].
    + destruct (Z.ltb_spec (fst g * 160) se), (Z.ltb_spec (fst g) (Z.quot se 160));
        try reflexivity; lia.
    + destruct (Z.ltb_spec ss (snd g * 160)), (Z.ltb_spec (Z.quot ss 160) (snd g));
        try reflexivity; lia.
Qed.

(** ** The ring read buffer *)

Section Buffer.
Context {sample src host : Type}.
Implicit Types (cctx : @common_ctx sample src host)
  (tctx : @thread_ctx sample).

Lemma same_config_refl cctx : same_config cctx cctx.
Proof. unfold same_config; tauto. Qed.

Lemma same_config_trans (c1 c2 c3 : @common_ctx sample src host) :
  same_config c1 c2 -> same_config c2 c3 -> same_config c1 c3.
Proof. unfold same_config; intuition congruence. Qed.

Lemma fill_loop_spec fuel cctx : forall ud buf len target e ud' buf' len' e',
  fill_loop fuel cctx ud buf len target e = (ud', buf', len', e') ->
  len <= len' /\
  (e = true -> e' = true) /\
  (target - len <= Z.of_nat fuel -> e' = true \/ target <= len').
Proof.
  induction fuel as [|fuel IH]; intros ud buf len target e ud' buf' len' e';
    cbn [fill_loop].
  - intros E; inversion E; subst. repeat split; auto; try lia.
  - destruct (Z.ltb_spec len target) as [L|L]; cbn [andb].
    + destruct e; cbn [negb].
      * intros E; inversion E; subst. repeat split; auto; lia.
      * destruct (read_cb cctx ud (buffer_size cctx - len))
          as [[n data] ud1] eqn:R.
        destruct (Z.leb_spec n 0) as [N|N].
        -- intros E; inversion E; subst. repeat split; auto; lia.
        -- intros E. apply IH in E. destruct E as (A & B & C).
           repeat split; auto; try lia. intros. apply C. lia.
    + intros E; inversion E; subst. repeat split; auto; try lia.
Qed.

(** With a callback that keeps its contract the length stays within the
    capacity. *)
Lemma fill_loop_capacity fuel cctx :
  read_contract cctx ->
  forall ud buf len target e ud' buf' len' e',
  fill_loop fuel cctx ud buf len target e = (ud', buf', len', e') ->
  len <= buffer_size cctx -> len' <= buffer_size cctx.
Proof.
  intros RC.
  induction fuel as [|fuel IH]; intros ud buf len target e ud' buf' len' e';
    cbn [fill_loop].
  - intros E; inversion E; subst; auto.
  - destruct ((len <? target) && negb e).
    + pose proof (RC ud (buffer_size cctx - len)) as Hn.
      destruct (read_cb cctx ud (buffer_size cctx - len))
        as [[n data] ud1] eqn:R. cbn [fst] in Hn.
      destruct (Z.leb_spec n 0) as [N|N].
      * intros E; inversion E; subst; auto.
      * intros E H. eapply IH; [exact E|lia].
    + intros E; inversion E; subst; auto.
Qed.

(** What the source can still deliver plus what the buffer holds does not
    grow. *)
Lemma fill_loop_remaining fuel cctx remaining :
  finite_source cctx remaining ->
  forall ud buf len target e ud' buf' len' e',
  fill_loop fuel cctx ud buf len target e = (ud', buf', len', e') ->
  Z.of_nat (remaining ud') + len' <= Z.of_nat (remaining ud) + len.
Proof.
  intros FS.
  induction fuel as [|fuel IH]; intros ud buf len target e ud' buf' len' e';
    cbn [fill_loop].
  - intros E; inversion E; subst; lia.
  - destruct ((len <? target) && negb e).
    + pose proof (FS ud (buffer_size cctx - len)) as Hn.
      destruct (read_cb cctx ud (buffer_size cctx - len))
        as [[n data] ud1] eqn:R. cbn [fst snd] in Hn.
      destruct (Z.leb_spec n 0) as [N|N].
      * intros E; inversion E; subst; lia.
      * intros E. apply IH in E. lia.
    + intros E; inversion E; subst; lia.
Qed.

Lemma fill_read_buffer_spec cctx target cctx' len e :
  fill_read_buffer cctx target false = (cctx', len, e) ->
  same_config cctx cctx' /\
  read_buffer_len cctx' = len /\
  read_buffer_len cctx <= len /\
  (e = true \/ target <= len) /\
  eof cctx' = eof cctx /\ abort cctx' = abort cctx /\
  next_chunk_idx cctx' = next_chunk_idx cctx /\
  total_samples_read cctx' = total_samples_read cctx /\
  (read_contract cctx -> read_buffer_len cctx <= buffer_size cctx ->
   len <= buffer_size cctx) /\
  (forall remaining, finite_source cctx remaining ->
     Z.of_nat (remaining (read_cb_user_data cctx')) + len
     <= Z.of_nat (remaining (read_cb_user_data cctx)) + read_buffer_len cctx).
Proof.
  unfold fill_read_buffer.
  destruct (fill_loop _ cctx (read_cb_user_data cctx) (read_buffer cctx)
              (read_buffer_len cctx) target false)
    as [[[ud' buf'] len'] e'] eqn:F.
  intros E; inversion E; subst. cbn.
  destruct (fill_loop_spec _ _ _ _ _ _ _ _ _ _ _ F) as (A & B & C).
  repeat split; auto.
  - apply C. lia.
  - intros RC H. eapply fill_loop_capacity; eauto.
  - intros remaining FS. eapply fill_loop_remaining; eauto.
Qed.

Lemma handoff_to_next_spec cctx (ci : chunk_info) total idx (e : bool) :
  let keep_start := Z.max 0 (ci_actual_chunk_samples ci - overlap_samples cctx) in
  let cctx' := handoff_to_next cctx ci total idx e in
  same_config cctx cctx' /\
  read_buffer_len cctx' = Z.max 0 (read_buffer_len cctx - keep_start) /\
  read_buffer cctx' =
    firstn (Z.to_nat (read_buffer_len cctx - keep_start))
      (skipn (Z.to_nat keep_start) (read_buffer cctx)) /\
  read_cb_user_data cctx' = read_cb_user_data cctx /\
  next_chunk_idx cctx' = idx + 1 /\
  total_samples_read cctx' = total + ci_chunk_samples ci /\
  abort cctx' = abort cctx /\
  eof cctx' =
    (eof cctx
     || (e && (read_buffer_len cctx - keep_start <=? overlap_samples cctx))).
Proof.
  intros keep_start cctx'. subst cctx'. unfold handoff_to_next.
  rewrite if_ltb_max. rewrite (Z.max_comm _ 0). fold keep_start.
  destruct (Z.gtb_spec (read_buffer_len cctx - keep_start) 0) as [K|K];
    destruct (e && (read_buffer_len cctx - keep_start <=? overlap_samples cctx));
    cbn; unfold same_config; cbn;
    repeat split; auto; try lia;
    try (now rewrite orb_true_r); try (now rewrite orb_false_r);
    try (replace (Z.to_nat (read_buffer_len cctx - keep_start)) with O by lia;
         reflexivity).
Qed.

Lemma set_eof_spec cctx (a : bool) :
  let cctx' := set_eof cctx a in
  same_config cctx cctx' /\
  read_buffer_len cctx' = read_buffer_len cctx /\
  read_buffer cctx' = read_buffer cctx /\
  read_cb_user_data cctx' = read_cb_user_data cctx /\
  next_chunk_idx cctx' = next_chunk_idx cctx /\
  total_samples_read cctx' = total_samples_read cctx /\
  abort cctx' = (a || abort cctx) /\
  eof cctx' = true.
Proof.
  unfold set_eof, same_config; cbn. destruct a; repeat split; auto.
Qed.

End Buffer.

(** ** Chunks and traces *)

Section Trace.
Context {sample src host : Type}.
Implicit Types (cctx final : @common_ctx sample src host)
  (r : @chunk_record sample src host)
  (l : list (@chunk_record sample src host)).

Lemma make_chunk_info_fields cctx B available oo total (e : bool) :
  let ci := make_chunk_info cctx B available oo total e in
  ci_overlap_offset ci = oo /\
  ci_actual_chunk_samples ci = ci_chunk_samples ci + oo /\
  ci_time_offset ci = Z.quot (100 * (total - oo)) WHISPER_SAMPLE_RATE /\
  ci_chunk_samples ci =
    (if e && (available - B <? min_chunk_samples cctx) then available else B).
Proof. cbn. auto. Qed.

(** What a chunk leaves behind it. *)
Lemma chunk_of_state cctx r :
  chunk_of cctx r ->
  same_config cctx (cr_cctx r) /\
  cr_chunk_idx r = next_chunk_idx cctx /\
  cr_total_samples r = total_samples_read cctx /\
  next_chunk_idx (cr_cctx r) = next_chunk_idx cctx + 1 /\
  total_samples_read (cr_cctx r) =
    total_samples_read cctx + ci_chunk_samples (cr_info r) /\
  abort (cr_cctx r) = abort cctx.
Proof.
  intros (Eof & cf & vs & vstart & F & H). cbv zeta in H.
  destruct H as (L & Hi & Ht & HB & Hci & Hc).
  apply fill_read_buffer_spec in F.
  destruct F as (SC & _ & _ & _ & _ & Ab & _).
  pose proof (handoff_to_next_spec cf (cr_info r) (total_samples_read cctx)
                (next_chunk_idx cctx) (cr_eof r)) as HS.
  cbv zeta in HS. rewrite <- Hc in HS.
  destruct HS as (SC' & _ & _ & _ & Hn & Htot & Hab & _).
  split; [eapply same_config_trans; eauto|].
  repeat split; auto; congruence.
Qed.

Lemma state_after_fields r :
  same_config (cr_cctx r) (state_after r) /\
  next_chunk_idx (state_after r) = next_chunk_idx (cr_cctx r) /\
  total_samples_read (state_after r) = total_samples_read (cr_cctx r) /\
  read_buffer_len (state_after r) = read_buffer_len (cr_cctx r) /\
  read_cb_user_data (state_after r) = read_cb_user_data (cr_cctx r) /\
  abort (state_after r) = (chunk_failed r || abort (cr_cctx r)) /\
  eof (state_after r) = (chunk_failed r || eof (cr_cctx r)).
Proof.
  unfold state_after. destruct (chunk_failed r).
  - pose proof (set_eof_spec (cr_cctx r) true) as H. cbv zeta in H.
    intuition.
  - split; [apply same_config_refl|]. repeat split; auto.
Qed.

Lemma stops_at_fields cctx final :
  stops_at cctx final ->
  same_config cctx final /\ eof final = true /\ abort final = abort cctx.
Proof.
  intros [(E & ->) | (E & cf & len & e & F & L & ->)].
  - split; [apply same_config_refl|]. split; auto.
  - apply fill_read_buffer_spec in F.
    destruct F as (SC & _ & _ & _ & _ & Ab & _).
    pose proof (set_eof_spec cf false) as H. cbv zeta in H.
    destruct H as (SC' & _ & _ & _ & _ & _ & Ab' & Eo).
    split; [eapply same_config_trans; eauto|]. split; auto.
Qed.

Lemma run_trace_config l : forall cctx final,
  run_trace cctx l final -> same_config cctx final.
Proof.
  induction l as [|r l IH]; intros cctx final; cbn [run_trace].
  - intros H. apply stops_at_fields in H. tauto.
  - intros [Hc Hr]. apply chunk_of_state in Hc.
    pose proof (state_after_fields r) as Hs.
    apply IH in Hr.
    eapply same_config_trans; [|exact Hr].
    eapply same_config_trans; [|apply Hs]. tauto.
Qed.

(** The descriptors along a run. *)
Lemma run_trace_descriptors l : forall cctx final,
  run_trace cctx l final ->
  descriptors_from (overlap_samples cctx) (next_chunk_idx cctx)
    (total_samples_read cctx) l.
Proof.
  induction l as [|r l IH]; intros cctx final; cbn [run_trace descriptors_from];
    auto.
  intros [Hc Hr].
  pose proof (chunk_of_state _ _ Hc) as (SC & Hi & Ht & Hn & Htot & _).
  pose proof (state_after_fields r) as (SC' & Hn' & Htot' & _).
  destruct Hc as (Eof & cf & vs & vstart & F & H). cbv zeta in H.
  destruct H as (L & _ & _ & HB & Hci & Hc).
  pose proof (make_chunk_info_fields cf (cr_found_boundary r)
    (cr_buffer_len r - overlap_offset_of cctx (next_chunk_idx cctx))
    (overlap_offset_of cctx (next_chunk_idx cctx))
    (total_samples_read cctx) (cr_eof r)) as Hf.
  cbv zeta in Hf. rewrite <- Hci in Hf. destruct Hf as (F1 & F2 & F3 & _).
  unfold overlap_offset_of in F1, F2, F3.
  rewrite Hi, Ht.
  split; [reflexivity|]. split; [reflexivity|]. split; [exact F1|].
  split; [rewrite F1; exact F2|]. split; [rewrite F1; exact F3|].
  apply IH in Hr.
  replace (overlap_samples (state_after r)) with (overlap_samples cctx) in Hr
    by (unfold same_config in *; intuition congruence).
  rewrite Hn', Htot', Hn, Htot in Hr. exact Hr.
Qed.

Lemma descriptors_from_nth ov l : forall i total k r,
  descriptors_from ov i total l ->
  nth_error l k = Some r ->
  let ci := cr_info r in
  let before := total + zsum (chunk_sizes (firstn k l)) in
  cr_chunk_idx r = i + Z.of_nat k /\
  cr_total_samples r = before /\
  ci_overlap_offset ci = (if i + Z.of_nat k >? 0 then ov else 0) /\
  ci_actual_chunk_samples ci = ci_chunk_samples ci + ci_overlap_offset ci /\
  ci_time_offset ci =
    Z.quot (100 * (before - ci_overlap_offset ci)) WHISPER_SAMPLE_RATE.
Proof.
  induction l as [|r0 l IH]; intros i total k r H E.
  - destruct k; discriminate.
  - cbn [descriptors_from] in H.
    destruct H as (A1 & A2 & A3 & A4 & A5 & H).
    destruct k as [|k].
    + cbn [nth_error] in E. inversion E; subst r0. cbv zeta.
      cbn [firstn chunk_sizes map zsum fold_right].
      change (Z.of_nat 0) with 0. rewrite !Z.add_0_r.
      repeat split; auto.
    + cbn [nth_error] in E. specialize (IH _ _ _ _ H E).
      cbv zeta in IH. cbn [firstn chunk_sizes map zsum fold_right].
      change (fold_right Z.add 0 (map (fun r => ci_chunk_samples (cr_info r))
                (firstn k l))) with (zsum (chunk_sizes (firstn k l))).
      replace (i + Z.of_nat (S k)) with (i + 1 + Z.of_nat k) by lia.
      replace (total + (ci_chunk_samples (cr_info r0)
                        + zsum (chunk_sizes (firstn k l))))
        with (total + ci_chunk_samples (cr_info r0)
              + zsum (chunk_sizes (firstn k l))) by lia.
      exact IH.
Qed.

(** At the end of a run the stream is at its end, and the abort flag is
    set when it was set before or a chunk failed. *)
Lemma run_trace_flags l : forall cctx final,
  run_trace cctx l final ->
  eof final = true /\
  abort final = (abort cctx || existsb chunk_failed l).
Proof.
  induction l as [|r l IH]; intros cctx final; cbn [run_trace existsb].
  - intros H. apply stops_at_fields in H. rewrite orb_false_r. tauto.
  - intros [Hc Hr]. apply chunk_of_state in Hc.
    destruct Hc as (_ & _ & _ & _ & _ & Ab).
    pose proof (state_after_fields r) as (_ & _ & _ & _ & _ & Ab' & _).
    apply IH in Hr. destruct Hr as [E A]. split; auto.
    rewrite A, Ab', Ab.
    destruct (chunk_failed r), (abort cctx); reflexivity.
Qed.

(** The boundary is a positive number of samples. *)
Lemma find_chunk_boundary_pos cctx available vs vstart :
  1 <= min_chunk_samples cctx -> 1 <= max_chunk_samples cctx ->
  1 <= available ->
  1 <= fst (find_chunk_boundary cctx available vs vstart).
Proof.
  intros Hmin Hmax Hav. unfold find_chunk_boundary. rewrite MIN_min.
  destruct (min_chunk_samples cctx >=? Z.min (max_chunk_samples cctx) available);
    cbn [fst]; [lia|].
  destruct vs as [segs|]; cbn [fst]; [|lia].
  destruct (Z.gtb_spec
    (find_silence_in_segments (Some segs) (min_chunk_samples cctx)
       (Z.min (max_chunk_samples cctx) available) (min_silence_ms cctx) vstart)
    0); cbn [fst]; lia.
Qed.

(** Each chunk that lets the loop go on brings the run closer to its
    end. *)
Lemma chunk_of_progress cctx r remaining :
  chunk_of cctx r ->
  finite_source cctx remaining ->
  1 <= min_chunk_samples cctx -> 1 <= max_chunk_samples cctx ->
  0 <= overlap_samples cctx ->
  0 <= next_chunk_idx cctx -> 0 <= read_buffer_len cctx ->
  (run_bound (state_after r) remaining < run_bound cctx remaining)%nat /\
  0 <= next_chunk_idx (state_after r) /\
  0 <= read_buffer_len (state_after r).
Proof.
  intros Hc FS Hmin Hmax Hov Hidx Hlen.
  pose proof (chunk_of_state _ _ Hc) as (SC & Hi & Ht & Hn & Htot & _).
  pose proof (state_after_fields r) as (SC' & Hn' & _ & Hl' & Hu' & _).
  destruct Hc as (Eof & cf & vs & vstart & F & H). cbv zeta in H.
  destruct H as (L & _ & _ & HB & Hci & Hc).
  pose proof (fill_read_buffer_spec _ _ _ _ _ F)
    as (SCf & Lf & Lle & _ & _ & _ & _ & _ & _ & Rem).
  specialize (Rem remaining FS).
  pose proof (handoff_to_next_spec cf (cr_info r) (total_samples_read cctx)
                (next_chunk_idx cctx) (cr_eof r)) as HS.
  cbv zeta in HS. rewrite <- Hc in HS.
  destruct HS as (_ & Hl2 & _ & Hu2 & _).
  pose proof (make_chunk_info_fields cf (cr_found_boundary r)
    (cr_buffer_len r - overlap_offset_of cctx (next_chunk_idx cctx))
    (overlap_offset_of cctx (next_chunk_idx cctx))
    (total_samples_read cctx) (cr_eof r)) as Hf.
  cbv zeta in Hf. rewrite <- Hci in Hf. destruct Hf as (F1 & F2 & _ & F4).
  assert (Hcf : min_chunk_samples cf = min_chunk_samples cctx /\
                max_chunk_samples cf = max_chunk_samples cctx /\
                overlap_samples cf = overlap_samples cctx)
    by (unfold same_config in SCf; tauto).
  destruct Hcf as (Cmin & Cmax & Cov).
  assert (HBpos : 1 <= cr_found_boundary r).
  { rewrite HB. apply find_chunk_boundary_pos; lia. }
  assert (Hcs : 1 <= ci_chunk_samples (cr_info r)).
  { rewrite F4. destruct (_ && _); lia. }
  unfold run_bound. rewrite Hn', Hl', Hu', Hn, Hl2, Hu2, Lf, F2, Cov.
  unfold overlap_offset_of in *.
  split; [|split; lia].
  destruct (Z.gtb_spec (next_chunk_idx cctx) 0) as [G|G];
    destruct (Z.gtb_spec (next_chunk_idx cctx + 1) 0) as [G'|G']; lia.
Qed.

(** The size of a chunk: either the end-of-stream rule gives it the whole
    tail, and the stream is then at its end, or it is cut at the
    boundary, between the minimum (in whole centiseconds) and the
    maximum. *)
Lemma chunk_of_size cctx r :
  chunk_of cctx r ->
  1 <= min_chunk_samples cctx <= max_chunk_samples cctx ->
  max_chunk_samples cctx <= INT_MAX ->
  0 <= overlap_samples cctx ->
  let oo := overlap_offset_of cctx (cr_chunk_idx r) in
  let available := cr_buffer_len r - oo in
  let B := cr_found_boundary r in
  let cs := ci_chunk_samples (cr_info r) in
  ci_overlap_offset (cr_info r) = oo /\
  1 <= B <= available /\
  ((cr_eof r = true /\ available - B < min_chunk_samples cctx /\
    cs = available /\ eof (cr_cctx r) = true) \/
   (~ (cr_eof r = true /\ available - B < min_chunk_samples cctx) /\
    cs = B /\
    cs_to_samples (samples_to_cs (min_chunk_samples cctx)) <= B
      <= max_chunk_samples cctx)).
Proof.
  intros Hc Hmm Hmax Hov.
  pose proof (chunk_of_state _ _ Hc) as (SC & Hi & _).
  destruct Hc as (Eof & cf & vs & vstart & F & H). cbv zeta in H.
  destruct H as (L & _ & _ & HB & Hci & Hc).
  rewrite Hi.
  set (oo := overlap_offset_of cctx (next_chunk_idx cctx)) in *.
  pose proof (fill_read_buffer_spec _ _ _ _ _ F)
    as (SCf & Lf & _ & Post & _).
  assert (Hcf : min_chunk_samples cf = min_chunk_samples cctx /\
                max_chunk_samples cf = max_chunk_samples cctx /\
                overlap_samples cf = overlap_samples cctx)
    by (unfold same_config in SCf; tauto).
  destruct Hcf as (Cmin & Cmax & Cov).
  pose proof (make_chunk_info_fields cf (cr_found_boundary r)
    (cr_buffer_len r - oo) oo (total_samples_read cctx) (cr_eof r)) as Hf.
  cbv zeta in Hf. rewrite <- Hci in Hf. destruct Hf as (F1 & F2 & _ & F4).
  rewrite Cmin in F4.
  pose proof (find_chunk_boundary_range cf (cr_buffer_len r - oo) vs vstart
                ltac:(lia) ltac:(lia)) as R.
  cbv zeta in R. rewrite <- HB, Cmin, Cmax in R. destruct R as [R1 R2].
  pose proof (samples_to_cs_bounds (min_chunk_samples cctx) ltac:(lia)) as Hrs.
  rewrite cs_to_samples_mul in *.
  assert (Hoo : 0 <= oo <= overlap_samples cctx).
  { unfold oo, overlap_offset_of. destruct (_ >? 0); lia. }
  assert (HBav : 1 <= cr_found_boundary r <= cr_buffer_len r - oo).
  { pose proof (find_chunk_boundary_pos cf (cr_buffer_len r - oo) vs vstart
                  ltac:(lia) ltac:(lia) ltac:(lia)) as Hpos.
    rewrite <- HB in Hpos.
    destruct (Z_le_gt_dec
                (Z.min (max_chunk_samples cctx) (cr_buffer_len r - oo))
                (min_chunk_samples cctx)); [rewrite R1 by lia|]; lia. }
  cbv zeta. split; [exact F1|]. split; [exact HBav|].
  destruct (cr_eof r) eqn:E; cbn [andb] in F4.
  - destruct (Z.ltb_spec (cr_buffer_len r - oo - cr_found_boundary r)
                (min_chunk_samples cctx)) as [T|T].
    + left. repeat split; auto.
      pose proof (handoff_to_next_spec cf (cr_info r)
                    (total_samples_read cctx) (next_chunk_idx cctx) true) as HS.
      cbv zeta in HS. rewrite <- Hc in HS.
      destruct HS as (_ & _ & _ & _ & _ & _ & _ & He).
      rewrite He, F2, F4, Lf, Cov. apply orb_true_iff. right.
      cbn [andb]. apply Z.leb_le. lia.
    + right. split; [lia|]. split; [exact F4|].
      destruct (Z_le_gt_dec
                  (Z.min (max_chunk_samples cctx) (cr_buffer_len r - oo))
                  (min_chunk_samples cctx)); [rewrite R1 by lia|]; lia.
  - right. split; [intros [? _]; discriminate|]. split; [exact F4|].
    destruct Post as [?|Post]; [discriminate|].
    destruct (Z_le_gt_dec
                (Z.min (max_chunk_samples cctx) (cr_buffer_len r - oo))
                (min_chunk_samples cctx)); [rewrite R1 by lia|]; lia.
Qed.

(** After a chunk that leaves the stream at its end no chunk follows. *)
Lemma run_trace_eof l : forall cctx final,
  eof cctx = true -> run_trace cctx l final -> l = [].
Proof.
  intros cctx final E H. destruct l as [|r l]; auto.
  cbn [run_trace] in H. destruct H as [(E' & _) _]. congruence.
Qed.

Lemma run_trace_sizes l : forall cctx final,
  run_trace cctx l final ->
  1 <= min_chunk_samples cctx <= max_chunk_samples cctx ->
  max_chunk_samples cctx <= INT_MAX ->
  0 <= overlap_samples cctx ->
  forall i r, nth_error l i = Some r ->
  let oo := ci_overlap_offset (cr_info r) in
  let available := cr_buffer_len r - oo in
  let B := cr_found_boundary r in
  let cs := ci_chunk_samples (cr_info r) in
  1 <= B <= available /\
  ((cr_eof r = true /\ available - B < min_chunk_samples cctx /\
    cs = available /\ S i = length l) \/
   (~ (cr_eof r = true /\ available - B < min_chunk_samples cctx) /\
    cs = B /\
    cs_to_samples (samples_to_cs (min_chunk_samples cctx)) <= B
      <= max_chunk_samples cctx)).
Proof.
  induction l as [|r0 l IH]; intros cctx final H Hmm Hmax Hov i r E.
  - destruct i; discriminate.
  - cbn [run_trace] in H. destruct H as [Hc Hr].
    pose proof (chunk_of_state _ _ Hc) as (SC & _).
    pose proof (state_after_fields r0) as (SC' & _ & _ & _ & _ & _ & Eo).
    pose proof (same_config_trans _ _ _ SC SC') as SC2.
    unfold same_config in SC2.
    destruct SC2 as (_ & _ & Cov & Cmin & Cmax & _).
    destruct i as [|i].
    + cbn [nth_error] in E. inversion E; subst r0.
      pose proof (chunk_of_size _ _ Hc Hmm Hmax Hov) as S. cbv zeta in S.
      destruct S as (Ho & HB & S). cbv zeta. rewrite Ho.
      split; [exact HB|].
      destruct S as [(S1 & S2 & S3 & S4) | S]; [left|right; exact S].
      repeat split; auto.
      rewrite (run_trace_eof l (state_after r) final); auto.
      rewrite Eo, S4. apply orb_true_r.
    + cbn [nth_error] in E.
      specialize (IH _ _ Hr ltac:(lia) ltac:(lia) ltac:(lia) i r E).
      cbv zeta in IH. rewrite Cmin, Cmax in IH. cbv zeta.
      destruct IH as (HB & [(S1 & S2 & S3 & S4) | S]); split; auto.
      left. repeat split; auto. cbn [length]. lia.
Qed.

(** The buffer stays within its capacity along a run. *)
Lemma chunk_of_capacity cctx r :
  chunk_of cctx r -> read_contract cctx -> within_capacity cctx ->
  0 <= cr_buffer_len r <= buffer_size cctx /\
  within_capacity (cr_cctx r) /\ within_capacity (state_after r).
Proof.
  intros Hc RC [W0 W1].
  pose proof (chunk_of_state _ _ Hc) as (SC & _).
  pose proof (state_after_fields r) as (SC' & _ & _ & Hl' & _).
  destruct Hc as (Eof & cf & vs & vstart & F & H). cbv zeta in H.
  destruct H as (L & _ & _ & HB & Hci & Hc).
  pose proof (fill_read_buffer_spec _ _ _ _ _ F)
    as (SCf & Lf & Lle & _ & _ & _ & _ & _ & Cap & _).
  specialize (Cap RC W1).
  pose proof (handoff_to_next_spec cf (cr_info r) (total_samples_read cctx)
                (next_chunk_idx cctx) (cr_eof r)) as HS.
  cbv zeta in HS. rewrite <- Hc in HS. destruct HS as (_ & Hl2 & _).
  assert (B1 : buffer_size (cr_cctx r) = buffer_size cctx)
    by (unfold same_config in SC; tauto).
  assert (B2 : buffer_size (state_after r) = buffer_size (cr_cctx r))
    by (unfold same_config in SC'; tauto).
  unfold within_capacity. rewrite Hl', B2, B1, Hl2, Lf. lia.
Qed.

Lemma run_trace_capacity l : forall cctx final,
  run_trace cctx l final -> read_contract cctx -> within_capacity cctx ->
  within_capacity final /\
  Forall (fun r => 0 <= cr_buffer_len r <= buffer_size cctx /\
                   0 <= read_buffer_len (cr_cctx r) <= buffer_size cctx) l.
Proof.
  induction l as [|r l IH]; intros cctx final H RC W.
  - split; [|constructor]. cbn [run_trace] in H.
    destruct H as [(E & ->) | (E & cf & len & e & F & L & ->)]; auto.
    pose proof (fill_read_buffer_spec _ _ _ _ _ F)
      as (SCf & Lf & Lle & _ & _ & _ & _ & _ & Cap & _).
    destruct W as [W0 W1]. specialize (Cap RC W1).
    pose proof (set_eof_spec cf false) as S. cbv zeta in S.
    destruct S as (SC' & Hl & _).
    unfold within_capacity. rewrite Hl, Lf.
    replace (buffer_size (set_eof cf false)) with (buffer_size cctx)
      by (unfold same_config in *; intuition congruence).
    lia.
  - cbn [run_trace] in H. destruct H as [Hc Hr].
    pose proof (chunk_of_capacity _ _ Hc RC W) as (C1 & C2 & C3).
    pose proof (chunk_of_state _ _ Hc) as (SC & _).
    pose proof (state_after_fields r) as (SC' & _).
    pose proof (same_config_trans _ _ _ SC SC') as SC2.
    assert (RC' : read_contract (state_after r)).
    { unfold read_contract in *. unfold same_config in SC2.
      destruct SC2 as (-> & _). exact RC. }
    destruct (IH _ _ Hr RC' C3) as [Wf All].
    split; auto. constructor.
    + split; auto. unfold within_capacity in C2.
      replace (buffer_size cctx) with (buffer_size (cr_cctx r))
        by (unfold same_config in SC; tauto). exact C2.
    + replace (buffer_size cctx) with (buffer_size (state_after r))
        by (unfold same_config in SC2; tauto). exact All.
Qed.

(** What the buffer holds after the hand-off of a chunk of a run. *)
Lemma chunk_of_handoff cctx r :
  chunk_of cctx r ->
  1 <= min_chunk_samples cctx <= max_chunk_samples cctx ->
  max_chunk_samples cctx <= INT_MAX ->
  0 <= overlap_samples cctx ->
  let actual := ci_actual_chunk_samples (cr_info r) in
  0 < actual <= cr_buffer_len r /\
  read_buffer_len (cr_cctx r) =
    Z.min (overlap_samples cctx) actual + (cr_buffer_len r - actual).
Proof.
  intros Hc Hmm Hmax Hov.
  pose proof (chunk_of_size _ _ Hc Hmm Hmax Hov) as S. cbv zeta in S.
  pose proof (chunk_of_state _ _ Hc) as (_ & Hi & _).
  destruct Hc as (Eof & cf & vs & vstart & F & H). cbv zeta in H.
  destruct H as (L & _ & _ & HB & Hci & Hc).
  pose proof (fill_read_buffer_spec _ _ _ _ _ F) as (SCf & Lf & _).
  pose proof (handoff_to_next_spec cf (cr_info r) (total_samples_read cctx)
                (next_chunk_idx cctx) (cr_eof r)) as HS.
  cbv zeta in HS. rewrite <- Hc in HS. destruct HS as (_ & Hl2 & _).
  pose proof (make_chunk_info_fields cf (cr_found_boundary r)
    (cr_buffer_len r - overlap_offset_of cctx (next_chunk_idx cctx))
    (overlap_offset_of cctx (next_chunk_idx cctx))
    (total_samples_read cctx) (cr_eof r)) as Hf.
  cbv zeta in Hf. rewrite <- Hci in Hf. destruct Hf as (F1 & F2 & _).
  replace (overlap_samples cf) with (overlap_samples cctx) in Hl2
    by (unfold same_config in SCf; symmetry; tauto).
  rewrite Hi in S. destruct S as (_ & HBav & S).
  assert (Hoo : 0 <= overlap_offset_of cctx (next_chunk_idx cctx)).
  { unfold overlap_offset_of. destruct (_ >? 0); lia. }
  cbv zeta. rewrite Hl2, Lf, F2.
  destruct S as [(_ & _ & S3 & _) | (_ & S3 & _)]; rewrite S3; lia.
Qed.

Lemma run_trace_handoff l : forall cctx final,
  run_trace cctx l final ->
  1 <= min_chunk_samples cctx <= max_chunk_samples cctx ->
  max_chunk_samples cctx <= INT_MAX ->
  0 <= overlap_samples cctx ->
  Forall (fun r =>
            let actual := ci_actual_chunk_samples (cr_info r) in
            0 < actual <= cr_buffer_len r /\
            read_buffer_len (cr_cctx r) =
              Z.min (overlap_samples cctx) actual
              + (cr_buffer_len r - actual)) l.
Proof.
  induction l as [|r l IH]; intros cctx final H Hmm Hmax Hov;
    [constructor|].
  cbn [run_trace] in H. destruct H as [Hc Hr].
  pose proof (chunk_of_state _ _ Hc) as (SC & _).
  pose proof (state_after_fields r) as (SC' & _).
  pose proof (same_config_trans _ _ _ SC SC') as SC2.
  unfold same_config in SC2.
  destruct SC2 as (_ & _ & Cov & Cmin & Cmax & _).
  constructor.
  - apply chunk_of_handoff; auto.
  - specialize (IH _ _ Hr ltac:(lia) ltac:(lia) ltac:(lia)).
    rewrite Cov in IH. exact IH.
Qed.

End Trace.

(** ** [process_one_chunk] and the loop *)

Section Chunk.
Context {sample src host : Type}.
Implicit Types (cctx : @common_ctx sample src host)
  (tctx : @thread_ctx sample).

Variable env : @environment sample host.

(** The three ways [process_one_chunk] ends: the stream is at its end,
    the buffer holds nothing new, or a chunk is cut and transcribed. *)
Lemma process_one_chunk_cases cctx tctx ret cctx' tctx' rec evs :
  process_one_chunk env cctx tctx = (ret, cctx', tctx', rec, evs) ->
  (eof cctx = true /\ ret = -1 /\ cctx' = cctx /\ tctx' = tctx /\
   rec = None /\ evs = []) \/
  (eof cctx = false /\
   exists cctx1 len e,
     fill_read_buffer cctx (max_chunk_samples cctx + overlap_samples cctx)
       false = (cctx1, len, e) /\
     let oo := overlap_offset_of cctx (next_chunk_idx cctx) in
     ((len <= oo /\ ret = -1 /\ cctx' = set_eof cctx1 false /\
       tctx' = tctx /\ rec = None /\ evs = []) \/
      (oo < len /\
       exists vs vstart context er_ret aborted,
         let B := fst (find_chunk_boundary cctx1 (len - oo) vs vstart) in
         let ci := make_chunk_info cctx1 B (len - oo) oo
                     (total_samples_read cctx) e in
         let cctx2 := handoff_to_next cctx1 ci (total_samples_read cctx)
                        (next_chunk_idx cctx) e in
         let r := mk_chunk_record (next_chunk_idx cctx)
                    (total_samples_read cctx) len e B ci context er_ret
                    aborted cctx2 in
         rec = Some r /\
         engine_verdict env (abort_cb cctx2) r /\
         ((chunk_failed r = true /\ ret = er_ret /\
           cctx' = set_eof cctx2 true) \/
          (chunk_failed r = false /\ ret = 0 /\ cctx' = cctx2))))).
Proof.
  intros E. unfold Stream.process_one_chunk, wait_for_turn in E.
  destruct (eof cctx) eqn:Eof.
  { inversion E; subst. left. repeat split; auto. }
  right. split; auto.
  destruct (fill_read_buffer cctx _ false) as [[cctx1 len] e] eqn:F.
  exists cctx1, len, e. split; auto.
  fold (overlap_offset_of cctx (next_chunk_idx cctx)) in E.
  set (oo := overlap_offset_of cctx (next_chunk_idx cctx)) in *.
  cbv zeta in E.
  destruct (chunk_vad cctx1 tctx len oo) as [vad_start vad_segs].
  destruct (Z.leb_spec len oo) as [L|L].
  { inversion E; subst. left. repeat split; auto. }
  right. split; auto.
  destruct (Z.gtb_spec len oo) as [L'|L']; [|lia].
  match type of E with
  | context [engine_callbacks ?c ?t ?sg ?l] =>
      destruct (engine_callbacks c t sg l) as [tctx1 ev]
  end.
  match type of E with
  | context [whisper_full env ?i ?b ?c] =>
      set (er := whisper_full env i b c) in *; set (context := c) in *
  end.
  set (aborted := match abort_cb _ with Some cb => _ | None => false end) in *.
  exists vad_segs, vad_start, context, (er_ret er), aborted.
  cbv zeta. unfold chunk_failed, engine_verdict;
    cbn [cr_ret cr_aborted cr_chunk_idx cr_context].
  assert (V : exists buf,
             er_ret er = er_ret (whisper_full env (next_chunk_idx cctx) buf
                                   context))
    by (eexists; reflexivity).
  destruct (negb (er_ret er =? 0) || aborted);
    inversion E; subst; repeat split; auto.
Qed.

(** The same in terms of [chunk_of], [state_after] and [stops_at]. *)
Lemma process_one_chunk_step cctx tctx ret cctx' tctx' rec evs :
  process_one_chunk env cctx tctx = (ret, cctx', tctx', rec, evs) ->
  (rec = None /\ ret = -1 /\ stops_at cctx cctx') \/
  (exists r, rec = Some r /\ chunk_of cctx r /\
             engine_verdict env (abort_cb cctx) r /\
             cctx' = state_after r /\
             ret = (if chunk_failed r then cr_ret r else 0)).
Proof.
  intros P. apply process_one_chunk_cases in P.
  destruct P as [(Eof & Hret & Hc & _ & Hrec & _) | (Eof & cf & len & e & F & P)].
  - left. repeat split; auto. left; auto.
  - cbv zeta in P.
    destruct P as [(L & Hret & Hc & _ & Hrec & _) |
                   (L & vs & vstart & context & eret & ab & Hrec & V & P)].
    + left. repeat split; auto. right. split; auto. exists cf, len, e. auto.
    + right. eexists. split; [exact Hrec|].
      split; [split; auto; exists cf, vs, vstart; cbn; repeat split; auto|].
      split.
      * pose proof (fill_read_buffer_spec _ _ _ _ _ F) as (SC1 & _).
        match type of V with
        | engine_verdict _ (abort_cb (handoff_to_next ?c ?i ?t ?n ?b)) _ =>
            pose proof (handoff_to_next_spec c i t n b) as HS
        end.
        cbv zeta in HS. destruct HS as (SC2 & _).
        pose proof (same_config_trans _ _ _ SC1 SC2) as SC.
        unfold same_config in SC.
        replace (abort_cb cctx) with
          (abort_cb (handoff_to_next cf
             (make_chunk_info cf
                (fst (find_chunk_boundary cf
                   (len - overlap_offset_of cctx (next_chunk_idx cctx)) vs
                   vstart))
                (len - overlap_offset_of cctx (next_chunk_idx cctx))
                (overlap_offset_of cctx (next_chunk_idx cctx))
                (total_samples_read cctx) e)
             (total_samples_read cctx) (next_chunk_idx cctx) e))
          by tauto.
        exact V.
      * unfold state_after.
        destruct P as [(Fl & Hret & Hc) | (Fl & Hret & Hc)];
          rewrite Fl; auto.
Qed.

Lemma chunk_loop_trace fuel : forall cctx tctx run,
  chunk_loop env fuel cctx tctx = Some run ->
  run_trace cctx (rr_chunks run) (rr_cctx run).
Proof.
  induction fuel as [|fuel IH]; intros cctx tctx run; cbn [chunk_loop];
    [discriminate|].
  destruct (process_one_chunk env cctx tctx)
    as [[[[ret cctx1] tctx1] rec] evs] eqn:P.
  apply process_one_chunk_step in P.
  destruct P as [(-> & -> & S) | (r & -> & Hc & V & -> & ->)].
  - cbn. intros E; inversion E; subst; cbn. exact S.
  - destruct ((if chunk_failed r then cr_ret r else 0) =? 0) eqn:Z0.
    + destruct (chunk_loop env fuel _ tctx1) as [r1|] eqn:L1; [|discriminate].
      intros E; inversion E; subst; cbn [rr_chunks rr_cctx add_chunk run_trace].
      split; auto. eapply IH; eauto.
    + intros E; inversion E; subst; cbn [rr_chunks rr_cctx add_chunk run_trace].
      split; auto. left. split; auto.
      unfold state_after. destruct (chunk_failed r); [|discriminate].
      reflexivity.
Qed.

(** Every record of a run tells what the engine returned and what the
    abort callback answered. *)
Lemma chunk_loop_verdicts fuel : forall cctx tctx run,
  chunk_loop env fuel cctx tctx = Some run ->
  Forall (engine_verdict env (abort_cb cctx)) (rr_chunks run).
Proof.
  induction fuel as [|fuel IH]; intros cctx tctx run; cbn [chunk_loop];
    [discriminate|].
  destruct (process_one_chunk env cctx tctx)
    as [[[[ret cctx1] tctx1] rec] evs] eqn:P.
  apply process_one_chunk_step in P.
  destruct P as [(-> & -> & S) | (r & -> & Hc & V & -> & ->)].
  - cbn. intros E; inversion E; subst; cbn. constructor.
  - pose proof (chunk_of_state _ _ Hc) as (SC & _).
    pose proof (state_after_fields r) as (SC' & _).
    pose proof (same_config_trans _ _ _ SC SC') as SC2.
    unfold same_config in SC2.
    destruct ((if chunk_failed r then cr_ret r else 0) =? 0) eqn:Z0.
    + destruct (chunk_loop env fuel _ tctx1) as [r1|] eqn:L1; [|discriminate].
      intros E; inversion E; subst; cbn [rr_chunks add_chunk].
      constructor; auto. apply IH in L1.
      replace (abort_cb (state_after r)) with (abort_cb cctx) in L1 by
        (symmetry; tauto).
      exact L1.
    + intros E; inversion E; subst; cbn [rr_chunks add_chunk].
      constructor; auto.
Qed.

(** With a finite source the loop ends within [run_bound] iterations. *)
Lemma chunk_loop_terminates remaining fuel : forall cctx tctx,
  finite_source cctx remaining ->
  1 <= min_chunk_samples cctx -> 1 <= max_chunk_samples cctx ->
  0 <= overlap_samples cctx ->
  0 <= next_chunk_idx cctx -> 0 <= read_buffer_len cctx ->
  (run_bound cctx remaining <= fuel)%nat ->
  exists run, chunk_loop env fuel cctx tctx = Some run.
Proof.
  induction fuel as [|fuel IH]; intros cctx tctx FS Hmin Hmax Hov Hidx Hlen Hb.
  - unfold run_bound in Hb. lia.
  - cbn [chunk_loop].
    destruct (process_one_chunk env cctx tctx)
      as [[[[ret cctx1] tctx1] rec] evs] eqn:P.
    apply process_one_chunk_step in P.
    destruct P as [(-> & -> & S) | (r & -> & Hc & V & -> & ->)].
    + cbn. eauto.
    + destruct ((if chunk_failed r then cr_ret r else 0) =? 0); [|eauto].
      destruct (chunk_of_progress _ _ _ Hc FS Hmin Hmax Hov Hidx Hlen)
        as (Hlt & Hi' & Hl').
      pose proof (chunk_of_state _ _ Hc) as (SC & _).
      pose proof (state_after_fields r) as (SC' & _).
      pose proof (same_config_trans _ _ _ SC SC') as SC2.
      unfold same_config in SC2.
      destruct SC2 as (Crcb & _ & Cov & Cmin & Cmax & _).
      destruct (IH (state_after r) tctx1) as [run L]; try lia.
      * unfold finite_source in *. rewrite Crcb. exact FS.
      * rewrite L. eauto.
Qed.

End Chunk.

(** ** The whole stream *)

Section Full.
Context {sample src host : Type}.
Implicit Types (cctx final : @common_ctx sample src host)
  (tctx : @thread_ctx sample)
  (r : @chunk_record sample src host)
  (l : list (@chunk_record sample src host))
  (sparams : @whisper_stream_params sample src host)
  (env : @environment sample host).

(** A stream that returns with a run passed the assertions and the
    allocations and ran the loop of the single worker. *)
Lemma whisper_stream_full_run env fuel mem sparams ret
    (run : @run_result sample src host) :
  whisper_stream_full env fuel mem sparams = Returned ret (Some run) ->
  exists rcb,
    read_callback sparams = Some rcb /\
    0 < min_chunk_ms sparams /\
    0 <= overlap_ms sparams < min_chunk_ms sparams /\
    slot1_ctx sparams = false /\
    chunk_loop env fuel (initial_cctx sparams rcb) (init_thread_ctx sparams 0)
      = Some run /\
    ret = (if abort (rr_cctx run) then -1 else 0).
Proof.
  unfold whisper_stream_full.
  destruct (read_callback sparams) as [rcb|]; [|discriminate].
  destruct (slot0_ctx sparams); cbn [negb]; [|discriminate].
  destruct (Z.gtb_spec (min_chunk_ms sparams) 0) as [M|M]; cbn [negb];
    [|discriminate].
  destruct (Z.geb_spec (overlap_ms sparams) 0) as [O|O]; cbn [negb andb];
    [|discriminate].
  destruct (Z.ltb_spec (overlap_ms sparams) (min_chunk_ms sparams)) as [O'|O'];
    cbn [negb]; [|discriminate].
  destruct (alloc_read_buffer mem); cbn [negb]; [|discriminate].
  destruct (alloc_buffer mem && alloc_tokens mem); cbn [negb]; [|discriminate].
  destruct (slot1_ctx sparams); [discriminate|].
  fold (min_chunk_samples_of sparams). fold (max_chunk_samples_of sparams).
  fold (overlap_samples_of sparams). fold (initial_cctx sparams rcb).
  destruct (chunk_loop env fuel _ _) as [r1|] eqn:L; [|discriminate].
  intros E; inversion E; subst. exists rcb. repeat split; auto; lia.
Qed.

Lemma ms_to_samples ms :
  int_range (WHISPER_SAMPLE_RATE * ms) ->
  Z.quot (to_int (WHISPER_SAMPLE_RATE * ms)) 1000 = 16 * ms.
Proof.
  intros R. rewrite to_int_id by exact R.
  unfold WHISPER_SAMPLE_RATE.
  replace (16000 * ms) with (16 * ms * 1000) by lia.
  apply Z.quot_mul. lia.
Qed.

(** The sizes when the products fit an [int]. *)
Lemma durations_fit_sizes sparams :
  durations_fit sparams ->
  min_chunk_samples_of sparams = 16 * min_chunk_ms sparams /\
  max_chunk_samples_of sparams
    = 16 * min_chunk_ms sparams + 16 * chunk_extend_ms sparams /\
  overlap_samples_of sparams = 16 * overlap_ms sparams.
Proof.
  intros (F1 & F2 & F3).
  unfold max_chunk_samples_of, min_chunk_samples_of, overlap_samples_of.
  rewrite !ms_to_samples by assumption. auto.
Qed.

(** Whatever the durations, the sizes are within the range of [int] with
    room to add them. *)
Lemma sizes_small sparams :
  -2147484 < min_chunk_samples_of sparams < 2147484 /\
  -4294968 < max_chunk_samples_of sparams < 4294968 /\
  -2147484 < overlap_samples_of sparams < 2147484.
Proof.
  assert (Q : forall x, -2147484 < Z.quot (to_int x) 1000 < 2147484).
  { intros x. unfold to_int, wrap.
    change (2 ^ (32 - 1)) with 2147483648.
    change (2 ^ 32) with 4294967296.
    pose proof (Z.mod_pos_bound (x + 2147483648) 4294967296 ltac:(lia)) as B.
    set (y := (x + 2147483648) mod 4294967296 - 2147483648) in *.
    assert (By : -2147483648 <= y < 2147483648) by (unfold y; lia).
    clearbody y. clear B.
    destruct (Z_le_gt_dec 0 y) as [P|N].
    - pose proof (Z.quot_pos y 1000 P ltac:(lia)).
      assert (Z.quot y 1000 <= Z.quot 2147483647 1000)
        by (apply Z.quot_le_mono; lia).
      change (Z.quot 2147483647 1000) with 2147483 in *. lia.
    - assert (Z.quot (-2147483648) 1000 <= Z.quot y 1000)
        by (apply Z.quot_le_mono; lia).
      assert (Z.quot y 1000 <= Z.quot 0 1000)
        by (apply Z.quot_le_mono; lia).
      change (Z.quot (-2147483648) 1000) with (-2147483) in *.
      change (Z.quot 0 1000) with 0 in *. lia. }
  unfold max_chunk_samples_of, min_chunk_samples_of, overlap_samples_of.
  pose proof (Q (WHISPER_SAMPLE_RATE * min_chunk_ms sparams)).
  pose proof (Q (WHISPER_SAMPLE_RATE * chunk_extend_ms sparams)).
  pose proof (Q (WHISPER_SAMPLE_RATE * overlap_ms sparams)).
  lia.
Qed.

(** The two ways [whisper_stream_full] returns. *)
Lemma whisper_stream_full_returned env fuel mem sparams ret
    (run : option (@run_result sample src host)) :
  whisper_stream_full env fuel mem sparams = Returned ret run ->
  (run = None /\ ret = -1 /\ allocations_ok mem = false) \/
  (exists rn, run = Some rn /\ allocations_ok mem = true /\
              ret = (if abort (rr_cctx rn) then -1 else 0)).
Proof.
  unfold whisper_stream_full, allocations_ok.
  destruct (read_callback sparams) as [rcb|]; [|discriminate].
  destruct (negb (slot0_ctx sparams)); [discriminate|].
  destruct (negb (min_chunk_ms sparams >? 0)); [discriminate|].
  destruct (negb _); [discriminate|].
  destruct (alloc_read_buffer mem); cbn [negb andb].
  2:{ intros E; inversion E; subst. left. auto. }
  destruct (alloc_buffer mem && alloc_tokens mem); cbn [negb].
  2:{ intros E; inversion E; subst. left. auto. }
  destruct (slot1_ctx sparams); [discriminate|].
  destruct (chunk_loop env fuel _ _) as [r1|]; [|discriminate].
  intros E; inversion E; subst. right. exists r1. auto.
Qed.

End Full.

(** C5. For the chunk of index [i] of a run: [overlap_offset] is 0 when
    [i = 0] and [overlap_samples] otherwise, [actual_chunk_samples] is
    [chunk_samples + overlap_offset], and [time_offset] is
    [100 * (samples_before - overlap_offset) / sample_rate] in integer
    arithmetic, where [samples_before] is the sum of [chunk_samples] over
    the earlier chunks. *)
Theorem chunk_descriptor_invariant {sample src host : Type}
    (env : @environment sample host) (fuel : nat) (mem : allocations)
    (sparams : @whisper_stream_params sample src host) (ret : Z)
    (run : @run_result sample src host) (i : nat)
    (rec : @chunk_record sample src host) :
  whisper_stream_full env fuel mem sparams = Returned ret (Some run) ->
  nth_error (rr_chunks run) i = Some rec ->
  let ci := cr_info rec in
  let samples_before := zsum (chunk_sizes (firstn i (rr_chunks run))) in
  cr_chunk_idx rec = Z.of_nat i /\
  cr_total_samples rec = samples_before /\
  ci_overlap_offset ci =
    (if (i =? 0)%nat then 0 else overlap_samples_of sparams) /\
  ci_actual_chunk_samples ci = ci_chunk_samples ci + ci_overlap_offset ci /\
  ci_time_offset ci =
    Z.quot (100 * (samples_before - ci_overlap_offset ci)) WHISPER_SAMPLE_RATE.
Proof.
  intros H E.
  apply whisper_stream_full_run in H.
  destruct H as (rcb & _ & _ & _ & _ & L & _).
  apply chunk_loop_trace in L. apply run_trace_descriptors in L.
  pose proof (descriptors_from_nth _ _ _ _ _ _ L E) as D. cbv zeta in D.
  unfold initial_cctx, init_common_ctx in D.
  cbn [next_chunk_idx total_samples_read overlap_samples] in D.
  rewrite !Z.add_0_l in D.
  destruct D as (D1 & D2 & D3 & D4 & D5).
  cbv zeta. repeat split; auto.
  rewrite D3. destruct i; [reflexivity|].
  destruct (Z.gtb_spec (Z.of_nat (S i)) 0); [reflexivity|lia].
Qed.

(** C9. [whisper_stream_full] returns 0 exactly when the stream ran to
    its end without the abort flag being set; it returns -1 when an
    allocation of the initialisation fails or when the run ends with the
    abort flag set, which is the case exactly when [whisper_full] returned
    nonzero for some chunk or the abort callback of the host answered true
    after some chunk.  With a finite source and durations whose products
    by the sample rate fit an [int], the function does return. *)
Theorem whisper_stream_full_return {sample src host : Type}
    (env : @environment sample host) (mem : allocations)
    (sparams : @whisper_stream_params sample src host) :
  (forall fuel ret run,
     whisper_stream_full env fuel mem sparams = Returned ret run ->
     (ret = 0 \/ ret = -1) /\
     (run = None <-> allocations_ok mem = false) /\
     (forall r, run = Some r ->
        eof (rr_cctx r) = true /\
        (abort (rr_cctx r) = true <->
         exists rec, In rec (rr_chunks r) /\
                     (cr_ret rec <> 0 \/ cr_aborted rec = true)) /\
        Forall (engine_verdict env (abort_callback sparams)) (rr_chunks r)) /\
     (ret = 0 <->
      exists r, run = Some r /\ eof (rr_cctx r) = true /\
                abort (rr_cctx r) = false) /\
     (ret = -1 <->
      run = None \/ exists r, run = Some r /\ abort (rr_cctx r) = true)) /\
  (forall rcb remaining,
     read_callback sparams = Some rcb ->
     slot0_ctx sparams = true -> slot1_ctx sparams = false ->
     0 < min_chunk_ms sparams ->
     0 <= overlap_ms sparams < min_chunk_ms sparams ->
     0 <= chunk_extend_ms sparams ->
     durations_fit sparams ->
     finite_source (initial_cctx sparams rcb) remaining ->
     exists fuel ret run,
       whisper_stream_full env fuel mem sparams = Returned ret run).
Proof.
  split.
  - intros fuel ret run H.
    assert (Hrun : forall r, run = Some r ->
              eof (rr_cctx r) = true /\
              (abort (rr_cctx r) = true <->
               exists rec, In rec (rr_chunks r) /\
                           (cr_ret rec <> 0 \/ cr_aborted rec = true)) /\
              Forall (engine_verdict env (abort_callback sparams))
                (rr_chunks r)).
    { intros r ->. apply whisper_stream_full_run in H.
      destruct H as (rcb & _ & _ & _ & _ & L & _).
      pose proof (chunk_loop_verdicts _ _ _ _ _ L) as V.
      apply chunk_loop_trace, run_trace_flags in L.
      destruct L as [E A]. cbn in A. split; auto. split; auto.
      rewrite A, existsb_exists. unfold chunk_failed.
      split; intros (rec & I & F); exists rec; split; auto.
      - apply orb_true_iff in F. destruct F as [F|F]; auto.
        left. apply negb_true_iff, Z.eqb_neq in F. exact F.
      - apply orb_true_iff. destruct F as [F|F]; auto.
        left. apply negb_true_iff, Z.eqb_neq. exact F. }
    apply whisper_stream_full_returned in H.
    destruct H as [(-> & -> & Al) | (r & -> & Al & ->)].
    + split; [auto|]. split; [tauto|]. split; [exact Hrun|].
      split; split; try discriminate; auto.
      intros (r & E & _); discriminate.
    + destruct (Hrun r eq_refl) as (E & _).
      split; [destruct (abort (rr_cctx r)); auto|].
      split; [split; [discriminate|congruence]|].
      split; [exact Hrun|].
      destruct (abort (rr_cctx r)) eqn:Ab; split; split; try discriminate;
        eauto.
      * intros (r' & E' & _ & A'). inversion E'; subst. congruence.
      * intros [E'|(r' & E' & A')]; [discriminate|].
        inversion E'; subst. congruence.
  - intros rcb remaining Hr S0 S1 Hmin Hov Hext Fit FS.
    destruct (durations_fit_sizes sparams Fit) as (M1 & M2 & M3).
    destruct (allocations_ok mem) eqn:Al.
    + destruct (chunk_loop_terminates env remaining
                  (run_bound (initial_cctx sparams rcb) remaining)
                  (initial_cctx sparams rcb) (init_thread_ctx sparams 0))
        as [run L]; auto.
      * cbn. lia.
      * cbn. lia.
      * cbn. lia.
      * cbn. lia.
      * cbn. lia.
      * exists (run_bound (initial_cctx sparams rcb) remaining).
        unfold whisper_stream_full. rewrite Hr, S0, S1.
        unfold allocations_ok in Al.
        apply andb_true_iff in Al. destruct Al as [Al A3].
        apply andb_true_iff in Al. destruct Al as [A1 A2].
        rewrite A1, A2, A3. cbn [negb andb].
        destruct (Z.gtb_spec (min_chunk_ms sparams) 0); [|lia].
        destruct (Z.geb_spec (overlap_ms sparams) 0); [|lia].
        destruct (Z.ltb_spec (overlap_ms sparams) (min_chunk_ms sparams));
          [|lia].
        cbn [negb andb].
        fold (min_chunk_samples_of sparams).
        fold (max_chunk_samples_of sparams).
        fold (overlap_samples_of sparams). fold (initial_cctx sparams rcb).
        rewrite L. eauto.
    + exists O. unfold whisper_stream_full. rewrite Hr, S0.
      destruct (Z.gtb_spec (min_chunk_ms sparams) 0); [|lia].
      destruct (Z.geb_spec (overlap_ms sparams) 0); [|lia].
      destruct (Z.ltb_spec (overlap_ms sparams) (min_chunk_ms sparams));
        [|lia].
      cbn [negb andb]. unfold allocations_ok in Al.
      destruct (alloc_read_buffer mem); cbn [negb andb] in *; [|eauto].
      rewrite Al. cbn [negb]. eauto.
Qed.

(** C1. A segment the engine reports during a chunk with [time_offset],
    [output_start] and [chunk_samples], the worker holding [last_t1], is
    handed on with
    [t0 = max (t0_raw + time_offset, output_start, last_t1)] and
    [t1 = min (t1_raw + time_offset,
               time_offset + chunk_samples * 100 / sample_rate)];
    it is dropped exactly when [t0 >= t1], and otherwise it is emitted
    (with [t0 < t1]) and [last_t1] becomes [t1].  The segments emitted in
    order in a run have non-decreasing [t0] and [t1]. *)
Theorem segment_clipping_monotone {sample src host : Type} :
  (forall (tctx : @thread_ctx sample) (s : raw_segment),
     emit_segment tctx s =
     if emitted_t0 tctx s >=? emitted_t1 tctx s then (tctx, [])
     else (set_last_t1 tctx (emitted_t1 tctx s),
           [Segment_cb (emitted_t0 tctx s) (emitted_t1 tctx s)
              (seg_text s)])) /\
  (forall (tctx : @thread_ctx sample) (old new : list raw_segment),
     segment_cb tctx = true ->
     stream_segment_callback tctx (old ++ new) (Z.of_nat (length new)) =
     emit_segments tctx new) /\
  (forall (env : @environment sample host) (fuel : nat)
          (cctx : @common_ctx sample src host) (tctx : @thread_ctx sample)
          (run : @run_result sample src host),
     chunk_loop env fuel cctx tctx = Some run ->
     monotone_timestamps (segment_times (rr_events run))).
Proof.
  split; [exact emit_segment_spec|].
  split; [exact stream_segment_callback_new|].
  intros env fuel cctx tctx run H.
  eapply chained_monotone. eapply chunk_loop_chained. exact H.
Qed.

(** What the code does keep of the sizing rule.  In a run with
    [chunk_extend_ms >= 0] and durations whose products by the sample rate
    fit an [int]: when the end of the source has been seen and what would
    be left after the boundary is less than [min_chunk_samples], the chunk
    takes the whole tail ([buffer_len - overlap_offset]) and is the last
    one; every other chunk, so every chunk that is not the last, is cut at
    the boundary and has between [min_chunk_samples] rounded down to a
    whole centisecond and [max_chunk_samples] samples; the rounding
    changes nothing when [min_chunk_ms] is a multiple of 10. *)
Lemma chunk_sizing {sample src host : Type}
    (env : @environment sample host) (fuel : nat) (mem : allocations)
    (sparams : @whisper_stream_params sample src host) (ret : Z)
    (run : @run_result sample src host) (i : nat)
    (rec : @chunk_record sample src host) :
  whisper_stream_full env fuel mem sparams = Returned ret (Some run) ->
  0 <= chunk_extend_ms sparams ->
  durations_fit sparams ->
  nth_error (rr_chunks run) i = Some rec ->
  let min_samples := min_chunk_samples_of sparams in
  let max_samples := max_chunk_samples_of sparams in
  let min_cs := cs_to_samples (samples_to_cs min_samples) in
  let available := cr_buffer_len rec - ci_overlap_offset (cr_info rec) in
  let leftover := available - cr_found_boundary rec in
  let cs := ci_chunk_samples (cr_info rec) in
  (cr_eof rec = true /\ leftover < min_samples ->
   cs = available /\ S i = length (rr_chunks run)) /\
  (~ (cr_eof rec = true /\ leftover < min_samples) ->
   cs = cr_found_boundary rec /\ min_cs <= cs <= max_samples) /\
  ((S i < length (rr_chunks run))%nat -> min_cs <= cs <= max_samples) /\
  (cs < min_cs ->
   cr_eof rec = true /\ leftover < min_samples /\
   S i = length (rr_chunks run)) /\
  min_samples - 160 < min_cs <= min_samples /\
  (Z.rem (min_chunk_ms sparams) 10 = 0 -> min_cs = min_samples).
Proof.
  intros H Hext Fit E.
  apply whisper_stream_full_run in H.
  destruct H as (rcb & _ & Hmin & Hov & _ & L & _).
  apply chunk_loop_trace in L.
  destruct (durations_fit_sizes sparams Fit) as (M1 & M2 & M3).
  assert (Hmax : max_chunk_samples_of sparams <= INT_MAX)
    by (pose proof (sizes_small sparams); unfold INT_MAX; lia).
  pose proof (run_trace_sizes _ _ _ L) as S.
  cbn [initial_cctx init_common_ctx min_chunk_samples max_chunk_samples
       overlap_samples] in S.
  specialize (S ltac:(lia) Hmax ltac:(lia) i rec E). cbv zeta in S.
  pose proof (samples_to_cs_bounds (min_chunk_samples_of sparams)
                ltac:(lia)) as Hrs.
  cbv zeta. rewrite cs_to_samples_mul in *.
  destruct S as (HB & S).
  split; [|split; [|split; [|split; [|split]]]].
  - intros T. destruct S as [(S1 & S2 & S3 & S4) | (N & _)]; [auto|tauto].
  - intros N. destruct S as [(S1 & S2 & _) | (_ & S3 & S4)]; [tauto|].
    rewrite S3. auto.
  - intros Lt. destruct S as [(_ & _ & _ & S4) | (_ & S3 & S4)]; [lia|].
    rewrite S3. auto.
  - intros Lt. destruct S as [(S1 & S2 & _ & S4) | (_ & S3 & S4)]; [auto|].
    rewrite S3 in Lt. lia.
  - lia.
  - intros D. rewrite M1. unfold samples_to_cs, WHISPER_SAMPLE_RATE.
    pose proof (Z.quot_rem' (min_chunk_ms sparams) 10) as Q.
    rewrite D in Q.
    replace (16 * min_chunk_ms sparams * 100)
      with (Z.quot (min_chunk_ms sparams) 10 * 16000) by lia.
    rewrite Z.quot_mul by lia. lia.
Qed.

(** C4 (amended). With a read callback that returns no more than it is
    asked for, the read buffer never holds more than its capacity of
    [max_chunk_samples + overlap_samples] samples.  A hand-off, with
    [keep_start = max (0, actual_chunk_samples - overlap_samples)], leaves
    in the buffer what it held from [keep_start] on: in a run whose
    durations, multiplied by the sample rate, fit an [int], the last
    [min (overlap_samples, actual_chunk_samples)] samples of the chunk
    followed by the samples behind the chunk; that is
    [min (overlap_samples, content held before)] samples when the chunk
    took all the buffer held. *)
Theorem ring_buffer_invariant {sample src host : Type} :
  (forall (env : @environment sample host) fuel mem
          (sparams : @whisper_stream_params sample src host) ret run rcb,
     let capacity :=
       max_chunk_samples_of sparams + overlap_samples_of sparams in
     whisper_stream_full env fuel mem sparams = Returned ret (Some run) ->
     read_callback sparams = Some rcb ->
     (forall ud n_max, fst (fst (rcb ud n_max)) <= n_max) ->
     0 <= capacity ->
     buffer_size (rr_cctx run) = capacity /\
     0 <= read_buffer_len (rr_cctx run) <= capacity /\
     Forall (fun r => 0 <= cr_buffer_len r <= capacity /\
                      0 <= read_buffer_len (cr_cctx r) <= capacity)
       (rr_chunks run)) /\
  (forall (cctx : @common_ctx sample src host) (ci : chunk_info)
          (total idx : Z) (e : bool),
     let len := read_buffer_len cctx in
     let ov := overlap_samples cctx in
     let actual := ci_actual_chunk_samples ci in
     let keep_start := Z.max 0 (actual - ov) in
     let cctx' := handoff_to_next cctx ci total idx e in
     read_buffer_len cctx' = Z.max 0 (len - keep_start) /\
     read_buffer cctx' =
       firstn (Z.to_nat (len - keep_start))
         (skipn (Z.to_nat keep_start) (read_buffer cctx)) /\
     (0 <= ov -> 0 <= actual <= len ->
      read_buffer_len cctx' = Z.min ov actual + (len - actual)) /\
     (0 <= ov -> 0 <= len -> actual = len ->
      read_buffer_len cctx' = Z.min ov len)) /\
  (forall (env : @environment sample host) fuel mem
          (sparams : @whisper_stream_params sample src host) ret run,
     whisper_stream_full env fuel mem sparams = Returned ret (Some run) ->
     0 <= chunk_extend_ms sparams ->
     durations_fit sparams ->
     Forall (fun r =>
               let actual := ci_actual_chunk_samples (cr_info r) in
               0 < actual <= cr_buffer_len r /\
               read_buffer_len (cr_cctx r) =
                 Z.min (overlap_samples_of sparams) actual
                 + (cr_buffer_len r - actual))
       (rr_chunks run)).
Proof.
  split; [|split].
  - intros env fuel mem sparams ret run rcb capacity H Hr RC Hcap.
    apply whisper_stream_full_run in H.
    destruct H as (rcb' & Hr' & _ & _ & _ & L & _).
    rewrite Hr in Hr'. inversion Hr'; subst rcb'.
    apply chunk_loop_trace in L.
    pose proof (run_trace_config _ _ _ L) as SC.
    pose proof (run_trace_capacity _ _ _ L) as C.
    assert (RC' : read_contract (initial_cctx sparams rcb))
      by (intros ud n; apply RC).
    assert (W : within_capacity (initial_cctx sparams rcb))
      by (unfold within_capacity; cbn; fold capacity; lia).
    destruct (C RC' W) as [Wf All].
    assert (Bs : buffer_size (rr_cctx run) = capacity)
      by (unfold same_config in SC; destruct SC as (_ & _ & _ & _ & _ & _ &
            _ & -> & _); reflexivity).
    split; [exact Bs|]. split; [unfold within_capacity in Wf; lia|].
    exact All.
  - intros cctx ci total idx e len ov actual keep_start cctx'.
    pose proof (handoff_to_next_spec cctx ci total idx e) as HS.
    cbv zeta in HS. destruct HS as (_ & Hl & Hb & _).
    fold len ov actual keep_start cctx' in Hl, Hb.
    split; [exact Hl|]. split; [exact Hb|].
    split; intros; rewrite Hl; unfold keep_start; lia.
  - intros env fuel mem sparams ret run H Hext Fit.
    apply whisper_stream_full_run in H.
    destruct H as (rcb & _ & Hmin & Hov & _ & L & _).
    apply chunk_loop_trace in L.
    destruct (durations_fit_sizes sparams Fit) as (M1 & M2 & M3).
    pose proof (sizes_small sparams) as Sm.
    pose proof (run_trace_handoff _ _ _ L) as S.
    cbn [initial_cctx init_common_ctx min_chunk_samples max_chunk_samples
         overlap_samples] in S.
    apply S; unfold INT_MAX; lia.
Qed.

(** ** The context passed to the decoder *)

Lemma copy_tokens_override {sample src host : Type}
    (cctx : @common_ctx sample src host) (tctx : @thread_ctx sample)
    (max_tokens : Z) (h : host) (cb : host -> Z) :
  language_cb cctx = Some cb -> cb h <> -1 -> cb h <> lang_id tctx ->
  copy_tokens cctx tctx max_tokens h = ([], cb h, 0).
Proof.
  intros Hcb H1 H2. unfold copy_tokens. rewrite Hcb.
  apply Z.eqb_neq in H1, H2. rewrite H1, H2. reflexivity.
Qed.

Lemma copy_tokens_inherited {sample src host : Type}
    (cctx : @common_ctx sample src host) (tctx : @thread_ctx sample)
    (max_tokens : Z) (h : host) :
  (forall cb, language_cb cctx = Some cb ->
              cb h = -1 \/ cb h = lang_id tctx) ->
  copy_tokens cctx tctx max_tokens h =
  (firstn (Z.to_nat (Z.min (n_tokens tctx) max_tokens)) (tokens tctx),
   lang_id tctx, Z.min (n_tokens tctx) max_tokens).
Proof.
  intros H.
  assert (I : (if Z.min (n_tokens tctx) max_tokens >? 0
               then firstn (Z.to_nat (Z.min (n_tokens tctx) max_tokens))
                      (tokens tctx)
               else []) =
              firstn (Z.to_nat (Z.min (n_tokens tctx) max_tokens))
                (tokens tctx)).
  { destruct (Z.gtb_spec (Z.min (n_tokens tctx) max_tokens) 0); auto.
    replace (Z.to_nat (Z.min (n_tokens tctx) max_tokens)) with O by lia.
    reflexivity. }
  unfold copy_tokens. rewrite MIN_min.
  destruct (language_cb cctx) as [cb|]; [|rewrite I; reflexivity].
  destruct (H cb eq_refl) as [E|E]; rewrite E.
  - rewrite Z.eqb_refl. cbn [negb andb]. rewrite I. reflexivity.
  - rewrite Z.eqb_refl, andb_false_r. rewrite I. reflexivity.
Qed.

(** C6. At a context hand-off, when the language callback returns a value
    other than -1 and other than the inherited [lang_id], the context
    passed to the decoder holds no token and the returned language;
    otherwise it holds [min (n_tokens, max_tokens)] inherited tokens and
    the inherited [lang_id]. *)
Theorem context_handoff_language {sample src host : Type}
    (cctx : @common_ctx sample src host) (tctx : @thread_ctx sample)
    (max_tokens : Z) (h : host) :
  let n := Z.min (n_tokens tctx) max_tokens in
  let inherited := (firstn (Z.to_nat n) (tokens tctx), lang_id tctx, n) in
  (forall cb, language_cb cctx = Some cb ->
     cb h <> -1 -> cb h <> lang_id tctx ->
     copy_tokens cctx tctx max_tokens h = ([], cb h, 0)) /\
  (forall cb, language_cb cctx = Some cb ->
     cb h = -1 \/ cb h = lang_id tctx ->
     copy_tokens cctx tctx max_tokens h = inherited) /\
  (language_cb cctx = None ->
   copy_tokens cctx tctx max_tokens h = inherited) /\
  (single_thread cctx = true ->
   stream_context_callback cctx tctx max_tokens h =
   let '(toks, lang, k) := copy_tokens cctx tctx max_tokens h in
   Ctx_passed tctx toks lang k) /\
  (single_thread cctx = false -> context_ready tctx = true ->
   abort cctx = false ->
   stream_context_callback cctx tctx max_tokens h =
   let '(toks, lang, k) := copy_tokens cctx tctx max_tokens h in
   Ctx_passed (set_context_ready tctx false) toks lang k).
Proof.
  cbv zeta. repeat split.
  - intros cb. apply copy_tokens_override.
  - intros cb Hcb H. apply copy_tokens_inherited.
    intros cb' Hcb'. congruence.
  - intros Hcb. apply copy_tokens_inherited. congruence.
  - intros S. unfold stream_context_callback. rewrite S. reflexivity.
  - intros S R A. unfold stream_context_callback. rewrite S, R, A.
    reflexivity.
Qed.

(** ** The controller *)

Section Controller.

Variable whisper_lang_id : string -> Z.

Lemma apply_host_call_fields ctx c :
  let ctx' := Jni.apply_host_call whisper_lang_id ctx c in
  Jni.start_session_id ctx' = Jni.start_session_id ctx /\
  Jni.slot_main_ctx ctx' = Jni.slot_main_ctx ctx /\
  Jni.session_id ctx' =
    (if Jni.is_session_change c then to_uint (Jni.session_id ctx + 1)
     else Jni.session_id ctx).
Proof. destruct c; cbn; auto. Qed.

Lemma host_calls_session l : forall ctx,
  0 <= Jni.session_id ctx < 2 ^ 32 ->
  let ctx' := fold_left (Jni.apply_host_call whisper_lang_id) l ctx in
  Jni.start_session_id ctx' = Jni.start_session_id ctx /\
  Jni.session_id ctx' = (Jni.session_id ctx + session_changes l) mod 2 ^ 32.
Proof.
  induction l as [|c l IH]; intros ctx R; cbn [fold_left].
  - unfold session_changes; cbn. rewrite Z.add_0_r, Z.mod_small; auto.
  - pose proof (apply_host_call_fields ctx c) as (A & _ & B).
    assert (R' : 0 <= Jni.session_id
                        (Jni.apply_host_call whisper_lang_id ctx c) < 2 ^ 32).
    { rewrite B. destruct (Jni.is_session_change c); auto.
      unfold to_uint. apply Z.mod_pos_bound. lia. }
    destruct (IH _ R') as (A' & B'). cbv zeta. rewrite A', B', A, B.
    split; auto. unfold session_changes. cbn [filter].
    destruct (Jni.is_session_change c); cbn [length]; auto.
    unfold to_uint. rewrite Zplus_mod_idemp_l. f_equal. lia.
Qed.

End Controller.

(** C7. When the run that a start command began is over, the event
    [stream_complete (success)] is delivered exactly when the session
    counter still has the value captured at the start (no [stop] or
    [destroy] went in between), with [success] true exactly when
    [whisper_stream_full] returned 0; when the session changed nothing is
    delivered. *)
Theorem stream_complete_gating (whisper_lang_id : string -> Z)
    (ctx : Jni.whisper_jni_context) (args : Jni.start_args)
    (during_run : list Jni.host_call) (result : Z) :
  Jni.slot_main_ctx ctx = true ->
  Jni.sa_session_id args = Jni.session_id ctx ->
  0 <= Jni.session_id ctx < 2 ^ 32 ->
  let out := Jni.process_start_command whisper_lang_id ctx args during_run
               result in
  Jni.start_session_id (fst out) = Jni.session_id ctx /\
  (Jni.session_id (fst out) = Jni.session_id ctx ->
   snd out = [Jni.On_stream_complete (result =? 0)]) /\
  (Jni.session_id (fst out) <> Jni.session_id ctx -> snd out = []) /\
  (session_changes during_run < 2 ^ 32 ->
   (Jni.session_id (fst out) = Jni.session_id ctx <->
    session_changes during_run = 0)).
Proof.
  intros Hslot Hs R out. subst out. unfold Jni.process_start_command.
  rewrite Hslot, Hs, Z.eqb_refl. cbn [negb].
  set (ctx0 := Jni.set_start_session_id (Jni.set_lang_override ctx (-1))
                 (Jni.session_id ctx)).
  pose proof (host_calls_session whisper_lang_id during_run ctx0 R) as H.
  cbv zeta in H. destruct H as (A & B).
  change (Jni.start_session_id ctx0) with (Jni.session_id ctx) in A.
  change (Jni.session_id ctx0) with (Jni.session_id ctx) in B.
  set (ctx1 := fold_left (Jni.apply_host_call whisper_lang_id) during_run
                 ctx0) in *.
  rewrite A.
  assert (N : 0 <= session_changes during_run)
    by (unfold session_changes; lia).
  destruct (Z.eqb_spec (Jni.session_id ctx) (Jni.session_id ctx1)) as [E|E];
    cbn [negb fst snd]; rewrite A.
  - split; auto. split; auto. split; [congruence|].
    intros Lt. split; [|congruence]. intros _.
    rewrite B in E.
    destruct (Z.eq_dec (session_changes during_run) 0) as [Z0|Z0]; auto.
    exfalso.
    destruct (Z_lt_ge_dec (Jni.session_id ctx + session_changes during_run)
                (2 ^ 32)) as [S|S].
    + rewrite Z.mod_small in E by lia. lia.
    + replace (Jni.session_id ctx + session_changes during_run)
        with (Jni.session_id ctx + session_changes during_run - 2 ^ 32
              + 1 * 2 ^ 32) in E by lia.
      rewrite Z.mod_add in E by lia. rewrite Z.mod_small in E by lia. lia.
  - split; auto. split; [congruence|]. split; auto.
    intros Lt. split; [congruence|]. intros Z0. exfalso. apply E.
    rewrite B, Z0, Z.add_0_r, Z.mod_small; auto.
Qed.

(** The progress value stays within 0..100 and is the stated quotient as
    long as the product of the progress by the length of the chunk and the
    quotient fit an [int]; there is no event without a duration. *)
Lemma jni_progress_callback_in_range (ctx : Jni.whisper_jni_context)
    (env : bool) (chunk_progress samples_before chunk_samples : Z) :
  0 <= chunk_progress <= 100 -> 0 <= samples_before -> 0 <= chunk_samples ->
  (Jni.duration_samples ctx <= 0 ->
   Jni.jni_progress_callback ctx env chunk_progress samples_before
     chunk_samples = []) /\
  (chunk_progress * chunk_samples <= INT_MAX ->
   Z.quot ((samples_before + Z.quot (chunk_progress * chunk_samples) 100)
           * 100) (Jni.duration_samples ctx) <= INT_MAX ->
   forall p,
     In (Jni.On_progress p)
        (Jni.jni_progress_callback ctx env chunk_progress samples_before
           chunk_samples) ->
     0 <= p <= 100 /\
     p = progress_spec (Jni.duration_samples ctx) chunk_progress
           samples_before chunk_samples).
Proof.
  intros Hp Hb Hc. unfold Jni.jni_progress_callback. split.
  - intros D. destruct (Z.leb_spec (Jni.duration_samples ctx) 0); [auto|lia].
  - intros P Q p.
    destruct (Z.leb_spec (Jni.duration_samples ctx) 0) as [D|D];
      [intros []|].
    destruct env; cbn [negb]; [|intros []].
    rewrite (to_int_id (chunk_progress * chunk_samples))
      by (unfold int_range, INT_MIN, INT_MAX in *; nia).
    set (q := Z.quot ((samples_before
                       + Z.quot (chunk_progress * chunk_samples) 100) * 100)
                (Jni.duration_samples ctx)) in *.
    assert (Q0 : 0 <= q).
    { unfold q. apply Z.quot_pos; [|lia].
      assert (0 <= Z.quot (chunk_progress * chunk_samples) 100)
        by (apply Z.quot_pos; nia).
      nia. }
    rewrite to_int_id by (unfold int_range, INT_MIN, INT_MAX in *; lia).
    rewrite if_gtb_min. intros [E|[]]. inversion E; subst p.
    unfold progress_spec. fold q. lia.
Qed.

(** C8, on the code: the value is narrowed to [int] before it is capped
    at 100, so for a duration of 1 ms (16 samples) and 343597384 samples
    already transcribed the event carries a negative value, where the
    claim states [0 <= p <= 100] and the capped quotient, 100. *)
Theorem progress_narrowed_before_cap :
  let ctx := Jni.nativeSetDuration Jni.nativeCreate 1 in
  Jni.duration_samples ctx = 16 /\
  Jni.jni_progress_callback ctx true 0 343597384 0
    = [Jni.On_progress (-2147483646)] /\
  progress_spec (Jni.duration_samples ctx) 0 343597384 0 = 100.
Proof. cbv zeta. repeat split; vm_compute; reflexivity. Qed.

(** C10. The value of the language callback that means "no override" is
    -1 and not 0: [copy_tokens] takes every other value for a language,
    so 0 overrides an inherited language other than 0, and the controller
    initialises and resets [lang_override] to -1. *)
Theorem language_override_sentinel {sample src host : Type}
    (whisper_lang_id : string -> Z) :
  (forall (cctx : @common_ctx sample src host) (tctx : @thread_ctx sample)
          max_tokens h cb,
     language_cb cctx = Some cb -> cb h = -1 ->
     copy_tokens cctx tctx max_tokens h =
     (firstn (Z.to_nat (Z.min (n_tokens tctx) max_tokens)) (tokens tctx),
      lang_id tctx, Z.min (n_tokens tctx) max_tokens)) /\
  (forall (cctx : @common_ctx sample src host) (tctx : @thread_ctx sample)
          max_tokens h cb,
     language_cb cctx = Some cb -> cb h = 0 -> lang_id tctx <> 0 ->
     copy_tokens cctx tctx max_tokens h = ([], 0, 0)) /\
  Jni.jni_language_callback Jni.nativeCreate = -1 /\
  (forall ctx args result,
     Jni.slot_main_ctx ctx = true ->
     Jni.sa_session_id args = Jni.session_id ctx ->
     Jni.jni_language_callback
       (fst (Jni.process_start_command whisper_lang_id ctx args [] result))
     = -1) /\
  (forall ctx chars,
     Jni.jni_language_callback
       (Jni.nativeUpdateLanguage whisper_lang_id ctx None chars) = -1) /\
  (forall ctx l,
     Jni.jni_language_callback
       (Jni.nativeUpdateLanguage whisper_lang_id ctx (Some l) true)
     = whisper_lang_id l).
Proof.
  split; [|split; [|split; [|split; [|split]]]].
  - intros cctx tctx max_tokens h cb Hcb H.
    apply copy_tokens_inherited. intros cb' Hcb'. left. congruence.
  - intros cctx tctx max_tokens h cb Hcb H N.
    rewrite (copy_tokens_override cctx tctx max_tokens h cb Hcb);
      rewrite H; [reflexivity|lia|congruence].
  - reflexivity.
  - intros ctx args result Hs He. unfold Jni.process_start_command.
    rewrite Hs, He, Z.eqb_refl. cbn. rewrite Z.eqb_refl. reflexivity.
  - reflexivity.
  - reflexivity.
Qed.

(** * The concrete streams *)

Section Streams.
Import Examples.

(** The callback of the command-line test respects the read contract, and
    its source is finite. *)
Lemma file_read_cb_contract {sample : Type}
    (ud : @Stream_test.file_ctx sample) (n_max : Z) :
  fst (fst (Stream_test.file_read_cb ud n_max)) <= n_max.
Proof.
  unfold Stream_test.file_read_cb.
  destruct (Z.ltb_spec n_max (Stream_test.n_samples ud - Stream_test.pos ud));
    match goal with |- context [?a >? 0] => destruct (Z.gtb_spec a 0) end;
    cbn [fst]; lia.
Qed.

Lemma file_read_cb_finite {sample : Type}
    (ud : @Stream_test.file_ctx sample) (n_max : Z) :
  Z.of_nat (file_remaining (snd (Stream_test.file_read_cb ud n_max)))
  + Z.max 0 (fst (fst (Stream_test.file_read_cb ud n_max)))
  <= Z.of_nat (file_remaining ud).
Proof.
  unfold Stream_test.file_read_cb, file_remaining.
  destruct (Z.ltb_spec n_max (Stream_test.n_samples ud - Stream_test.pos ud));
    match goal with |- context [?a >? 0] => destruct (Z.gtb_spec a 0) end;
    cbn [fst snd Stream_test.n_samples Stream_test.pos]; lia.
Qed.

(** A line of the summary of a run is the summary of a chunk of the
    run. *)
Lemma summary_chunk o ret rows times (i : nat) row :
  summary o = Some (ret, rows, times) ->
  nth_error rows i = Some row ->
  exists run rec,
    o = Returned ret (Some run) /\
    nth_error (rr_chunks run) i = Some rec /\
    summarize rec = row /\
    length (rr_chunks run) = length rows /\
    segment_times (rr_events run) = times.
Proof.
  destruct o as [| | |r [run|]]; cbn [summary]; try discriminate.
  intros H N. inversion H; subst. clear H.
  rewrite nth_error_map in N.
  destruct (nth_error (rr_chunks run) i) as [rec|] eqn:E; [|discriminate].
  cbn in N. inversion N; subst.
  exists run, rec. rewrite length_map. auto.
Qed.

Lemma live_run_summary :
  summary (whisper_stream_full engine 10 all_allocated live) =
  Some (0, live_chunks, live_times).
Proof. vm_compute. reflexivity. Qed.

Lemma odd_minimum_run_summary :
  summary (whisper_stream_full engine 10 all_allocated odd_minimum) =
  Some (0, odd_minimum_chunks, live_times).
Proof. vm_compute. reflexivity. Qed.

Lemma stopped_run_summary :
  summary (whisper_stream_full engine_stopped 10 all_allocated live) =
  Some (-1, stopped_chunks, stopped_times).
Proof. vm_compute. reflexivity. Qed.

(** The loop a run that returned went through. *)
Lemma whisper_stream_full_loop {sample src host : Type}
    (env : @environment sample host) fuel mem
    (sparams : @whisper_stream_params sample src host) ret run rcb :
  whisper_stream_full env fuel mem sparams = Returned ret (Some run) ->
  read_callback sparams = Some rcb ->
  chunk_loop env fuel (initial_cctx sparams rcb) (init_thread_ctx sparams 0)
    = Some run.
Proof.
  intros E Hr. destruct (whisper_stream_full_run _ _ _ _ _ _ E)
    as (rcb' & Hr' & _ & _ & _ & L & _).
  congruence.
Qed.

End Streams.

(** * The theorems on the concrete streams *)

Section Instances.
Import Examples.

Ltac by_computation :=
  vm_compute; first [reflexivity | discriminate | intro; discriminate].

(** The segments of the live run come out in order. *)
Lemma segment_clipping_monotone_witness :
  exists run,
    chunk_loop engine 10 (initial_cctx live Stream_test.file_read_cb)
      (init_thread_ctx live 0) = Some run /\
    segment_times (rr_events run) = live_times /\
    monotone_timestamps (segment_times (rr_events run)).
Proof.
  destruct (summary_chunk _ _ _ _ 0%nat _ live_run_summary eq_refl)
    as (run & rec & E & _ & _ & _ & T).
  assert (L := whisper_stream_full_loop _ _ _ _ _ _ Stream_test.file_read_cb
                 E eq_refl).
  exists run. split; [exact L|]. split; [exact T|].
  exact (proj2 (proj2 segment_clipping_monotone) engine 10%nat _ _ run L).
Defined.

(** C2, on the code: the search range is converted to whole centiseconds
    before the midpoint of the gap is clamped into it.  With a minimum of
    10005 ms (160080 samples, 1000 centiseconds) and a gap from 9 s to
    10.01 s, the selector returns 160000 samples, which is before
    [search_start], where the claim states the midpoint clamped into
    [search_start, search_end], 160080. *)
Theorem boundary_below_search_start :
  let cctx := initial_cctx odd_minimum Stream_test.file_read_cb in
  let search_start := min_chunk_samples cctx in
  let search_end := Z.min (max_chunk_samples cctx) 484880 in
  search_start = 160080 /\ search_end = 480080 /\
  speech_intervals 0 two_intervals /\
  find (gap_meets (min_silence_ms cctx) search_start search_end)
    (candidate_gaps two_intervals (samples_to_cs 80080)
       (samples_to_cs search_end)) = Some (900, 1001) /\
  boundary_spec search_start (max_chunk_samples cctx) (min_silence_ms cctx)
    484880 (Some two_intervals) 80080 = 160080 /\
  fst (find_chunk_boundary cctx 484880 (Some two_intervals) 80080) = 160000 /\
  ~ (search_start
     <= fst (find_chunk_boundary cctx 484880 (Some two_intervals) 80080)
     <= search_end).
Proof.
  cbv zeta.
  assert (B : fst (find_chunk_boundary
                     (initial_cctx odd_minimum Stream_test.file_read_cb)
                     484880 (Some two_intervals) 80080) = 160000)
    by by_computation.
  split; [by_computation|]. split; [by_computation|]. split.
  { unfold two_intervals. cbn [speech_intervals vad_t0 vad_t1].
    unfold vad_time_limit. lia. }
  split; [by_computation|]. split; [by_computation|]. split; [exact B|].
  rewrite B. intros [H _]. apply H. by_computation.
Qed.

(** C3, on the code: in the stream with the minimum of 10005 ms
    (160080 samples) over 600000 samples, with speech from 0 to 4 s and
    from 5.01 s to 6 s of the VAD window, the first chunk is not the last
    one, the end of the source has not been seen when it is cut, and it
    has 160000 samples: fewer than [min_chunk_samples], where the claim
    states that every non-final chunk has between [min_chunk_samples] and
    [max_chunk_samples]. *)
Theorem non_final_chunk_below_minimum :
  exists run rec,
    whisper_stream_full engine 10 all_allocated odd_minimum =
      Returned 0 (Some run) /\
    nth_error (rr_chunks run) 0 = Some rec /\
    (1 < length (rr_chunks run))%nat /\
    cr_eof rec = false /\
    min_chunk_samples_of odd_minimum = 160080 /\
    ci_chunk_samples (cr_info rec) = 160000 /\
    ~ (min_chunk_samples_of odd_minimum <= ci_chunk_samples (cr_info rec)
       <= max_chunk_samples_of odd_minimum).
Proof.
  destruct (summary_chunk _ _ _ _ 0%nat _ odd_minimum_run_summary eq_refl)
    as (run & rec & E & N & S & Len & _).
  assert (C : ci_chunk_samples (cr_info rec) = 160000)
    by exact (f_equal s_chunk_samples S).
  assert (M : min_chunk_samples_of odd_minimum = 160080) by reflexivity.
  exists run, rec. split; [exact E|]. split; [exact N|].
  split; [rewrite Len; cbn; lia|].
  split; [exact (f_equal s_eof S)|]. split; [exact M|]. split; [exact C|].
  rewrite M, C. lia.
Qed.

(** The live run stays within the capacity of 484800 samples, and every
    hand-off keeps the overlap and what is behind the chunk. *)
Lemma ring_buffer_invariant_witness :
  exists run,
    whisper_stream_full engine 10 all_allocated live =
      Returned 0 (Some run) /\
    (buffer_size (rr_cctx run) =
       max_chunk_samples_of live + overlap_samples_of live /\
     0 <= read_buffer_len (rr_cctx run)
       <= max_chunk_samples_of live + overlap_samples_of live /\
     Forall (fun r =>
               0 <= cr_buffer_len r
                 <= max_chunk_samples_of live + overlap_samples_of live /\
               0 <= read_buffer_len (cr_cctx r)
                 <= max_chunk_samples_of live + overlap_samples_of live)
       (rr_chunks run)) /\
    Forall (fun r =>
              let actual := ci_actual_chunk_samples (cr_info r) in
              0 < actual <= cr_buffer_len r /\
              read_buffer_len (cr_cctx r) =
                Z.min (overlap_samples_of live) actual
                + (cr_buffer_len r - actual))
      (rr_chunks run).
Proof.
  destruct (summary_chunk _ _ _ _ 0%nat _ live_run_summary eq_refl)
    as (run & rec & E & _).
  assert (H1 : 0 <= max_chunk_samples_of live + overlap_samples_of live)
    by by_computation.
  assert (H2 : 0 <= chunk_extend_ms live) by by_computation.
  assert (H3 : durations_fit live) by (repeat split; by_computation).
  exists run. split; [exact E|]. split.
  - exact (proj1 ring_buffer_invariant engine 10%nat all_allocated live 0 run
             Stream_test.file_read_cb E eq_refl file_read_cb_contract H1).
  - exact (proj2 (proj2 ring_buffer_invariant) engine 10%nat all_allocated
             live 0 run E H2 H3).
Defined.

(** After the hand-off of the first chunk of the live run the buffer,
    which held 484800 samples, holds 329600 and not the 4800 of the
    overlap. *)
Lemma handoff_keeps_unconsumed_samples :
  exists run rec,
    whisper_stream_full engine 10 all_allocated live =
      Returned 0 (Some run) /\
    nth_error (rr_chunks run) 0 = Some rec /\
    cr_buffer_len rec = 484800 /\
    ci_actual_chunk_samples (cr_info rec) = 160000 /\
    overlap_samples_of live = 4800 /\
    read_buffer_len (cr_cctx rec) = 329600 /\
    read_buffer_len (cr_cctx rec) <>
      Z.min (overlap_samples_of live) (cr_buffer_len rec).
Proof.
  destruct (summary_chunk _ _ _ _ 0%nat _ live_run_summary eq_refl)
    as (run & rec & E & N & S & _).
  assert (B : cr_buffer_len rec = 484800) by exact (f_equal s_buffer_len S).
  assert (K : read_buffer_len (cr_cctx rec) = 329600)
    by exact (f_equal s_kept S).
  assert (O : overlap_samples_of live = 4800) by reflexivity.
  exists run, rec. split; [exact E|]. split; [exact N|].
  split; [exact B|]. split; [exact (f_equal s_actual_chunk_samples S)|].
  split; [exact O|]. split; [exact K|].
  rewrite K, O, B. lia.
Qed.

(** The second chunk of the live run. *)
Lemma chunk_descriptor_invariant_witness :
  exists run rec,
    whisper_stream_full engine 10 all_allocated live =
      Returned 0 (Some run) /\
    nth_error (rr_chunks run) 1 = Some rec /\
    summarize rec =
      chunk_row 1 160000 444800 true 160000 160000 164800 4800 970 284800
        (Some ([1; 2; 3], 0, 3)) false /\
    let ci := cr_info rec in
    let samples_before := zsum (chunk_sizes (firstn 1 (rr_chunks run))) in
    cr_chunk_idx rec = 1 /\
    cr_total_samples rec = samples_before /\
    ci_overlap_offset ci = overlap_samples_of live /\
    ci_actual_chunk_samples ci = ci_chunk_samples ci + ci_overlap_offset ci /\
    ci_time_offset ci =
      Z.quot (100 * (samples_before - ci_overlap_offset ci))
        WHISPER_SAMPLE_RATE.
Proof.
  destruct (summary_chunk _ _ _ _ 1%nat _ live_run_summary eq_refl)
    as (run & rec & E & N & S & _).
  exists run, rec. split; [exact E|]. split; [exact N|]. split; [exact S|].
  exact (chunk_descriptor_invariant engine 10%nat all_allocated live 0 run
           1%nat rec E N).
Defined.

(** The contexts of the live stream: an override to language 5 empties
    the inherited context of language 0, no override keeps it. *)
Lemma context_handoff_language_witness :
  copy_tokens (initial_cctx live Stream_test.file_read_cb) inheriting_tctx
    224 (session_ctx 5) = ([], 5, 0) /\
  copy_tokens (initial_cctx live Stream_test.file_read_cb) inheriting_tctx
    224 (session_ctx (-1)) = ([1; 2; 3], 0, 3).
Proof.
  split.
  - refine (proj1 (context_handoff_language
                     (initial_cctx live Stream_test.file_read_cb)
                     inheriting_tctx 224 (session_ctx 5))
              Jni.jni_language_callback eq_refl _ _);
      by_computation.
  - refine (proj1 (proj2 (context_handoff_language
                            (initial_cctx live Stream_test.file_read_cb)
                            inheriting_tctx 224 (session_ctx (-1))))
              Jni.jni_language_callback eq_refl _).
    left. reflexivity.
Defined.

(** A start command of session 7 during which the host stops. *)
Lemma stream_complete_gating_witness :
  Jni.slot_main_ctx (session_ctx 5) = true /\
  Jni.sa_session_id start7 = Jni.session_id (session_ctx 5) /\
  0 <= Jni.session_id (session_ctx 5) < 2 ^ 32 /\
  let out := Jni.process_start_command lang_id_of (session_ctx 5) start7
               [Jni.Call_stop] 0 in
  Jni.start_session_id (fst out) = Jni.session_id (session_ctx 5) /\
  (Jni.session_id (fst out) = Jni.session_id (session_ctx 5) ->
   snd out = [Jni.On_stream_complete (0 =? 0)]) /\
  (Jni.session_id (fst out) <> Jni.session_id (session_ctx 5) ->
   snd out = []) /\
  (session_changes [Jni.Call_stop] < 2 ^ 32 ->
   (Jni.session_id (fst out) = Jni.session_id (session_ctx 5) <->
    session_changes [Jni.Call_stop] = 0)).
Proof.
  assert (H1 : Jni.slot_main_ctx (session_ctx 5) = true) by reflexivity.
  assert (H2 : Jni.sa_session_id start7 = Jni.session_id (session_ctx 5))
    by reflexivity.
  assert (H3 : 0 <= Jni.session_id (session_ctx 5) < 2 ^ 32)
    by (split; by_computation).
  split; [exact H1|]. split; [exact H2|]. split; [exact H3|].
  exact (stream_complete_gating lang_id_of (session_ctx 5) start7
           [Jni.Call_stop] 0 H1 H2 H3).
Defined.

(** The live stream returns, 0 when it runs to its end and -1 when the
    host stops it. *)
Lemma whisper_stream_full_return_witness :
  (exists fuel ret run,
     whisper_stream_full engine fuel all_allocated live = Returned ret run) /\
  (exists run,
     whisper_stream_full engine 10 all_allocated live =
       Returned 0 (Some run) /\
     eof (rr_cctx run) = true /\ abort (rr_cctx run) = false) /\
  (exists run,
     whisper_stream_full engine_stopped 10 all_allocated live =
       Returned (-1) (Some run) /\
     abort (rr_cctx run) = true).
Proof.
  split; [|split].
  - refine (proj2 (whisper_stream_full_return engine all_allocated live)
              Stream_test.file_read_cb file_remaining eq_refl eq_refl eq_refl
              _ _ _ _ _).
    + reflexivity.
    + split; by_computation.
    + by_computation.
    + repeat split; by_computation.
    + intros ud n_max. exact (file_read_cb_finite ud n_max).
  - destruct (summary_chunk _ _ _ _ 0%nat _ live_run_summary eq_refl)
      as (run & rec & E & _).
    destruct (proj1 (whisper_stream_full_return engine all_allocated live)
                10%nat 0 (Some run) E) as (_ & _ & _ & (Z0 & _) & _).
    destruct (Z0 eq_refl) as (r & Hr & He & Ha).
    inversion Hr; subst r.
    exists run. split; [exact E|]. split; [exact He|exact Ha].
  - destruct (summary_chunk _ _ _ _ 0%nat _ stopped_run_summary eq_refl)
      as (run & rec & E & _).
    destruct (proj1 (whisper_stream_full_return engine_stopped all_allocated
                       live)
                10%nat (-1) (Some run) E) as (_ & _ & _ & _ & (M & _)).
    destruct (M eq_refl) as [Hn|(r & Hr & Ha)]; [discriminate Hn|].
    inversion Hr; subst r.
    exists run. split; [exact E|exact Ha].
Defined.

(** With an inherited language 5, a callback that returns 0 overrides it
    and one that returns -1 does not. *)
Lemma language_override_sentinel_witness :
  copy_tokens (initial_cctx live Stream_test.file_read_cb) inheriting5_tctx
    224 (session_ctx 0) = ([], 0, 0) /\
  copy_tokens (initial_cctx live Stream_test.file_read_cb) inheriting5_tctx
    224 (session_ctx (-1)) = ([1; 2; 3], 5, 3) /\
  Jni.jni_language_callback
    (fst (Jni.process_start_command lang_id_of (session_ctx 5) start7 [] 0))
  = -1.
Proof.
  pose proof (@language_override_sentinel unit file Jni.whisper_jni_context
                lang_id_of) as (A & B & _ & C & _).
  split; [|split].
  - refine (B (initial_cctx live Stream_test.file_read_cb) inheriting5_tctx
              224 (session_ctx 0) Jni.jni_language_callback eq_refl eq_refl
              _).
    by_computation.
  - exact (A (initial_cctx live Stream_test.file_read_cb) inheriting5_tctx
             224 (session_ctx (-1)) Jni.jni_language_callback eq_refl
             eq_refl).
  - exact (C (session_ctx 5) start7 0 eq_refl eq_refl).
Defined.

End Instances.

(** * Further properties of the stream *)

Import Stream_api Props_more.

Section AfterFailure.
Context {sample src host : Type}.
Implicit Types (cctx : @common_ctx sample src host).

Lemma run_trace_failed l : forall cctx final i r,
  run_trace cctx l final -> nth_error l i = Some r ->
  chunk_failed r = true ->
  S i = length l /\ final = state_after r.
Proof.
  induction l as [|a l IH]; intros cctx final i r T N F.
  - destruct i; discriminate.
  - destruct T as [C T]. destruct i as [|i]; cbn in N.
    + inversion N; subst a. clear N.
      destruct (state_after_fields r) as (_ & _ & _ & _ & _ & _ & E).
      rewrite F in E. cbn in E.
      pose proof (run_trace_eof _ _ _ E T) as L. subst l.
      split; [reflexivity|].
      destruct T as [[_ T]|[T _]]; [auto|congruence].
    + destruct (IH _ _ _ _ T N F) as [L E]. split; [cbn; lia|exact E].
Qed.

Lemma chunk_failed_true (r : @chunk_record sample src host) :
  cr_ret r <> 0 \/ cr_aborted r = true -> chunk_failed r = true.
Proof.
  unfold chunk_failed. intros [H|H].
  - apply Z.eqb_neq in H. rewrite H. reflexivity.
  - rewrite H. apply orb_true_r.
Qed.

(** After a chunk on which the engine failed or the host asked to abort,
    the loop of the worker ends: at once when [whisper_full] returned
    nonzero, and else with the next call, which cuts nothing. *)
Lemma failed_chunk_ends_loop (env : @environment sample host) cctx
    (tctx tctx' : @thread_ctx sample) ret cctx' rec evs (fuel : nat) :
  process_one_chunk env cctx tctx = (ret, cctx', tctx', Some rec, evs) ->
  chunk_failed rec = true ->
  exists run,
    chunk_loop env (S (S fuel)) cctx tctx = Some run /\
    rr_chunks run = [rec] /\ rr_events run = evs /\
    rr_cctx run = set_eof (cr_cctx rec) true.
Proof.
  intros P F. pose proof P as P'.
  apply process_one_chunk_step in P'.
  destruct P' as [(N & _)|(r & R & _ & _ & Hc & Hret)]; [discriminate|].
  inversion R; subst r. clear R.
  unfold state_after in Hc. rewrite F in Hc, Hret.
  cbn [chunk_loop]. rewrite P.
  destruct (ret =? 0).
  - destruct (process_one_chunk env cctx' tctx')
      as [[[[ret2 c2] t2] rec2] evs2] eqn:P2.
    apply process_one_chunk_cases in P2.
    destruct P2 as [(_ & -> & -> & -> & -> & ->)|(Eof & _)].
    + cbn. eexists. split; [reflexivity|]. cbn.
      rewrite app_nil_r. auto.
    + exfalso. rewrite Hc in Eof.
      destruct (set_eof_spec (cr_cctx rec) true) as (_ & _ & _ & _ & _ & _ & _ & E).
      cbv zeta in E. congruence.
  - eexists. split; [reflexivity|]. cbn. auto.
Qed.

End AfterFailure.

(** X1. In a stream of the single worker, the chunk on which the engine
    fails or the host asks to abort is the last one.  When the stream
    returns, this chunk is the last of the run, the value returned is -1,
    the source has not been read again, and the abort callback handed to
    the engine answers true whatever the host says.  And the loop of the
    worker does end: from a call of [process_one_chunk] that cut such a
    chunk, it leaves within one more call, which cuts nothing. *)
Theorem no_chunk_after_failure {sample src host : Type}
    (env : @environment sample host) :
  (forall (fuel : nat) (mem : allocations)
          (sparams : @whisper_stream_params sample src host) (ret : Z)
          (run : @run_result sample src host) (i : nat)
          (rec : @chunk_record sample src host),
     whisper_stream_full env fuel mem sparams = Returned ret (Some run) ->
     nth_error (rr_chunks run) i = Some rec ->
     cr_ret rec <> 0 \/ cr_aborted rec = true ->
     S i = length (rr_chunks run) /\
     ret = -1 /\
     read_cb_user_data (rr_cctx run) = read_cb_user_data (cr_cctx rec) /\
     read_buffer (rr_cctx run) = read_buffer (cr_cctx rec) /\
     total_samples_read (rr_cctx run) = total_samples_read (cr_cctx rec) /\
     forall h, stream_abort_callback (rr_cctx run) h = true) /\
  (forall (cctx cctx' : @common_ctx sample src host)
          (tctx tctx' : @thread_ctx sample) (ret : Z)
          (rec : @chunk_record sample src host) evs (fuel : nat),
     process_one_chunk env cctx tctx = (ret, cctx', tctx', Some rec, evs) ->
     cr_ret rec <> 0 \/ cr_aborted rec = true ->
     exists run,
       chunk_loop env (S (S fuel)) cctx tctx = Some run /\
       rr_chunks run = [rec] /\
       abort (rr_cctx run) = true /\
       read_cb_user_data (rr_cctx run) = read_cb_user_data (cr_cctx rec)).
Proof.
  split.
  - intros fuel mem sparams ret run i rec E N F.
    apply chunk_failed_true in F.
    destruct (whisper_stream_full_run _ _ _ _ _ _ E)
      as (rcb & _ & _ & _ & _ & L & Hret).
    apply chunk_loop_trace in L.
    destruct (run_trace_failed _ _ _ _ _ L N F) as [Len Fin].
    assert (S : rr_cctx run = set_eof (cr_cctx rec) true)
      by (rewrite Fin; unfold state_after; rewrite F; reflexivity).
    destruct (set_eof_spec (cr_cctx rec) true)
      as (_ & _ & B & U & _ & T & A & _). cbv zeta in *.
    rewrite <- S in *. cbn in A.
    split; [exact Len|]. split; [rewrite Hret, A; reflexivity|].
    split; [exact U|]. split; [exact B|]. split; [exact T|].
    intros h. unfold stream_abort_callback. rewrite A. reflexivity.
  - intros cctx cctx' tctx tctx' ret rec evs fuel P F.
    apply chunk_failed_true in F.
    destruct (failed_chunk_ends_loop env cctx tctx tctx' ret cctx' rec evs
                fuel P F) as (run & L & C & _ & S).
    exists run. split; [exact L|]. split; [exact C|].
    destruct (set_eof_spec (cr_cctx rec) true)
      as (_ & _ & _ & U & _ & _ & A & _). cbv zeta in *.
    rewrite <- S in *. cbn in A. split; [exact A|exact U].
Qed.


(** A stream whose assertions and allocations pass runs the loop of the
    single worker. *)
Lemma whisper_stream_full_started {sample src host : Type}
    (env : @environment sample host) (fuel : nat) (mem : allocations)
    (sparams : @whisper_stream_params sample src host)
    (rcb : src -> Z -> (Z * list sample) * src) :
  read_callback sparams = Some rcb ->
  slot0_ctx sparams = true -> slot1_ctx sparams = false ->
  0 < min_chunk_ms sparams ->
  0 <= overlap_ms sparams < min_chunk_ms sparams ->
  allocations_ok mem = true ->
  whisper_stream_full env fuel mem sparams =
  match chunk_loop env fuel (initial_cctx sparams rcb)
          (init_thread_ctx sparams 0) with
  | None => Unfinished
  | Some r => Returned (if abort (rr_cctx r) then -1 else 0) (Some r)
  end.
Proof.
  intros Hr H0 H1 Hm Ho Ha.
  unfold allocations_ok in Ha.
  apply andb_prop in Ha. destruct Ha as [Ha A3].
  apply andb_prop in Ha. destruct Ha as [A1 A2].
  unfold whisper_stream_full. rewrite Hr, H0, H1, A1, A2, A3.
  destruct (Z.gtb_spec (min_chunk_ms sparams) 0); [|lia].
  destruct (Z.geb_spec (overlap_ms sparams) 0); [|lia].
  destruct (Z.ltb_spec (overlap_ms sparams) (min_chunk_ms sparams)); [|lia].
  cbn [negb andb].
  fold (min_chunk_samples_of sparams). fold (max_chunk_samples_of sparams).
  fold (overlap_samples_of sparams). fold (initial_cctx sparams rcb).
  reflexivity.
Qed.

(** X2. When the first read of the source returns no sample (end of the
    input, or an error code, which the stream does not tell apart), the
    stream cuts no chunk, never calls the engine or a host callback, and
    returns 0. *)
Theorem empty_source_returns_zero {sample src host : Type}
    (env : @environment sample host) (fuel : nat) (mem : allocations)
    (sparams : @whisper_stream_params sample src host)
    (rcb : src -> Z -> (Z * list sample) * src) :
  read_callback sparams = Some rcb ->
  slot0_ctx sparams = true -> slot1_ctx sparams = false ->
  0 < min_chunk_ms sparams ->
  0 <= overlap_ms sparams < min_chunk_ms sparams ->
  allocations_ok mem = true ->
  fst (fst (rcb (read_callback_user_data sparams)
              (max_chunk_samples_of sparams + overlap_samples_of sparams)))
    <= 0 ->
  exists run,
    whisper_stream_full env (S fuel) mem sparams = Returned 0 (Some run) /\
    rr_chunks run = [] /\ rr_events run = [] /\
    eof (rr_cctx run) = true /\ abort (rr_cctx run) = false /\
    read_buffer_len (rr_cctx run) = 0.
Proof.
  intros Hr H0 H1 Hm Ho Ha Hn.
  rewrite (whisper_stream_full_started env (S fuel) mem sparams rcb)
    by assumption.
  set (c0 := initial_cctx sparams rcb).
  set (t0 := init_thread_ctx sparams 0).
  assert (P : process_one_chunk env c0 t0 =
              (-1, set_eof (fst (fst (fill_read_buffer c0
                      (max_chunk_samples c0 + overlap_samples c0) false)))
                     false, t0, None, []) /\
              read_buffer_len (fst (fst (fill_read_buffer c0
                      (max_chunk_samples c0 + overlap_samples c0) false)))
              = 0).
  { unfold process_one_chunk.
    change (wait_for_turn c0) with (Some (0, 0)). cbv iota beta.
    change (0 >? 0) with false. cbv iota.
    assert (F : exists ud buf e,
               fill_read_buffer c0 (max_chunk_samples c0 + overlap_samples c0)
                 false = (set_read c0 ud buf 0, 0, e)).
    { unfold fill_read_buffer.
      change (read_buffer_len c0) with 0.
      change (read_buffer c0) with (@nil sample).
      change (read_cb_user_data c0) with (read_callback_user_data sparams).
      destruct (Z.to_nat (max_chunk_samples c0 + overlap_samples c0 - 0))
        as [|k] eqn:K; cbn [fill_loop].
      - eauto.
      - destruct (0 <? max_chunk_samples c0 + overlap_samples c0) eqn:T;
          cbn [andb negb]; [|eauto].
        change (read_cb c0) with rcb.
        change (buffer_size c0 - 0)
          with (max_chunk_samples_of sparams + overlap_samples_of sparams
                - 0).
        rewrite Z.sub_0_r.
        destruct (rcb (read_callback_user_data sparams) _)
          as [[n data] ud'].
        cbn [fst] in Hn.
        assert (Q : (n <=? 0) = true) by lia. rewrite Q. eauto. }
    destruct F as (ud & buf & e & F). rewrite F. cbn [fst].
    destruct (chunk_vad _ _ _ _) as [vs vsegs].
    change (0 <=? 0) with true. cbv iota.
    split; reflexivity. }
  destruct P as [P Len].
  cbn [chunk_loop]. rewrite P. change (-1 =? 0) with false. cbv iota.
  cbn [add_chunk rr_cctx].
  destruct (set_eof_spec (fst (fst (fill_read_buffer c0
              (max_chunk_samples c0 + overlap_samples c0) false))) false)
    as (_ & L & _ & _ & _ & _ & A & E). cbv zeta in *.
  destruct (fill_read_buffer c0 _ false) as [[c1 len] e] eqn:F.
  destruct (fill_read_buffer_spec _ _ _ _ _ F)
    as (_ & _ & _ & _ & _ & Ab & _).
  cbn [fst] in *. cbn [orb] in A. rewrite Ab in A.
  change (abort c0) with false in A.
  rewrite A. eexists. split; [reflexivity|].
  cbn [rr_chunks rr_events rr_cctx]. rewrite L, Len. auto.
Qed.

Section Quiet.
Context {sample src host : Type}.
Variable env : @environment sample host.
Implicit Types (cctx : @common_ctx sample src host)
  (tctx : @thread_ctx sample).

Lemma progress_events_app (l1 l2 : list stream_event) :
  progress_events (l1 ++ l2) = progress_events l1 ++ progress_events l2.
Proof.
  induction l1 as [|[t0 t1 s|p b n] l IH]; cbn; auto.
  now rewrite IH.
Qed.

Lemma emit_segments_progress segs : forall tctx,
  progress_events (snd (emit_segments tctx segs)) = [].
Proof.
  induction segs as [|s segs IH]; intros tctx; cbn [emit_segments]; auto.
  pose proof (emit_segment_spec tctx s) as E.
  destruct (emit_segment tctx s) as [t1 o1].
  specialize (IH t1). destruct (emit_segments t1 segs) as [t2 o2].
  cbn [snd] in *. rewrite progress_events_app, IH, app_nil_r.
  destruct (_ >=? _); inversion E; reflexivity.
Qed.

Lemma engine_callbacks_quiet cctx calls : forall tctx segs,
  segment_cb (fst (engine_callbacks cctx tctx segs calls)) = segment_cb tctx /\
  (segment_cb tctx = false ->
   segment_times (snd (engine_callbacks cctx tctx segs calls)) = []) /\
  (progress_cb cctx = false ->
   progress_events (snd (engine_callbacks cctx tctx segs calls)) = []).
Proof.
  induction calls as [|[batch|p] calls IH]; intros tctx segs;
    cbn [engine_callbacks].
  - cbn. auto.
  - destruct (stream_segment_callback tctx (segs ++ batch) _)
      as [t1 e1] eqn:E1.
    specialize (IH t1 (segs ++ batch)).
    destruct (engine_callbacks cctx t1 (segs ++ batch) calls) as [t2 e2].
    cbn [fst snd] in *. destruct IH as (I1 & I2 & I3).
    assert (S1 : segment_cb t1 = segment_cb tctx /\
                 (segment_cb tctx = false -> e1 = []) /\
                 progress_events e1 = []).
    { unfold stream_segment_callback in E1.
      destruct (segment_cb tctx) eqn:Sc; cbn [negb] in E1.
      - pose proof (emit_segments_progress
                      (skipn (Z.to_nat (Z.of_nat (length (segs ++ batch))
                                        - Z.of_nat (length batch)))
                         (segs ++ batch)) tctx) as P.
        destruct (emit_segments_chained _ _ _ _ E1) as (_ & _ & C).
        rewrite E1 in P. cbn [snd] in P.
        split; [congruence|]. split; [discriminate|exact P].
      - inversion E1; subst. auto. }
    destruct S1 as (S1 & S2 & S3).
    split; [congruence|]. split.
    + intros F. rewrite segment_times_app, (S2 F), I2 by congruence.
      reflexivity.
    + intros F. rewrite progress_events_app, S3, I3 by exact F. reflexivity.
  - specialize (IH tctx segs).
    destruct (engine_callbacks cctx tctx segs calls) as [t2 e2].
    cbn [fst snd] in *. destruct IH as (I1 & I2 & I3).
    split; [exact I1|]. split.
    + intros F. rewrite segment_times_app, (I2 F).
      unfold stream_progress_callback. cbn [negb].
      destruct (progress_cb cctx); reflexivity.
    + intros F. rewrite progress_events_app, (I3 F).
      unfold stream_progress_callback. cbn [negb]. rewrite F. reflexivity.
Qed.

Lemma same_config_progress cctx cctx' :
  same_config cctx cctx' -> progress_cb cctx' = progress_cb cctx.
Proof. unfold same_config. tauto. Qed.

Lemma process_one_chunk_quiet cctx tctx ret cctx' tctx' rec evs :
  process_one_chunk env cctx tctx = (ret, cctx', tctx', rec, evs) ->
  segment_cb tctx' = segment_cb tctx /\
  progress_cb cctx' = progress_cb cctx /\
  (segment_cb tctx = false -> segment_times evs = []) /\
  (progress_cb cctx = false -> progress_events evs = []).
Proof.
  unfold process_one_chunk.
  destruct (wait_for_turn cctx) as [[idx total]|];
    [|intros E; inversion E; subst; cbn; auto].
  destruct (fill_read_buffer cctx _ false) as [[cctx1 len] e] eqn:F.
  destruct (fill_read_buffer_spec _ _ _ _ _ F) as (C1 & _).
  destruct (chunk_vad cctx1 tctx len _) as [vad_start vad_segs].
  destruct (len <=? _).
  { intros E; inversion E; subst.
    destruct (set_eof_spec cctx1 false) as (C2 & _).
    rewrite (same_config_progress _ _ (same_config_trans _ _ _ C1 C2)).
    cbn; auto. }
  match goal with
  | |- context [handoff_to_next ?c ?ci ?t ?i ?e] =>
      destruct (handoff_to_next_spec c ci t i e) as (C2 & _);
      cbv zeta in C2;
      set (c2 := handoff_to_next c ci t i e) in *
  end.
  pose proof (same_config_trans _ _ _ C1 C2) as C.
  match goal with
  | |- context [engine_callbacks ?c ?t ?s ?l] =>
      pose proof (engine_callbacks_quiet c l t s) as Q;
      destruct (engine_callbacks c t s l) as [tctx1 ev] eqn:E1
  end.
  cbn [fst snd] in Q. destruct Q as (Q1 & Q2 & Q3).
  cbn [segment_cb set_chunk] in Q1, Q2.
  rewrite (same_config_progress _ _ C) in Q3.
  destruct (negb _ || _); intros E; inversion E; subst;
    cbn [pass_context set_context segment_cb].
  - destruct (set_eof_spec c2 true) as (C3 & _).
    rewrite (same_config_progress _ _ (same_config_trans _ _ _ C C3)).
    auto.
  - rewrite (same_config_progress _ _ C). auto.
Qed.

Lemma chunk_loop_quiet fuel : forall cctx tctx run,
  chunk_loop env fuel cctx tctx = Some run ->
  (segment_cb tctx = false -> segment_times (rr_events run) = []) /\
  (progress_cb cctx = false -> progress_events (rr_events run) = []).
Proof.
  induction fuel as [|fuel IH]; intros cctx tctx run E; [discriminate|].
  cbn [chunk_loop] in E.
  destruct (process_one_chunk env cctx tctx)
    as [[[[ret cctx1] tctx1] rec] evs] eqn:P.
  destruct (process_one_chunk_quiet _ _ _ _ _ _ _ P) as (S & C & Q1 & Q2).
  destruct (ret =? 0).
  - destruct (chunk_loop env fuel cctx1 tctx1) as [r|] eqn:L;
      [|discriminate].
    inversion E; subst. cbn [rr_events].
    destruct (IH _ _ _ L) as [I1 I2]. split; intros F.
    + rewrite segment_times_app, Q1, I1 by congruence. reflexivity.
    + rewrite progress_events_app, Q2, I2 by congruence. reflexivity.
  - inversion E; subst. cbn [rr_events]. auto.
Qed.

End Quiet.

(** X3. A stream without segment callback delivers no segment, and a
    stream without progress callback delivers no progress: with neither,
    the host receives nothing during the run. *)
Theorem unset_callbacks_stay_silent {sample src host : Type}
    (env : @environment sample host) (fuel : nat) (mem : allocations)
    (sparams : @whisper_stream_params sample src host) (ret : Z)
    (run : @run_result sample src host) :
  whisper_stream_full env fuel mem sparams = Returned ret (Some run) ->
  (segment_callback sparams = false ->
   segment_times (rr_events run) = []) /\
  (progress_callback sparams = false ->
   progress_events (rr_events run) = []) /\
  (segment_callback sparams = false -> progress_callback sparams = false ->
   rr_events run = []).
Proof.
  intros E.
  destruct (whisper_stream_full_run _ _ _ _ _ _ E)
    as (rcb & _ & _ & _ & _ & L & _).
  destruct (chunk_loop_quiet _ _ _ _ _ L) as [Q1 Q2].
  cbn [segment_cb init_thread_ctx] in Q1.
  change (progress_cb (initial_cctx sparams rcb))
    with (progress_callback sparams) in Q2.
  split; [exact Q1|]. split; [exact Q2|].
  intros F1 F2. specialize (Q1 F1). specialize (Q2 F2).
  revert Q1 Q2. generalize (rr_events run).
  intros l. destruct l as [|[t0 t1 s|p b n] l]; cbn; auto; discriminate.
Qed.

(** ** The audio the engine is given *)

Section Slices.
Context {A : Type}.

Lemma skipn_app_length (pre l : list A) : skipn (length pre) (pre ++ l) = l.
Proof.
  rewrite skipn_app, skipn_all, Nat.sub_diag. reflexivity.
Qed.

Lemma slice_app_suffix (pre l : list A) (n : Z) :
  slice (pre ++ l) (Z.of_nat (length pre)) n = firstn (Z.to_nat n) l.
Proof.
  unfold slice. rewrite Nat2Z.id, skipn_app_length. reflexivity.
Qed.

Lemma slice_app_within (D more : list A) (a n : Z) :
  0 <= a -> a + n <= Z.of_nat (length D) ->
  slice (D ++ more) a n = slice D a n.
Proof.
  intros Ha H. unfold slice.
  destruct (Z_le_gt_dec n 0) as [N|N].
  { replace (Z.to_nat n) with O by lia. reflexivity. }
  rewrite skipn_app.
  replace (Z.to_nat a - length D)%nat with O by lia. cbn [skipn].
  rewrite firstn_app, length_skipn.
  replace (Z.to_nat n - (length D - Z.to_nat a))%nat with O by lia.
  cbn [firstn]. apply app_nil_r.
Qed.

End Slices.

Section Log.
Context {sample src host : Type}.
Variable log : src -> list sample -> Prop.
Implicit Types (cctx : @common_ctx sample src host)
  (r : @chunk_record sample src host) (D : list sample).

Lemma fill_loop_log fuel cctx :
  source_log (read_cb cctx) log ->
  forall ud buf len target e ud' buf' len' e' D,
  fill_loop fuel cctx ud buf len target e = (ud', buf', len', e') ->
  log ud D -> Z.of_nat (length buf) = len ->
  exists new,
    buf' = buf ++ new /\ log ud' (D ++ new) /\
    Z.of_nat (length buf') = len'.
Proof.
  intros SL. induction fuel as [|fuel IH];
    intros ud buf len target e ud' buf' len' e' D E L Hl; cbn [fill_loop] in E.
  - inversion E; subst. exists []. rewrite !app_nil_r. auto.
  - destruct ((len <? target) && negb e).
    2:{ inversion E; subst. exists []. rewrite !app_nil_r. auto. }
    specialize (SL ud D (buffer_size cctx - len) L).
    destruct (read_cb cctx ud (buffer_size cctx - len)) as [[n data] ud1].
    destruct (Z.leb_spec n 0) as [N|N].
    + inversion E; subst. exists []. rewrite !app_nil_r.
      destruct (Z.gtb_spec n 0); [lia|]. auto.
    + destruct (Z.gtb_spec n 0); [|lia]. destruct SL as [SL Ld].
      destruct (IH _ _ _ _ _ _ _ _ _ _ E SL) as (new & B & L' & Hl').
      { rewrite length_app. lia. }
      exists (data ++ new). rewrite !app_assoc. auto.
Qed.

Lemma fill_read_buffer_log cctx target cctx' len e D :
  source_log (read_cb cctx) log ->
  fill_read_buffer cctx target false = (cctx', len, e) ->
  log (read_cb_user_data cctx) D ->
  Z.of_nat (length (read_buffer cctx)) = read_buffer_len cctx ->
  exists new,
    read_buffer cctx' = read_buffer cctx ++ new /\
    log (read_cb_user_data cctx') (D ++ new) /\
    Z.of_nat (length (read_buffer cctx')) = len.
Proof.
  intros SL E L Hl. unfold fill_read_buffer in E.
  destruct (fill_loop _ cctx _ _ _ target false) as [[[ud buf] len1] e1] eqn:F.
  inversion E; subst. clear E.
  destruct (fill_loop_log _ _ SL _ _ _ _ _ _ _ _ _ _ F L Hl)
    as (new & B & L' & Hl').
  exists new. cbn. auto.
Qed.

(** One chunk: where its audio lies in what the source delivered, and the
    state it leaves. *)
Lemma chunk_of_log cctx r D :
  chunk_of cctx r ->
  source_log (read_cb cctx) log ->
  buffer_follows log cctx D ->
  1 <= min_chunk_samples cctx <= max_chunk_samples cctx ->
  max_chunk_samples cctx <= INT_MAX ->
  0 <= overlap_samples cctx
    <= cs_to_samples (samples_to_cs (min_chunk_samples cctx)) ->
  exists cctx1 new,
    fill_read_buffer cctx (max_chunk_samples cctx + overlap_samples cctx)
      false = (cctx1, cr_buffer_len r, cr_eof r) /\
    firstn (Z.to_nat (ci_actual_chunk_samples (cr_info r)))
      (read_buffer cctx1) = chunk_audio r (D ++ new) /\
    0 <= cr_total_samples r - ci_overlap_offset (cr_info r) /\
    cr_total_samples r - ci_overlap_offset (cr_info r)
      + ci_actual_chunk_samples (cr_info r)
      <= Z.of_nat (length (D ++ new)) /\
    buffer_follows log (state_after r) (D ++ new).
Proof.
  intros C SL (L & Ix & Hl & (pre & HD & Hpre) & _) Hmin Hmax Hov.
  pose proof (chunk_of_size _ _ C Hmin Hmax (proj1 Hov)) as Sz.
  pose proof (chunk_of_state _ _ C) as (Cf & Hidx & Htot & Hidx' & Htot' & Hab).
  cbv zeta in Sz. destruct Sz as (Hoo & HB & Sz).
  destruct C as (Eof & cctx1 & vs & vstart & F & C). cbv zeta in C.
  destruct C as (Hlen & _ & _ & _ & Hci & Hc).
  destruct (Hpre Eof) as [Hp Hq]. clear Hpre.
  destruct (fill_read_buffer_log _ _ _ _ _ _ SL F L Hl) as (new & B1 & L1 & Hl1).
  destruct (fill_read_buffer_spec _ _ _ _ _ F)
    as (Cf1 & Hlen1 & _ & _ & Eof1 & Ab1 & Ix1 & Tot1 & _).
  destruct (make_chunk_info_fields cctx1 (cr_found_boundary r)
              (cr_buffer_len r
               - overlap_offset_of cctx (next_chunk_idx cctx))
              (overlap_offset_of cctx (next_chunk_idx cctx))
              (total_samples_read cctx) (cr_eof r)) as (_ & Hact & _).
  cbv zeta in Hact. rewrite <- Hci in Hact.
  rewrite Hidx in Hoo, HB, Sz.
  set (oo := overlap_offset_of cctx (next_chunk_idx cctx)) in *.
  set (cs := ci_chunk_samples (cr_info r)) in *.
  set (actual := ci_actual_chunk_samples (cr_info r)) in *.
  assert (Hoo0 : 0 <= oo)
    by (unfold oo, overlap_offset_of; destruct (_ >? 0); lia).
  assert (Hcs : 1 <= cs /\ actual <= cr_buffer_len r /\
                (eof (cr_cctx r) = false -> overlap_samples cctx <= actual)).
  { destruct Sz as [(E1 & _ & Ecs & Ee)|(_ & Ecs & Hb)].
    - split; [lia|]. split; [lia|]. congruence.
    - split; [lia|]. split; [lia|]. intros _. lia. }
  destruct Hcs as (Hcs1 & Hact1 & Hact2).
  assert (HD1 : D ++ new = pre ++ read_buffer cctx1)
    by (rewrite B1, HD, app_assoc; reflexivity).
  exists cctx1, new. split; [exact F|].
  assert (Hstart : cr_total_samples r - ci_overlap_offset (cr_info r)
                   = Z.of_nat (length pre)) by (rewrite Htot, Hoo; lia).
  split.
  { unfold chunk_audio. rewrite Hstart, HD1. symmetry.
    apply slice_app_suffix. }
  split; [lia|]. split.
  { rewrite Hstart, HD1, length_app. lia. }
  (* the state after the hand-off *)
  destruct (handoff_to_next_spec cctx1 (cr_info r) (total_samples_read cctx)
              (next_chunk_idx cctx) (cr_eof r))
    as (Cf2 & Hl2 & Hb2 & Hu2 & Hi2 & Ht2 & Ha2 & He2).
  cbv zeta in *. rewrite <- Hc in *.
  assert (Hov1 : overlap_samples cctx1 = overlap_samples cctx)
    by (unfold same_config in Cf1; tauto).
  rewrite Hov1, Hlen1 in *.
  set (ks := Z.max 0 (actual - overlap_samples cctx)) in *.
  assert (Hks : 0 <= ks <= cr_buffer_len r) by (unfold ks; lia).
  assert (Hb3 : read_buffer (cr_cctx r)
                = skipn (Z.to_nat ks) (read_buffer cctx1)).
  { rewrite Hb2. apply firstn_all2. rewrite length_skipn. lia. }
  assert (Inv : buffer_follows log (cr_cctx r) (D ++ new)).
  { unfold buffer_follows. rewrite Hu2, Hi2, Ht2, Hl2, Hb3.
    split; [exact L1|]. split; [lia|].
    split; [rewrite length_skipn; lia|].
    split.
    - exists (pre ++ firstn (Z.to_nat ks) (read_buffer cctx1)).
      split; [rewrite <- app_assoc, firstn_skipn; exact HD1|].
      intros E. specialize (Hact2 E).
      assert (Ovo : overlap_offset_of (cr_cctx r) (next_chunk_idx cctx + 1)
                    = overlap_samples cctx).
      { unfold overlap_offset_of.
        destruct (Z.gtb_spec (next_chunk_idx cctx + 1) 0); [|lia].
        unfold same_config in Cf, Cf2. tauto. }
      rewrite Ovo, length_app, length_firstn. unfold ks. lia.
    - intros E A. rewrite HD1, length_app.
      rewrite Eof1, Eof in He2. cbn [orb] in He2. rewrite E in He2.
      symmetry in He2. apply andb_prop in He2. destruct He2 as [He2 Hk].
      apply Z.leb_le in Hk.
      enough (cr_buffer_len r = actual) by lia.
      destruct (Z_le_gt_dec (overlap_samples cctx) actual) as [G|G].
      + unfold ks in Hk. lia.
      + destruct Sz as [(E1 & _ & Ecs & Ee)|(_ & Ecs & Hb)]; [lia|].
        unfold oo, overlap_offset_of in *.
        destruct (next_chunk_idx cctx >? 0); lia. }
  unfold state_after. destruct (chunk_failed r); [|exact Inv].
  destruct (set_eof_spec (cr_cctx r) true)
    as (_ & Sl & Sb & Su & Si & St & Sa & Se). cbv zeta in *.
  destruct Inv as (I1 & I2 & I3 & (pre' & I4 & _) & _).
  unfold buffer_follows. rewrite Su, Si, Sl, Sb, St, Sa, Se.
  split; [exact I1|]. split; [exact I2|]. split; [exact I3|].
  split; [exists pre'; split; [exact I4|discriminate]|].
  cbn. discriminate.
Qed.

(** The end of the run. *)
Lemma stops_at_log cctx final D :
  stops_at cctx final ->
  source_log (read_cb cctx) log ->
  buffer_follows log cctx D ->
  exists new,
    log (read_cb_user_data final) (D ++ new) /\
    (abort final = false ->
     Z.of_nat (length (D ++ new)) = total_samples_read final).
Proof.
  intros St SL (L & Ix & Hl & (pre & HD & Hpre) & Hdone).
  destruct St as [[E ->]|(E & cctx1 & len & e & F & Hlen & ->)].
  - exists []. rewrite app_nil_r. auto.
  - destruct (Hpre E) as [Hp Hq].
    destruct (fill_read_buffer_log _ _ _ _ _ _ SL F L Hl)
      as (new & B1 & L1 & Hl1).
    destruct (fill_read_buffer_spec _ _ _ _ _ F)
      as (_ & _ & Hge & _ & _ & _ & _ & Tot1 & _).
    destruct (set_eof_spec cctx1 false) as (_ & _ & _ & Su & _ & St & _).
    cbv zeta in *. exists new. rewrite Su, St, Tot1.
    split; [exact L1|]. intros _.
    rewrite HD, <- app_assoc, <- B1, length_app.
    rewrite Nat2Z.inj_add, Hp, Hl1. lia.
Qed.

Lemma run_trace_total l : forall cctx final,
  run_trace cctx l final ->
  total_samples_read final = total_samples_read cctx + zsum (chunk_sizes l).
Proof.
  induction l as [|r l IH]; intros cctx final T.
  - cbn. destruct T as [[_ ->]|(_ & cctx1 & len & e & F & _ & ->)]; [lia|].
    destruct (fill_read_buffer_spec _ _ _ _ _ F)
      as (_ & _ & _ & _ & _ & _ & _ & Tot1 & _).
    destruct (set_eof_spec cctx1 false) as (_ & _ & _ & _ & _ & St & _).
    cbv zeta in St. rewrite St, Tot1. lia.
  - destruct T as [C T]. apply IH in T.
    destruct (chunk_of_state _ _ C) as (_ & _ & _ & _ & Ht & _).
    destruct (state_after_fields r) as (_ & _ & Hs & _).
    rewrite T, Hs, Ht.
    change (zsum (chunk_sizes (r :: l)))
      with (ci_chunk_samples (cr_info r) + zsum (chunk_sizes l)). lia.
Qed.

End Log.

Section Audio.
Context {sample src host : Type}.
Variable env : @environment sample host.
Variable log : src -> list sample -> Prop.
Implicit Types (cctx : @common_ctx sample src host)
  (tctx : @thread_ctx sample)
  (r : @chunk_record sample src host) (D : list sample).

(** The audio [process_one_chunk] hands to [whisper_full]. *)
Lemma process_one_chunk_audio cctx tctx ret cctx' tctx' r evs cctx1 len e :
  process_one_chunk env cctx tctx = (ret, cctx', tctx', Some r, evs) ->
  fill_read_buffer cctx (max_chunk_samples cctx + overlap_samples cctx)
    false = (cctx1, len, e) ->
  cr_ret r =
    er_ret (whisper_full env (cr_chunk_idx r)
              (firstn (Z.to_nat (ci_actual_chunk_samples (cr_info r)))
                 (read_buffer cctx1))
              (cr_context r)).
Proof.
  unfold process_one_chunk.
  destruct (wait_for_turn cctx) as [[idx total]|]; [|discriminate].
  intros E F. rewrite F in E.
  destruct (chunk_vad cctx1 tctx len _) as [vad_start vad_segs].
  destruct (len <=? _); [discriminate|].
  match type of E with
  | context [engine_callbacks ?c ?t ?s ?l] =>
      destruct (engine_callbacks c t s l) as [tctx1 ev]
  end.
  destruct (negb _ || _); inversion E; subst; reflexivity.
Qed.

Lemma heard_app r D more : heard env r D -> heard env r (D ++ more).
Proof.
  intros (H0 & H1 & H2). unfold heard, chunk_audio in *.
  split; [exact H0|]. split; [rewrite length_app; lia|].
  rewrite slice_app_within by lia. exact H2.
Qed.

End Audio.

Section RunAudio.
Context {sample src host : Type}.
Variable env : @environment sample host.
Variable log : src -> list sample -> Prop.
Implicit Types (cctx : @common_ctx sample src host)
  (tctx : @thread_ctx sample)
  (r : @chunk_record sample src host) (D : list sample).

Lemma chunk_loop_log fuel : forall cctx tctx run D,
  chunk_loop env fuel cctx tctx = Some run ->
  source_log (read_cb cctx) log ->
  buffer_follows log cctx D ->
  1 <= min_chunk_samples cctx <= max_chunk_samples cctx ->
  max_chunk_samples cctx <= INT_MAX ->
  0 <= overlap_samples cctx
    <= cs_to_samples (samples_to_cs (min_chunk_samples cctx)) ->
  exists new,
    log (read_cb_user_data (rr_cctx run)) (D ++ new) /\
    (abort (rr_cctx run) = false ->
     Z.of_nat (length (D ++ new)) = total_samples_read (rr_cctx run)) /\
    Forall (fun r => heard env r (D ++ new)) (rr_chunks run).
Proof.
  induction fuel as [|fuel IH]; intros cctx tctx run D E SL Inv Hmin Hmax Hov;
    [discriminate|].
  cbn [chunk_loop] in E.
  destruct (process_one_chunk env cctx tctx)
    as [[[[ret cctx1] tctx1] rec] evs] eqn:P.
  destruct (process_one_chunk_step _ _ _ _ _ _ _ _ P)
    as [(-> & -> & St)|(r & -> & C & _ & -> & Hret)].
  - change (-1 =? 0) with false in E. inversion E; subst. clear E.
    destruct (stops_at_log _ _ _ _ St SL Inv) as (new & L & T).
    exists new. cbn. auto.
  - destruct (chunk_of_log _ _ _ _ C SL Inv Hmin Hmax Hov)
      as (c1 & new1 & F & A & B0 & B1 & Inv1).
    assert (H : heard env r (D ++ new1)).
    { split; [exact B0|]. split; [exact B1|].
      rewrite <- A. exact (process_one_chunk_audio _ _ _ _ _ _ _ _ _ _ _ P F). }
    destruct (ret =? 0) eqn:R.
    + destruct (chunk_loop env fuel (state_after r) tctx1) as [r'|] eqn:L;
        [|discriminate].
      inversion E; subst. clear E. cbn [rr_cctx rr_chunks add_chunk].
      pose proof (chunk_of_state _ _ C) as (Cf & _).
      destruct (state_after_fields r) as (Cf' & _).
      pose proof (same_config_trans _ _ _ Cf Cf') as S.
      unfold same_config in S.
      destruct S as (S1 & _ & S3 & S4 & S5 & _).
      destruct (IH _ _ _ (D ++ new1) L) as (new2 & L2 & T2 & F2).
      * rewrite S1. exact SL.
      * exact Inv1.
      * rewrite S4, S5. exact Hmin.
      * rewrite S5. exact Hmax.
      * rewrite S3, S4. exact Hov.
      * exists (new1 ++ new2). rewrite app_assoc.
        split; [exact L2|]. split; [exact T2|].
        constructor; [apply heard_app; exact H|exact F2].
    + inversion E; subst. clear E. cbn [rr_cctx rr_chunks add_chunk].
      exists new1. destruct Inv1 as (L1 & _).
      split; [exact L1|]. split; [|constructor; [exact H|constructor]].
      intros Ab. exfalso.
      destruct (state_after_fields r) as (_ & _ & _ & _ & _ & Ha & _).
      destruct (chunk_failed r); [cbn in Ha; congruence|].
      apply Z.eqb_neq in R. congruence.
Qed.

End RunAudio.

(** The log and the sizes at the start of a stream. *)
Lemma whisper_stream_full_log {sample src host : Type}
    (env : @environment sample host) (fuel : nat) (mem : allocations)
    (sparams : @whisper_stream_params sample src host) (ret : Z)
    (run : @run_result sample src host)
    (rcb : src -> Z -> (Z * list sample) * src)
    (log : src -> list sample -> Prop) :
  whisper_stream_full env fuel mem sparams = Returned ret (Some run) ->
  read_callback sparams = Some rcb ->
  source_log rcb log ->
  log (read_callback_user_data sparams) [] ->
  0 <= chunk_extend_ms sparams ->
  durations_fit sparams ->
  overlap_samples_of sparams
    <= cs_to_samples (samples_to_cs (min_chunk_samples_of sparams)) ->
  exists D,
    log (read_cb_user_data (rr_cctx run)) D /\
    (ret = 0 -> Z.of_nat (length D) = zsum (chunk_sizes (rr_chunks run))) /\
    Forall (fun r => heard env r D) (rr_chunks run).
Proof.
  intros E Hr SL L0 Hext Hmax Hov.
  destruct (whisper_stream_full_run _ _ _ _ _ _ E)
    as (rcb' & Hr' & Hm & Ho & _ & L & Hret).
  assert (rcb' = rcb) by congruence. subst rcb'.
  destruct (durations_fit_sizes sparams Hmax) as (M1 & M2 & M3).
  pose proof (chunk_loop_trace _ _ _ _ _ L) as T.
  apply run_trace_total in T. cbn in T.
  destruct (chunk_loop_log env log _ _ _ _ [] L) as (new & L1 & T1 & F1).
  - exact SL.
  - unfold buffer_follows. cbn.
    split; [exact L0|]. split; [lia|]. split; [reflexivity|].
    split; [exists []; split; [reflexivity|]; intros _; cbn; lia|].
    discriminate.
  - cbn. lia.
  - cbn. pose proof (sizes_small sparams). unfold INT_MAX. lia.
  - cbn. split; [lia|exact Hov].
  - cbn [app] in *. exists new. split; [exact L1|]. split; [|exact F1].
    intros R. rewrite T1, T; [reflexivity|].
    destruct (abort (rr_cctx run)); [lia|reflexivity].
Qed.

(** X4. In a run of the single worker over a source that delivers its
    samples in order, with [chunk_extend_ms >= 0], durations whose
    products by the sample rate fit an [int], and an overlap no longer
    than the minimum chunk rounded down to a centisecond: the audio the
    engine is given for a chunk is the window of the source that starts
    [overlap_offset] samples before the first new sample of the chunk
    ([samples_before - overlap_offset]) and holds [actual_chunk_samples]
    samples; the value recorded for the chunk is what [whisper_full]
    returns on exactly this window. *)
Theorem engine_hears_source_window {sample src host : Type}
    (env : @environment sample host) (fuel : nat) (mem : allocations)
    (sparams : @whisper_stream_params sample src host) (ret : Z)
    (run : @run_result sample src host)
    (rcb : src -> Z -> (Z * list sample) * src)
    (log : src -> list sample -> Prop) :
  whisper_stream_full env fuel mem sparams = Returned ret (Some run) ->
  read_callback sparams = Some rcb ->
  source_log rcb log ->
  log (read_callback_user_data sparams) [] ->
  0 <= chunk_extend_ms sparams ->
  durations_fit sparams ->
  overlap_samples_of sparams
    <= cs_to_samples (samples_to_cs (min_chunk_samples_of sparams)) ->
  exists D,
    log (read_cb_user_data (rr_cctx run)) D /\
    Forall (fun r =>
              let start := cr_total_samples r
                           - ci_overlap_offset (cr_info r) in
              let n := ci_actual_chunk_samples (cr_info r) in
              0 <= start /\ start + n <= Z.of_nat (length D) /\
              cr_ret r =
                er_ret (whisper_full env (cr_chunk_idx r) (slice D start n)
                          (cr_context r)))
      (rr_chunks run).
Proof.
  intros E Hr SL L0 Hext Hmax Hov.
  destruct (whisper_stream_full_log _ _ _ _ _ _ _ _ E Hr SL L0 Hext Hmax Hov)
    as (D & L & _ & F).
  exists D. split; [exact L|exact F].
Qed.

(** X5. No audio is lost or transcribed twice.  Under the same
    assumptions (single worker, source in order, [chunk_extend_ms >= 0],
    products that fit an [int], overlap no longer than the minimum chunk
    rounded down to a centisecond): when the stream returns 0, the new
    samples of its chunks add up to exactly the samples the source
    delivered. *)
Theorem every_sample_transcribed_once {sample src host : Type}
    (env : @environment sample host) (fuel : nat) (mem : allocations)
    (sparams : @whisper_stream_params sample src host)
    (run : @run_result sample src host)
    (rcb : src -> Z -> (Z * list sample) * src)
    (log : src -> list sample -> Prop) :
  whisper_stream_full env fuel mem sparams = Returned 0 (Some run) ->
  read_callback sparams = Some rcb ->
  source_log rcb log ->
  log (read_callback_user_data sparams) [] ->
  0 <= chunk_extend_ms sparams ->
  durations_fit sparams ->
  overlap_samples_of sparams
    <= cs_to_samples (samples_to_cs (min_chunk_samples_of sparams)) ->
  exists D,
    log (read_cb_user_data (rr_cctx run)) D /\
    zsum (chunk_sizes (rr_chunks run)) = Z.of_nat (length D) /\
    total_samples_read (rr_cctx run) = Z.of_nat (length D).
Proof.
  intros E Hr SL L0 Hext Hmax Hov.
  destruct (whisper_stream_full_log _ _ _ _ _ _ _ _ E Hr SL L0 Hext Hmax Hov)
    as (D & L & T & _).
  exists D. split; [exact L|]. specialize (T eq_refl).
  split; [lia|].
  apply whisper_stream_full_loop with (rcb := rcb) in E; [|exact Hr].
  apply chunk_loop_trace, run_trace_total in E. cbn in E. lia.
Qed.

(** ** Where the timestamps lie *)

Section Windows.
Context {sample src host : Type}.
Variable env : @environment sample host.
Implicit Types (cctx : @common_ctx sample src host)
  (tctx : @thread_ctx sample)
  (r : @chunk_record sample src host).

Lemma emit_segments_window segs : forall tctx,
  worker_window (fst (emit_segments tctx segs)) = worker_window tctx /\
  Forall (within (worker_window tctx))
    (segment_times (snd (emit_segments tctx segs))).
Proof.
  induction segs as [|s segs IH]; intros tctx; cbn [emit_segments].
  - cbn. auto.
  - pose proof (emit_segment_spec tctx s) as E.
    destruct (emit_segment tctx s) as [t1 o1].
    assert (W : worker_window t1 = worker_window tctx /\
                Forall (within (worker_window tctx)) (segment_times o1)).
    { destruct (Z.geb_spec (emitted_t0 tctx s) (emitted_t1 tctx s));
        inversion E; subst; split; try reflexivity; try constructor;
        [|constructor].
      unfold within, worker_window, emitted_t0, emitted_t1 in *.
      cbn [fst snd]. lia. }
    destruct W as [W1 W2]. specialize (IH t1).
    destruct (emit_segments t1 segs) as [t2 o2]. cbn [fst snd] in *.
    destruct IH as [I1 I2]. rewrite W1 in I1, I2.
    split; [exact I1|]. rewrite segment_times_app.
    apply Forall_app. auto.
Qed.

Lemma engine_callbacks_window cctx calls : forall tctx segs,
  worker_window (fst (engine_callbacks cctx tctx segs calls))
    = worker_window tctx /\
  Forall (within (worker_window tctx))
    (segment_times (snd (engine_callbacks cctx tctx segs calls))).
Proof.
  induction calls as [|[batch|p] calls IH]; intros tctx segs;
    cbn [engine_callbacks].
  - cbn. auto.
  - destruct (stream_segment_callback tctx (segs ++ batch) _)
      as [t1 e1] eqn:E1.
    assert (W : worker_window t1 = worker_window tctx /\
                Forall (within (worker_window tctx)) (segment_times e1)).
    { unfold stream_segment_callback in E1.
      destruct (negb (segment_cb tctx)).
      - inversion E1; subst. split; [reflexivity|constructor].
      - match type of E1 with
        | emit_segments ?t ?l = _ =>
            pose proof (emit_segments_window l t) as W; rewrite E1 in W
        end. exact W. }
    destruct W as [W1 W2]. specialize (IH t1 (segs ++ batch)).
    destruct (engine_callbacks cctx t1 (segs ++ batch) calls) as [t2 e2].
    cbn [fst snd] in *. destruct IH as [I1 I2]. rewrite W1 in I1, I2.
    split; [exact I1|]. rewrite segment_times_app. apply Forall_app. auto.
  - specialize (IH tctx segs).
    destruct (engine_callbacks cctx tctx segs calls) as [t2 e2].
    cbn [fst snd] in *. destruct IH as [I1 I2].
    split; [exact I1|]. rewrite segment_times_app.
    apply Forall_app. split; [|exact I2].
    unfold stream_progress_callback. cbn [negb].
    destruct (progress_cb cctx); constructor.
Qed.

Lemma process_one_chunk_window cctx tctx ret cctx' tctx' rec evs :
  process_one_chunk env cctx tctx = (ret, cctx', tctx', rec, evs) ->
  match rec with
  | None => evs = []
  | Some r => Forall (within (chunk_window r)) (segment_times evs)
  end.
Proof.
  unfold process_one_chunk.
  destruct (wait_for_turn cctx) as [[idx total]|];
    [|intros E; inversion E; subst; reflexivity].
  destruct (fill_read_buffer cctx _ false) as [[cctx1 len] e].
  destruct (chunk_vad cctx1 tctx len _) as [vad_start vad_segs].
  destruct (len <=? _); [intros E; inversion E; subst; reflexivity|].
  match goal with
  | |- context [engine_callbacks ?c ?t ?s ?l] =>
      destruct (engine_callbacks_window c l t s) as [_ W];
      destruct (engine_callbacks c t s l) as [tctx1 ev]
  end.
  cbn [snd] in W.
  destruct (negb _ || _); intros E; inversion E; subst; exact W.
Qed.

Lemma chunk_loop_window fuel : forall cctx tctx run,
  chunk_loop env fuel cctx tctx = Some run ->
  Forall (fun p => exists r, In r (rr_chunks run) /\ within (chunk_window r) p)
    (segment_times (rr_events run)).
Proof.
  induction fuel as [|fuel IH]; intros cctx tctx run E; [discriminate|].
  cbn [chunk_loop] in E.
  destruct (process_one_chunk env cctx tctx)
    as [[[[ret cctx1] tctx1] rec] evs] eqn:P.
  apply process_one_chunk_window in P.
  assert (W : Forall (fun p => exists r, In r (add_chunk rec [])
                                         /\ within (chunk_window r) p)
                (segment_times evs)).
  { destruct rec as [r|]; [|subst evs; constructor].
    eapply Forall_impl; [|exact P]. intros p Hp. exists r. cbn. auto. }
  destruct (ret =? 0).
  - destruct (chunk_loop env fuel cctx1 tctx1) as [r'|] eqn:L;
      [|discriminate].
    inversion E; subst. clear E. cbn [rr_events rr_chunks].
    rewrite segment_times_app. apply Forall_app. split.
    + eapply Forall_impl; [|exact W]. intros p (r & I & Hp). exists r.
      split; [|exact Hp]. destruct rec; cbn in *; tauto.
    + eapply Forall_impl; [|exact (IH _ _ _ L)]. intros p (r & I & Hp).
      exists r. split; [|exact Hp]. destruct rec; cbn; auto.
  - inversion E; subst. exact W.
Qed.

(** The window of a chunk ends no later than the audio transcribed up to
    and including the chunk. *)
Lemma chunk_window_end (total oo cs : Z) :
  0 <= total -> 0 <= oo -> 0 <= cs ->
  Z.quot (100 * (total - oo)) WHISPER_SAMPLE_RATE
  + Z.quot (cs * 100) WHISPER_SAMPLE_RATE
  <= samples_to_cs (total + cs).
Proof.
  intros Ht Ho Hc. unfold samples_to_cs, WHISPER_SAMPLE_RATE.
  rewrite (Z.quot_div_nonneg (cs * 100)) by lia.
  rewrite (Z.quot_div_nonneg ((total + cs) * 100)) by lia.
  assert (Z.quot (100 * (total - oo)) 16000 <= (total * 100) / 16000).
  { destruct (Z_le_gt_dec oo total).
    - rewrite Z.quot_div_nonneg by lia. apply Z.div_le_mono; lia.
    - transitivity 0; [|apply Z.div_pos; lia].
      apply Z.quot_le_upper_bound; lia. }
  pose proof (Z.div_mod (total * 100) 16000 ltac:(lia)).
  pose proof (Z.mod_pos_bound (total * 100) 16000 ltac:(lia)).
  pose proof (Z.div_mod (cs * 100) 16000 ltac:(lia)).
  pose proof (Z.mod_pos_bound (cs * 100) 16000 ltac:(lia)).
  assert ((total * 100) / 16000 + (cs * 100) / 16000
          <= ((total + cs) * 100) / 16000); [|lia].
  apply Z.div_le_lower_bound; lia.
Qed.

Lemma run_trace_windows l : forall cctx final,
  run_trace cctx l final ->
  1 <= min_chunk_samples cctx <= max_chunk_samples cctx ->
  max_chunk_samples cctx <= INT_MAX ->
  0 <= overlap_samples cctx ->
  0 <= total_samples_read cctx ->
  total_samples_read cctx <= total_samples_read final /\
  Forall (fun r => snd (chunk_window r)
                   <= samples_to_cs (total_samples_read final)) l.
Proof.
  induction l as [|r l IH]; intros cctx final T Hmin Hmax Hov Ht.
  - apply run_trace_total in T. cbn in T. split; [lia|constructor].
  - pose proof (run_trace_total _ _ _ T) as Tot.
    destruct T as [C T].
    pose proof (chunk_of_size _ _ C Hmin Hmax Hov) as Sz. cbv zeta in Sz.
    destruct Sz as (Hoo & HB & Sz).
    assert (Hcs : 1 <= ci_chunk_samples (cr_info r))
      by (destruct Sz as [(_ & _ & -> & _)|(_ & -> & _)]; lia).
    pose proof (chunk_of_state _ _ C) as (Cf & Hi & Htot & _ & Ht' & _).
    destruct (state_after_fields r) as (Cf' & _ & Hs & _).
    pose proof (same_config_trans _ _ _ Cf Cf') as S.
    unfold same_config in S. destruct S as (_ & _ & S3 & S4 & S5 & _).
    destruct (IH _ _ T) as [I1 I2].
    { rewrite S4, S5. exact Hmin. }
    { rewrite S5. exact Hmax. }
    { rewrite S3. exact Hov. }
    { rewrite Hs, Ht'. lia. }
    rewrite Hs, Ht' in I1.
    split; [lia|]. constructor; [|exact I2].
    destruct C as (_ & c1 & vs & vstart & F & C). cbv zeta in C.
    destruct C as (_ & _ & _ & _ & Hci & _).
    match type of Hci with
    | _ = make_chunk_info ?c ?b ?a ?o ?t ?e =>
        destruct (make_chunk_info_fields c b a o t e) as (M1 & _ & M3 & _)
    end.
    cbv zeta in M1, M3. rewrite <- Hci in M1, M3.
    unfold chunk_window. cbn [snd]. rewrite M3.
    assert (O : 0 <= overlap_offset_of cctx (next_chunk_idx cctx))
      by (unfold overlap_offset_of; destruct (_ >? 0); lia).
    etransitivity; [apply chunk_window_end; lia|].
    apply samples_to_cs_mono. lia.
Qed.

End Windows.

(** X6. In a run of the single worker with [chunk_extend_ms >= 0] and
    durations whose products by the sample rate fit an [int], every
    segment the stream emits lies in the output window of a chunk of the
    run, between the chunk's [output_start] and the end of its new
    samples; so no timestamp is negative and none exceeds the duration of
    the audio transcribed by the run. *)
Theorem segments_within_chunk_windows {sample src host : Type}
    (env : @environment sample host) (fuel : nat) (mem : allocations)
    (sparams : @whisper_stream_params sample src host) (ret : Z)
    (run : @run_result sample src host) :
  whisper_stream_full env fuel mem sparams = Returned ret (Some run) ->
  0 <= chunk_extend_ms sparams ->
  durations_fit sparams ->
  Forall (fun p =>
            (exists r, In r (rr_chunks run) /\ within (chunk_window r) p) /\
            0 <= fst p < snd p /\
            snd p <= samples_to_cs (zsum (chunk_sizes (rr_chunks run))))
    (segment_times (rr_events run)).
Proof.
  intros E Hext Hmax.
  destruct (whisper_stream_full_run _ _ _ _ _ _ E)
    as (rcb & _ & Hm & Ho & _ & L & _).
  pose proof (chunk_loop_window _ _ _ _ _ L) as W.
  pose proof (chunk_loop_chained _ _ _ _ _ L) as Ch.
  cbn [last_t1 init_thread_ctx] in Ch.
  pose proof (chunk_loop_trace _ _ _ _ _ L) as T.
  pose proof (run_trace_total _ _ _ T) as Tot. cbn in Tot.
  destruct (durations_fit_sizes sparams Hmax) as (M1 & M2 & M3).
  pose proof (sizes_small sparams) as Sm.
  destruct (run_trace_windows _ _ _ T) as [_ B].
  { cbn. lia. }
  { cbn. unfold INT_MAX. lia. }
  { cbn. lia. }
  { cbn. lia. }
  rewrite Tot in B. rewrite Forall_forall in B.
  assert (P : forall l lo, 0 <= lo -> chained lo l ->
                Forall (fun p : Z * Z => 0 <= fst p) l).
  { induction l as [|[a b] l IH]; intros lo Hlo Hc; constructor.
    - cbn in *. lia.
    - destruct Hc as (H1 & H2 & H3). apply (IH b); [lia|exact H3]. }
  specialize (P _ 0 (Z.le_refl 0) Ch).
  rewrite Forall_forall in *. intros p Hp.
  destruct (W p Hp) as (r & I & Hw). specialize (P p Hp).
  split; [exists r; auto|]. destruct Hw as (H1 & H2 & H3).
  specialize (B r I). lia.
Qed.

(** ** Reading from a file *)

Section FileSource.
Context {sample : Type}.
Implicit Types (ud : @Stream_test.file_ctx sample) (S D : list sample).

Lemma firstn_add_slice S (p n : nat) :
  firstn (p + n) S = firstn p S ++ firstn n (skipn p S).
Proof.
  rewrite <- (firstn_skipn p S) at 1.
  rewrite firstn_app, firstn_firstn.
  replace (Nat.min (p + n) p) with p by lia.
  rewrite length_firstn.
  destruct (Nat.le_gt_cases p (length S)) as [H|H].
  - replace (p + n - Nat.min p (length S))%nat with n by lia. reflexivity.
  - rewrite (skipn_all2 S) by lia. rewrite !firstn_nil. reflexivity.
Qed.

(** What one read does. *)
Lemma file_read_cb_step S ud D n_max :
  file_log S ud D ->
  let remaining := Stream_test.n_samples ud - Stream_test.pos ud in
  let n := Z.min n_max remaining in
  (0 < n ->
   Stream_test.file_read_cb ud n_max =
   ((n, slice S (Stream_test.pos ud) n),
    Stream_test.mk_file_ctx S (Stream_test.n_samples ud)
      (Stream_test.pos ud + n)) /\
   Z.of_nat (length (slice S (Stream_test.pos ud) n)) = n /\
   file_log S (snd (Stream_test.file_read_cb ud n_max))
     (D ++ slice S (Stream_test.pos ud) n)) /\
  (n <= 0 -> Stream_test.file_read_cb ud n_max = ((n, []), ud)).
Proof.
  intros (Hs & Hn & Hp & HD). cbv zeta.
  unfold Stream_test.file_read_cb. rewrite Hs.
  change (if n_max <? Stream_test.n_samples ud - Stream_test.pos ud
          then n_max else Stream_test.n_samples ud - Stream_test.pos ud)
    with (MIN n_max (Stream_test.n_samples ud - Stream_test.pos ud)).
  rewrite MIN_min.
  set (n := Z.min n_max (Stream_test.n_samples ud - Stream_test.pos ud)).
  split; intros N.
  - destruct (Z.gtb_spec n 0); [|lia]. split; [reflexivity|].
    assert (Len : Z.of_nat (length (slice S (Stream_test.pos ud) n)) = n).
    { unfold slice. rewrite length_firstn, length_skipn. lia. }
    split; [exact Len|]. cbn [snd].
    unfold file_log. cbn. split; [reflexivity|]. split; [exact Hn|].
    split; [lia|]. rewrite HD. unfold slice.
    rewrite Z2Nat.inj_add by lia. symmetry. apply firstn_add_slice.
  - destruct (Z.gtb_spec n 0); [lia|]. reflexivity.
Qed.

Lemma file_read_cb_log S :
  source_log Stream_test.file_read_cb (file_log S).
Proof.
  intros ud D n_max L.
  destruct (file_read_cb_step S ud D n_max L) as [P N]. cbv zeta in *.
  set (n := Z.min n_max (Stream_test.n_samples ud - Stream_test.pos ud)) in *.
  destruct (Z_lt_le_dec 0 n) as [H|H].
  - destruct (P H) as (E & Len & L'). rewrite E in *. cbn [snd] in L'.
    destruct (Z.gtb_spec n 0); [|lia]. auto.
  - rewrite (N H). destruct (Z.gtb_spec n 0); [lia|]. exact L.
Qed.

End FileSource.

(** X7. The read callback of the command-line test delivers the file in
    order: a read returns [min (n_max, what is left)] samples, taken at
    the position of the file, and moves the position by as many; it
    never reads past the end, and at the end of the file (or when asked
    for nothing) it returns a count [<= 0] and leaves the file as it
    is. *)
Theorem file_read_cb_in_order {sample : Type}
    (S D : list sample) (ud : @Stream_test.file_ctx sample) (n_max : Z) :
  file_log S ud D ->
  let remaining := Stream_test.n_samples ud - Stream_test.pos ud in
  let n := Z.min n_max remaining in
  let ud' := snd (Stream_test.file_read_cb ud n_max) in
  fst (fst (Stream_test.file_read_cb ud n_max)) = n /\
  Stream_test.pos ud' <= Stream_test.n_samples ud' /\
  (0 < n ->
   snd (fst (Stream_test.file_read_cb ud n_max))
     = slice S (Stream_test.pos ud) n /\
   Z.of_nat (length (slice S (Stream_test.pos ud) n)) = n /\
   Stream_test.pos ud' = Stream_test.pos ud + n /\
   file_log S ud' (D ++ slice S (Stream_test.pos ud) n)) /\
  (n <= 0 -> ud' = ud) /\
  (n <= 0 <-> n_max <= 0 \/ Stream_test.pos ud = Stream_test.n_samples ud).
Proof.
  intros L. pose proof L as (Hs & Hn & Hp & HD).
  destruct (file_read_cb_step S ud D n_max L) as [P N]. cbv zeta in *.
  set (n := Z.min n_max (Stream_test.n_samples ud - Stream_test.pos ud)) in *.
  destruct (Z_lt_le_dec 0 n) as [H|H].
  - destruct (P H) as (E & Len & L'). rewrite E in *.
    cbn [fst snd Stream_test.pos Stream_test.n_samples] in *.
    split; [reflexivity|]. split; [lia|].
    split; [intros _; auto|]. split; [lia|]. lia.
  - rewrite (N H). cbn [fst snd].
    split; [reflexivity|]. split; [lia|]. split; [lia|].
    split; [reflexivity|]. lia.
Qed.

(** ** Filling the read buffer *)

Section Fill.
Context {sample src host : Type}.
Implicit Types (cctx : @common_ctx sample src host).

Lemma fill_loop_exit fuel cctx : forall ud buf len target ud' buf' len' e',
  fill_loop fuel cctx ud buf len target false = (ud', buf', len', e') ->
  target - len <= Z.of_nat fuel ->
  (e' = true /\ len' < target) \/ (e' = false /\ target <= len').
Proof.
  induction fuel as [|fuel IH]; intros ud buf len target ud' buf' len' e' E F;
    cbn [fill_loop] in E.
  - inversion E; subst. right. split; [reflexivity|lia].
  - destruct (Z.ltb_spec len target) as [L|L]; cbn [andb negb] in E.
    2:{ inversion E; subst. right. auto. }
    destruct (read_cb cctx ud (buffer_size cctx - len)) as [[n data] ud1].
    destruct (Z.leb_spec n 0) as [N|N].
    + inversion E; subst. left. auto.
    + apply IH in E; [exact E|lia].
Qed.

Lemma set_read_same cctx :
  set_read cctx (read_cb_user_data cctx) (read_buffer cctx)
    (read_buffer_len cctx) = cctx.
Proof. destruct cctx. reflexivity. Qed.

End Fill.

Section Reads.
Context {sample src host : Type}.
Implicit Types (cctx : @common_ctx sample src host).

(** The loop makes the reads one after the other and stops at the first
    that delivers nothing, or when the buffer holds enough. *)
Lemma fill_loop_reads fuel cctx target :
  forall ud buf len ud' buf' len' e',
  fill_loop fuel cctx ud buf len target false = (ud', buf', len', e') ->
  target - len <= Z.of_nat fuel ->
  exists reads ud_last,
    reads_from cctx target ud len reads ud_last /\
    len' = len + zsum (map fst reads) /\
    buf' = buf ++ concat (map snd reads) /\
    (e' = false -> target <= len' /\ ud' = ud_last) /\
    (e' = true ->
     len' < target /\
     exists n data,
       read_cb cctx ud_last (buffer_size cctx - len') = ((n, data), ud') /\
       n <= 0).
Proof.
  induction fuel as [|fuel IH]; intros ud buf len ud' buf' len' e' E F;
    cbn [fill_loop] in E.
  - inversion E; subst. exists [], ud'. cbn.
    rewrite app_nil_r, Z.add_0_r. repeat split; auto; try lia; discriminate.
  - destruct (Z.ltb_spec len target) as [L|L]; cbn [andb negb] in E.
    2:{ inversion E; subst. exists [], ud'. cbn.
        rewrite app_nil_r, Z.add_0_r.
        repeat split; auto; try lia; discriminate. }
    destruct (read_cb cctx ud (buffer_size cctx - len)) as [[n data] ud1]
      eqn:R.
    destruct (Z.leb_spec n 0) as [N|N].
    + inversion E; subst. exists [], ud. cbn.
      rewrite app_nil_r, Z.add_0_r.
      split; [reflexivity|]. split; [reflexivity|]. split; [reflexivity|].
      split; [discriminate|]. intros _. split; [exact L|].
      exists n, data. split; [exact R|exact N].
    + apply IH in E; [|lia].
      destruct E as (reads & ud_last & Rd & Hl & Hb & Hf & Ht).
      exists ((n, data) :: reads), ud_last.
      cbn [reads_from map fst snd concat zsum fold_right].
      split; [split; [exact L|]; split; [exact N|]; exists ud1; auto|].
      split; [fold (zsum (map fst reads)); lia|].
      split; [rewrite Hb, <- app_assoc; reflexivity|].
      split; [exact Hf|exact Ht].
Qed.

End Reads.

(** X8. [fill_read_buffer] reads until the buffer holds [target_len]
    samples or a read returns no sample.  What it does is a sequence of
    reads of the callback, each made while the buffer is short of
    [target_len], each asked for the room left in the buffer and each
    delivering a positive count; the buffer is what it was followed by
    what they delivered, in order.  It comes back without the end flag
    exactly when the buffer then holds [target_len] or more, with the
    source as the last of these reads left it; and with the end flag when
    the buffer is still short and one more read, made at that point,
    returned no sample.  The buffer stays within its capacity when the
    callback returns no more than it is asked for, and the flags [eof] and
    [abort] of the stream are left as they are. *)
Theorem fill_read_buffer_post {sample src host : Type}
    (cctx cctx' : @common_ctx sample src host) (target len : Z) (e : bool) :
  fill_read_buffer cctx target false = (cctx', len, e) ->
  exists reads ud_last,
    reads_from cctx target (read_cb_user_data cctx) (read_buffer_len cctx)
      reads ud_last /\
    len = read_buffer_len cctx + zsum (map fst reads) /\
    read_buffer_len cctx' = len /\
    read_buffer cctx' = read_buffer cctx ++ concat (map snd reads) /\
    (e = false -> target <= len /\ read_cb_user_data cctx' = ud_last) /\
    (e = true ->
     len < target /\
     exists n data,
       read_cb cctx ud_last (buffer_size cctx - len)
         = ((n, data), read_cb_user_data cctx') /\
       n <= 0) /\
    (read_contract cctx -> read_buffer_len cctx <= buffer_size cctx ->
     len <= buffer_size cctx) /\
    eof cctx' = eof cctx /\ abort cctx' = abort cctx.
Proof.
  intros E.
  destruct (fill_read_buffer_spec _ _ _ _ _ E)
    as (_ & H1 & _ & _ & H4 & H5 & _ & _ & H6 & _).
  unfold fill_read_buffer in E.
  destruct (fill_loop _ cctx _ _ _ target false) as [[[ud buf] len1] e1] eqn:F.
  inversion E; subst. clear E.
  destruct (fill_loop_reads _ _ _ _ _ _ _ _ _ _ F ltac:(lia))
    as (reads & ud_last & Rd & Hl & Hb & Hf & Ht).
  exists reads, ud_last.
  split; [exact Rd|]. split; [exact Hl|]. split; [reflexivity|].
  split; [exact Hb|].
  split; [intros Ef; destruct (Hf Ef) as [A B]; split; [exact A|exact B]|].
  split; [|auto].
  intros Et. destruct (Ht Et) as (A & n & data & R & N).
  split; [exact A|]. exists n, data. split; [exact R|exact N].
Qed.

Section FillFile.
Context {sample host : Type}.
Implicit Types
  (cctx : @common_ctx sample (@Stream_test.file_ctx sample) host)
  (ud : @Stream_test.file_ctx sample).

Lemma fill_loop_file S fuel cctx :
  read_cb cctx = Stream_test.file_read_cb ->
  forall ud buf len D,
  file_log S ud D ->
  len <= buffer_size cctx ->
  buffer_size cctx - len <= Z.of_nat fuel ->
  let len' :=
    Z.min (buffer_size cctx)
      (len + (Stream_test.n_samples ud - Stream_test.pos ud)) in
  exists ud' buf' D',
    fill_loop fuel cctx ud buf len (buffer_size cctx) false =
      (ud', buf', len', len' <? buffer_size cctx) /\
    file_log S ud' D' /\
    Stream_test.pos ud' = Stream_test.pos ud + (len' - len).
Proof.
  intros Hcb. induction fuel as [|fuel IH]; intros ud buf len D L Hl Hf;
    cbv zeta; pose proof L as (Hs & Hn & Hp & HD); cbn [fill_loop].
  - exists ud, buf, D.
    replace (Z.min _ _) with (buffer_size cctx) by lia.
    rewrite Z.ltb_irrefl. split; [f_equal; f_equal; lia|].
    split; [exact L|lia].
  - destruct (Z.ltb_spec len (buffer_size cctx)) as [Lt|Ge]; cbn [andb negb].
    2:{ exists ud, buf, D.
        replace (Z.min _ _) with (buffer_size cctx) by lia.
        rewrite Z.ltb_irrefl. split; [f_equal; f_equal; lia|].
        split; [exact L|lia]. }
    rewrite Hcb.
    destruct (file_read_cb_step S ud D (buffer_size cctx - len) L) as [P N].
    cbv zeta in P, N.
    set (n := Z.min (buffer_size cctx - len)
                (Stream_test.n_samples ud - Stream_test.pos ud)) in *.
    destruct (Z_lt_le_dec 0 n) as [H|H].
    + destruct (P H) as (E & Len & L'). rewrite E in *. cbn [snd] in L'.
      destruct (Z.leb_spec n 0); [lia|].
      destruct (IH _ (buf ++ slice S (Stream_test.pos ud) n) (len + n) _ L')
        as (ud' & buf' & D' & F & L2 & P2); [lia|lia|].
      cbv zeta in F, P2. cbn [Stream_test.pos Stream_test.n_samples] in F, P2.
      exists ud', buf', D'.
      replace (Z.min (buffer_size cctx)
                 (len + (Stream_test.n_samples ud - Stream_test.pos ud)))
        with (Z.min (buffer_size cctx)
                (len + n + (Stream_test.n_samples ud
                            - (Stream_test.pos ud + n)))) by lia.
      split; [exact F|]. split; [exact L2|]. lia.
    + rewrite (N H). destruct (Z.leb_spec n 0); [|lia].
      exists ud, buf, D.
      replace (Z.min (buffer_size cctx)
                 (len + (Stream_test.n_samples ud - Stream_test.pos ud)))
        with len by lia.
      assert (Q : (len <? buffer_size cctx) = true) by lia. rewrite Q.
      split; [reflexivity|]. split; [exact L|lia].
Qed.

Lemma fill_read_buffer_file S cctx D :
  read_cb cctx = Stream_test.file_read_cb ->
  file_log S (read_cb_user_data cctx) D ->
  read_buffer_len cctx <= buffer_size cctx ->
  let ud := read_cb_user_data cctx in
  let len' :=
    Z.min (buffer_size cctx)
      (read_buffer_len cctx
       + (Stream_test.n_samples ud - Stream_test.pos ud)) in
  exists cctx' D',
    fill_read_buffer cctx (buffer_size cctx) false =
      (cctx', len', len' <? buffer_size cctx) /\
    file_log S (read_cb_user_data cctx') D' /\
    Stream_test.pos (read_cb_user_data cctx')
      = Stream_test.pos ud + (len' - read_buffer_len cctx).
Proof.
  intros Hcb L Hl. cbv zeta. unfold fill_read_buffer.
  destruct (fill_loop_file S
              (Z.to_nat (buffer_size cctx - read_buffer_len cctx)) cctx Hcb
              (read_cb_user_data cctx) (read_buffer cctx) (read_buffer_len cctx)
              D L Hl) as (ud' & buf' & D' & F & L' & P); [lia|].
  cbv zeta in F, P. rewrite F.
  eexists. exists D'. split; [reflexivity|]. cbn. auto.
Qed.

End FillFile.

(** X9. Over a file, filling the read buffer to its capacity brings it to
    [min (capacity, held + left in the file)] samples, flags the end of
    the input exactly when the buffer could not be filled, and moves the
    position of the file by what was added. *)
Theorem fill_read_buffer_from_file {sample host : Type} (S D : list sample)
    (cctx : @common_ctx sample (@Stream_test.file_ctx sample) host) :
  read_cb cctx = Stream_test.file_read_cb ->
  file_log S (read_cb_user_data cctx) D ->
  read_buffer_len cctx <= buffer_size cctx ->
  let ud := read_cb_user_data cctx in
  let len :=
    Z.min (buffer_size cctx)
      (read_buffer_len cctx
       + (Stream_test.n_samples ud - Stream_test.pos ud)) in
  exists cctx',
    fill_read_buffer cctx (buffer_size cctx) false =
      (cctx', len, len <? buffer_size cctx) /\
    Stream_test.pos (read_cb_user_data cctx')
      = Stream_test.pos ud + (len - read_buffer_len cctx) /\
    Stream_test.pos (read_cb_user_data cctx')
      <= Stream_test.n_samples (read_cb_user_data cctx').
Proof.
  intros Hcb L Hl.
  destruct (fill_read_buffer_file S cctx D Hcb L Hl)
    as (cctx' & D' & F & (_ & _ & Hp & _) & P).
  exists cctx'. split; [exact F|]. split; [exact P|lia].
Qed.

(** ** A short input *)

Section ShortInput.
Context {sample host : Type}.
Variable env : @environment sample host.
Implicit Types
  (cctx : @common_ctx sample (@Stream_test.file_ctx sample) host)
  (tctx : @thread_ctx sample)
  (r : @chunk_record sample (@Stream_test.file_ctx sample) host).

(** The first chunk carries no context. *)
Lemma process_one_chunk_first cctx tctx ret cctx' tctx' r evs :
  process_one_chunk env cctx tctx = (ret, cctx', tctx', Some r, evs) ->
  next_chunk_idx cctx <= 0 -> cr_context r = None.
Proof.
  unfold process_one_chunk, wait_for_turn.
  destruct (eof cctx); [discriminate|].
  destruct (fill_read_buffer cctx _ false) as [[cctx1 len] e].
  destruct (chunk_vad cctx1 tctx len _) as [vad_start vad_segs].
  destruct (len <=? _); [discriminate|].
  match goal with
  | |- context [engine_callbacks ?c ?t ?s ?l] =>
      destruct (engine_callbacks c t s l) as [tctx1 ev]
  end.
  intros E I. destruct (Z.gtb_spec (next_chunk_idx cctx) 0); [lia|].
  destruct (negb _ || _); inversion E; subst; reflexivity.
Qed.

(** The state after a chunk that took all of a file that is at its end:
    no further chunk can be cut. *)
Lemma nothing_left S cctx D l final :
  read_cb cctx = Stream_test.file_read_cb ->
  file_log S (read_cb_user_data cctx) D ->
  Stream_test.pos (read_cb_user_data cctx)
    = Stream_test.n_samples (read_cb_user_data cctx) ->
  0 <= read_buffer_len cctx <= overlap_samples cctx ->
  buffer_size cctx = max_chunk_samples cctx + overlap_samples cctx ->
  0 <= max_chunk_samples cctx ->
  0 < next_chunk_idx cctx ->
  run_trace cctx l final -> l = [].
Proof.
  intros Hcb L Hp Hl Hbs Hmax Hi T.
  destruct l as [|r l]; [reflexivity|]. exfalso.
  destruct T as [(_ & c1 & vs & vstart & F & C) _]. cbv zeta in C.
  destruct C as (Hoo & _).
  destruct (fill_read_buffer_file S cctx D Hcb L) as (c' & D' & F' & _);
    [lia|].
  cbv zeta in F'. rewrite <- Hbs, F' in F. inversion F as [[Hc Hlen He]].
  unfold overlap_offset_of in Hoo.
  destruct (Z.gtb_spec (next_chunk_idx cctx) 0); lia.
Qed.

End ShortInput.

(** A run over a file that is not longer than the minimum chunk. *)
Lemma short_input_run {sample host : Type}
    (env : @environment sample host) (fuel : nat) (mem : allocations)
    (sparams : @whisper_stream_params sample (@Stream_test.file_ctx sample)
                 host)
    (ret : Z)
    (run : @run_result sample (@Stream_test.file_ctx sample) host)
    (S : list sample) :
  whisper_stream_full env fuel mem sparams = Returned ret (Some run) ->
  read_callback sparams = Some Stream_test.file_read_cb ->
  read_callback_user_data sparams
    = Stream_test.mk_file_ctx S (Z.of_nat (length S)) 0 ->
  0 < Z.of_nat (length S) <= min_chunk_samples_of sparams ->
  0 <= chunk_extend_ms sparams ->
  durations_fit sparams ->
  exists rec,
    rr_chunks run = [rec] /\
    cr_chunk_idx rec = 0 /\
    ci_chunk_samples (cr_info rec) = Z.of_nat (length S) /\
    ci_actual_chunk_samples (cr_info rec) = Z.of_nat (length S) /\
    ci_overlap_offset (cr_info rec) = 0 /\
    ci_time_offset (cr_info rec) = 0 /\
    cr_ret rec = er_ret (whisper_full env 0 S None) /\
    (ret = 0 <-> cr_ret rec = 0 /\ cr_aborted rec = false).
Proof.
  intros E Hr Hud Hn Hext Fit.
  destruct (durations_fit_sizes sparams Fit) as (F1 & F2 & F3).
  destruct (whisper_stream_full_run _ _ _ _ _ _ E)
    as (rcb & Hr' & Hm & Ho & _ & L & Hret).
  assert (rcb = Stream_test.file_read_cb) by congruence. subst rcb.
  set (c0 := initial_cctx sparams Stream_test.file_read_cb) in *.
  set (n := Z.of_nat (length S)) in *.
  assert (Hmin : min_chunk_samples c0 = min_chunk_samples_of sparams)
    by reflexivity.
  assert (Hmax : max_chunk_samples c0 = max_chunk_samples_of sparams)
    by reflexivity.
  assert (Hov : overlap_samples c0 = overlap_samples_of sparams)
    by reflexivity.
  assert (Hbs : buffer_size c0 = max_chunk_samples c0 + overlap_samples c0)
    by reflexivity.
  assert (Hmm : min_chunk_samples_of sparams <= max_chunk_samples_of sparams)
    by lia.
  assert (Hov0 : 0 <= overlap_samples_of sparams) by lia.
  assert (L0 : file_log S (read_cb_user_data c0) []).
  { change (read_cb_user_data c0) with (read_callback_user_data sparams).
    rewrite Hud. unfold file_log. cbn. fold n. repeat split; lia. }
  (* the first fill takes the whole file *)
  destruct (fill_read_buffer_file S c0 [] eq_refl L0) as (c1 & D1 & F & L1 & P1).
  { change (read_buffer_len c0) with 0. rewrite Hbs, Hmax, Hov. lia. }
  cbv zeta in F, P1.
  change (read_buffer_len c0) with 0 in F, P1.
  change (read_cb_user_data c0) with (read_callback_user_data sparams)
    in F, P1.
  rewrite Hud in F, P1. cbn [Stream_test.pos Stream_test.n_samples] in F, P1.
  fold n in F, P1.
  replace (Z.min (buffer_size c0) (0 + (n - 0))) with n in F, P1
    by (rewrite Hbs, Hmax, Hov; lia).
  rewrite Hbs in F.
  (* the loop *)
  destruct fuel as [|fuel]; [discriminate|]. cbn [chunk_loop] in L.
  destruct (process_one_chunk env c0 (init_thread_ctx sparams 0))
    as [[[[ret1 c2] t2] rec] evs] eqn:P.
  destruct (process_one_chunk_step _ _ _ _ _ _ _ _ P)
    as [(-> & -> & St)|(r & -> & C & _ & -> & Hret1)].
  { exfalso. destruct St as [[Ee _]|(_ & c1' & len & e & F' & Hlen & _)];
      [discriminate|].
    rewrite F in F'. inversion F'; subst len.
    change (overlap_offset_of c0 (next_chunk_idx c0)) with 0 in Hlen. lia. }
  pose proof (process_one_chunk_first _ _ _ _ _ _ _ _ P (Z.le_refl 0)) as Hctx.
  pose proof (process_one_chunk_audio _ _ _ _ _ _ _ _ _ _ _ P F) as Haud.
  pose proof (chunk_of_state _ _ C) as (Cf & Hidx & Htot & Hidx' & Htot' & Hab).
  pose proof C as (_ & c1' & vs & vstart & F' & C'). cbv zeta in C'.
  rewrite F in F'. inversion F' as [[Hc Hlen He]]. subst c1'. clear F'.
  change (overlap_offset_of c0 (next_chunk_idx c0)) with 0 in C'.
  change (total_samples_read c0) with 0 in C'.
  change (next_chunk_idx c0) with 0 in C', Hidx, Hidx'.
  rewrite <- Hlen, Z.sub_0_r in C'.
  destruct C' as (_ & _ & _ & HB & Hci & Hcc).
  assert (B : cr_found_boundary r = n).
  { rewrite HB. unfold find_chunk_boundary.
    assert (Q1 : min_chunk_samples c1 = min_chunk_samples_of sparams).
    { destruct (fill_read_buffer_spec _ _ _ _ _ F) as (Q & _).
      unfold same_config in Q. destruct Q as (_ & _ & _ & Q & _).
      rewrite Q. reflexivity. }
    assert (Q2 : max_chunk_samples c1 = max_chunk_samples_of sparams).
    { destruct (fill_read_buffer_spec _ _ _ _ _ F) as (Q & _).
      unfold same_config in Q. destruct Q as (_ & _ & _ & _ & Q & _).
      rewrite Q. reflexivity. }
    rewrite Q1, Q2, MIN_min.
    destruct (Z.geb_spec (min_chunk_samples_of sparams)
                (Z.min (max_chunk_samples_of sparams) n)); [|lia].
    cbn [fst]. lia. }
  destruct (make_chunk_info_fields c1 (cr_found_boundary r) n 0 0 (cr_eof r))
    as (M1 & M2 & M3 & M4).
  cbv zeta in M1, M2, M3, M4. rewrite <- Hci in M1, M2, M3, M4.
  assert (Hcs : ci_chunk_samples (cr_info r) = n).
  { rewrite M4, B.
    destruct (cr_eof r && (n - n <? min_chunk_samples c1)); reflexivity. }
  (* the audio *)
  assert (Aud : firstn (Z.to_nat (ci_actual_chunk_samples (cr_info r)))
                  (read_buffer c1) = S).
  { destruct (fill_read_buffer_log (file_log S) c0 _ c1 _ _ []
                (file_read_cb_log S) F L0 eq_refl) as (new & B1 & L1' & Len).
    cbn [app] in B1, L1'. change (read_buffer c0) with (@nil sample) in B1.
    cbn [app] in B1. destruct L1' as (_ & _ & _ & HD).
    rewrite P1 in HD. rewrite B1, HD, M2, Hcs.
    replace (Z.to_nat (0 + (n - 0))) with (length S) by (unfold n; lia).
    replace (Z.to_nat (n + 0)) with (length S) by (unfold n; lia).
    rewrite firstn_all. apply firstn_all. }
  rewrite Aud, Hctx, Hidx in Haud.
  (* nothing is left *)
  assert (Rest : forall l final, run_trace (state_after r) l final -> l = []).
  { intros l final T.
    destruct (state_after_fields r) as (Cf' & Si & _ & Sl & Su & _ & Se).
    destruct (chunk_failed r); [apply (run_trace_eof _ _ _ Se T)|].
    cbn [orb] in *.
    destruct (handoff_to_next_spec c1 (cr_info r) 0 0 (cr_eof r))
      as (Hcf & Hl2 & _ & Hu2 & Hi2 & _).
    cbv zeta in Hcf, Hl2, Hu2, Hi2. rewrite <- Hcc in Hcf, Hl2, Hu2, Hi2.
    pose proof (same_config_trans _ _ _ Cf Cf') as Q.
    unfold same_config in Q.
    destruct Q as (Q1 & _ & Q3 & _ & Q5 & _ & _ & Q8 & _).
    destruct (fill_read_buffer_spec _ _ _ _ _ F) as (Cf1 & R1 & _).
    assert (Ov1 : overlap_samples c1 = overlap_samples_of sparams).
    { unfold same_config in Cf1. destruct Cf1 as (_ & _ & Q & _).
      rewrite Q. reflexivity. }
    apply (nothing_left S (state_after r) D1 l final).
    - rewrite Q1. reflexivity.
    - rewrite Su, Hu2. exact L1.
    - rewrite Su, Hu2, P1. destruct L1 as (_ & -> & _). unfold n. lia.
    - rewrite Sl, Hl2, R1, Q3, Ov1, M2, Hcs, Hov. lia.
    - rewrite Q8, Q5, Q3. exact Hbs.
    - rewrite Q5, Hmax. lia.
    - rewrite Si, Hidx'. lia.
    - exact T. }
  assert (Chunks : rr_chunks run = [r] /\
                   abort (rr_cctx run) = chunk_failed r).
  { destruct (ret1 =? 0) eqn:R.
    - destruct (chunk_loop env fuel (state_after r) t2) as [r'|] eqn:L';
        [|discriminate].
      inversion L; subst. cbn [rr_chunks rr_cctx add_chunk].
      pose proof (chunk_loop_trace _ _ _ _ _ L') as T.
      pose proof (Rest _ _ T) as N. rewrite N in *.
      apply run_trace_flags in T. destruct T as [_ A].
      cbn [existsb] in A. rewrite orb_false_r in A.
      destruct (state_after_fields r) as (_ & _ & _ & _ & _ & Sa & _).
      rewrite A, Sa, Hab. change (abort c0) with false.
      rewrite orb_false_r. auto.
    - inversion L; subst. cbn [rr_chunks rr_cctx add_chunk].
      destruct (state_after_fields r) as (_ & _ & _ & _ & _ & Sa & _).
      rewrite Sa, Hab. change (abort c0) with false.
      rewrite orb_false_r. auto. }
  destruct Chunks as [Ch Ab].
  exists r. split; [exact Ch|]. split; [exact Hidx|].
  split; [exact Hcs|]. split; [rewrite M2, Hcs; lia|].
  split; [exact M1|]. split; [rewrite M3; reflexivity|].
  split; [exact Haud|].
  rewrite Hret, Ab. unfold chunk_failed.
  destruct (Z.eqb_spec (cr_ret r) 0) as [Z0|Z0]; destruct (cr_aborted r);
    cbn; split; try tauto; try discriminate; intros [? ?]; congruence.
Qed.

(** A single-worker stream over a finite source returns. *)
Lemma whisper_stream_full_finite {sample src host : Type}
    (env : @environment sample host) (mem : allocations)
    (sparams : @whisper_stream_params sample src host)
    (rcb : src -> Z -> (Z * list sample) * src) (remaining : src -> nat) :
  read_callback sparams = Some rcb ->
  slot0_ctx sparams = true -> slot1_ctx sparams = false ->
  0 < min_chunk_ms sparams ->
  0 <= overlap_ms sparams < min_chunk_ms sparams ->
  0 <= chunk_extend_ms sparams ->
  durations_fit sparams ->
  allocations_ok mem = true ->
  finite_source (initial_cctx sparams rcb) remaining ->
  exists fuel ret run,
    whisper_stream_full env fuel mem sparams = Returned ret (Some run).
Proof.
  intros Hr S0 S1 Hmin Hov Hext Fit Al FS.
  destruct (durations_fit_sizes sparams Fit) as (M1 & M2 & M3).
  destruct (chunk_loop_terminates env remaining
              (run_bound (initial_cctx sparams rcb) remaining)
              (initial_cctx sparams rcb) (init_thread_ctx sparams 0))
    as [run L]; auto; try (cbn; lia).
  exists (run_bound (initial_cctx sparams rcb) remaining).
  unfold whisper_stream_full. rewrite Hr, S0, S1.
  unfold allocations_ok in Al.
  apply andb_true_iff in Al. destruct Al as [Al A3].
  apply andb_true_iff in Al. destruct Al as [A1 A2].
  rewrite A1, A2, A3. cbn [negb andb].
  destruct (Z.gtb_spec (min_chunk_ms sparams) 0); [|lia].
  destruct (Z.geb_spec (overlap_ms sparams) 0); [|lia].
  destruct (Z.ltb_spec (overlap_ms sparams) (min_chunk_ms sparams)); [|lia].
  cbn [negb andb].
  fold (min_chunk_samples_of sparams).
  fold (max_chunk_samples_of sparams).
  fold (overlap_samples_of sparams). fold (initial_cctx sparams rcb).
  rewrite L. eauto.
Qed.

(** X10. A file that is not longer than the minimum chunk is transcribed
    as one chunk that holds all of it.  For a stream of the single worker
    over the file, with parameters that pass the assertions,
    [chunk_extend_ms >= 0], durations whose products by the sample rate
    fit an [int], and the allocations succeeding: the stream returns, and
    whenever it does the engine has been called once, on the whole file,
    without context and with [time_offset] 0, and the value returned is 0
    unless this call fails or the host aborts. *)
Theorem short_input_single_chunk {sample host : Type}
    (env : @environment sample host) (mem : allocations)
    (sparams : @whisper_stream_params sample (@Stream_test.file_ctx sample)
                 host)
    (S : list sample) :
  read_callback sparams = Some Stream_test.file_read_cb ->
  read_callback_user_data sparams
    = Stream_test.mk_file_ctx S (Z.of_nat (length S)) 0 ->
  slot0_ctx sparams = true -> slot1_ctx sparams = false ->
  0 < min_chunk_ms sparams ->
  0 <= overlap_ms sparams < min_chunk_ms sparams ->
  0 <= chunk_extend_ms sparams ->
  durations_fit sparams ->
  allocations_ok mem = true ->
  0 < Z.of_nat (length S) <= min_chunk_samples_of sparams ->
  (exists fuel ret run,
     whisper_stream_full env fuel mem sparams = Returned ret (Some run)) /\
  (forall fuel ret run,
     whisper_stream_full env fuel mem sparams = Returned ret (Some run) ->
     exists rec,
       rr_chunks run = [rec] /\
       cr_chunk_idx rec = 0 /\
       ci_chunk_samples (cr_info rec) = Z.of_nat (length S) /\
       ci_actual_chunk_samples (cr_info rec) = Z.of_nat (length S) /\
       ci_overlap_offset (cr_info rec) = 0 /\
       ci_time_offset (cr_info rec) = 0 /\
       cr_ret rec = er_ret (whisper_full env 0 S None) /\
       (ret = 0 <-> cr_ret rec = 0 /\ cr_aborted rec = false)).
Proof.
  intros Hr Hud S0 S1 Hmin Hov Hext Fit Al Hn. split.
  - apply (whisper_stream_full_finite env mem sparams Stream_test.file_read_cb
             Examples.file_remaining); auto.
    intros ud n_max. exact (file_read_cb_finite ud n_max).
  - intros fuel ret run E.
    exact (short_input_run env fuel mem sparams ret run S E Hr Hud Hn Hext
             Fit).
Qed.

(** * The strings handed to the host *)

Section Utf.
Import Jni_strings.

(** The tests on a byte, in arithmetic. *)
Lemma byte_tests (b : Z) :
  0 <= b < 256 ->
  (Z.land b 128 =? 0) = (b <? 128) /\
  (Z.shiftr b 5 =? 6) = ((192 <=? b) && (b <? 224)) /\
  (Z.shiftr b 4 =? 14) = ((224 <=? b) && (b <? 240)) /\
  (Z.shiftr b 3 =? 30) = ((240 <=? b) && (b <? 248)).
Proof.
  intros H.
  assert (A : forallb (fun n =>
                let b := Z.of_nat n in
                Bool.eqb (Z.land b 128 =? 0) (b <? 128)
                && Bool.eqb (Z.shiftr b 5 =? 6) ((192 <=? b) && (b <? 224))
                && Bool.eqb (Z.shiftr b 4 =? 14) ((224 <=? b) && (b <? 240))
                && Bool.eqb (Z.shiftr b 3 =? 30) ((240 <=? b) && (b <? 248)))
              (seq 0 256) = true) by (vm_compute; reflexivity).
  rewrite forallb_forall in A. specialize (A (Z.to_nat b)).
  rewrite Z2Nat.id in A by lia.
  assert (I : In (Z.to_nat b) (seq 0 256)) by (apply in_seq; lia).
  specialize (A I). cbv zeta in A.
  repeat (apply andb_prop in A; destruct A as [A ?]).
  repeat split; apply eqb_prop; assumption.
Qed.

Lemma lead_test (b : Z) :
  0 <= b < 256 ->
  (if Z.shiftr b 5 =? 6 then Some 1%nat
   else if Z.shiftr b 4 =? 14 then Some 2%nat
   else if Z.shiftr b 3 =? 30 then Some 3%nat
   else None) = lead_length b.
Proof.
  intros H. destruct (byte_tests b H) as (_ & -> & -> & ->). reflexivity.
Qed.

Lemma lead_length_high l k : lead_length l = Some k -> 192 <= l < 248.
Proof.
  unfold lead_length.
  destruct (Z.leb_spec 192 l), (Z.ltb_spec l 224), (Z.leb_spec 224 l),
    (Z.ltb_spec l 240), (Z.leb_spec 240 l), (Z.ltb_spec l 248);
    cbn; intros E; try discriminate; lia.
Qed.

(** The inner loop takes [k] high bytes, or all the bytes when fewer are
    left, and fails on a byte without the high bit. *)
Lemma continuation_bytes_spec k : forall s,
  Forall (fun b => 0 <= b < 256) s ->
  match continuation_bytes k s with
  | Some rest =>
      exists cs, s = cs ++ rest /\ Forall high cs /\
                 ((length cs = k) \/ ((length cs < k)%nat /\ rest = []))
  | None =>
      exists cs b rest, s = cs ++ b :: rest /\ Forall high cs /\
                        (length cs < k)%nat /\ 0 <= b < 128
  end.
Proof.
  induction k as [|k IH]; intros s B; cbn [continuation_bytes].
  - exists []. cbn. auto.
  - destruct s as [|b s].
    + exists []. cbn. split; auto. split; auto. right. split; [lia|auto].
    + inversion B as [|? ? Hb Bs]; subst.
      destruct (byte_tests b Hb) as (T & _). rewrite T.
      destruct (Z.ltb_spec b 128).
      * exists [], b, s. cbn. repeat split; auto; lia.
      * specialize (IH s Bs). destruct (continuation_bytes k s) as [rest|].
        -- destruct IH as (cs & -> & H1 & H2). exists (b :: cs).
           split; [reflexivity|]. split; [constructor; [unfold high; lia|auto]|].
           cbn [length]. destruct H2 as [H2|[H2 H3]]; [left|right]; auto.
           split; [lia|auto].
        -- destruct IH as (cs & b' & rest & -> & H1 & H2 & H3).
           exists (b :: cs), b', rest. split; [reflexivity|].
           split; [constructor; [unfold high; lia|auto]|].
           cbn [length]. split; [lia|auto].
Qed.

Lemma passes_inv s :
  passes s ->
  match s with
  | [] => True
  | l :: rest =>
      (0 <= l < 128 /\ passes rest) \/
      (exists k cs s', lead_length l = Some k /\ rest = cs ++ s' /\
                       Forall high cs /\
                       ((length cs = k /\ passes s') \/
                        ((length cs < k)%nat /\ s' = [])))
  end.
Proof.
  intros P. destruct P.
  - exact I.
  - left. auto.
  - right. exists k, cs, s. auto 10.
  - right. exists k, cs, []. rewrite app_nil_r. auto 10.
Qed.

Lemma high_prefix_unique (cs cs' : list Z) (b : Z) rest rest' :
  cs ++ b :: rest = cs' ++ rest' ->
  Forall high cs -> Forall high cs' -> 0 <= b < 128 ->
  (length cs' <= length cs)%nat.
Proof.
  revert cs'. induction cs as [|c cs IH]; intros cs' E H H' Hb.
  - destruct cs' as [|c' cs']; [cbn; lia|].
    cbn in E. inversion E; subst. inversion H'; subst.
    unfold high in *. lia.
  - destruct cs' as [|c' cs']; [cbn; lia|].
    cbn in E. inversion E; subst. inversion H; inversion H'; subst.
    cbn. apply le_n_S. eapply IH; eauto.
Qed.

Lemma app_same_length {A : Type} (a a' b b' : list A) :
  a ++ b = a' ++ b' -> length a = length a' -> a = a' /\ b = b'.
Proof.
  revert a'. induction a as [|x a IH]; intros [|x' a'] E L;
    cbn in *; try discriminate; auto.
  inversion E; subst. destruct (IH a' H1) as [-> ->]; [lia|auto].
Qed.

Lemma utf_scan_passes fuel : forall s,
  (length s <= fuel)%nat ->
  Forall (fun b => 0 <= b < 256) s ->
  (utf_scan fuel s = true <-> passes s).
Proof.
  induction fuel as [|fuel IH]; intros s L B.
  - destruct s; [|cbn in L; lia]. cbn. split; auto using passes_nil.
  - destruct s as [|l rest]; [cbn; split; auto using passes_nil|].
    cbn [utf_scan]. inversion B as [|? ? Hl Br]; subst. cbn in L.
    destruct (byte_tests l Hl) as (T & _). rewrite T, (lead_test l Hl).
    destruct (Z.ltb_spec l 128) as [A|A].
    + rewrite IH by (auto; lia). split.
      * intros P. apply passes_ascii; [lia|exact P].
      * intros P. apply passes_inv in P.
        destruct P as [[_ P]|(k & cs & s' & Lk & _)]; [exact P|].
        apply lead_length_high in Lk. lia.
    + destruct (lead_length l) as [k|] eqn:Lk.
      2:{ split; [discriminate|]. intros P. apply passes_inv in P.
          destruct P as [[P _]|(k & cs & s' & Lk' & _)]; [lia|congruence]. }
      pose proof (continuation_bytes_spec k rest Br) as C.
      destruct (continuation_bytes k rest) as [rest'|].
      * destruct C as (cs & -> & Hc & Hk).
        assert (Br' : Forall (fun b => 0 <= b < 256) rest')
          by (apply Forall_app in Br; tauto).
        rewrite IH by (auto; rewrite length_app in L; lia).
        split.
        -- intros P. destruct Hk as [Hk|[Hk ->]].
           ++ eapply passes_sequence; eauto.
           ++ rewrite app_nil_r. eapply passes_truncated; eauto.
        -- intros P. apply passes_inv in P.
           destruct P as [[P _]|(k' & cs' & s' & Lk' & E & Hc' & Hk')];
             [lia|].
           assert (k' = k) by congruence. subst k'.
           destruct Hk as [Hk|[Hk ->]].
           ++ destruct Hk' as [[Hk' P]|[Hk' ->]].
              ** assert (cs = cs' /\ rest' = s') as [-> ->].
                 { apply app_same_length; [exact E|lia]. }
                 exact P.
              ** exfalso. rewrite app_nil_r in E.
                 assert (length (cs ++ rest') = length cs')
                   by (rewrite E; reflexivity).
                 rewrite length_app in *. lia.
           ++ constructor.
      * destruct C as (cs & b & rest' & -> & Hc & Hk & Hb).
        split; [discriminate|]. intros P. exfalso.
        apply passes_inv in P.
        destruct P as [[P _]|(k' & cs' & s' & Lk' & E & Hc' & Hk')]; [lia|].
        assert (k' = k) by congruence. subst k'.
        pose proof (high_prefix_unique _ _ _ _ _ E Hc Hc' Hb) as Le.
        destruct Hk' as [[Hk' P]|[Hk' ->]].
        -- lia.
        -- rewrite app_nil_r in E.
           assert (length (cs ++ b :: rest') = length cs')
             by (rewrite E; reflexivity).
           rewrite length_app in *. cbn in *. lia.
Qed.

Lemma utf8_sequences_passes s :
  utf8_sequences s -> passes s /\ Forall (fun b => 0 <= b < 256) s.
Proof.
  induction 1 as [|b s Hb _ [IH1 IH2]|l k cs s Lk Len Hc _ [IH1 IH2]].
  - split; constructor.
  - split; [apply passes_ascii; [lia|auto]|constructor; [lia|auto]].
  - assert (Hh : Forall high cs).
    { eapply Forall_impl; [|exact Hc]. unfold continuation, high. lia. }
    split; [eapply passes_sequence; eauto|].
    constructor; [apply lead_length_high in Lk; lia|].
    apply Forall_app. split; [|auto].
    eapply Forall_impl; [|exact Hh]. unfold high. lia.
Qed.

End Utf.

(** X11. [jni_new_string_utf] hands a string to [NewStringUTF] exactly
    when it is made of ASCII bytes and of lead bytes 0xC0..0xF7 followed
    by one, two or three bytes (by the lead) with the high bit set, or by
    fewer when the string ends there; every other string, and NULL, gives
    NULL.  So a lone continuation byte, a lead byte 0xF8..0xFF or an
    ASCII byte inside a sequence is refused, while a sequence cut short by
    the end of the string is let through. *)
Theorem jni_new_string_utf_lets_through (s : list Z) :
  Forall (fun b => 0 <= b < 256) s ->
  (Jni_strings.jni_new_string_utf (Some s) = Some s
   <-> Jni_strings.passes s) /\
  (Jni_strings.jni_new_string_utf (Some s) = None
   <-> ~ Jni_strings.passes s) /\
  Jni_strings.jni_new_string_utf None = None.
Proof.
  intros B. unfold Jni_strings.jni_new_string_utf.
  pose proof (utf_scan_passes (length s) s (Nat.le_refl _) B) as P.
  destruct (Jni_strings.utf_scan (length s) s).
  - split; [tauto|]. split; [|reflexivity].
    split; [discriminate|]. intros N. exfalso. apply N, P. reflexivity.
  - split; [|split; [|reflexivity]].
    + split; [discriminate|]. intros N. apply P in N. discriminate.
    + split; [|reflexivity]. intros _ N. apply P in N. discriminate.
Qed.

(** X12. A text that is a sequence of well-formed UTF-8 characters (in
    the structure of its bytes: a lead byte and the continuation bytes
    0x80..0xBF it announces) always passes the check of
    [jni_new_string_utf]: valid text is never withheld from the host. *)
Theorem well_formed_utf8_passes (s : list Z) :
  Jni_strings.utf8_sequences s ->
  Jni_strings.jni_new_string_utf (Some s) = Some s.
Proof.
  intros W. destruct (utf8_sequences_passes s W) as [P B].
  unfold Jni_strings.jni_new_string_utf.
  apply (utf_scan_passes (length s) s (Nat.le_refl _) B) in P.
  rewrite P. reflexivity.
Qed.

(** X13. [jni_segment_callback] delivers nothing exactly when no JNI
    environment is available, when the text does not pass the check, or
    when [NewStringUTF] gives no Java string for the text; the segment is
    then dropped without notice.  Otherwise it delivers the segment once,
    with its times in milliseconds (ten times the centiseconds of the
    stream); the language is the name the engine gives for [lang_id] when
    [lang_id >= 0], the engine has a name for it and [NewStringUTF] gives
    a Java string for the name, and NULL in every other case. *)
Theorem jni_segment_callback_drops (env : bool) (lang_id t0 t1 : Z)
    (whisper_lang_str : Z -> option string)
    (new_lang : string -> bool) (new_text : list Z -> bool)
    (text : list Z) :
  Forall (fun b => 0 <= b < 256) text ->
  let out := Jni_strings.jni_segment_callback env lang_id whisper_lang_str
               new_lang new_text t0 t1 (Some text) in
  (env = false \/ ~ Jni_strings.passes text \/ new_text text = false
   <-> out = []) /\
  (env = true -> Jni_strings.passes text -> new_text text = true ->
   exists lang,
     out = [Jni_strings.mk_new_segment text (t0 * 10) (t1 * 10) lang] /\
     (lang_id < 0 -> lang = None) /\
     (forall l, lang = Some l <->
        0 <= lang_id /\ whisper_lang_str lang_id = Some l /\
        new_lang l = true)).
Proof.
  intros B. cbv zeta. unfold Jni_strings.jni_segment_callback.
  unfold Jni_strings.jni_new_string_utf.
  pose proof (utf_scan_passes (length text) text (Nat.le_refl _) B) as P.
  destruct env; cbn [negb].
  - destruct (Jni_strings.utf_scan (length text) text).
    + destruct (new_text text) eqn:N.
      * split.
        -- split; [|discriminate]. intros [H|[H|H]]; try discriminate.
           exfalso. apply H, P. reflexivity.
        -- intros _ _ _. eexists. split; [reflexivity|].
           split.
           ++ intros H. destruct (Z.geb_spec lang_id 0); [lia|reflexivity].
           ++ intros l. destruct (Z.geb_spec lang_id 0) as [G|G].
              ** destruct (whisper_lang_str lang_id) as [l0|].
                 --- destruct (new_lang l0) eqn:NL.
                     +++ split.
                         *** intros E. inversion E; subst. auto.
                         *** intros (_ & E & _). exact E.
                     +++ split; [discriminate|].
                         intros (_ & E & NL'). inversion E; subst.
                         congruence.
                 --- split; [discriminate|]. intros (_ & E & _).
                     discriminate.
              ** split; [discriminate|]. intros (G' & _). lia.
      * split; [split; auto|]. intros _ _ H. discriminate.
    + split.
      * split; [reflexivity|]. intros _. right. left. intros N.
        apply P in N. discriminate.
      * intros _ N. apply P in N. discriminate.
  - split; [split; auto|discriminate].
Qed.

(** * The command queue *)

Section Queue.
Import Jni_queue.

Lemma linked_allocated h : forall l p a,
  linked h p l -> In a l -> exists node, h a = Some node.
Proof.
  induction l as [|b l IH]; intros p a L I; [destruct I|].
  destruct L as (_ & node & Hn & L). destruct I as [->|I]; eauto.
Qed.

(** Memory outside the queue does not matter. *)
Lemma linked_frame h h' : forall l p,
  linked h p l -> (forall a, In a l -> h' a = h a) -> linked h' p l.
Proof.
  induction l as [|b l IH]; intros p L F; [exact L|].
  destruct L as (-> & node & Hn & L). split; [reflexivity|].
  exists node. split; [rewrite F; [exact Hn|left; reflexivity]|].
  apply IH; [exact L|]. intros a I. apply F. right. exact I.
Qed.

Lemma last_in (l : list Z) (a : Z) : In (last l a) (a :: l).
Proof.
  revert a. induction l as [|b l IH]; intros a; [left; reflexivity|].
  right. rewrite last_cons_default. apply IH.
Qed.

(** The last node of a queue ends it, and a node written behind it
    extends the queue. *)
Lemma linked_snoc h n node : forall l p a,
  linked h p (a :: l) -> NoDup (a :: l) -> ~ In n (a :: l) ->
  h n = Some node -> next node = None ->
  exists tn,
    h (last l a) = Some tn /\ next tn = None /\
    linked (store h (last l a) (set_next tn (Some n))) p (a :: l ++ [n]).
Proof.
  induction l as [|b l IH]; intros p a L D N Hn Hnx.
  - destruct L as (-> & na & Ha & L). cbn in L.
    exists na. cbn [last]. split; [exact Ha|]. split; [exact L|].
    cbn [app linked]. split; [reflexivity|].
    exists (set_next na (Some n)). unfold store at 1. rewrite Z.eqb_refl.
    split; [reflexivity|]. cbn [next set_next]. split; [reflexivity|].
    exists node. unfold store.
    destruct (Z.eqb_spec n a) as [->|_]; [exfalso; apply N; left; auto|].
    split; [exact Hn|]. rewrite Hnx. reflexivity.
  - destruct L as (-> & na & Ha & L).
    inversion D as [|? ? Da Dl]; subst.
    destruct (IH _ _ L Dl) as (tn & Ht & Htn & L'); auto.
    { intros I. apply N. right. exact I. }
    rewrite last_cons_default.
    exists tn. split; [exact Ht|]. split; [exact Htn|].
    cbn [app linked]. split; [reflexivity|].
    exists na. unfold store at 1.
    destruct (Z.eqb_spec a (last l b)) as [E|_].
    { exfalso. apply Da. rewrite E. apply last_in. }
    split; [exact Ha|]. exact L'.
Qed.

Lemma last_address_snoc (l : list Z) (n : Z) :
  last_address (l ++ [n]) = Some n.
Proof.
  destruct l as [|a l]; [reflexivity|]. cbn [app last_address]. f_equal.
  revert a. induction l as [|b l IH]; intros a; [reflexivity|].
  cbn [app]. rewrite last_cons_default. apply IH.
Qed.

Lemma enqueue_spec q l n node :
  queue_of q l -> nodes q n = Some node -> next node = None -> ~ In n l ->
  exists q',
    enqueue_command_node q (Some n) = Some q' /\
    queue_of q' (l ++ [n]) /\
    (forall a, command_at (nodes q') a = command_at (nodes q) a).
Proof.
  intros (L & T & D) Hn Hnx N. unfold enqueue_command_node.
  destruct l as [|a l].
  - cbn in L, T. rewrite T. eexists. split; [reflexivity|].
    split; [|intros a; reflexivity]. unfold queue_of. cbn.
    split; [split; [reflexivity|exists node; rewrite Hnx; auto]|].
    split; [reflexivity|]. constructor; [intros []|constructor].
  - cbn [last_address] in T. rewrite T.
    destruct (linked_snoc _ _ _ _ _ _ L D N Hn Hnx) as (tn & Ht & Htn & L').
    rewrite Ht. eexists. split; [reflexivity|]. split; [split; [|split]|].
    + exact L'.
    + cbn [queue_tail]. symmetry. apply (last_address_snoc (a :: l)).
    + change (a :: l ++ [n]) with ((a :: l) ++ [n]).
      apply NoDup_app; [exact D|repeat constructor; intros []|].
      intros x I [->|[]]. exact (N I).
    + intros x. cbn [nodes]. unfold command_at, store.
      destruct (Z.eqb_spec x (last l a)) as [->|_]; [|reflexivity].
      rewrite Ht. reflexivity.
Qed.

Lemma dequeue_spec q l :
  queue_of q l ->
  exists q',
    dequeue_command q = Some (hd_error l, q') /\
    queue_of q' (tl l) /\ nodes q' = nodes q.
Proof.
  intros (L & T & D). unfold dequeue_command. destruct l as [|a l].
  - cbn in L. rewrite L. exists q. split; [reflexivity|].
    split; [|reflexivity]. split; [exact L|]. split; [exact T|exact D].
  - destruct L as (-> & na & Ha & L). rewrite Ha.
    eexists. split; [reflexivity|]. split; [|reflexivity].
    inversion D; subst. split; [exact L|]. split; [|assumption].
    cbn [queue_tail tl]. destruct l as [|b l].
    + cbn in L. rewrite L. reflexivity.
    + destruct L as (-> & _). rewrite T. cbn [last_address].
      rewrite last_cons_default. reflexivity.
Qed.

Lemma clear_spec env : forall l fuel q,
  queue_of q l -> (length l < fuel)%nat ->
  exists q',
    clear_command_queue fuel q env = Some (q', l) /\
    queue_head q' = None /\ queue_tail q' = None /\
    (forall a, nodes q' a = if existsb (Z.eqb a) l then None else nodes q a).
Proof.
  induction l as [|a l IH]; intros fuel q Q F;
    (destruct fuel as [|fuel]; [cbn in F; lia|]); cbn [clear_command_queue];
    destruct (dequeue_spec q _ Q) as (q1 & -> & Q1 & H1); cbn [hd_error tl] in *.
  - exists q1. destruct Q1 as (L & T & _). cbn in L, T.
    split; [reflexivity|]. split; [exact L|]. split; [exact T|].
    intros a. cbn [existsb]. rewrite H1. reflexivity.
  - destruct Q as (L & _ & D). inversion D as [|? ? Da Dl]; subst.
    destruct (linked_allocated _ _ _ a L (or_introl eq_refl)) as (na & Ha).
    unfold command_free. rewrite H1, Ha.
    destruct (IH fuel (mk_command_queue (release (nodes q) a) (queue_head q1)
                         (queue_tail q1))) as (q2 & E & Hh & Ht & Hn).
    + destruct Q1 as (L1 & T1 & D1). split; [|split; auto].
      cbn [nodes queue_head]. rewrite H1 in L1.
      apply (linked_frame (nodes q)); [exact L1|].
      intros x I. unfold release.
      destruct (Z.eqb_spec x a) as [->|_]; [contradiction|reflexivity].
    + cbn in F. lia.
    + rewrite E. exists q2. split; [reflexivity|]. split; [exact Hh|].
      split; [exact Ht|]. intros x. rewrite Hn. cbn [nodes existsb].
      unfold release.
      destruct (x =? a), (existsb (Z.eqb x) l); reflexivity.
Qed.

End Queue.

(** X14. The command queue is first in, first out.  On a queue that holds
    the nodes [l]: enqueueing NULL changes nothing; enqueueing a node that
    is not in the queue and whose [next] is NULL (as the allocators leave
    it) appends it, and no command in memory is altered; dequeueing
    returns the first node, or NULL when the queue is empty, and leaves
    the rest. *)
Theorem command_queue_fifo (q : Jni_queue.command_queue) (l : list Z) :
  Jni_queue.queue_of q l ->
  Jni_queue.enqueue_command_node q None = Some q /\
  (forall n node,
     Jni_queue.nodes q n = Some node -> Jni_queue.next node = None ->
     ~ In n l ->
     exists q',
       Jni_queue.enqueue_command_node q (Some n) = Some q' /\
       Jni_queue.queue_of q' (l ++ [n]) /\
       (forall a, Jni_queue.command_at (Jni_queue.nodes q') a
                  = Jni_queue.command_at (Jni_queue.nodes q) a)) /\
  (exists q',
     Jni_queue.dequeue_command q = Some (hd_error l, q') /\
     Jni_queue.queue_of q' (tl l) /\
     Jni_queue.nodes q' = Jni_queue.nodes q).
Proof.
  intros Q. split; [reflexivity|]. split.
  - intros n node. apply enqueue_spec. exact Q.
  - apply dequeue_spec. exact Q.
Qed.

(** X15. [clear_command_queue] frees every node of the queue once, in the
    order of the queue, frees nothing else, and leaves the queue empty
    (head and tail NULL). *)
Theorem clear_command_queue_frees_all (q : Jni_queue.command_queue)
    (l : list Z) (env : bool) :
  Jni_queue.queue_of q l ->
  exists q',
    Jni_queue.clear_command_queue (S (length l)) q env = Some (q', l) /\
    Jni_queue.queue_head q' = None /\ Jni_queue.queue_tail q' = None /\
    (forall a, In a l -> Jni_queue.nodes q' a = None) /\
    (forall a, ~ In a l -> Jni_queue.nodes q' a = Jni_queue.nodes q a).
Proof.
  intros Q.
  destruct (clear_spec env l (S (length l)) q Q (Nat.lt_succ_diag_r _))
    as (q' & E & H & T & N).
  exists q'. split; [exact E|]. split; [exact H|]. split; [exact T|].
  split; intros a I; rewrite N.
  - assert (X : existsb (Z.eqb a) l = true).
    { apply existsb_exists. exists a. split; [exact I|apply Z.eqb_refl]. }
    rewrite X. reflexivity.
  - destruct (existsb (Z.eqb a) l) eqn:X; [|reflexivity].
    apply existsb_exists in X. destruct X as (x & Ix & Ex).
    apply Z.eqb_eq in Ex. subst x. contradiction.
Qed.

(** * The native methods and the worker thread *)

(** The paths through [load_model]: up to the VAD model, and from there
    on. *)
Ltac load_model_gpu_paths ld a :=
  try (destruct (Jni_queue.la_use_gpu a);
       [destruct (Jni_worker.ctx_is_using_gpu ld
                  && (Jni_worker.vk_device_count ld >? 0));
        [destruct (negb (Jni_worker.is_gpu_blocklisted
                           (Jni_worker.vk_device_description ld)))|]|]).

Ltac load_model_paths_with ld a path v gpu :=
  unfold Jni_worker.load_model;
  destruct (Jni_queue.model_path a) as [path|];
  [destruct (negb (Jni_worker.asset_manager_from_java ld));
   [|destruct (negb (Jni_worker.asset_open ld path));
     [|destruct (negb (Jni_worker.whisper_init ld path
                         (Jni_queue.la_use_gpu a)));
       [|destruct (Jni_queue.vad_model_path a) as [v|];
         [destruct (negb (Jni_worker.asset_open ld v));
          [|destruct (negb (Jni_worker.vad_init ld v)); [|gpu]]|gpu]]]]|];
  cbn [fst snd].

Ltac load_model_paths ld a i path v :=
  load_model_paths_with ld a path v
    ltac:(destruct (i =? Jni_worker.SLOT_MAIN);
          [load_model_gpu_paths ld a|]).

(** The same when the slot is known. *)
Ltac load_model_slot_paths ld a path v :=
  load_model_paths_with ld a path v
    ltac:(cbn [Jni_worker.SLOT_MAIN Jni_worker.SLOT_SECOND Z.eqb];
          load_model_gpu_paths ld a).

Section Worker_lemmas.
Import Jni_queue Jni_worker.

Variable whisper_lang_id : string -> Z.
Variable ld : loader.
Variable during_run : list Jni.host_call.
Variable result : Z.

(** A node stored at a free address, then enqueued. *)
Lemma enqueue_fresh st l p node :
  queue_of (queue st) l -> nodes (queue st) p = None -> next node = None ->
  exists st1,
    enqueue st (store (nodes (queue st)) p node) p = Some (None, Some st1) /\
    ctx st1 = ctx st /\ vad_main st1 = vad_main st /\
    vad_second st1 = vad_second st /\
    queue_of (queue st1) (l ++ [p]) /\
    command_at (nodes (queue st1)) p = Some (type node, args node) /\
    (forall a, a <> p ->
       command_at (nodes (queue st1)) a = command_at (nodes (queue st)) a).
Proof.
  intros (L & T & D) Hp Hnx. unfold enqueue.
  set (q0 := mk_command_queue (store (nodes (queue st)) p node)
               (queue_head (queue st)) (queue_tail (queue st))).
  assert (N : ~ In p l).
  { intros I. destruct (linked_allocated _ _ _ _ L I) as (x & Hx). congruence. }
  assert (Q0 : queue_of q0 l).
  { split; [|split; [exact T|exact D]]. cbn [q0 nodes queue_head].
    apply (linked_frame (nodes (queue st))); [exact L|].
    intros a I. unfold store.
    destruct (Z.eqb_spec a p) as [->|_]; [contradiction|reflexivity]. }
  assert (H0 : nodes q0 p = Some node).
  { cbn [q0 nodes]. unfold store. rewrite Z.eqb_refl. reflexivity. }
  destruct (enqueue_spec q0 l p node Q0 H0 Hnx N) as (q' & E & Q' & C).
  rewrite E. eexists. split; [reflexivity|]. cbn [ctx vad_main vad_second queue set_queue].
  repeat (split; [reflexivity|]). split; [exact Q'|]. split.
  - rewrite C. unfold command_at. rewrite H0. reflexivity.
  - intros a Na. rewrite C. cbn [q0 nodes]. unfold command_at, store.
    destruct (Z.eqb_spec a p) as [->|_]; [contradiction|reflexivity].
Qed.

(** The setters of the state, field by field. *)
Lemma queue_set_slot st i c v : queue (set_slot st i c v) = queue st.
Proof. unfold set_slot. destruct (i =? SLOT_MAIN); reflexivity. Qed.

Lemma queue_set_use_gpu st g : queue (set_use_gpu st g) = queue st.
Proof. reflexivity. Qed.

Lemma set_slot_set_queue st q i c v :
  set_slot (set_queue st q) i c v = set_queue (set_slot st i c v) q.
Proof. unfold set_slot. destruct (i =? SLOT_MAIN); reflexivity. Qed.

Lemma set_use_gpu_set_queue st q g :
  set_use_gpu (set_queue st q) g = set_queue (set_use_gpu st g) q.
Proof. reflexivity. Qed.

Lemma session_set_slot st i c v :
  Jni.should_shutdown (ctx (set_slot st i c v))
    = Jni.should_shutdown (ctx st) /\
  Jni.session_id (ctx (set_slot st i c v)) = Jni.session_id (ctx st).
Proof. unfold set_slot. destruct (i =? SLOT_MAIN); split; reflexivity. Qed.

Lemma session_set_use_gpu st g :
  Jni.should_shutdown (ctx (set_use_gpu st g))
    = Jni.should_shutdown (ctx st) /\
  Jni.session_id (ctx (set_use_gpu st g)) = Jni.session_id (ctx st).
Proof. split; reflexivity. Qed.

Lemma load_model_queue st a i :
  queue (fst (load_model ld st a i)) = queue st.
Proof.
  load_model_paths ld a i path v;
    rewrite ?queue_set_use_gpu, ?queue_set_slot; reflexivity.
Qed.

(** [load_model] does not look at the queue. *)
Lemma load_model_set_queue st q a i :
  load_model ld (set_queue st q) a i
  = (set_queue (fst (load_model ld st a i)) q, snd (load_model ld st a i)).
Proof.
  load_model_paths ld a i path v;
    rewrite ?set_slot_set_queue, ?set_use_gpu_set_queue; reflexivity.
Qed.

Lemma load_model_session st a i :
  Jni.should_shutdown (ctx (fst (load_model ld st a i)))
    = Jni.should_shutdown (ctx st) /\
  Jni.session_id (ctx (fst (load_model ld st a i)))
    = Jni.session_id (ctx st).
Proof.
  load_model_paths ld a i path v;
    repeat first [ rewrite (proj1 (session_set_use_gpu _ _))
                 | rewrite (proj2 (session_set_use_gpu _ _))
                 | rewrite (proj1 (session_set_slot _ _ _ _))
                 | rewrite (proj2 (session_set_slot _ _ _ _)) ];
    split; reflexivity.
Qed.

Lemma run_command_queue st node st' ev :
  run_command whisper_lang_id ld during_run result st node = Some (st', ev) ->
  queue st' = queue st.
Proof.
  unfold run_command. intros H.
  destruct (type node), (args node) as [a|a]; try discriminate.
  - injection H as H. rewrite <- (load_model_queue st a SLOT_MAIN), H.
    reflexivity.
  - injection H as H. rewrite <- (load_model_queue st a SLOT_SECOND), H.
    reflexivity.
  - destruct (process_start_command _ _ _ _ _ _) as [c e].
    injection H as <- _. reflexivity.
Qed.

(** A turn of the worker on a queue that is not empty: the first node is
    taken off, its command is run, and the node is freed. *)
Lemma worker_runs_head st p l node :
  queue_of (queue st) (p :: l) ->
  Jni.should_shutdown (ctx st) = false ->
  nodes (queue st) p = Some node ->
  exists q1,
    queue_of q1 l /\ nodes q1 = nodes (queue st) /\
    forall st' ev,
      run_command whisper_lang_id ld during_run result (set_queue st q1) node
        = Some (st', ev) ->
      exists st2,
        worker_iteration whisper_lang_id ld during_run result st
          = Some (Worker_ran st2 ev) /\
        ctx st2 = ctx st' /\ vad_main st2 = vad_main st' /\
        vad_second st2 = vad_second st' /\
        queue_of (queue st2) l /\
        (forall a, nodes (queue st2) a
                   = if a =? p then None else nodes (queue st) a).
Proof.
  intros Q Sh Hp.
  destruct (dequeue_spec _ _ Q) as (q1 & Dq & Q1 & N1). cbn [hd_error tl] in *.
  exists q1. split; [exact Q1|]. split; [exact N1|].
  intros st' ev R. unfold worker_iteration. rewrite Sh, Dq, N1, Hp, R.
  destruct Q as ((Hh & _) & _ & D). rewrite Hh. cbn [andb negb].
  pose proof (run_command_queue _ _ _ _ R) as Qe. cbn [queue set_queue] in Qe.
  rewrite Qe. unfold command_free. rewrite N1, Hp.
  eexists. split; [reflexivity|]. cbn [ctx vad_main vad_second queue set_queue nodes].
  repeat (split; [reflexivity|]). split.
  - destruct Q1 as (L1 & T1 & D1). split; [|split; [exact T1|exact D1]].
    cbn [nodes queue_head]. apply (linked_frame (nodes q1)); [exact L1|].
    intros x I. rewrite N1. unfold release.
    destruct (Z.eqb_spec x p) as [->|_]; [|reflexivity].
    inversion D; subst. contradiction.
  - intros x. unfold release. reflexivity.
Qed.

Lemma session_wraps (s k : Z) :
  0 <= s < 2 ^ 32 -> (s + k) mod 2 ^ 32 = s -> k mod 2 ^ 32 = 0.
Proof.
  intros R E. rewrite <- Zplus_mod_idemp_r in E.
  pose proof (Z.mod_pos_bound k (2 ^ 32) ltac:(lia)) as B.
  destruct (Z_lt_le_dec (s + k mod 2 ^ 32) (2 ^ 32)) as [Lt|Ge].
  - rewrite Z.mod_small in E by lia. lia.
  - replace (s + k mod 2 ^ 32)
      with ((s + k mod 2 ^ 32 - 2 ^ 32) + 1 * 2 ^ 32) in E by lia.
    rewrite Z_mod_plus_full, Z.mod_small in E by lia. lia.
Qed.

(** Stops only move the session on. *)
Lemma stops_session st : forall k,
  0 <= Jni.session_id (ctx st) < 2 ^ 32 ->
  queue (Nat.iter k nativeStop st) = queue st /\
  vad_main (Nat.iter k nativeStop st) = vad_main st /\
  vad_second (Nat.iter k nativeStop st) = vad_second st /\
  Jni.slot_main_ctx (ctx (Nat.iter k nativeStop st))
    = Jni.slot_main_ctx (ctx st) /\
  Jni.slot_second_ctx (ctx (Nat.iter k nativeStop st))
    = Jni.slot_second_ctx (ctx st) /\
  Jni.should_shutdown (ctx (Nat.iter k nativeStop st))
    = Jni.should_shutdown (ctx st) /\
  Jni.start_session_id (ctx (Nat.iter k nativeStop st))
    = Jni.start_session_id (ctx st) /\
  Jni.session_id (ctx (Nat.iter k nativeStop st))
    = (Jni.session_id (ctx st) + Z.of_nat k) mod 2 ^ 32.
Proof.
  intros k R. induction k as [|k IH].
  - cbn [Nat.iter]. repeat (split; [reflexivity|]).
    rewrite Z.add_0_r, Z.mod_small; [reflexivity|exact R].
  - rewrite Nat.iter_succ.
    destruct IH as (Hq & Hv & Hw & Hm & Hs & Hd & Hst & Hid).
    set (s := Nat.iter k nativeStop st) in *. unfold nativeStop.
    cbn [queue vad_main vad_second ctx set_ctx].
    unfold Jni.nativeStop, Jni.set_session_id.
    cbn [Jni.slot_main_ctx Jni.slot_second_ctx Jni.should_shutdown
         Jni.start_session_id Jni.session_id].
    repeat (split; [assumption|]).
    rewrite Hid. unfold to_uint. rewrite Zplus_mod_idemp_l. f_equal. lia.
Qed.

End Worker_lemmas.

(** X16. [nativeStart] on a context whose queue holds the nodes [l], where
    [malloc] gives an address that is not in use.  Either it throws and
    leaves the context as it was (the thread count is below one, the
    language string could not be copied, or there is no memory for the
    command), or it appends exactly one start command carrying the
    arguments given and the session current at the call; no command that
    was queued is altered. *)
Theorem nativeStart_enqueues (st : Jni_worker.jni_state) (l : list Z)
    (num_threads : Z) (language : option string) (translate live dup : bool)
    (malloc : option Z) :
  Jni_queue.queue_of (Jni_worker.queue st) l ->
  (forall p, malloc = Some p ->
     Jni_queue.nodes (Jni_worker.queue st) p = None) ->
  exists exn st1,
    Jni_worker.nativeStart (Some st) num_threads language translate live dup
      malloc = Some (exn, Some st1) /\
    match exn with
    | Some _ =>
        st1 = st /\
        (num_threads < 1 \/ (language <> None /\ dup = false)
         \/ malloc = None)
    | None =>
        1 <= num_threads /\ (language = None \/ dup = true) /\
        Jni_worker.ctx st1 = Jni_worker.ctx st /\
        Jni_worker.vad_main st1 = Jni_worker.vad_main st /\
        Jni_worker.vad_second st1 = Jni_worker.vad_second st /\
        exists p,
          malloc = Some p /\
          Jni_queue.queue_of (Jni_worker.queue st1) (l ++ [p]) /\
          Jni_queue.command_at (Jni_queue.nodes (Jni_worker.queue st1)) p
            = Some (Jni_queue.CMD_START,
                    Jni_queue.Start_args
                      (Jni.mk_start_args num_threads language translate live
                         (Jni.session_id (Jni_worker.ctx st)))) /\
          (forall a, a <> p ->
             Jni_queue.command_at (Jni_queue.nodes (Jni_worker.queue st1)) a
             = Jni_queue.command_at (Jni_queue.nodes (Jni_worker.queue st)) a)
    end.
Proof.
  intros Q F. unfold Jni_worker.nativeStart.
  destruct (Z.ltb_spec num_threads 1) as [Lt|Ge].
  { eexists _, _. split; [reflexivity|]. split; [reflexivity|]. left. exact Lt. }
  assert (Ok : forall copy,
    copy = language -> (language = None \/ dup = true) ->
    exists exn st1,
      match Jni_queue.allocate_command_start
              (Jni_queue.nodes (Jni_worker.queue st)) malloc
              (Jni.mk_start_args num_threads copy translate live
                 (Jni.session_id (Jni_worker.ctx st))) with
      | (_, None) =>
          Some (Some (Jni_worker.Out_of_memory
                        "Failed to allocate memory for command"), Some st)
      | (h, Some cmd) => Jni_worker.enqueue st h cmd
      end = Some (exn, Some st1) /\
      match exn with
      | Some _ =>
          st1 = st /\
          (num_threads < 1 \/ (language <> None /\ dup = false)
           \/ malloc = None)
      | None =>
          1 <= num_threads /\ (language = None \/ dup = true) /\
          Jni_worker.ctx st1 = Jni_worker.ctx st /\
          Jni_worker.vad_main st1 = Jni_worker.vad_main st /\
          Jni_worker.vad_second st1 = Jni_worker.vad_second st /\
          exists p,
            malloc = Some p /\
            Jni_queue.queue_of (Jni_worker.queue st1) (l ++ [p]) /\
            Jni_queue.command_at (Jni_queue.nodes (Jni_worker.queue st1)) p
              = Some (Jni_queue.CMD_START,
                      Jni_queue.Start_args
                        (Jni.mk_start_args num_threads language translate
                           live (Jni.session_id (Jni_worker.ctx st)))) /\
            (forall a, a <> p ->
               Jni_queue.command_at (Jni_queue.nodes (Jni_worker.queue st1)) a
               = Jni_queue.command_at
                   (Jni_queue.nodes (Jni_worker.queue st)) a)
      end).
  { intros copy -> Hl. unfold Jni_queue.allocate_command_start.
    destruct malloc as [p|].
    - destruct (enqueue_fresh st l p
                  (Jni_queue.mk_command_node Jni_queue.CMD_START
                     (Jni_queue.Start_args
                        (Jni.mk_start_args num_threads language translate live
                           (Jni.session_id (Jni_worker.ctx st)))) None)
                  Q (F p eq_refl) eq_refl)
        as (st1 & E & Hc & Hv & Hw & Q1 & C1 & C2).
      exists None, st1. split; [exact E|].
      split; [exact Ge|]. split; [exact Hl|].
      repeat (split; [assumption|]).
      exists p. split; [reflexivity|]. split; [exact Q1|].
      split; [exact C1|exact C2].
    - eexists _, _. split; [reflexivity|]. split; [reflexivity|].
      right. right. reflexivity. }
  destruct language as [s|].
  - unfold Jni_worker.jni_strdup. destruct dup.
    + apply Ok; [reflexivity|right; reflexivity].
    + eexists _, _. split; [reflexivity|]. split; [reflexivity|].
      right. left. split; [discriminate|reflexivity].
  - cbn [Jni.language Jni_queue.start_args_init].
    apply Ok; [reflexivity|left; reflexivity].
Qed.

(** X17. A stop cancels a start that is still queued.  Let the first
    node of the queue be a start command taken in the current session, as
    [nativeStart] makes it.  After [k] calls of [nativeStop], [k] not a
    multiple of 2^32 (the session counter is an unsigned int), the next
    turn of the worker takes the command off the queue and frees it
    without running a stream: with the main model loaded nothing is
    delivered to the host, and without it only the report that no model
    is loaded, which [process_start_command] makes before it looks at the
    session; the context is as the stops left it. *)
Theorem stop_discards_queued_start (whisper_lang_id : string -> Z)
    (ld : Jni_worker.loader) (during_run : list Jni.host_call) (result : Z)
    (st : Jni_worker.jni_state) (p : Z) (l : list Z) (a : Jni.start_args)
    (k : nat) :
  Jni_queue.queue_of (Jni_worker.queue st) (p :: l) ->
  Jni_queue.command_at (Jni_queue.nodes (Jni_worker.queue st)) p
    = Some (Jni_queue.CMD_START, Jni_queue.Start_args a) ->
  Jni.sa_session_id a = Jni.session_id (Jni_worker.ctx st) ->
  0 <= Jni.session_id (Jni_worker.ctx st) < 2 ^ 32 ->
  Jni.should_shutdown (Jni_worker.ctx st) = false ->
  Z.of_nat k mod 2 ^ 32 <> 0 ->
  exists st2,
    Jni_worker.worker_iteration whisper_lang_id ld during_run result
      (Nat.iter k Jni_worker.nativeStop st)
      = Some (Jni_worker.Worker_ran st2
                (if Jni.slot_main_ctx (Jni_worker.ctx st) then []
                 else Jni_worker.report_error ld
                        "Model not loaded: whisper context not initialized"))
    /\
    Jni_worker.ctx st2 = Jni_worker.ctx (Nat.iter k Jni_worker.nativeStop st) /\
    Jni_queue.queue_of (Jni_worker.queue st2) l /\
    Jni_queue.nodes (Jni_worker.queue st2) p = None.
Proof.
  intros Q C Sa R Sh K.
  destruct (stops_session st k R) as (Hq & Hv & Hw & Hm & Hs & Hd & Hst & Hid).
  set (s := Nat.iter k Jni_worker.nativeStop st) in *.
  unfold Jni_queue.command_at in C.
  destruct (Jni_queue.nodes (Jni_worker.queue st) p) as [node|] eqn:Hp;
    [|discriminate].
  injection C as Ty Ar.
  destruct (worker_runs_head whisper_lang_id ld during_run result s p l node)
    as (q1 & Q1 & N1 & W).
  { rewrite Hq. exact Q. }
  { rewrite Hd. exact Sh. }
  { rewrite Hq. exact Hp. }
  destruct (W (Jni_worker.set_ctx (Jni_worker.set_queue s q1)
                 (Jni_worker.ctx s))
              (if Jni.slot_main_ctx (Jni_worker.ctx st) then []
               else Jni_worker.report_error ld
                      "Model not loaded: whisper context not initialized"))
    as (st2 & E & Hc & _ & _ & Q2 & N2).
  { unfold Jni_worker.run_command. rewrite Ty, Ar.
    unfold Jni_worker.process_start_command, Jni.process_start_command.
    cbn [Jni_worker.ctx Jni_worker.set_queue]. rewrite Hm.
    destruct (Jni.slot_main_ctx (Jni_worker.ctx st)); cbn [negb];
      [|reflexivity].
    rewrite Sa, Hid.
    destruct (Z.eqb_spec (Jni.session_id (Jni_worker.ctx st))
                ((Jni.session_id (Jni_worker.ctx st) + Z.of_nat k) mod 2 ^ 32))
      as [Eq|_]; [|reflexivity].
    exfalso. apply K. apply (session_wraps _ _ R). symmetry. exact Eq. }
  exists st2. split; [exact E|]. split; [exact Hc|]. split; [exact Q2|].
  rewrite N2, Z.eqb_refl. reflexivity.
Qed.

(** X20. Unloading the second model.  [nativeLoadSecondModel] with a NULL
    model path needs no asset manager and, given memory for the command,
    queues an unload; on a queue that was empty the next turn of the worker
    frees the second model and its VAD model, notifies nobody, leaves the
    main model, its VAD model and the session alone, and frees the
    command. *)
Theorem unload_second_model (whisper_lang_id : string -> Z)
    (ld : Jni_worker.loader) (during_run : list Jni.host_call) (result : Z)
    (st : Jni_worker.jni_state) (p : Z)
    (java_asset_manager : bool) (java_vad_path : option string)
    (dup_model dup_vad global_ref : bool) :
  Jni_queue.queue_of (Jni_worker.queue st) [] ->
  Jni_queue.nodes (Jni_worker.queue st) p = None ->
  Jni.should_shutdown (Jni_worker.ctx st) = false ->
  exists st1 st2,
    Jni_worker.nativeLoadSecondModel (Some st) java_asset_manager None
      java_vad_path dup_model dup_vad global_ref (Some p)
      = Some (None, Some st1) /\
    Jni_worker.worker_iteration whisper_lang_id ld during_run result st1
      = Some (Jni_worker.Worker_ran st2 []) /\
    Jni_worker.slot_ctx st2 Jni_worker.SLOT_SECOND = false /\
    Jni_worker.slot_vad_ctx st2 Jni_worker.SLOT_SECOND = false /\
    Jni_worker.slot_ctx st2 Jni_worker.SLOT_MAIN
      = Jni_worker.slot_ctx st Jni_worker.SLOT_MAIN /\
    Jni_worker.slot_vad_ctx st2 Jni_worker.SLOT_MAIN
      = Jni_worker.slot_vad_ctx st Jni_worker.SLOT_MAIN /\
    Jni.use_gpu (Jni_worker.ctx st2) = Jni.use_gpu (Jni_worker.ctx st) /\
    Jni.session_id (Jni_worker.ctx st2)
      = Jni.session_id (Jni_worker.ctx st) /\
    Jni_queue.queue_of (Jni_worker.queue st2) [] /\
    Jni_queue.nodes (Jni_worker.queue st2) p = None.
Proof.
  intros Q F Sh. unfold Jni_worker.nativeLoadSecondModel. cbn [negb].
  destruct (enqueue_fresh st [] p
              (Jni_queue.mk_command_node Jni_queue.CMD_LOAD_SECOND_MODEL
                 (Jni_queue.Load_args Jni_queue.model_load_args_init) None)
              Q F eq_refl)
    as (st1 & E & Hc & Hv & Hw & Q1 & C1 & _).
  exists st1. cbn [app] in Q1.
  unfold Jni_queue.command_at in C1.
  destruct (Jni_queue.nodes (Jni_worker.queue st1) p) as [node|] eqn:Hp;
    [|discriminate].
  injection C1 as Ty Ar. cbn in Ty, Ar.
  destruct (worker_runs_head whisper_lang_id ld during_run result st1 p []
              node Q1) as (q1 & Q1' & N1 & W); [congruence|exact Hp|].
  destruct (W (Jni_worker.set_slot (Jni_worker.set_queue st1 q1)
                 Jni_worker.SLOT_SECOND false false) [])
    as (st2 & E2 & Hc2 & Hv2 & Hw2 & Q2 & N2).
  { unfold Jni_worker.run_command. rewrite Ty, Ar. reflexivity. }
  exists st2. split; [exact E|]. split; [exact E2|].
  unfold Jni_worker.slot_ctx, Jni_worker.slot_vad_ctx.
  cbn [Jni_worker.SLOT_SECOND Jni_worker.SLOT_MAIN Z.eqb].
  rewrite Hc2, Hv2, Hw2.
  cbn [Jni_worker.set_slot Jni_worker.SLOT_SECOND Jni_worker.SLOT_MAIN Z.eqb
       Jni_worker.ctx Jni_worker.vad_main Jni_worker.vad_second
       Jni_worker.set_queue Jni.slot_main_ctx Jni.slot_second_ctx
       Jni.use_gpu Jni.session_id].
  rewrite Hc, Hv.
  repeat (split; [reflexivity|]). split; [exact Q2|].
  rewrite N2, Z.eqb_refl. reflexivity.
Qed.

(** * Loading a model *)

Section Load_lemmas.
Import Jni_queue Jni_worker.

Lemma adreno_prefix (desc : string) :
  is_gpu_blocklisted desc = true <->
  exists rest, desc = ("Adreno" ++ rest)%string.
Proof.
  unfold is_gpu_blocklisted. split.
  - intros H.
    repeat (destruct desc as [|? desc]; [discriminate|];
            cbn [strncmp_is_zero] in H;
            match type of H with
            | (if (if Ascii.eqb ?x ?y then _ else _) then _ else _) = _ =>
                destruct (Ascii.eqb_spec x y) as [->|_]; [|discriminate]
            end).
    exists desc. reflexivity.
  - intros (rest & ->). reflexivity.
Qed.

(** [report_error] delivers one error, or nothing when no Java string
    could be made. *)
Lemma report_error_cases (ld : loader) (message : string) :
  (report_error ld message = [] /\ exists m, new_string_utf ld m = false) \/
  exists m, report_error ld message = [Event (Jni.On_error m)].
Proof.
  unfold report_error.
  destruct (vasprintf ld message); cbn [negb].
  - destruct (new_string_utf ld message) eqn:N; cbn [negb]; eauto.
  - destruct (new_string_utf ld _) eqn:N; cbn [negb]; eauto.
Qed.

End Load_lemmas.

(** X18. [load_model] notifies the host at most once and keeps to its
    slot.  It delivers nothing but [onLoaded] for this slot or an error.
    When [onLoaded] is delivered the slot holds the model, and a VAD model
    exactly when one was asked for.  When it is not, the slot holds no VAD
    model, and holds the model only if the failure was in loading the VAD
    model.  An unload (the model path is NULL) empties the slot and
    delivers nothing; a load delivers exactly one notification unless no
    Java string could be made for the error.  The other slot, the queue
    and the session are never touched. *)
Theorem load_model_notifies_once (ld : Jni_worker.loader)
    (st : Jni_worker.jni_state) (a : Jni_queue.model_load_args)
    (slot_idx : Z) :
  slot_idx = Jni_worker.SLOT_MAIN \/ slot_idx = Jni_worker.SLOT_SECOND ->
  exists st' events,
    Jni_worker.load_model ld st a slot_idx = (st', events) /\
    (length events <= 1)%nat /\
    (forall e, In (Jni_worker.Event e) events -> exists m, e = Jni.On_error m)
    /\
    (forall s g, In (Jni_worker.On_loaded s g) events ->
       s = slot_idx /\
       Jni_worker.slot_ctx st' slot_idx = true /\
       Jni_worker.slot_vad_ctx st' slot_idx
         = match Jni_queue.vad_model_path a with
           | Some _ => true
           | None => false
           end) /\
    ((forall s g, ~ In (Jni_worker.On_loaded s g) events) ->
     Jni_worker.slot_vad_ctx st' slot_idx = false /\
     (Jni_worker.slot_ctx st' slot_idx = true ->
      Jni_queue.model_path a <> None /\
      Jni_queue.vad_model_path a <> None)) /\
    (Jni_queue.model_path a = None ->
     events = [] /\ Jni_worker.slot_ctx st' slot_idx = false) /\
    (Jni_queue.model_path a <> None ->
     (forall m, Jni_worker.new_string_utf ld m = true) ->
     length events = 1%nat) /\
    Jni_worker.slot_ctx st' (1 - slot_idx)
      = Jni_worker.slot_ctx st (1 - slot_idx) /\
    Jni_worker.slot_vad_ctx st' (1 - slot_idx)
      = Jni_worker.slot_vad_ctx st (1 - slot_idx) /\
    Jni_worker.queue st' = Jni_worker.queue st /\
    Jni.session_id (Jni_worker.ctx st')
      = Jni.session_id (Jni_worker.ctx st) /\
    Jni.start_session_id (Jni_worker.ctx st')
      = Jni.start_session_id (Jni_worker.ctx st) /\
    Jni.should_shutdown (Jni_worker.ctx st')
      = Jni.should_shutdown (Jni_worker.ctx st).
Proof.
  intros [-> | ->]; load_model_slot_paths ld a path v;
    try match goal with
        | |- context [Jni_worker.report_error ld ?m] =>
            destruct (report_error_cases ld m) as [(E & x & Hx)|(m' & E)];
            rewrite E
        end;
    eexists _, _; (split; [reflexivity|]);
    cbn [length In Jni_worker.slot_ctx Jni_worker.slot_vad_ctx
         Jni_worker.set_slot Jni_worker.set_use_gpu Jni_worker.set_ctx
         Jni_worker.SLOT_MAIN Jni_worker.SLOT_SECOND Z.eqb Z.sub Z.add
         Z.opp Z.pos_sub
         Jni_worker.ctx Jni_worker.vad_main Jni_worker.vad_second
         Jni_worker.queue Jni.slot_main_ctx Jni.slot_second_ctx
         Jni.session_id Jni.start_session_id Jni.should_shutdown];
    repeat match goal with
           | |- _ /\ _ => split
           end;
    try reflexivity; try lia;
    try solve [intros; discriminate];
    try solve [intros; congruence];
    try solve [intros ? [I|[]]; inversion I; eauto];
    try solve [intros ? ? []];
    try solve [intros ? ? [I|[]]; inversion I; subst; repeat split;
               reflexivity];
    try solve [intros H; exfalso; apply (H _ _ (or_introl eq_refl))];
    try solve [intros _; split; [reflexivity|]; intros;
               (discriminate || (split; discriminate))];
    try solve [intros _ H; rewrite H in Hx; discriminate].
Qed.

(** X19. The GPU is recorded as in use only for a usable device.  When
    [load_model] has delivered [onLoaded] for the main slot,
    [ctx->use_gpu] is set exactly when the GPU was asked for, the model
    runs on it, there is a Vulkan device, and the description of the
    device does not start with Adreno; the description is handed to the
    host only in that case.  A load that does not end in [onLoaded], an
    unload, and any load on the second slot leave [ctx->use_gpu] as it
    was. *)
Theorem gpu_only_when_usable (ld : Jni_worker.loader)
    (st : Jni_worker.jni_state) (a : Jni_queue.model_load_args)
    (slot_idx : Z) :
  exists st' events,
    Jni_worker.load_model ld st a slot_idx = (st', events) /\
    (forall gpu_desc,
       events = [Jni_worker.On_loaded Jni_worker.SLOT_MAIN gpu_desc] ->
       (Jni.use_gpu (Jni_worker.ctx st') = true <->
        Jni_queue.la_use_gpu a = true /\
        Jni_worker.ctx_is_using_gpu ld = true /\
        0 < Jni_worker.vk_device_count ld /\
        ~ exists rest,
            Jni_worker.vk_device_description ld = ("Adreno" ++ rest)%string)
       /\
       (forall d, gpu_desc = Some d ->
          d = Jni_worker.vk_device_description ld /\
          Jni.use_gpu (Jni_worker.ctx st') = true)) /\
    ((forall gpu_desc,
        events <> [Jni_worker.On_loaded Jni_worker.SLOT_MAIN gpu_desc]) ->
     Jni.use_gpu (Jni_worker.ctx st') = Jni.use_gpu (Jni_worker.ctx st)) /\
    (slot_idx <> Jni_worker.SLOT_MAIN ->
     Jni.use_gpu (Jni_worker.ctx st') = Jni.use_gpu (Jni_worker.ctx st) /\
     forall s gpu_desc,
       In (Jni_worker.On_loaded s gpu_desc) events -> gpu_desc = None).
Proof.
  pose proof (adreno_prefix (Jni_worker.vk_device_description ld)) as P.
  set (Good := fun p : Jni_worker.jni_state * list Jni_worker.host_notification =>
    (forall gpu_desc,
       snd p = [Jni_worker.On_loaded Jni_worker.SLOT_MAIN gpu_desc] ->
       (Jni.use_gpu (Jni_worker.ctx (fst p)) = true <->
        Jni_queue.la_use_gpu a = true /\
        Jni_worker.ctx_is_using_gpu ld = true /\
        0 < Jni_worker.vk_device_count ld /\
        ~ exists rest,
            Jni_worker.vk_device_description ld = ("Adreno" ++ rest)%string)
       /\
       (forall d, gpu_desc = Some d ->
          d = Jni_worker.vk_device_description ld /\
          Jni.use_gpu (Jni_worker.ctx (fst p)) = true)) /\
    ((forall gpu_desc,
        snd p <> [Jni_worker.On_loaded Jni_worker.SLOT_MAIN gpu_desc]) ->
     Jni.use_gpu (Jni_worker.ctx (fst p)) = Jni.use_gpu (Jni_worker.ctx st))
    /\
    (slot_idx <> Jni_worker.SLOT_MAIN ->
     Jni.use_gpu (Jni_worker.ctx (fst p)) = Jni.use_gpu (Jni_worker.ctx st) /\
     forall s gpu_desc,
       In (Jni_worker.On_loaded s gpu_desc) (snd p) -> gpu_desc = None)).
  assert (Slot : forall s c v,
    Jni.use_gpu (Jni_worker.ctx (Jni_worker.set_slot s slot_idx c v))
    = Jni.use_gpu (Jni_worker.ctx s)).
  { intros s c v. unfold Jni_worker.set_slot.
    destruct (slot_idx =? Jni_worker.SLOT_MAIN); reflexivity. }
  assert (Err : forall s m,
    Jni.use_gpu (Jni_worker.ctx s) = Jni.use_gpu (Jni_worker.ctx st) ->
    Good (s, Jni_worker.report_error ld m)).
  { intros s m G. unfold Good. cbn [fst snd].
    destruct (report_error_cases ld m) as [(E & _)|(m' & E)]; rewrite E.
    - split; [intros g H; discriminate|]. split; [intros _; exact G|].
      intros _. split; [exact G|]. intros s0 g [].
    - split; [intros g H; discriminate|]. split; [intros _; exact G|].
      intros _. split; [exact G|]. intros s0 g [I|[]]. discriminate. }
  assert (Unl : forall s,
    Jni.use_gpu (Jni_worker.ctx s) = Jni.use_gpu (Jni_worker.ctx st) ->
    Good (s, [])).
  { intros s G. unfold Good. cbn [fst snd].
    split; [intros g H; discriminate|]. split; [intros _; exact G|].
    intros _. split; [exact G|]. intros s0 g []. }
  assert (Ld : forall s2,
    Jni.use_gpu (Jni_worker.ctx s2) = Jni.use_gpu (Jni_worker.ctx st) ->
    Good
      (let '(st0, gpu_desc) :=
         if slot_idx =? Jni_worker.SLOT_MAIN
         then
           if Jni_queue.la_use_gpu a
           then
             if Jni_worker.ctx_is_using_gpu ld
                && (Jni_worker.vk_device_count ld >? 0)
             then
               if negb (Jni_worker.is_gpu_blocklisted
                          (Jni_worker.vk_device_description ld))
               then (Jni_worker.set_use_gpu
                       (Jni_worker.set_use_gpu s2 false) true,
                     if Jni_worker.new_string_utf ld
                          (Jni_worker.vk_device_description ld)
                     then Some (Jni_worker.vk_device_description ld)
                     else None)
               else (Jni_worker.set_use_gpu s2 false, None)
             else (Jni_worker.set_use_gpu s2 false, None)
           else (Jni_worker.set_use_gpu s2 false, None)
         else (s2, None) in
       (st0, [Jni_worker.On_loaded slot_idx gpu_desc]))).
  { intros s2 G2. unfold Good.
    destruct (Z.eqb_spec slot_idx Jni_worker.SLOT_MAIN) as [->|Ne].
    - destruct (Jni_queue.la_use_gpu a), (Jni_worker.ctx_is_using_gpu ld),
        (Z.gtb_spec (Jni_worker.vk_device_count ld) 0) as [Gt|Le],
        (Jni_worker.is_gpu_blocklisted (Jni_worker.vk_device_description ld))
        eqn:B; cbn [andb negb fst snd];
        (split; [|split]);
        try solve [intros H; exfalso; apply (H _ eq_refl)];
        try solve [intros H; exfalso; apply H; reflexivity];
        intros g E; injection E as <-;
        (split; [split; [cbn; try discriminate|intros (A1 & A2 & A3 & A4)]
                |intros d Hd]);
        try discriminate; try lia;
        try solve [exfalso; apply A4, P; reflexivity].
      + intros _. repeat (split; [reflexivity|]). split; [lia|].
        intros H. apply P in H. discriminate.
      + reflexivity.
      + destruct (Jni_worker.new_string_utf ld _); [|discriminate].
        injection Hd as <-. split; reflexivity.
    - cbn [fst snd]. split; [|split].
      + intros g E. injection E as S0 _. contradiction.
      + intros _. exact G2.
      + intros _. split; [exact G2|]. intros s0 g [I|[]].
        injection I as _ <-. reflexivity. }
  assert (Fin : forall p, Good p ->
    exists st' events,
      p = (st', events) /\
      (forall gpu_desc,
         events = [Jni_worker.On_loaded Jni_worker.SLOT_MAIN gpu_desc] ->
         (Jni.use_gpu (Jni_worker.ctx st') = true <->
          Jni_queue.la_use_gpu a = true /\
          Jni_worker.ctx_is_using_gpu ld = true /\
          0 < Jni_worker.vk_device_count ld /\
          ~ exists rest,
              Jni_worker.vk_device_description ld = ("Adreno" ++ rest)%string)
         /\
         (forall d, gpu_desc = Some d ->
            d = Jni_worker.vk_device_description ld /\
            Jni.use_gpu (Jni_worker.ctx st') = true)) /\
      ((forall gpu_desc,
          events <> [Jni_worker.On_loaded Jni_worker.SLOT_MAIN gpu_desc]) ->
       Jni.use_gpu (Jni_worker.ctx st') = Jni.use_gpu (Jni_worker.ctx st)) /\
      (slot_idx <> Jni_worker.SLOT_MAIN ->
       Jni.use_gpu (Jni_worker.ctx st') = Jni.use_gpu (Jni_worker.ctx st) /\
       forall s gpu_desc,
         In (Jni_worker.On_loaded s gpu_desc) events -> gpu_desc = None)).
  { intros [s e] G. exists s, e. split; [reflexivity|exact G]. }
  apply Fin. clearbody Good.
  load_model_paths_with ld a path v idtac;
    first [ apply Err | apply Unl | apply Ld ]; rewrite ?Slot; reflexivity.
Qed.

(** * The stream of a start command *)

(** X21. The stream parameters of [process_start_command].  With the main
    model loaded, [whisper_stream_full] accepts them: no assertion fails.
    The three sizes it computes from them are: a minimum of 160000 samples
    (10 s) in live mode and 480000 (30 s) otherwise, an upper end of the
    search for a cut of 480000 samples (30 s) in live mode and 960000
    (60 s) otherwise, and an overlap of 4800 samples (0.3 s).  These are
    the parameters, not bounds on every chunk: a chunk also carries the
    overlap and the last one can be short.  And when a run with one model
    returns 0 from a source that delivers its samples in order, the new
    samples of its chunks add up to exactly what the source delivered,
    with no further assumption on the parameters. *)
Theorem start_command_stream {sample src : Type}
    (env : @environment sample Jni.whisper_jni_context) (fuel : nat)
    (mem : allocations) (n_text_ctx : Z)
    (vad0 : list sample -> option (list vad_segment))
    (jni_read_callback : src -> Z -> (Z * list sample) * src)
    (st : Jni_worker.jni_state) (a : Jni.start_args) (user_data : src) :
  Jni.slot_main_ctx (Jni_worker.ctx st) = true ->
  let sparams :=
    Jni_start.start_stream_params n_text_ctx vad0 jni_read_callback st a
      user_data in
  whisper_stream_full env fuel mem sparams <> Assertion_failed /\
  min_chunk_samples_of sparams = (if Jni.live a then 160000 else 480000) /\
  max_chunk_samples_of sparams = (if Jni.live a then 480000 else 960000) /\
  overlap_samples_of sparams = 4800 /\
  forall (run : @run_result sample src Jni.whisper_jni_context)
         (log : src -> list sample -> Prop),
    whisper_stream_full env fuel mem sparams = Returned 0 (Some run) ->
    source_log jni_read_callback log ->
    log user_data [] ->
    exists D,
      log (read_cb_user_data (rr_cctx run)) D /\
      zsum (chunk_sizes (rr_chunks run)) = Z.of_nat (length D) /\
      total_samples_read (rr_cctx run) = Z.of_nat (length D).
Proof.
  intros M sparams.
  assert (Sz : min_chunk_samples_of sparams
               = (if Jni.live a then 160000 else 480000) /\
               max_chunk_samples_of sparams
               = (if Jni.live a then 480000 else 960000) /\
               overlap_samples_of sparams = 4800).
  { unfold sparams, max_chunk_samples_of, min_chunk_samples_of,
      overlap_samples_of, Jni_start.start_stream_params.
    cbn [min_chunk_ms chunk_extend_ms overlap_ms
         whisper_stream_default_params].
    destruct (Jni.live a); repeat split; reflexivity. }
  destruct Sz as (Smin & Smax & Sov).
  split; [|split; [exact Smin|split; [exact Smax|split; [exact Sov|]]]].
  - unfold whisper_stream_full, sparams, Jni_start.start_stream_params.
    cbn [read_callback slot0_ctx min_chunk_ms overlap_ms slot1_ctx
         whisper_stream_default_params].
    rewrite M. cbn [negb].
    destruct (Jni.live a); cbn [Z.gtb Z.compare negb Z.geb Z.ltb andb];
      destruct (alloc_read_buffer mem); cbn [negb]; try discriminate;
      destruct (alloc_buffer mem && alloc_tokens mem); cbn [negb];
      try discriminate;
      destruct (Jni.slot_second_ctx (Jni_worker.ctx st)); try discriminate;
      destruct (chunk_loop _ _ _ _); discriminate.
  - intros run log E SL L0.
    assert (Hr : read_callback sparams = Some jni_read_callback)
      by reflexivity.
    assert (Hext : 0 <= chunk_extend_ms sparams).
    { unfold sparams, Jni_start.start_stream_params. cbn [chunk_extend_ms].
      destruct (Jni.live a); lia. }
    assert (Hfit : durations_fit sparams).
    { unfold durations_fit, sparams, Jni_start.start_stream_params.
      cbn [min_chunk_ms chunk_extend_ms overlap_ms
           whisper_stream_default_params].
      destruct (Jni.live a); repeat split; vm_compute; discriminate. }
    assert (Hov : overlap_samples_of sparams
                  <= cs_to_samples
                       (samples_to_cs (min_chunk_samples_of sparams))).
    { rewrite Sov, Smin. destruct (Jni.live a); vm_compute; discriminate. }
    destruct (whisper_stream_full_log _ _ _ _ _ _ _ _ E Hr SL L0 Hext Hfit Hov)
      as (D & L & T & _).
    exists D. split; [exact L|]. specialize (T eq_refl).
    split; [lia|].
    apply whisper_stream_full_loop with (rcb := jni_read_callback) in E;
      [|exact Hr].
    apply chunk_loop_trace, run_trace_total in E. cbn in E. lia.
Qed.

(** * The buffer of decoded samples *)

Section Decode_lemmas.
Import Stream_decode.

Lemma double_until_spec : forall fuel c t,
  1 <= c -> t <= 2 ^ 30 -> (Z.to_nat (t - c) <= fuel)%nat ->
  exists c' (j : nat),
    double_until fuel c t = Some c' /\
    c' = c * 2 ^ Z.of_nat j /\ t <= c' /\ (c' = c \/ c' < 2 * t).
Proof.
  induction fuel as [|fuel IH]; intros c t Hc Ht F; cbn [double_until].
  - destruct (Z.ltb_spec c t) as [Lt|Ge]; [lia|].
    exists c, 0%nat. split; [reflexivity|]. split; [cbn; lia|].
    split; [exact Ge|left; reflexivity].
  - destruct (Z.ltb_spec c t) as [Lt|Ge].
    + rewrite to_int_id by (unfold int_range, INT_MIN, INT_MAX; lia).
      destruct (IH (c * 2) t) as (c' & j & E & P & G & M); [lia|lia|lia|].
      exists c', (S j). split; [exact E|].
      split; [rewrite P, Nat2Z.inj_succ, Z.pow_succ_r by lia; lia|].
      split; [exact G|]. right. destruct M as [->|M]; lia.
    + exists c, 0%nat. split; [reflexivity|]. split; [cbn; lia|].
      split; [exact Ge|left; reflexivity].
Qed.

(** Once the candidate has wrapped to 0 the loop doubles 0 for ever. *)
Lemma double_until_zero : forall fuel t,
  0 < t -> double_until fuel 0 t = None.
Proof.
  induction fuel as [|fuel IH]; intros t Ht; cbn [double_until];
    destruct (Z.ltb_spec 0 t) as [_|Ge]; try lia; [reflexivity|].
  apply IH. exact Ht.
Qed.

Lemma double_until_step fuel c t :
  double_until (S fuel) c t
  = if c <? t then double_until fuel (to_int (c * 2)) t else Some c.
Proof. reflexivity. Qed.

Lemma double_until_no_fuel c t :
  (c <? t) = true -> double_until 0 c t = None.
Proof. intros H. cbn [double_until]. rewrite H. reflexivity. Qed.

End Decode_lemmas.

(** X22. [ensure_capacity] makes room or changes nothing, as long as
    nothing overflows.  Take a buffer whose capacity is an [int] that is
    not negative, and a request whose sum [sample_count + needed] is at
    least [INT_MIN] and at most 2^30, so that neither the sum nor any
    doubling leaves [int].  Then the doubling loop ends; the call returns
    0 or -1 and never touches the count.  When it returns 0 the buffer has
    room for [needed] more samples and its capacity, still an [int], has
    not shrunk: it is what it was if that was enough, else the first
    candidate (twice the capacity, or 1048576 for an empty buffer) doubled
    some number of times, and below twice what is needed unless it is the
    first candidate itself.  It returns -1 only when the reallocation
    fails, and then the buffer is as it was.  The bound is needed: on an
    empty buffer asked for 2^30 + 1 samples the candidate reaches 2^30,
    wraps to -2^31 and then to 0, and the loop never ends. *)
Theorem ensure_capacity_post (fuel : nat) (d : Stream_decode.decode_ctx)
    (needed : Z) (realloc : bool) :
  0 <= Stream_decode.sample_capacity d <= INT_MAX ->
  INT_MIN <= Stream_decode.sample_count d + needed <= 2 ^ 30 ->
  (Z.to_nat (Stream_decode.sample_count d + needed) <= fuel)%nat ->
  let target := Stream_decode.sample_count d + needed in
  let first :=
    if Stream_decode.sample_capacity d =? 0 then 1048576
    else Stream_decode.sample_capacity d * 2 in
  (exists ret d',
    Stream_decode.ensure_capacity fuel d needed realloc = Some (ret, d') /\
    Stream_decode.sample_count d' = Stream_decode.sample_count d /\
    (ret = 0 \/ ret = -1) /\
    (ret = 0 ->
     target <= Stream_decode.sample_capacity d' <= INT_MAX /\
     Stream_decode.sample_capacity d <= Stream_decode.sample_capacity d' /\
     (d' = d \/
      (Stream_decode.sample_capacity d < target /\
       exists j : nat,
         Stream_decode.sample_capacity d' = first * 2 ^ Z.of_nat j /\
         (j = 0%nat \/ Stream_decode.sample_capacity d' < 2 * target)))) /\
    (ret = -1 ->
     d' = d /\ realloc = false /\ Stream_decode.sample_capacity d < target) /\
    (realloc = true -> ret = 0)) /\
  forall fuel',
    Stream_decode.ensure_capacity fuel' (Stream_decode.mk_decode_ctx 0 0)
      (2 ^ 30 + 1) realloc = None.
Proof.
  intros Cap T F target first. split.
  2:{ intros fuel'. unfold Stream_decode.ensure_capacity.
      cbn [Stream_decode.sample_count Stream_decode.sample_capacity].
      change (to_int (0 + (2 ^ 30 + 1)) <=? 0) with false.
      change (0 =? 0) with true. cbv iota.
      change (to_int (0 + (2 ^ 30 + 1))) with 1073741825.
      change (1024 * 1024) with 1048576.
      assert (N : Stream_decode.double_until fuel' 1048576 1073741825 = None).
      { do 12 (destruct fuel' as [|fuel'];
               [reflexivity|rewrite double_until_step;
                match goal with
                | |- context [to_int ?x] =>
                    let v := eval vm_compute in (to_int x) in
                    change (to_int x) with v
                end;
                match goal with
                | |- context [?a <? ?b] =>
                    let v := eval vm_compute in (a <? b) in
                    change (a <? b) with v
                end; cbv iota]).
        apply double_until_zero. reflexivity. }
      rewrite N. reflexivity. }
  unfold Stream_decode.ensure_capacity.
  rewrite (to_int_id (Stream_decode.sample_count d + needed))
    by (unfold int_range, INT_MAX; fold target; unfold target in *; lia).
  fold target.
  destruct (Z.leb_spec target (Stream_decode.sample_capacity d)) as [Le|Gt].
  { exists 0, d. split; [reflexivity|]. split; [reflexivity|].
    split; [left; reflexivity|]. split; [|split; [discriminate|reflexivity]].
    intros _. split; [lia|]. split; [lia|left; reflexivity]. }
  rewrite (to_int_id (Stream_decode.sample_capacity d * 2))
    by (unfold int_range, INT_MIN, INT_MAX; unfold target in *; lia).
  change (1024 * 1024) with 1048576. fold first.
  assert (H1 : 1 <= first).
  { unfold first.
    destruct (Z.eqb_spec (Stream_decode.sample_capacity d) 0); lia. }
  assert (Hf : Stream_decode.sample_capacity d <= first).
  { unfold first.
    destruct (Z.eqb_spec (Stream_decode.sample_capacity d) 0); lia. }
  destruct (double_until_spec fuel first target H1) as (c' & j & E & P & G & M);
    [unfold target; lia|fold target in F; lia|].
  assert (Hc' : c' <= INT_MAX).
  { unfold INT_MAX. destruct M as [->|M]; [|unfold target in *; lia].
    unfold first.
    destruct (Z.eqb_spec (Stream_decode.sample_capacity d) 0);
      unfold target in *; lia. }
  rewrite E. destruct realloc; cbn [negb].
  - eexists _, _. split; [reflexivity|]. cbn [Stream_decode.sample_count
      Stream_decode.sample_capacity].
    split; [reflexivity|]. split; [left; reflexivity|].
    split; [|split; [discriminate|reflexivity]].
    intros _. split; [split; [exact G|exact Hc']|]. split; [lia|]. right.
    split; [exact Gt|].
    exists j. split; [exact P|].
    destruct M as [->|M]; [|right; exact M].
    destruct j as [|j]; [left; reflexivity|]. right.
    rewrite Nat2Z.inj_succ, Z.pow_succ_r in P by lia.
    assert (0 < 2 ^ Z.of_nat j) by (apply Z.pow_pos_nonneg; lia). nia.
  - exists (-1), d. split; [reflexivity|]. split; [reflexivity|].
    split; [right; reflexivity|]. split; [discriminate|].
    split; [|discriminate]. intros _. repeat split. exact Gt.
Qed.

(** * Commands are run in the order they were issued *)

Section Order_lemmas.
Import Jni_queue Jni_worker.

Lemma state_but_queue (st st' : jni_state) :
  ctx st' = ctx st -> vad_main st' = vad_main st ->
  vad_second st' = vad_second st -> st' = set_queue st (queue st').
Proof.
  destruct st, st'. cbn. intros -> -> ->. reflexivity.
Qed.

End Order_lemmas.

(** X23. Commands are run in the order they were issued, once each.  On
    an idle context, [nativeLoadModel] followed by [nativeStart] (valid
    arguments, allocations succeeding) queues two commands.  The first
    turn of the worker runs [load_model] on the main slot with the
    arguments given and delivers its notification; the second runs
    [process_start_command] on the context the load left, with the
    arguments given and the session current when [nativeStart] was called.
    Both nodes are freed and the queue is empty again.  So a start issued
    after a load finds the model of that load: when that load produced
    none, the start does nothing but call [report_error] with the message
    that no model is loaded, of which the host receives that message, the
    fallback message or nothing; when it produced one, the start delivers
    no error. *)
Theorem load_then_start (whisper_lang_id : string -> Z)
    (ld : Jni_worker.loader) (during_run : list Jni.host_call) (result : Z)
    (st : Jni_worker.jni_state) (p1 p2 : Z)
    (path : string) (java_vad_path : option string)
    (use_gpu dup_vad : bool)
    (num_threads : Z) (language : option string) (translate live : bool) :
  Jni_queue.queue_of (Jni_worker.queue st) [] ->
  Jni.should_shutdown (Jni_worker.ctx st) = false ->
  Jni_queue.nodes (Jni_worker.queue st) p1 = None ->
  Jni_queue.nodes (Jni_worker.queue st) p2 = None ->
  p1 <> p2 ->
  1 <= num_threads ->
  let la :=
    Jni_queue.mk_model_load_args (Some path)
      (Jni_worker.jni_strdup java_vad_path dup_vad) true use_gpu in
  let sa :=
    Jni.mk_start_args num_threads language translate live
      (Jni.session_id (Jni_worker.ctx st)) in
  let loaded := Jni_worker.load_model ld st la Jni_worker.SLOT_MAIN in
  let started :=
    Jni_worker.process_start_command whisper_lang_id ld during_run result
      (Jni_worker.ctx (fst loaded)) sa in
  exists st1 st2 st3 st4,
    Jni_worker.nativeLoadModel (Some st) true (Some path) java_vad_path
      use_gpu true dup_vad true (Some p1) = Some (None, Some st1) /\
    Jni_worker.nativeStart (Some st1) num_threads language translate live
      true (Some p2) = Some (None, Some st2) /\
    Jni_worker.worker_iteration whisper_lang_id ld during_run result st2
      = Some (Jni_worker.Worker_ran st3 (snd loaded)) /\
    Jni_worker.ctx st3 = Jni_worker.ctx (fst loaded) /\
    Jni_worker.vad_main st3 = Jni_worker.vad_main (fst loaded) /\
    Jni_worker.worker_iteration whisper_lang_id ld during_run result st3
      = Some (Jni_worker.Worker_ran st4 (snd started)) /\
    Jni_worker.ctx st4 = fst started /\
    Jni_queue.queue_of (Jni_worker.queue st4) [] /\
    Jni_queue.nodes (Jni_worker.queue st4) p1 = None /\
    Jni_queue.nodes (Jni_worker.queue st4) p2 = None /\
    (Jni_worker.slot_ctx st3 Jni_worker.SLOT_MAIN = false ->
     started
     = (Jni_worker.ctx (fst loaded),
        Jni_worker.report_error ld
          "Model not loaded: whisper context not initialized")) /\
    (Jni_worker.slot_ctx st3 Jni_worker.SLOT_MAIN = true ->
     forall m, ~ In (Jni_worker.Event (Jni.On_error m)) (snd started)).
Proof.
  intros Q Sh F1 F2 Ne Ge la sa loaded started.
  (* nativeLoadModel *)
  destruct (enqueue_fresh st [] p1
              (Jni_queue.mk_command_node Jni_queue.CMD_LOAD_MODEL
                 (Jni_queue.Load_args la) None) Q F1 eq_refl)
    as (st1 & E1 & Hc1 & Hv1 & Hw1 & Q1 & C1 & K1).
  cbn [app] in Q1.
  (* nativeStart *)
  assert (F2' : Jni_queue.nodes (Jni_worker.queue st1) p2 = None).
  { specialize (K1 p2 (not_eq_sym Ne)). unfold Jni_queue.command_at in K1.
    rewrite F2 in K1.
    destruct (Jni_queue.nodes (Jni_worker.queue st1) p2);
      [discriminate|reflexivity]. }
  destruct (enqueue_fresh st1 [p1] p2
              (Jni_queue.mk_command_node Jni_queue.CMD_START
                 (Jni_queue.Start_args sa) None) Q1 F2' eq_refl)
    as (st2 & E2 & Hc2 & Hv2 & Hw2 & Q2 & C2 & K2).
  cbn [app] in Q2.
  (* the nodes *)
  specialize (K2 p1 Ne). rewrite C1 in K2.
  cbn [Jni_queue.type Jni_queue.args] in K2, C2.
  unfold Jni_queue.command_at in K2, C2.
  destruct (Jni_queue.nodes (Jni_worker.queue st2) p1) as [n1|] eqn:N1;
    [|discriminate].
  destruct (Jni_queue.nodes (Jni_worker.queue st2) p2) as [n2|] eqn:N2;
    [|discriminate].
  injection K2 as Ty1 Ar1. injection C2 as Ty2 Ar2.
  (* first turn *)
  assert (Sh2 : Jni.should_shutdown (Jni_worker.ctx st2) = false)
    by congruence.
  destruct (worker_runs_head whisper_lang_id ld during_run result st2 p1 [p2]
              n1 Q2 Sh2 N1) as (q1 & _ & _ & W1).
  destruct (W1 (Jni_worker.set_queue
                  (fst (Jni_worker.load_model ld st2 la Jni_worker.SLOT_MAIN))
                  q1)
               (snd (Jni_worker.load_model ld st2 la Jni_worker.SLOT_MAIN)))
    as (st3 & E3 & Hc3 & Hv3 & Hw3 & Q3 & M3).
  { unfold Jni_worker.run_command. rewrite Ty1, Ar1.
    rewrite load_model_set_queue. reflexivity. }
  cbn [Jni_worker.ctx Jni_worker.vad_main Jni_worker.vad_second
       Jni_worker.set_queue] in Hc3, Hv3, Hw3.
  (* the load does not depend on the queue *)
  assert (Same : st2 = Jni_worker.set_queue st (Jni_worker.queue st2)).
  { apply state_but_queue; congruence. }
  assert (L2 : Jni_worker.load_model ld st2 la Jni_worker.SLOT_MAIN
               = (Jni_worker.set_queue (fst loaded) (Jni_worker.queue st2),
                  snd loaded)).
  { rewrite Same at 1. apply load_model_set_queue. }
  rewrite L2 in E3, Hc3, Hv3, Hw3.
  cbn [fst snd Jni_worker.ctx Jni_worker.vad_main Jni_worker.vad_second
       Jni_worker.set_queue] in E3, Hc3, Hv3, Hw3.
  (* second turn *)
  destruct (load_model_session ld st la Jni_worker.SLOT_MAIN) as (Ls & Li).
  fold loaded in Ls, Li.
  assert (Sh3 : Jni.should_shutdown (Jni_worker.ctx st3) = false)
    by (rewrite Hc3, Ls; exact Sh).
  assert (N3 : Jni_queue.nodes (Jni_worker.queue st3) p2 = Some n2).
  { rewrite M3. destruct (Z.eqb_spec p2 p1) as [Eq|_]; [congruence|exact N2]. }
  destruct (worker_runs_head whisper_lang_id ld during_run result st3 p2 []
              n2 Q3 Sh3 N3) as (q2 & _ & _ & W2).
  destruct (W2 (Jni_worker.set_ctx (Jni_worker.set_queue st3 q2) (fst started))
               (snd started))
    as (st4 & E4 & Hc4 & _ & _ & Q4 & M4).
  { unfold Jni_worker.run_command. rewrite Ty2, Ar2.
    cbn [Jni_worker.ctx Jni_worker.set_queue]. rewrite Hc3. fold started.
    destruct started as [c e]. reflexivity. }
  cbn [Jni_worker.ctx Jni_worker.set_ctx] in Hc4.
  exists st1, st2, st3, st4.
  split; [exact E1|]. split.
  { unfold Jni_worker.nativeStart.
    destruct (Z.ltb_spec num_threads 1) as [Lt|_]; [lia|].
    assert (Cp : match language with
                 | Some _ => Jni_worker.jni_strdup language true
                 | None => Jni.language Jni_queue.start_args_init
                 end = language) by (destruct language; reflexivity).
    rewrite Cp, Hc1. fold sa.
    destruct language; exact E2. }
  split; [exact E3|]. split; [exact Hc3|]. split; [exact Hv3|].
  split; [exact E4|]. split; [exact Hc4|]. split; [exact Q4|].
  split.
  { rewrite M4, M3. destruct (p1 =? p2); [reflexivity|].
    rewrite Z.eqb_refl. reflexivity. }
  split; [rewrite M4, Z.eqb_refl; reflexivity|].
  unfold Jni_worker.slot_ctx. cbn [Jni_worker.SLOT_MAIN Z.eqb].
  rewrite Hc3. unfold started, Jni_worker.process_start_command,
    Jni.process_start_command.
  destruct (Jni.slot_main_ctx (Jni_worker.ctx (fst loaded))); cbn [negb snd].
  - split; [discriminate|]. intros _ m. rewrite Li. cbn [Jni.sa_session_id sa].
    rewrite Z.eqb_refl. cbn [negb].
    match goal with
    | |- context [if ?c then _ else _] => destruct c
    end; cbn [snd map In]; intuition discriminate.
  - split; [reflexivity|discriminate].
Qed.

(** * The further theorems on concrete streams, queues and contexts *)

Section More_instances.
Import Examples Examples_more.

Ltac computed :=
  vm_compute; first [reflexivity | discriminate | intro; discriminate].

Lemma returned_run {sample src host : Type}
    (o : @stream_outcome sample src host) (ret : Z) :
  match o with
  | Returned r (Some _) => r =? ret
  | _ => false
  end = true ->
  exists run, o = Returned ret (Some run).
Proof.
  destruct o as [| | |r [run|]]; try discriminate.
  intros H. apply Z.eqb_eq in H. subst r. exists run. reflexivity.
Qed.

(** The stream over a tenth of a second of audio returns 0. *)
Lemma short_file_run :
  exists run,
    whisper_stream_full engine 10 all_allocated short_file
      = Returned 0 (Some run).
Proof. apply returned_run. vm_compute. reflexivity. Qed.

Lemma short_file_log :
  file_log (repeat tt (Z.to_nat 1600))
    (read_callback_user_data short_file) [].
Proof. repeat split; computed. Qed.

Lemma short_file_sizes :
  0 <= chunk_extend_ms short_file /\
  durations_fit short_file /\
  overlap_samples_of short_file
    <= cs_to_samples (samples_to_cs (min_chunk_samples_of short_file)).
Proof. repeat split; computed. Qed.

(** The live stream: 37.5 s of audio, cut into three chunks. *)
Lemma live_log :
  file_log (repeat tt (Z.to_nat 600000)) (read_callback_user_data live) [].
Proof. repeat split; computed. Qed.

Lemma live_sizes :
  0 <= chunk_extend_ms live /\
  durations_fit live /\
  overlap_samples_of live
    <= cs_to_samples (samples_to_cs (min_chunk_samples_of live)).
Proof. repeat split; computed. Qed.

Lemma no_command_queue : Jni_queue.queue_of no_command [].
Proof. repeat split. constructor. Qed.

Lemma two_commands_queue : Jni_queue.queue_of two_commands [1; 2].
Proof.
  split; [|split; [reflexivity|]].
  - split; [reflexivity|]. exists (start_node (Some 2)).
    split; [reflexivity|]. split; [reflexivity|].
    exists (start_node None). split; reflexivity.
  - repeat constructor; cbn; intuition discriminate.
Qed.

(** The stopped stream: its second chunk is the last one. *)
Lemma no_chunk_after_failure_witness :
  exists run rec,
    whisper_stream_full engine_stopped 10 all_allocated live
      = Returned (-1) (Some run) /\
    nth_error (rr_chunks run) 1 = Some rec /\
    cr_aborted rec = true /\
    2%nat = length (rr_chunks run) /\
    forall h, stream_abort_callback (rr_cctx run) h = true.
Proof.
  destruct (summary_chunk _ _ _ _ 1%nat _ stopped_run_summary eq_refl)
    as (run & rec & E & N & S & _).
  assert (A : cr_aborted rec = true) by exact (f_equal s_aborted S).
  exists run, rec. split; [exact E|]. split; [exact N|]. split; [exact A|].
  destruct (proj1 (no_chunk_after_failure engine_stopped) 10%nat
              all_allocated live (-1) run 1%nat rec E N (or_intror A))
    as (L & _ & _ & _ & _ & H).
  split; [exact L|exact H].
Defined.

(** The stream over an empty file. *)
Lemma empty_source_returns_zero_witness :
  exists run,
    whisper_stream_full engine 1 all_allocated empty_file
      = Returned 0 (Some run) /\
    rr_chunks run = [] /\ rr_events run = [] /\
    eof (rr_cctx run) = true /\ abort (rr_cctx run) = false /\
    read_buffer_len (rr_cctx run) = 0.
Proof.
  refine (empty_source_returns_zero engine 0%nat all_allocated empty_file
            Stream_test.file_read_cb eq_refl eq_refl eq_refl _ _ eq_refl _).
  - computed.
  - split; computed.
  - computed.
Defined.

(** The stream of the host that sets no callback. *)
Lemma unset_callbacks_stay_silent_witness :
  exists run,
    whisper_stream_full engine 10 all_allocated quiet_stream
      = Returned 0 (Some run) /\
    rr_events run = [].
Proof.
  destruct (returned_run
              (whisper_stream_full engine 10 all_allocated quiet_stream) 0)
    as (run & E); [vm_compute; reflexivity|].
  exists run. split; [exact E|].
  exact (proj2 (proj2 (unset_callbacks_stay_silent engine 10%nat all_allocated
                         quiet_stream 0 run E)) eq_refl eq_refl).
Defined.

(** The engine hears the 37.5 s of the live stream: three chunks, the
    second and the third with the 4800 samples of overlap before them. *)
Lemma engine_hears_source_window_witness :
  exists run rec D,
    whisper_stream_full engine 10 all_allocated live
      = Returned 0 (Some run) /\
    length (rr_chunks run) = 3%nat /\
    nth_error (rr_chunks run) 1 = Some rec /\
    ci_overlap_offset (cr_info rec) = 4800 /\
    file_log (repeat tt (Z.to_nat 600000)) (read_cb_user_data (rr_cctx run))
      D /\
    Forall (fun r =>
              cr_ret r =
                er_ret (whisper_full engine (cr_chunk_idx r)
                          (slice D (cr_total_samples r
                                    - ci_overlap_offset (cr_info r))
                             (ci_actual_chunk_samples (cr_info r)))
                          (cr_context r)))
      (rr_chunks run).
Proof.
  destruct (summary_chunk _ _ _ _ 1%nat _ live_run_summary eq_refl)
    as (run & rec & E & N & S & Len & _).
  destruct live_sizes as (H1 & H2 & H3).
  destruct (engine_hears_source_window engine 10%nat all_allocated live
              0 run Stream_test.file_read_cb
              (file_log (repeat tt (Z.to_nat 600000))) E eq_refl
              (file_read_cb_log _) live_log H1 H2 H3) as (D & L & F).
  exists run, rec, D. split; [exact E|]. split; [exact Len|].
  split; [exact N|]. split; [exact (f_equal s_overlap_offset S)|].
  split; [exact L|].
  apply (Forall_impl _ (fun r H => proj2 (proj2 H)) F).
Defined.

(** The 600000 samples of the live stream are transcribed once: its
    three chunks add up to what the file delivered. *)
Lemma every_sample_transcribed_once_witness :
  exists run D,
    whisper_stream_full engine 10 all_allocated live
      = Returned 0 (Some run) /\
    length (rr_chunks run) = 3%nat /\
    file_log (repeat tt (Z.to_nat 600000)) (read_cb_user_data (rr_cctx run))
      D /\
    zsum (chunk_sizes (rr_chunks run)) = Z.of_nat (length D) /\
    total_samples_read (rr_cctx run) = Z.of_nat (length D).
Proof.
  destruct (summary_chunk _ _ _ _ 2%nat _ live_run_summary eq_refl)
    as (run & rec & E & _ & _ & Len & _).
  destruct live_sizes as (H1 & H2 & H3).
  destruct (every_sample_transcribed_once engine 10%nat all_allocated
              live run Stream_test.file_read_cb
              (file_log (repeat tt (Z.to_nat 600000))) E eq_refl
              (file_read_cb_log _) live_log H1 H2 H3) as (D & L & T).
  exists run, D. split; [exact E|]. split; [exact Len|].
  split; [exact L|exact T].
Defined.

(** The segments of the live stream. *)
Lemma segments_within_chunk_windows_witness :
  exists run,
    whisper_stream_full engine 10 all_allocated live
      = Returned 0 (Some run) /\
    segment_times (rr_events run) = live_times /\
    Forall (fun p =>
              0 <= fst p < snd p /\
              snd p <= samples_to_cs (zsum (chunk_sizes (rr_chunks run))))
      (segment_times (rr_events run)).
Proof.
  destruct (summary_chunk _ _ _ _ 0%nat _ live_run_summary eq_refl)
    as (run & rec & E & _ & _ & _ & Ti).
  destruct live_sizes as (H1 & H2 & _).
  exists run. split; [exact E|]. split; [exact Ti|].
  apply (Forall_impl _ (fun p H => proj2 H)
           (segments_within_chunk_windows engine 10%nat all_allocated
              live 0 run E H1 H2)).
Defined.

(** A read of five samples when two are left. *)
Lemma file_read_cb_in_order_witness :
  file_log three_samples one_read [10] /\
  fst (fst (Stream_test.file_read_cb one_read 5))
    = Z.min 5 (Stream_test.n_samples one_read - Stream_test.pos one_read).
Proof.
  assert (L : file_log three_samples one_read [10])
    by (repeat split; computed).
  split; [exact L|].
  exact (proj1 (file_read_cb_in_order three_samples [10] one_read 5 L)).
Defined.

(** Filling the buffer of the short file up to 100 samples. *)
Lemma fill_read_buffer_post_witness :
  exists cctx' len e reads ud_last,
    fill_read_buffer (initial_cctx short_file Stream_test.file_read_cb) 100
      false = (cctx', len, e) /\
    reads_from (initial_cctx short_file Stream_test.file_read_cb) 100
      (read_cb_user_data (initial_cctx short_file Stream_test.file_read_cb))
      (read_buffer_len (initial_cctx short_file Stream_test.file_read_cb))
      reads ud_last /\
    len = read_buffer_len (initial_cctx short_file Stream_test.file_read_cb)
          + zsum (map fst reads) /\
    read_buffer_len cctx' = len.
Proof.
  destruct (fill_read_buffer
              (initial_cctx short_file Stream_test.file_read_cb) 100 false)
    as [[c len] e] eqn:E.
  destruct (fill_read_buffer_post _ _ _ _ _ E)
    as (reads & ud_last & R & L & B & _).
  exists c, len, e, reads, ud_last. split; [reflexivity|].
  split; [exact R|]. split; [exact L|exact B].
Defined.

(** Filling the buffer from the short file: all of it is read and the end
    is flagged. *)
Lemma fill_read_buffer_from_file_witness :
  exists cctx',
    fill_read_buffer (initial_cctx short_file Stream_test.file_read_cb)
      (buffer_size (initial_cctx short_file Stream_test.file_read_cb)) false
      = (cctx', 1600, true) /\
    Stream_test.pos (read_cb_user_data cctx') = 1600.
Proof.
  assert (B : read_buffer_len
                (initial_cctx short_file Stream_test.file_read_cb)
              <= buffer_size
                   (initial_cctx short_file Stream_test.file_read_cb))
    by computed.
  destruct (fill_read_buffer_from_file (repeat tt (Z.to_nat 1600)) []
              (initial_cctx short_file Stream_test.file_read_cb)
              eq_refl short_file_log B) as (c & E & P & _).
  exists c. split; [exact E|exact P].
Defined.

(** The short file is one chunk. *)
Lemma short_input_single_chunk_witness :
  exists fuel ret run rec,
    whisper_stream_full engine fuel all_allocated short_file
      = Returned ret (Some run) /\
    rr_chunks run = [rec] /\
    ci_chunk_samples (cr_info rec) = 1600 /\
    ci_time_offset (cr_info rec) = 0.
Proof.
  assert (U : read_callback_user_data short_file
              = Stream_test.mk_file_ctx (repeat tt (Z.to_nat 1600))
                  (Z.of_nat (length (repeat tt (Z.to_nat 1600)))) 0)
    by computed.
  assert (R : 0 < Z.of_nat (length (repeat tt (Z.to_nat 1600)))
              <= min_chunk_samples_of short_file) by (split; computed).
  assert (M : 0 < min_chunk_ms short_file) by computed.
  assert (O : 0 <= overlap_ms short_file < min_chunk_ms short_file)
    by (split; computed).
  assert (X : 0 <= chunk_extend_ms short_file) by computed.
  assert (D : durations_fit short_file) by (repeat split; computed).
  destruct (short_input_single_chunk engine all_allocated short_file
              (repeat tt (Z.to_nat 1600)) eq_refl U eq_refl eq_refl M O X D
              eq_refl R) as ((fuel & ret & run & E) & Q).
  destruct (Q fuel ret run E) as (rec & C & _ & Cs & _ & _ & T & _).
  exists fuel, ret, run, rec. split; [exact E|]. split; [exact C|].
  split; [exact Cs|exact T].
Defined.

(** The accented text. *)
Lemma jni_new_string_utf_lets_through_witness :
  Forall (fun b => 0 <= b < 256) accented /\
  (Jni_strings.jni_new_string_utf (Some accented) = Some accented
   <-> Jni_strings.passes accented).
Proof.
  assert (B : Forall (fun b => 0 <= b < 256) accented)
    by (repeat constructor; computed).
  split; [exact B|].
  exact (proj1 (jni_new_string_utf_lets_through accented B)).
Defined.

Lemma well_formed_utf8_passes_witness :
  Jni_strings.utf8_sequences accented /\
  Jni_strings.jni_new_string_utf (Some accented) = Some accented.
Proof.
  assert (U : Jni_strings.utf8_sequences accented).
  { apply Jni_strings.utf8_one; [split; computed|].
    apply (Jni_strings.utf8_many 195 1 [169] []);
      [reflexivity|reflexivity| |constructor].
    repeat constructor; computed. }
  split; [exact U|].
  exact (well_formed_utf8_passes accented U).
Defined.

Lemma jni_segment_callback_drops_witness :
  Forall (fun b => 0 <= b < 256) accented /\
  (false = false \/ ~ Jni_strings.passes accented \/ true = false <->
   Jni_strings.jni_segment_callback false 0 (fun _ => None) (fun _ => true)
     (fun _ => true) 0 150 (Some accented) = []).
Proof.
  assert (B : Forall (fun b => 0 <= b < 256) accented)
    by (repeat constructor; computed).
  split; [exact B|].
  exact (proj1 (jni_segment_callback_drops false 0 0 150 (fun _ => None)
                  (fun _ => true) (fun _ => true) accented B)).
Defined.

(** The queue of two commands. *)
Lemma command_queue_fifo_witness :
  Jni_queue.queue_of two_commands [1; 2] /\
  exists q',
    Jni_queue.dequeue_command two_commands = Some (Some 1, q') /\
    Jni_queue.queue_of q' [2].
Proof.
  split; [exact two_commands_queue|].
  destruct (command_queue_fifo two_commands [1; 2] two_commands_queue)
    as (_ & _ & q' & E & Q & _).
  exists q'. split; [exact E|exact Q].
Defined.

Lemma clear_command_queue_frees_all_witness :
  exists q',
    Jni_queue.clear_command_queue 3 two_commands true = Some (q', [1; 2]) /\
    Jni_queue.queue_head q' = None /\ Jni_queue.queue_tail q' = None /\
    Jni_queue.nodes q' 1 = None /\ Jni_queue.nodes q' 2 = None.
Proof.
  destruct (clear_command_queue_frees_all two_commands [1; 2] true
              two_commands_queue) as (q' & E & H & T & F & _).
  exists q'. split; [exact E|]. split; [exact H|]. split; [exact T|].
  split; apply F; cbn; auto.
Defined.

(** A start on the idle controller. *)
Lemma nativeStart_enqueues_witness :
  exists st1,
    Jni_worker.nativeStart (Some idle) 4 None false true true (Some 1)
      = Some (None, Some st1) /\
    Jni_queue.queue_of (Jni_worker.queue st1) [1].
Proof.
  destruct (nativeStart_enqueues idle [] 4 None false true true (Some 1)
              no_command_queue (fun p _ => eq_refl))
    as ([e|] & st1 & E & M).
  - exfalso. destruct M as (_ & [H|[(H & _)|H]]);
      [revert H; computed|apply H; reflexivity|discriminate].
  - destruct M as (_ & _ & _ & _ & _ & p & P & Q & _).
    injection P as <-. exists st1. split; [exact E|exact Q].
Defined.

(** One stop before the worker takes the first of the two commands. *)
Lemma stop_discards_queued_start_witness :
  exists st2,
    Jni_worker.worker_iteration lang_id_of mali [] 0
      (Nat.iter 1 Jni_worker.nativeStop busy)
      = Some (Jni_worker.Worker_ran st2 []) /\
    Jni_queue.queue_of (Jni_worker.queue st2) [2] /\
    Jni_queue.nodes (Jni_worker.queue st2) 1 = None.
Proof.
  assert (R : 0 <= Jni.session_id (Jni_worker.ctx busy) < 2 ^ 32)
    by (split; computed).
  assert (K : Z.of_nat 1 mod 2 ^ 32 <> 0) by computed.
  destruct (stop_discards_queued_start lang_id_of mali [] 0 busy 1 [2] start7
              1%nat two_commands_queue eq_refl eq_refl R eq_refl K)
    as (st2 & E & _ & Q & N).
  exists st2. split; [exact E|]. split; [exact Q|exact N].
Defined.

(** A load on the main slot. *)
Lemma load_model_notifies_once_witness :
  snd (Jni_worker.load_model mali idle load_request Jni_worker.SLOT_MAIN)
    = [Jni_worker.On_loaded 0 (Some "Mali-G78"%string)] /\
  exists st' events,
    Jni_worker.load_model mali idle load_request Jni_worker.SLOT_MAIN
      = (st', events) /\
    (length events <= 1)%nat /\
    (forall e, In (Jni_worker.Event e) events -> exists m, e = Jni.On_error m).
Proof.
  split; [computed|].
  destruct (load_model_notifies_once mali idle load_request
              Jni_worker.SLOT_MAIN (or_introl eq_refl))
    as (st' & events & E & L & H & _).
  exists st', events. split; [exact E|]. split; [exact L|exact H].
Defined.

(** Unloading the second model of the idle controller. *)
Lemma unload_second_model_witness :
  exists st1 st2,
    Jni_worker.nativeLoadSecondModel (Some idle) false None None false false
      false (Some 1) = Some (None, Some st1) /\
    Jni_worker.worker_iteration lang_id_of mali [] 0 st1
      = Some (Jni_worker.Worker_ran st2 []) /\
    Jni_worker.slot_ctx st2 Jni_worker.SLOT_SECOND = false.
Proof.
  destruct (unload_second_model lang_id_of mali [] 0 idle 1 false None false
              false false no_command_queue eq_refl eq_refl)
    as (st1 & st2 & E1 & E2 & S & _).
  exists st1, st2. split; [exact E1|]. split; [exact E2|exact S].
Defined.

(** The stream of a live start on the idle controller. *)
Lemma start_command_stream_witness :
  whisper_stream_full engine 10 all_allocated
    (Jni_start.start_stream_params 448 vad Stream_test.file_read_cb idle
       start7 (audio 1600)) <> Assertion_failed.
Proof.
  exact (proj1 (start_command_stream engine 10%nat all_allocated 448 vad
                  Stream_test.file_read_cb idle start7 (audio 1600) eq_refl)).
Defined.

(** The first 1024 samples of an empty buffer. *)
Lemma ensure_capacity_post_witness :
  exists ret d',
    Stream_decode.ensure_capacity 1024 (Stream_decode.mk_decode_ctx 0 0) 1024
      true = Some (ret, d') /\
    Stream_decode.sample_count d' = 0.
Proof.
  assert (C : 0 <= Stream_decode.sample_capacity
                     (Stream_decode.mk_decode_ctx 0 0) <= INT_MAX)
    by (split; computed).
  assert (T : INT_MIN <= Stream_decode.sample_count
                           (Stream_decode.mk_decode_ctx 0 0) + 1024
              <= 2 ^ 30) by (split; computed).
  assert (F : (Z.to_nat (Stream_decode.sample_count
                           (Stream_decode.mk_decode_ctx 0 0) + 1024)
               <= 1024)%nat) by (cbn; lia).
  destruct (proj1 (ensure_capacity_post 1024 (Stream_decode.mk_decode_ctx 0 0)
                     1024 true C T F)) as (ret & d' & E & S & _).
  exists ret, d'. split; [exact E|exact S].
Defined.

(** A load and a start on the idle controller. *)
Lemma load_then_start_witness :
  exists st1 st2,
    Jni_worker.nativeLoadModel (Some idle) true (Some "ggml-base.bin"%string)
      (Some "silero.bin"%string) true true true true (Some 1)
      = Some (None, Some st1) /\
    Jni_worker.nativeStart (Some st1) 4 None false true true (Some 2)
      = Some (None, Some st2).
Proof.
  assert (Ne : 1 <> 2) by computed.
  assert (Ge : 1 <= 4) by computed.
  destruct (load_then_start lang_id_of mali [] 0 idle 1 2 "ggml-base.bin"
              (Some "silero.bin"%string) true true 4 None false true
              no_command_queue eq_refl eq_refl eq_refl Ne Ge)
    as (st1 & st2 & _ & _ & E1 & E2 & _).
  exists st1, st2. split; [exact E1|exact E2].
Defined.

End More_instances.

